(* ===== verification/_CoqProject ===== *)
-Q . S2P
Prelude.v
Endian.v
CString.v
Value.v
Mincrypt.v
BsPatch.v
Hash.v
Zip.v
Verifier.v
KeyFile.v
Edify.v
FnTable.v
EdifyProps.v
ImgPatch.v
ZipExtract.v
Retouch.v
FileSystem.v
FreeCache.v
Partition.v
ApplyPatch.v
ApplyPatchProps.v
