(* ===== verification/Prelude.v ===== *)
(** * Verification of the update engine of PhilZ Touch Recovery

    The repository is an Android recovery (ClockworkMod with the PhilZ Touch
    extensions).  Its job is to install an update: check the signature of a package,
    open it as a zip archive, run the installation script inside it, and patch files
    and partitions of the device in such a way that an interrupted installation can be
    started again.  This library models that engine, translated by hand from the C
    sources under src/ into executable definitions, and proves what makes it correct.
    The user interface, the backup tool and the vendored libraries are not modelled.

    ** The program and the files that model it

    - [Prelude]: 32-bit integers as [Z] with their wrap-around ([u32], [s32], ...; the
      recovery is an ILP32 program), objects in memory as lists of bytes with checked
      accesses ([rd], [rd_bytes], [wr_bytes]), and the monad [outcome]: a C function
      returns ([Ret]), makes an access outside its objects ([Fault]) or exhausts the
      fuel of a loop ([Diverge]).  The tactics [words], [inv_ret] and [run_ret].
    - [Endian]: applypatch/utils.c and minzip/Bits.h.  [CString]: what is used of
      <string.h>, <stdlib.h> and <ctype.h>, and the order of strings.  [Value]: the
      values of edify/expr.h.  [Mincrypt]: libmincrypt (SHA-1, SHA-256, RSA), which is
      not part of the repository, as the interfaces [HashOps], [HashLaws], [RsaOps].
    - [BsPatch]: applypatch/bspatch.c, one iteration of the control loop [bs_step], the
      loop [bs_loop] and [ApplyBSDiffPatchMem]; libbz2 is the interface [BzOps] with the
      laws [BzLaws].  [ImgPatch]: applypatch/imgpatch.c chunk by chunk, and the part of
      applypatch/imgdiff.c that writes the container; zlib is [ZlibOps], [ZlibLaws].
    - [Hash]: minzip/Hash.c, the open-addressing table with tombstones.  [Zip]: the
      first half of minzip/Zip.c (finding and reading the central directory into a
      sorted array and a hash table, lookup).  [ZipExtract]: the second half (streaming
      an entry, CRC, buffers, files, recursive extraction); inflate is [InflateOps],
      [InflateLaws]; the calls on the file system are a trace of events.
    - [Verifier] and [KeyFile]: verifier.c, [verify_file] and [load_keys] with the part
      of fscanf that it uses.
    - [Edify], [FnTable], [EdifyProps]: edify/expr.c, the evaluator of the scripts, its
      table of functions and the theorems on it.  Functions that other programs register
      are a parameter of the evaluator.
    - [Retouch]: minelf/Retouch.c, which [LoadFileContents] calls before hashing a file.
    - [FileSystem]: the world of applypatch: files, the answers of the environment to the
      system calls to come, and the history of all file-system states; [triple] is a
      logic for properties of every state that a computation goes through.
    - [FreeCache]: applypatch/freecache.c.  [Partition], [ApplyPatch]: applypatch/applypatch.c.
      [GenerateTarget] is split as the code is: [make_room] (save and delete the source),
      [apply_round] (run the patch into the .patch file or into memory), [finish] (check
      the digest, rename, delete the copy), two rounds at most.  [ApplyPatchProps]: the
      theorems on it.

    The components meet where the code calls: [ApplyPatch] uses [BsPatch], [ImgPatch],
    [Retouch], [FreeCache] and [Partition]; [Verifier] and [Zip] are related by a theorem
    on the end-of-central-directory record that both look for; [Zip] uses [Hash].

    ** What the theorems show

    - Installing is safe and can be resumed ([ApplyPatchProps]): in every state that
      [applypatch] goes through while it patches a plain file with bsdiff patches, under
      any failures, the source is there, or its copy, or the result; from each of these
      states a run without failures completes; a further run changes nothing; the check
      before the update predicts its success.  Making room never deletes the copy
      ([FreeCache]); a partition write that reports success was verified ([Partition]).
    - Only signed packages are accepted, and the directory that is used is part of what
      was signed ([Verifier]); key files are read back as they were written ([KeyFile]).
    - Patches do what they say: [BsPatch] against the specification [bspatch_spec],
      [ImgPatch] against the meaning of its chunks, sizes and offsets included.
    - The archive code reads what is there: the hash table refines a finite map, opening
      reads the central directory, extraction delivers the contents of entries and
      extracts exactly the entries of a directory.
    - Scripts: evaluation ends in a value or a message, in order, and operators compute
      what they denote.
    - Error theorems: inputs on which the code does what it should not (arithmetic that
      wraps in range checks, ignored results, a hidden variable, a truncated copy).
      They are listed as findings beside the development.

    ** Fuel, bounds and parameters

    Loops that are not structural take fuel, and a theorem that says that a function
    returns says how much is enough: the size of the data plus a constant in [BsPatch]
    (a decompressor that makes progress delivers at least one byte a call), the length of
    the compressed and of the inflated data in [ZipExtract], the table size in [Hash],
    the length of the file in [Verifier] and [KeyFile].  Where the source allocates, the
    allocator is a parameter, so that failure is covered; reads of files and devices can
    fail or be short as the answers of the environment say.  Data that C leaves
    indeterminate (fresh memory, automatic objects) are parameters or arbitrary.

    ** Not modelled, and the plan

    Messages and progress reports; the release of memory and descriptors; fsync and the
    order in which a disk makes writes durable (the history is the order of the calls).
    The MTD driver library mtdutils is the interface [MtdOps] of [Partition]; it is the
    next component to be modelled, and its theorems are to discharge that interface.
    Then: the bootloader control block (bootloader.c) and the command protocol of
    recovery.c, the script functions of updater/install.c on top of [Edify] and
    [ApplyPatch], bsdiff.c and the chunk matching of imgdiff.c (a patch made by bsdiff
    applied by bspatch gives the new file), minzip/DirUtil.c, dedupe and digests.  The
    lexer and the parser of edify are generated from edify/lexer.l and edify/parser.y;
    the trees that they build are the [Expr] values of [Edify]. *)
From stdpp Require Export base tactics list strings gmap numbers.
From Stdlib Require Export ZArith Lia.
#[export] Set Default Goal Selector "!".

Declare Scope recovery_scope.
Delimit Scope recovery_scope with rec.
Open Scope Z_scope.

(** ** Machine integers

    The recovery image is an ILP32 program: [int], [long], [size_t],
    [ssize_t] and [off_t] are 32 bits wide, [long long] is 64.  A w-bit
    integer is a [Z] together with the wrap-around of its type. *)

Definition wrap_u (w z : Z) : Z := z mod 2 ^ w.
Definition wrap_s (w z : Z) : Z := (z + 2 ^ (w - 1)) mod 2 ^ w - 2 ^ (w - 1).

Definition u8 : Z -> Z := wrap_u 8.
Definition u16 : Z -> Z := wrap_u 16.
Definition u32 : Z -> Z := wrap_u 32.
Definition s32 : Z -> Z := wrap_s 32.
Definition u64 : Z -> Z := wrap_u 64.
Definition s64 : Z -> Z := wrap_s 64.

Definition INT_MAX : Z := 2147483647.
Definition INT_MIN : Z := -2147483648.

Abbreviation is_byte b := (0 <= b < 256).
Abbreviation bytes := (list Z).
Definition bytes_ok (l : bytes) : Prop := Forall (fun b => is_byte b) l.

Ltac unfold_words :=
  unfold u8, u16, u32, s32, u64, s64, wrap_u, wrap_s, INT_MAX, INT_MIN in *;
  change (2 ^ (32 - 1)) with 2147483648 in *;
  change (2 ^ 32) with 4294967296 in *;
  change (2 ^ (64 - 1)) with 9223372036854775808 in *;
  change (2 ^ 64) with 18446744073709551616 in *;
  change (2 ^ 16) with 65536 in *; change (2 ^ 8) with 256 in *.

Ltac words := unfold_words; Z.div_mod_to_equations; lia.

Lemma u8_range z : is_byte (u8 z).
Proof. words. Qed.
Lemma u8_small z : is_byte z -> u8 z = z.
Proof. intros; unfold_words; by rewrite Z.mod_small by lia. Qed.
Lemma u32_range z : 0 <= u32 z < 2 ^ 32.
Proof. words. Qed.
Lemma u32_small z : 0 <= z < 2 ^ 32 -> u32 z = z.
Proof. intros; unfold_words; by rewrite Z.mod_small by lia. Qed.
Lemma s32_range z : INT_MIN <= s32 z <= INT_MAX.
Proof. words. Qed.
Lemma s32_small z : INT_MIN <= z <= INT_MAX -> s32 z = z.
Proof. intros; unfold_words; rewrite Z.mod_small by lia; lia. Qed.
Lemma s32_u32 z : s32 (u32 z) = s32 z.
Proof. unfold_words. by rewrite Zplus_mod_idemp_l. Qed.
Lemma u32_s32 z : u32 (s32 z) = u32 z.
Proof. words. Qed.
Lemma s32_s32 z : s32 (s32 z) = s32 z.
Proof. apply s32_small, s32_range. Qed.
Lemma u32_u32 z : u32 (u32 z) = u32 z.
Proof. apply u32_small, u32_range. Qed.

(** Congruence rules of the wrap-around, used to move casts outwards. *)
Lemma s32_add_l a b : s32 (s32 a + b) = s32 (a + b).
Proof. words. Qed.
Lemma u32_add_l a b : u32 (u32 a + b) = u32 (a + b).
Proof. unfold_words. by rewrite Zplus_mod_idemp_l. Qed.
Lemma u32_add_r a b : u32 (a + u32 b) = u32 (a + b).
Proof. unfold_words. by rewrite Zplus_mod_idemp_r. Qed.

(** ** Outcomes of a C computation

    [Ret a] is a normal return.  [Fault] is an access outside the object
    that is addressed, a failed assertion or a dereference of NULL: what
    the language leaves undefined.  [Diverge] is the result of a loop whose
    fuel is used up. *)

Inductive outcome (A : Type) : Type :=
| Ret (a : A)
| Fault
| Diverge.
Arguments Ret {A} a.
Arguments Fault {A}.
Arguments Diverge {A}.

#[export] Instance outcome_ret : MRet outcome := fun A a => Ret a.
#[export] Instance outcome_bind : MBind outcome := fun A B f m =>
  match m with Ret a => f a | Fault => Fault | Diverge => Diverge end.

Definition is_Ret {A} (m : outcome A) : Prop := exists a, m = Ret a.

Lemma bind_Ret {A B} (m : outcome A) (f : A -> outcome B) b :
  m ≫= f = Ret b <-> exists a, m = Ret a /\ f a = Ret b.
Proof.
  split.
  - destruct m as [a| |]; simpl; try discriminate. intros; by exists a.
  - by intros (a & -> & ?).
Qed.

Lemma bind_assoc_outcome {A B C} (m : outcome A) (f : A -> outcome B) (g : B -> outcome C) :
  (m ≫= f) ≫= g = m ≫= (fun a => f a ≫= g).
Proof. by destruct m. Qed.

(** Split a hypothesis [m ≫= f = Ret b] and repeat on its parts. *)
Ltac inv_ret :=
  repeat match goal with
    | H : Ret _ = Ret _ |- _ => injection H; clear H; intros; subst
    | H : mret _ = Ret _ |- _ => injection H; clear H; intros; subst
    | H : Fault = Ret _ |- _ => discriminate H
    | H : Diverge = Ret _ |- _ => discriminate H
    | H : _ ≫= _ = Ret _ |- _ =>
        let a := fresh "r" in let E := fresh "E" in
        apply bind_Ret in H as (a & E & H); cbv beta in H
    end.

(** Follow one normal run: bind, pair patterns and conditionals. *)
Ltac run_ret :=
  repeat first
    [ progress inv_ret
    | match goal with
      | H : (let '(_, _) := ?p in _) = Ret _ |- _ => destruct p eqn:?
      | H : (if ?c then _ else _) = Ret _ |- _ => destruct c eqn:?
      end ]; try discriminate.

(** ** Objects in memory

    An object is the list of its bytes; an address inside it is an offset.
    An access that leaves the object is a [Fault]. *)

Definition len (l : bytes) : Z := Z.of_nat (length l).

Definition slice (l : bytes) (off n : Z) : bytes :=
  take (Z.to_nat n) (drop (Z.to_nat off) l).

Definition in_range (l : bytes) (off n : Z) : bool :=
  (0 <=? off) && (0 <=? n) && (off + n <=? len l).

Definition rd (l : bytes) (i : Z) : outcome Z :=
  if (0 <=? i) && (i <? len l) then
    match l !! Z.to_nat i with Some b => Ret b | None => Fault end
  else Fault.

Definition rd_bytes (l : bytes) (off n : Z) : outcome bytes :=
  if in_range l off n then Ret (slice l off n) else Fault.

Definition splice (l : bytes) (off : Z) (src : bytes) : bytes :=
  take (Z.to_nat off) l ++ src ++ drop (Z.to_nat off + length src) l.

Definition wr_bytes (l : bytes) (off : Z) (src : bytes) : outcome bytes :=
  if in_range l off (len src) then Ret (splice l off src) else Fault.

Lemma len_nonneg l : 0 <= len l.
Proof. unfold len; lia. Qed.
Lemma len_app l k : len (l ++ k) = len l + len k.
Proof. unfold len. rewrite length_app. lia. Qed.
Lemma len_cons x l : len (x :: l) = 1 + len l.
Proof. unfold len. simpl. lia. Qed.
Lemma len_nil : len [] = 0.
Proof. done. Qed.
Lemma len_take n l : 0 <= n <= len l -> len (take (Z.to_nat n) l) = n.
Proof. unfold len. intros. rewrite length_take. lia. Qed.
Lemma len_drop n l : 0 <= n <= len l -> len (drop (Z.to_nat n) l) = len l - n.
Proof. unfold len. intros. rewrite length_drop. lia. Qed.
Lemma len_replicate n x : len (replicate n x) = Z.of_nat n.
Proof. unfold len. by rewrite length_replicate. Qed.

Lemma in_range_true l off n :
  in_range l off n = true <-> 0 <= off /\ 0 <= n /\ off + n <= len l.
Proof. unfold in_range. rewrite !andb_true_iff, !Z.leb_le. tauto. Qed.

Lemma len_slice l off n : 0 <= off -> 0 <= n -> off + n <= len l -> len (slice l off n) = n.
Proof. intros. unfold slice. rewrite len_take; [done|]. rewrite len_drop; lia. Qed.

Lemma len_splice l off src :
  0 <= off -> off + len src <= len l -> len (splice l off src) = len l.
Proof.
  unfold splice, len. intros. rewrite !length_app, length_take, length_drop. lia.
Qed.

Lemma rd_Ret l i b : rd l i = Ret b <-> 0 <= i /\ l !! Z.to_nat i = Some b.
Proof.
  unfold rd. destruct (Z.leb_spec 0 i); [|naive_solver lia]. cbn [andb].
  destruct (Z.ltb_spec i (len l)).
  - destruct (l !! Z.to_nat i); naive_solver.
  - split; [done|]. intros [_ Hi%lookup_lt_Some]. unfold len in *. lia.
Qed.

Lemma rd_ok l i : 0 <= i < len l -> exists b, rd l i = Ret b /\ l !! Z.to_nat i = Some b.
Proof.
  intros [? Hi]. unfold len in Hi.
  destruct (lookup_lt_is_Some_2 l (Z.to_nat i)) as [b Hb]; [lia|].
  exists b. rewrite rd_Ret. auto.
Qed.

Lemma rd_bytes_ok l off n :
  0 <= off -> 0 <= n -> off + n <= len l -> rd_bytes l off n = Ret (slice l off n).
Proof. intros. unfold rd_bytes. by rewrite (proj2 (in_range_true l off n)). Qed.

Lemma rd_bytes_Ret l off n r :
  rd_bytes l off n = Ret r <-> 0 <= off /\ 0 <= n /\ off + n <= len l /\ r = slice l off n.
Proof.
  unfold rd_bytes. destruct (in_range l off n) eqn:E.
  - apply in_range_true in E. naive_solver.
  - split; [done|]. intros (?&?&?&?).
    assert (in_range l off n = true) by (apply in_range_true; auto). congruence.
Qed.

Lemma wr_bytes_ok l off src :
  0 <= off -> off + len src <= len l -> wr_bytes l off src = Ret (splice l off src).
Proof.
  intros. unfold wr_bytes. rewrite (proj2 (in_range_true l off (len src))); [done|].
  pose proof (len_nonneg src). lia.
Qed.

Lemma wr_bytes_Ret l off src r :
  wr_bytes l off src = Ret r <->
  0 <= off /\ off + len src <= len l /\ r = splice l off src.
Proof.
  unfold wr_bytes. destruct (in_range l off (len src)) eqn:E.
  - apply in_range_true in E. naive_solver.
  - split; [done|]. intros (?&?&?). pose proof (len_nonneg src).
    assert (in_range l off (len src) = true) by (apply in_range_true; auto). congruence.
Qed.

Lemma slice_all l : slice l 0 (len l) = l.
Proof. unfold slice, len. simpl. rewrite drop_0, Nat2Z.id. by apply firstn_all. Qed.

Lemma slice_app_r l k off n :
  off = len l -> slice (l ++ k) off n = take (Z.to_nat n) k.
Proof.
  intros ->. unfold slice, len. rewrite Nat2Z.id.
  by rewrite drop_app_length.
Qed.

Lemma bytes_ok_app l k : bytes_ok (l ++ k) <-> bytes_ok l /\ bytes_ok k.
Proof. apply Forall_app. Qed.
Lemma bytes_ok_take n l : bytes_ok l -> bytes_ok (take n l).
Proof. apply Forall_take. Qed.
Lemma bytes_ok_drop n l : bytes_ok l -> bytes_ok (drop n l).
Proof. apply Forall_drop. Qed.
Lemma bytes_ok_lookup l i b : bytes_ok l -> l !! i = Some b -> is_byte b.
Proof. intros H ?. unfold bytes_ok in H. rewrite Forall_lookup in H. eauto. Qed.

Definition bytes_okb (l : bytes) : bool := forallb (fun b => (0 <=? b) && (b <? 256)) l.
Lemma bytes_okb_ok l : bytes_okb l = true -> bytes_ok l.
Proof.
  unfold bytes_okb. rewrite forallb_forall. intros H. apply Forall_forall. intros b Hb.
  apply H, andb_true_iff in Hb as [?%Z.leb_le ?%Z.ltb_lt]. lia.
Qed.

(** ** Little-endian integers *)

Fixpoint le_val (l : bytes) : Z :=
  match l with [] => 0 | b :: r => b + 256 * le_val r end.

Fixpoint le_enc (n : nat) (v : Z) : bytes :=
  match n with O => [] | S n => (v mod 256) :: le_enc n (v / 256) end.

Lemma length_le_enc n v : length (le_enc n v) = n.
Proof. revert v; induction n; simpl; auto. Qed.
Lemma len_le_enc n v : len (le_enc n v) = Z.of_nat n.
Proof. unfold len. by rewrite length_le_enc. Qed.

Lemma le_enc_ok n v : bytes_ok (le_enc n v).
Proof.
  revert v; induction n as [|n IH]; intros v; simpl; constructor; [|apply IH].
  apply Z.mod_pos_bound; lia.
Qed.

Lemma le_val_enc n v : le_val (le_enc n v) = v mod 2 ^ (8 * Z.of_nat n).
Proof.
  revert v; induction n as [|n IH]; intros v.
  - simpl. by rewrite Z.mod_1_r.
  - cbn [le_enc le_val]. rewrite IH.
    replace (8 * Z.of_nat (S n)) with (8 + 8 * Z.of_nat n) by lia.
    rewrite Z.pow_add_r by lia. change (2 ^ 8) with 256.
    rewrite Z.rem_mul_r by lia. lia.
Qed.

Lemma le_val_range l : bytes_ok l -> 0 <= le_val l < 2 ^ (8 * len l).
Proof.
  induction 1 as [|b l Hb _ IH]; [rewrite len_nil; simpl; lia|].
  rewrite len_cons. pose proof (len_nonneg l).
  replace (8 * (1 + len l)) with (8 + 8 * len l) by lia.
  rewrite Z.pow_add_r by lia. change (2 ^ 8) with 256. cbn [le_val].
  revert IH. generalize (2 ^ (8 * len l)) (le_val l). intros; lia.
Qed.

Lemma le_enc_val l : bytes_ok l -> le_enc (length l) (le_val l) = l.
Proof.
  induction 1 as [|b l Hb _ IH]; [done|]. cbn [length le_enc le_val].
  replace ((b + 256 * le_val l) mod 256) with b
    by (rewrite Z.mul_comm, Z.mod_add, Z.mod_small; lia).
  replace ((b + 256 * le_val l) / 256) with (le_val l)
    by (rewrite Z.mul_comm, Z.div_add, Z.div_small; lia).
  by rewrite IH.
Qed.

(** A shift by a byte position is a multiplication; an [or] of disjoint bit
    fields is a sum. *)
Lemma shiftl_mul a n : 0 <= n -> Z.shiftl a n = a * 2 ^ n.
Proof. apply Z.shiftl_mul_pow2. Qed.

Lemma lor_disjoint a b n :
  0 <= n -> 0 <= b < 2 ^ n -> Z.lor (a * 2 ^ n) b = a * 2 ^ n + b.
Proof.
  intros Hn Hb. destruct (Z.eq_dec b 0) as [->|Hb0]; [by rewrite Z.lor_0_r, Z.add_0_r|].
  assert (Z.land (a * 2 ^ n) b = 0) as Hland.
  - apply Z.bits_inj'; intros i Hi. rewrite Z.land_spec, Z.bits_0.
    destruct (Z.lt_ge_cases i n).
    + rewrite Z.mul_pow2_bits_low by lia. done.
    + rewrite (Z.bits_above_log2 b i); [by rewrite andb_false_r|lia|].
      apply Z.log2_lt_pow2; [lia|]. eapply Z.lt_le_trans; [apply Hb|].
      apply Z.pow_le_mono_r; lia.
  - symmetry. rewrite Z.add_nocarry_lxor by done. by rewrite Z.lxor_lor.
Qed.

(** Reading [n] consecutive bytes one by one sees the bytes of the slice. *)
Lemma slice_cons l off n b :
  0 <= off -> 0 < n -> l !! Z.to_nat off = Some b ->
  slice l off n = b :: slice l (off + 1) (n - 1).
Proof.
  intros ? ? Hb. unfold slice.
  rewrite (drop_S l b (Z.to_nat off) Hb).
  replace (Z.to_nat n) with (S (Z.to_nat (n - 1))) by lia.
  replace (Z.to_nat (off + 1)) with (S (Z.to_nat off)) by lia. done.
Qed.

Lemma slice_lookup l off n (i : nat) :
  0 <= off -> Z.of_nat i < n -> slice l off n !! i = l !! Z.to_nat (off + Z.of_nat i).
Proof.
  intros. unfold slice. rewrite lookup_take_lt by lia. rewrite lookup_drop.
  f_equal. lia.
Qed.

Lemma slice_bytes_ok l off n : bytes_ok l -> bytes_ok (slice l off n).
Proof. intros. by apply bytes_ok_take, bytes_ok_drop. Qed.

(** A read at [off + k] looks into the slice [off, off + n). *)
Lemma rd_slice l off n k b :
  0 <= off -> 0 <= k < n -> slice l off n !! Z.to_nat k = Some b -> rd l (off + k) = Ret b.
Proof.
  intros ? ? Hs. rewrite slice_lookup in Hs by lia. apply rd_Ret.
  split; [lia|]. rewrite <- Hs. f_equal. lia.
Qed.

(** A read inside the middle part of a concatenation. *)
Lemma rd_mid pre mid post k b :
  0 <= k -> mid !! Z.to_nat k = Some b -> rd (pre ++ mid ++ post) (len pre + k) = Ret b.
Proof.
  intros ? Hm. apply rd_Ret. pose proof (len_nonneg pre). split; [lia|].
  unfold len. rewrite Z2Nat.inj_add, Nat2Z.id by lia.
  rewrite lookup_app_r by lia. replace (length pre + Z.to_nat k - length pre)%nat
    with (Z.to_nat k) by lia.
  rewrite lookup_app_l; [done|]. by apply lookup_lt_Some in Hm.
Qed.

(** A write that replaces the middle part of a concatenation. *)
Lemma wr_bytes_mid pre mid post off src :
  off = len pre -> length src = length mid ->
  wr_bytes (pre ++ mid ++ post) off src = Ret (pre ++ src ++ post).
Proof.
  intros -> Hl. apply wr_bytes_Ret. pose proof (len_nonneg pre). pose proof (len_nonneg post).
  split; [done|]. split.
  - rewrite !len_app. unfold len in *. lia.
  - unfold splice, len. rewrite Nat2Z.id, take_app_length. do 2 f_equal.
    rewrite Hl, <- length_app, app_assoc. by rewrite drop_app_length.
Qed.

Lemma len_0_nil l : len l = 0 -> l = [].
Proof. destruct l; [done|]. rewrite len_cons. pose proof (len_nonneg l). lia. Qed.

Lemma drop_drop_Z n m (l : bytes) : 0 <= n -> 0 <= m ->
  drop (Z.to_nat m) (drop (Z.to_nat n) l) = drop (Z.to_nat (n + m)) l.
Proof. intros. rewrite drop_drop. f_equal. lia. Qed.
