(* ===== verification/Endian.v ===== *)
(** Little-endian accessors: [applypatch/utils.c] (Read2, Read4, Read8, Write4,
    Write8) and the [get2LE]/[get4LE] readers of [minzip/Bits.h]. *)
From S2P Require Import Prelude.

(** ** Readers *)

(** [int Read2(void* pv)] *)
Definition Read2 (p : bytes) (off : Z) : outcome Z :=
  p1 ← rd p (off + 1); p0 ← rd p (off + 0);
  Ret (s32 (Z.lor (Z.shiftl p1 8) p0)).

(** [int Read4(void* pv)] *)
Definition Read4 (p : bytes) (off : Z) : outcome Z :=
  p3 ← rd p (off + 3); p2 ← rd p (off + 2); p1 ← rd p (off + 1); p0 ← rd p (off + 0);
  Ret (s32 (Z.lor (Z.lor (Z.lor (Z.shiftl p3 24) (Z.shiftl p2 16)) (Z.shiftl p1 8)) p0)).

(** [long long Read8(void* pv)] *)
Definition Read8 (p : bytes) (off : Z) : outcome Z :=
  p7 ← rd p (off + 7); p6 ← rd p (off + 6); p5 ← rd p (off + 5); p4 ← rd p (off + 4);
  p3 ← rd p (off + 3); p2 ← rd p (off + 2); p1 ← rd p (off + 1); p0 ← rd p (off + 0);
  Ret (s64 (Z.lor (Z.lor (Z.lor (Z.lor (Z.lor (Z.lor (Z.lor
    (Z.shiftl p7 56) (Z.shiftl p6 48)) (Z.shiftl p5 40)) (Z.shiftl p4 32))
    (Z.shiftl p3 24)) (Z.shiftl p2 16)) (Z.shiftl p1 8)) p0)).

(** [unsigned short get2LE(unsigned char const* pSrc)] *)
Definition get2LE (p : bytes) (off : Z) : outcome Z :=
  p0 ← rd p (off + 0); p1 ← rd p (off + 1);
  Ret (u16 (Z.lor p0 (Z.shiftl p1 8))).

(** [unsigned int get4LE(unsigned char const* pSrc)] *)
Definition get4LE (p : bytes) (off : Z) : outcome Z :=
  p0 ← rd p (off + 0); p1 ← rd p (off + 1); p2 ← rd p (off + 2); p3 ← rd p (off + 3);
  Ret (u32 (Z.lor (Z.lor (Z.lor p0 (Z.shiftl p1 8)) (Z.shiftl p2 16)) (Z.shiftl p3 24))).

(** ** Writers: the bytes handed to [fputc], in order *)

Definition fputc_byte (value shift : Z) : Z := Z.land (Z.shiftr value shift) 255.

(** [void Write4(int value, FILE* f)] *)
Definition Write4 (value : Z) : bytes := fputc_byte value <$> [0; 8; 16; 24].

(** [void Write8(long long value, FILE* f)] *)
Definition Write8 (value : Z) : bytes :=
  fputc_byte value <$> [0; 8; 16; 24; 32; 40; 48; 56].

(** ** Correctness *)

Section slices.
Context (p : bytes) (off : Z) (Hoff : 0 <= off).

Lemma slice_two :
  off + 2 <= len p -> exists b0 b1,
  slice p off 2 = [b0; b1] /\ rd p (off + 0) = Ret b0 /\ rd p (off + 1) = Ret b1.
Proof.
  intros H.
  destruct (rd_ok p (off + 0)) as (b0 & R0 & L0); [lia|].
  destruct (rd_ok p (off + 1)) as (b1 & R1 & L1); [lia|].
  exists b0, b1. rewrite R0, R1. split; [|done].
  rewrite Z.add_0_r in L0.
  rewrite (slice_cons p off 2 b0), (slice_cons p (off + 1) (2 - 1) b1) by (done || lia).
  unfold slice. by rewrite take_0.
Qed.

Lemma slice_four :
  off + 4 <= len p -> exists b0 b1 b2 b3,
  slice p off 4 = [b0; b1; b2; b3] /\ rd p (off + 0) = Ret b0 /\ rd p (off + 1) = Ret b1
  /\ rd p (off + 2) = Ret b2 /\ rd p (off + 3) = Ret b3.
Proof.
  intros H.
  destruct (rd_ok p (off + 0)) as (b0 & R0 & L0); [lia|].
  destruct (rd_ok p (off + 1)) as (b1 & R1 & L1); [lia|].
  destruct (rd_ok p (off + 2)) as (b2 & R2 & L2); [lia|].
  destruct (rd_ok p (off + 3)) as (b3 & R3 & L3); [lia|].
  exists b0, b1, b2, b3. rewrite R0, R1, R2, R3. split; [|done].
  rewrite Z.add_0_r in L0.
  rewrite (slice_cons p off 4 b0), (slice_cons p (off + 1) (4 - 1) b1),
    (slice_cons p (off + 1 + 1) (4 - 1 - 1) b2),
    (slice_cons p (off + 1 + 1 + 1) (4 - 1 - 1 - 1) b3)
    by (lia || (rewrite <- ?Z.add_assoc; done)).
  unfold slice. by rewrite take_0.
Qed.
End slices.

(** The value of a big-endian [or] chain is the little-endian sum. *)
Lemma or2_sum b0 b1 : is_byte b0 -> is_byte b1 ->
  Z.lor (Z.shiftl b1 8) b0 = le_val [b0; b1].
Proof.
  intros. rewrite shiftl_mul, lor_disjoint by (change (2 ^ 8) with 256; lia).
  cbn [le_val]. change (2 ^ 8) with 256. lia.
Qed.

Lemma or4_sum b0 b1 b2 b3 :
  is_byte b0 -> is_byte b1 -> is_byte b2 -> is_byte b3 ->
  Z.lor (Z.lor (Z.lor (Z.shiftl b3 24) (Z.shiftl b2 16)) (Z.shiftl b1 8)) b0
  = le_val [b0; b1; b2; b3].
Proof.
  intros. rewrite <- !Z.lor_assoc, (or2_sum b0 b1) by done.
  rewrite !shiftl_mul by lia. cbn [le_val].
  rewrite (lor_disjoint b2) by (change (2 ^ 16) with 65536; lia).
  rewrite lor_disjoint
    by (change (2 ^ 16) with 65536; change (2 ^ 24) with 16777216; lia).
  change (2 ^ 16) with 65536; change (2 ^ 24) with 16777216. lia.
Qed.

Lemma Read4_spec p off :
  bytes_ok p -> 0 <= off -> off + 4 <= len p ->
  Read4 p off = Ret (s32 (le_val (slice p off 4))).
Proof.
  intros Hp Ho Hl. destruct (slice_four p off Ho Hl) as (b0&b1&b2&b3&Hs&R0&R1&R2&R3).
  pose proof (slice_bytes_ok p off 4 Hp) as Hb. rewrite Hs in Hb |- *.
  unfold bytes_ok in Hb. rewrite !Forall_cons_iff in Hb.
  unfold Read4. rewrite R0, R1, R2, R3. simpl mbind.
  by rewrite or4_sum by tauto.
Qed.

Lemma get4LE_spec p off :
  bytes_ok p -> 0 <= off -> off + 4 <= len p ->
  get4LE p off = Ret (le_val (slice p off 4)).
Proof.
  intros Hp Ho Hl. destruct (slice_four p off Ho Hl) as (b0&b1&b2&b3&Hs&R0&R1&R2&R3).
  pose proof (slice_bytes_ok p off 4 Hp) as Hb. rewrite Hs in Hb |- *.
  unfold bytes_ok in Hb. rewrite !Forall_cons_iff in Hb.
  unfold get4LE. rewrite R0, R1, R2, R3. simpl mbind.
  rewrite (Z.lor_comm _ (Z.shiftl b3 24)), (Z.lor_comm _ (Z.shiftl b2 16)), (Z.lor_comm b0),
    !Z.lor_assoc, or4_sum by tauto.
  rewrite u32_small; [done|].
  pose proof (le_val_range [b0; b1; b2; b3]) as Hr. rewrite !len_cons, len_nil in Hr.
  change (8 * _) with 32 in Hr. apply Hr. unfold bytes_ok. rewrite !Forall_cons_iff. tauto.
Qed.

Lemma get2LE_spec p off :
  bytes_ok p -> 0 <= off -> off + 2 <= len p ->
  get2LE p off = Ret (le_val (slice p off 2)).
Proof.
  intros Hp Ho Hl. destruct (slice_two p off Ho Hl) as (b0&b1&Hs&R0&R1).
  pose proof (slice_bytes_ok p off 2 Hp) as Hb. rewrite Hs in Hb |- *.
  unfold bytes_ok in Hb. rewrite !Forall_cons_iff in Hb.
  unfold get2LE. rewrite R0, R1. simpl mbind.
  rewrite Z.lor_comm, or2_sum by tauto. cbn [le_val]. f_equal. words.
Qed.

Lemma Read8_split p off :
  bytes_ok p -> 0 <= off -> off + 8 <= len p ->
  Read8 p off = Ret (s64 (le_val (slice p off 4) + 2 ^ 32 * le_val (slice p (off + 4) 4))).
Proof.
  intros Hp Ho Hl.
  destruct (slice_four p off Ho) as (b0&b1&b2&b3&Hs&R0&R1&R2&R3); [lia|].
  destruct (slice_four p (off + 4)) as (b4&b5&b6&b7&Hs'&R4&R5&R6&R7); [lia..|].
  pose proof (slice_bytes_ok p off 4 Hp) as Hb. rewrite Hs in Hb |- *.
  pose proof (slice_bytes_ok p (off + 4) 4 Hp) as Hb'. rewrite Hs' in Hb' |- *.
  unfold bytes_ok in Hb, Hb'. rewrite !Forall_cons_iff in Hb, Hb'.
  unfold Read8.
  replace (off + 4 + 3) with (off + 7) in R7 by lia.
  replace (off + 4 + 2) with (off + 6) in R6 by lia.
  replace (off + 4 + 1) with (off + 5) in R5 by lia. rewrite Z.add_0_r in R4.
  rewrite R7, R6, R5, R4, R3, R2, R1, R0. simpl mbind. do 2 f_equal.
  rewrite <- !Z.lor_assoc, (Z.lor_assoc (Z.shiftl b3 24)), (Z.lor_assoc _ (Z.shiftl b1 8)), or4_sum by tauto.
  replace (Z.shiftl b7 56) with (Z.shiftl (Z.shiftl b7 24) 32) by (rewrite Z.shiftl_shiftl; [done|lia]).
  replace (Z.shiftl b6 48) with (Z.shiftl (Z.shiftl b6 16) 32) by (rewrite Z.shiftl_shiftl; [done|lia]).
  replace (Z.shiftl b5 40) with (Z.shiftl (Z.shiftl b5 8) 32) by (rewrite Z.shiftl_shiftl; [done|lia]).
  rewrite !Z.lor_assoc, <- !Z.shiftl_lor, or4_sum by tauto.
  rewrite shiftl_mul by lia. rewrite lor_disjoint; [lia|lia|].
  pose proof (le_val_range [b0; b1; b2; b3]) as Hr. rewrite !len_cons, len_nil in Hr.
  change (8 * _) with 32 in Hr. apply Hr. unfold bytes_ok. rewrite !Forall_cons_iff. tauto.
Qed.

Lemma le_val_app l k : le_val (l ++ k) = le_val l + 2 ^ (8 * len l) * le_val k.
Proof.
  induction l as [|b l IH]; cbn [app le_val]; [rewrite len_nil; cbn [Z.mul Z.pow]; lia|].
  rewrite IH, len_cons. pose proof (len_nonneg l).
  replace (8 * (1 + len l)) with (8 + 8 * len l) by lia.
  rewrite Z.pow_add_r by lia. change (2 ^ 8) with 256. lia.
Qed.

Lemma slice_split l off n m :
  0 <= off -> 0 <= n -> 0 <= m -> slice l off (n + m) = slice l off n ++ slice l (off + n) m.
Proof.
  intros. unfold slice. rewrite Z2Nat.inj_add, Z2Nat.inj_add by lia.
  rewrite <- drop_drop. rewrite <- (take_drop (Z.to_nat n) (drop (Z.to_nat off) l)) at 1.
  rewrite take_app. rewrite length_take.
  destruct (decide (Z.to_nat n <= length (drop (Z.to_nat off) l))%nat).
  - rewrite Nat.min_l by done. rewrite take_take, Nat.min_r by lia. do 2 f_equal. lia.
  - rewrite (drop_ge (drop _ l)) by lia. rewrite !take_nil, !app_nil_r.
    rewrite take_take. f_equal. lia.
Qed.

Lemma Read8_spec p off :
  bytes_ok p -> 0 <= off -> off + 8 <= len p ->
  Read8 p off = Ret (s64 (le_val (slice p off 8))).
Proof.
  intros. rewrite Read8_split by done.
  pose proof (slice_split p off 4 4) as Hs. change (4 + 4) with 8 in Hs. rewrite Hs by lia.
  rewrite le_val_app, len_slice by lia. done.
Qed.

Lemma fputc_byte_div v s : 0 <= s -> fputc_byte v s = (v / 2 ^ s) mod 256.
Proof.
  intros. unfold fputc_byte. rewrite Z.shiftr_div_pow2 by lia.
  change 255 with (Z.ones 8). by rewrite Z.land_ones.
Qed.

Lemma Write4_le v : Write4 v = le_enc 4 v.
Proof.
  unfold Write4. cbn [fmap list_fmap le_enc]. rewrite !fputc_byte_div by lia.
  rewrite !Z.div_div by lia. by rewrite Z.div_1_r.
Qed.
Lemma Write8_le v : Write8 v = le_enc 8 v.
Proof.
  unfold Write8. cbn [fmap list_fmap le_enc]. rewrite !fputc_byte_div by lia.
  rewrite !Z.div_div by lia. by rewrite Z.div_1_r.
Qed.

(** Accessing a field that was placed between [pre] and [post]. *)
Lemma slice_mid pre mid post off n :
  off = len pre -> n = len mid -> slice (pre ++ mid ++ post) off n = mid.
Proof.
  intros -> ->. rewrite slice_app_r by done. unfold len. rewrite Nat2Z.id.
  apply take_app_length.
Qed.

Lemma Read4_Write4_at pre v post :
  bytes_ok pre -> bytes_ok post ->
  Read4 (pre ++ Write4 v ++ post) (len pre) = Ret (s32 v).
Proof.
  intros. rewrite Write4_le. pose proof (len_nonneg pre). pose proof (len_nonneg post).
  rewrite Read4_spec.
  - rewrite slice_mid by (done || by rewrite len_le_enc).
    rewrite le_val_enc. change (8 * Z.of_nat 4) with 32.
    f_equal. apply (s32_u32 v).
  - rewrite !bytes_ok_app. auto using le_enc_ok.
  - done.
  - rewrite !len_app, len_le_enc. lia.
Qed.

Lemma Read8_Write8_at pre v post :
  bytes_ok pre -> bytes_ok post ->
  Read8 (pre ++ Write8 v ++ post) (len pre) = Ret (s64 v).
Proof.
  intros. rewrite Write8_le. pose proof (len_nonneg pre). pose proof (len_nonneg post).
  rewrite Read8_spec.
  - rewrite slice_mid by (done || by rewrite len_le_enc).
    rewrite le_val_enc. change (8 * Z.of_nat 8) with 64. f_equal.
    unfold_words. by rewrite Zplus_mod_idemp_l.
  - rewrite !bytes_ok_app. auto using le_enc_ok.
  - done.
  - rewrite !len_app, len_le_enc. lia.
Qed.

Lemma get4LE_ok p off :
  bytes_ok p -> 0 <= off -> off + 4 <= len p -> exists v, get4LE p off = Ret v /\ 0 <= v < 2 ^ 32.
Proof.
  intros Hp ? ?. exists (le_val (slice p off 4)). split; [by apply get4LE_spec|].
  pose proof (le_val_range _ (slice_bytes_ok p off 4 Hp)) as Hr.
  by rewrite len_slice in Hr by lia.
Qed.

Lemma get2LE_ok p off :
  bytes_ok p -> 0 <= off -> off + 2 <= len p -> exists v, get2LE p off = Ret v /\ 0 <= v < 2 ^ 16.
Proof.
  intros Hp ? ?. exists (le_val (slice p off 2)). split; [by apply get2LE_spec|].
  pose proof (le_val_range _ (slice_bytes_ok p off 2 Hp)) as Hr.
  by rewrite len_slice in Hr by lia.
Qed.
