(* ===== verification/CString.v ===== *)
(** Strings of C: white space, digits, and numbers read from and written to text.
    What the key file parser and the script language use of <ctype.h>, <stdlib.h> and
    <string.h>. *)
From S2P Require Import Prelude.

Definition isspace (c : Z) : bool := ((9 <=? c) && (c <=? 13)) || (c =? 32).
Fixpoint skip_ws (inp : bytes) : bytes :=
  match inp with c :: r => if isspace c then skip_ws r else inp | [] => [] end.

Definition digit_val (c : Z) : option Z :=
  if (48 <=? c) && (c <=? 57) then Some (c - 48)
  else if (97 <=? c) && (c <=? 102) then Some (c - 87)
  else if (65 <=? c) && (c <=? 70) then Some (c - 55) else None.
Definition digit_in (base c : Z) : option Z :=
  match digit_val c with Some d => if d <? base then Some d else None | None => None end.

(** The longest run of digits, its value and whether there is one. *)
Fixpoint scan_digits (base : Z) (inp : bytes) (v : Z) (any : bool) : Z * bool * bytes :=
  match inp with
  | c :: r => match digit_in base c with
              | Some d => scan_digits base r (v * base + d) true
              | None => (v, any, inp)
              end
  | [] => (v, any, [])
  end.

Definition starts_with (x : Z) (inp : bytes) : bool :=
  match inp with c :: _ => c =? x | [] => false end.

(** ** Strings *)

(** The bytes of a literal. *)
Definition str (s : string) : bytes :=
  (fun a => Z.of_N (Ascii.N_of_ascii a)) <$> String.list_ascii_of_string s.

(** The C string that a pointer to the bytes denotes: up to the first NUL. *)
Fixpoint c_str (l : bytes) : bytes :=
  match l with [] => [] | c :: r => if c =? 0 then [] else c :: c_str r end.

(** [strcmp] on C strings: the end of a string compares as NUL. *)
Fixpoint strcmp (a b : bytes) : Z :=
  match a, b with
  | [], [] => 0
  | [], y :: _ => 0 - y
  | x :: _, [] => x
  | x :: a, y :: b => if x =? y then strcmp a b else x - y
  end.

(** [strstr]: does the needle occur? *)
Fixpoint is_prefix (p l : bytes) : bool :=
  match p, l with
  | [], _ => true
  | x :: p, y :: l => (x =? y) && is_prefix p l
  | _ :: _, [] => false
  end.
Fixpoint strstr (haystack needle : bytes) : bool :=
  is_prefix needle haystack ||
  match haystack with [] => false | _ :: r => strstr r needle end.

(** [strtol(s, &end, 10)] with a 32-bit [long]: the value, clamped to the type, and
    what [end] points to. *)
Definition strtol (s : bytes) : Z * bytes :=
  let inp := skip_ws s in
  let neg := starts_with 45 inp in
  let inp := if neg || starts_with 43 inp then tl inp else inp in
  let '(v, any, rest) := scan_digits 10 inp 0 false in
  if any then (Z.max INT_MIN (Z.min INT_MAX (if neg then - v else v)), rest) else (0, s).

(** ** Printing numbers *)

Definition digit_char (d : Z) : Z := if d <? 10 then 48 + d else 87 + d.
Fixpoint print_digits (fuel : nat) (base n : Z) (acc : bytes) : bytes :=
  match fuel with
  | O => acc
  | S fuel => if n <? base then digit_char n :: acc
              else print_digits fuel base (n / base) (digit_char (n mod base) :: acc)
  end.
Definition print_nat (base n : Z) : bytes := print_digits 32 base n [].
Definition print_Z (z : Z) : bytes := if z <? 0 then 45 :: print_nat 10 (- z) else print_nat 10 z.
(** ** Scanning consumes, and reads back what is printed *)

Lemma skip_ws_le inp : (length (skip_ws inp) <= length inp)%nat.
Proof. induction inp as [|c inp IH]; cbn; [done|]. destruct (isspace c); cbn; lia. Qed.
Lemma scan_digits_le base inp v any v' any' r :
  scan_digits base inp v any = (v', any', r) -> (length r <= length inp)%nat.
Proof.
  revert v any; induction inp as [|c inp IH]; intros v any; cbn; [by intros [= _ _ <-]|].
  destruct (digit_in base c); [intros E%IH; lia|]. by intros [= _ _ <-].
Qed.
Definition no_digit (base : Z) (rest : bytes) : Prop :=
  match rest with c :: _ => digit_in base c = None | [] => True end.

Lemma digit_in_char base d : 2 <= base <= 16 -> 0 <= d < base -> digit_in base (digit_char d) = Some d.
Proof.
  intros Hb Hd. unfold digit_in, digit_val, digit_char. destruct (Z.ltb_spec d 10) as [H|H].
  - rewrite (proj2 (Z.leb_le 48 _)), (proj2 (Z.leb_le _ 57)) by lia. cbn [andb].
    replace (48 + d - 48) with d by lia. by rewrite (proj2 (Z.ltb_lt d base)) by lia.
  - rewrite (proj2 (Z.leb_gt (87 + d) 57)), andb_false_r by lia.
    rewrite (proj2 (Z.leb_le 97 _)), (proj2 (Z.leb_le _ 102)) by lia. cbn [andb].
    replace (87 + d - 87) with d by lia. by rewrite (proj2 (Z.ltb_lt d base)) by lia.
Qed.

Lemma scan_stop base rest v any : no_digit base rest -> scan_digits base rest v any = (v, any, rest).
Proof. destruct rest as [|c r]; cbn; [done|]. by intros ->. Qed.

Lemma div_pow base n k : 1 < base -> 0 <= n < base ^ Z.of_nat (S k) ->
  0 <= n / base < base ^ Z.of_nat k.
Proof.
  intros Hb Hn. rewrite Nat2Z.inj_succ, Z.pow_succ_r in Hn by lia. split; [apply Z.div_pos; lia|].
  apply Z.div_lt_upper_bound; lia.
Qed.

Lemma scan_print base fuel : 2 <= base <= 16 -> forall n acc any, 0 <= n < base ^ Z.of_nat fuel ->
  (0 < fuel)%nat ->
  scan_digits base (print_digits fuel base n acc) 0 any = scan_digits base acc n true.
Proof.
  intros Hb. induction fuel as [|fuel IH]; intros n acc any Hn Hf; [lia|]. cbn [print_digits].
  destruct (Z.ltb_spec n base) as [Hlt|Hge].
  - cbn [scan_digits]. rewrite digit_in_char by lia. done.
  - pose proof (div_pow base n fuel ltac:(lia) Hn) as Hd.
    assert (1 <= n / base) by (apply Z.div_le_lower_bound; lia).
    destruct fuel as [|fuel]; [cbn in Hd; lia|]. rewrite IH by (done || lia).
    cbn [scan_digits]. pose proof (Z.mod_pos_bound n base ltac:(lia)).
    rewrite digit_in_char by lia. f_equal. rewrite (Z.div_mod n base) at 3; lia.
Qed.

Lemma print_head base fuel : 2 <= base <= 16 -> forall n acc, 0 <= n < base ^ Z.of_nat fuel ->
  (0 < fuel)%nat ->
  exists d r, print_digits fuel base n acc = digit_char d :: r /\ 0 <= d < base /\
    (d = 0 -> n = 0 /\ r = acc).
Proof.
  intros Hb. induction fuel as [|fuel IH]; intros n acc Hn Hf; [lia|]. cbn [print_digits].
  destruct (Z.ltb_spec n base) as [Hlt|Hge].
  - exists n, acc. split_and!; [done|lia|lia|]. by intros ->.
  - pose proof (div_pow base n fuel ltac:(lia) Hn) as Hd.
    assert (1 <= n / base) by (apply Z.div_le_lower_bound; lia).
    destruct fuel as [|fuel]; [cbn in Hd; lia|].
    destruct (IH (n / base) (digit_char (n mod base) :: acc)) as (d & r & -> & Hr & Hz); [done|lia|].
    exists d, r. split; [done|]. split; [done|]. intros ->. destruct Hz; [done|lia].
Qed.

Lemma print_digits_app fuel base n acc rest :
  print_digits fuel base n acc ++ rest = print_digits fuel base n (acc ++ rest).
Proof.
  revert n acc; induction fuel as [|fuel IH]; intros n acc; cbn; [done|].
  destruct (n <? base); [done|]. by rewrite IH.
Qed.

(** A digit is no white space, no sign and no "x". *)
Lemma digit_char_plain d : 0 <= d < 16 ->
  isspace (digit_char d) = false /\ (digit_char d =? 45) = false /\ (digit_char d =? 43) = false /\
  (digit_char d =? 48) = (d =? 0) /\ (digit_char d =? 120) = false /\ (digit_char d =? 88) = false.
Proof.
  intros Hd. unfold isspace.
  assert (digit_char d = 48 + d /\ d < 10 \/ 97 <= digit_char d <= 102 /\ 10 <= d) as Hc
    by (unfold digit_char; destruct (Z.ltb_spec d 10); lia).
  destruct (Z.eqb_spec d 0); split_and!; try (apply Z.eqb_neq; lia); try (apply Z.eqb_eq; lia);
    apply orb_false_iff; (split; [apply andb_false_iff; right; apply Z.leb_gt; lia|apply Z.eqb_neq; lia]).
Qed.

(** ** The order of strings *)

(** The lexicographic order on byte strings. *)
Fixpoint lex (a b : bytes) : Z :=
  match a, b with
  | [], [] => 0
  | [], _ => -1
  | _, [] => 1
  | x :: a, y :: b => if x =? y then lex a b else x - y
  end.
Definition name_le (a b : bytes) : Prop := lex a b <= 0.

Lemma lex_refl a : lex a a = 0.
Proof. induction a; simpl; [done|]. by rewrite Z.eqb_refl. Qed.
Lemma lex_eq a b : lex a b = 0 <-> a = b.
Proof.
  split; [|intros ->; apply lex_refl]. revert b; induction a as [|x a IH]; intros [|y b]; simpl; try done.
  destruct (Z.eqb_spec x y) as [->|]; [|lia]. by intros ->%IH.
Qed.
Lemma lex_sgn a b : Z.sgn (lex b a) = - Z.sgn (lex a b).
Proof.
  revert b; induction a as [|x a IH]; intros [|y b]; simpl; try done.
  rewrite (Z.eqb_sym y x). destruct (Z.eqb_spec x y); [done|].
  rewrite <- Z.sgn_opp. f_equal. lia.
Qed.
Lemma lex_trans a b c : lex a b <= 0 -> lex b c <= 0 -> lex a c <= 0.
Proof.
  revert b c; induction a as [|x a IH]; intros [|y b] [|z c]; simpl; try lia.
  destruct (Z.eqb_spec x y), (Z.eqb_spec y z), (Z.eqb_spec x z); try lia.
  apply IH.
Qed.
Lemma lex_ge a b : 0 <= lex a b <-> name_le b a.
Proof. unfold name_le. pose proof (lex_sgn a b). lia. Qed.

Definition nul_free (a : bytes) : Prop := Forall (fun c => 0 < c) a.

Lemma strcmp_lex a b : nul_free a -> nul_free b -> Z.sgn (strcmp a b) = Z.sgn (lex a b).
Proof.
  intros Ha. revert b. induction Ha as [|x a Hx Ha IH]; intros b Hb; destruct Hb as [|y b Hy Hb];
    cbn [strcmp lex]; try lia. destruct (x =? y); [by apply IH|done].
Qed.
Lemma strcmp_eq a b : nul_free a -> nul_free b -> strcmp a b = 0 <-> a = b.
Proof. intros Ha Hb. pose proof (strcmp_lex a b Ha Hb). rewrite <- lex_eq. lia. Qed.
