(* ===== verification/Value.v ===== *)
(** The values of the script language ([Value] of [edify/expr.h]), which are also the
    patches that [applypatch] takes. *)
From S2P Require Import Prelude.

Definition VAL_STRING : Z := 1.
Definition VAL_BLOB : Z := 2.

Record Value := mkValue { vtype : Z; vsize : Z; vdata : bytes }.

(** A blob whose size field tells the truth. *)
Definition blob (d : bytes) : Value := mkValue VAL_BLOB (len d) d.
