(* ===== verification/Mincrypt.v ===== *)
(** What the recovery uses of libmincrypt, which is not part of the repository: the
    incremental SHA-1 and SHA-256 interfaces and the RSA signature check. *)
From S2P Require Import Prelude.

(** An incremental hash: [X_init], [X_update], [X_final]. *)
Class HashOps := {
  HASH_CTX : Type;
  hash_init : HASH_CTX;
  hash_update : HASH_CTX -> bytes -> HASH_CTX;
  hash_final : HASH_CTX -> bytes }.

(** The digest depends on the concatenation of the data only. *)
Class HashLaws (H : HashOps) := {
  digest : bytes -> bytes;
  hash_final_digest chunks :
    hash_final (foldl hash_update hash_init chunks) = digest (concat chunks) }.

(** The fields of [RSAPublicKey] that are read from a key file. *)
Record RSAPublicKey := mkKey {
  key_len : Z; n0inv : Z; key_n : list Z; key_rr : list Z; exponent : Z }.

Class RsaOps := {
  RSANUMBYTES : Z;
  RSANUMWORDS : Z;
  SHA_DIGEST_SIZE : Z;
  SHA256_DIGEST_SIZE : Z;
  RSA_verify : RSAPublicKey -> bytes -> bytes -> Z -> bool }.

(** ** A concrete instance, for examples: the "digest" is the data itself *)
#[export] Instance plain_hash : HashOps :=
  {| HASH_CTX := bytes; hash_init := []; hash_update c d := c ++ d; hash_final c := c |}.

Lemma foldl_app_concat (chunks : list bytes) acc :
  foldl (fun c d => c ++ d) acc chunks = acc ++ concat chunks.
Proof.
  revert acc; induction chunks as [|c chunks IH]; intros acc; cbn; [by rewrite app_nil_r|].
  by rewrite IH, app_assoc.
Qed.

#[export] Instance plain_hash_laws : HashLaws plain_hash.
Proof. exists (fun l => l). intros chunks. exact (foldl_app_concat chunks []). Defined.
