(* ===== verification/BsPatch.v ===== *)
(** [applypatch/bspatch.c]: applying a bsdiff patch in memory, with the number
    encoding [offtout] of [applypatch/bsdiff.c] that produces what [offtin]
    reads.  libbzip2 is a parameter ([BzOps]) whose documented behaviour is the
    class [BzLaws]. *)
From S2P Require Import Prelude Endian Value.

(** ** libbzip2 *)

Definition BZ_OK : Z := 0.
Definition BZ_STREAM_END : Z := 4.

(** [BZ2_bzDecompressInit data off n] opens a stream whose [next_in] points at
    offset [off] of [data] with [avail_in = n].  [BZ2_bzDecompress s n] is a
    call with [avail_out = n]: the error code, the bytes stored at [next_out]
    and the stream after the call. *)
Class BzOps := {
  bz_stream : Type;
  BZ2_bzDecompressInit : bytes -> Z -> Z -> Z * bz_stream;
  BZ2_bzDecompress : bz_stream -> Z -> Z * bytes * bz_stream }.

(** [bz_denotes s d]: the bytes still to be decompressed from [s] are [d].  A
    call never stores more than [avail_out] bytes; while something is left and
    there is room for it, a call stores a non-empty prefix and succeeds. *)
Class BzLaws `{BzOps} := {
  bz_denotes : bz_stream -> bytes -> Prop;
  bz_bounded : forall s n err out s', 0 <= n ->
    BZ2_bzDecompress s n = (err, out, s') -> len out <= n;
  bz_step : forall s d n, bz_denotes s d -> d <> [] -> 0 < n ->
    exists err out d' s', BZ2_bzDecompress s n = (err, out, s')
      /\ (err = BZ_OK \/ err = BZ_STREAM_END)
      /\ out <> [] /\ d = out ++ d' /\ bz_denotes s' d' }.

(** ** Numbers *)

(** [y=y*256;y+=b;] on an [off_t]. *)
Definition offtin_step (y b : Z) : Z := s32 (s32 (y * 256) + b).

(** [off_t offtin(u_char *buf)]: sign and magnitude, seven low-order bytes. *)
Definition offtin (p : bytes) (off : Z) : outcome Z :=
  b7 ← rd p (off + 7); b6 ← rd p (off + 6); b5 ← rd p (off + 5); b4 ← rd p (off + 4);
  b3 ← rd p (off + 3); b2 ← rd p (off + 2); b1 ← rd p (off + 1); b0 ← rd p (off + 0);
  let y := fold_left offtin_step [b6; b5; b4; b3; b2; b1; b0] (Z.land b7 127) in
  Ret (if Z.land b7 128 =? 0 then y else s32 (- y)).

(** [void offtout(off_t x,u_char *buf)] *)
Fixpoint offtout_digits (n : nat) (y : Z) : bytes :=
  match n with
  | O => []
  | S n => let b := Z.rem y 256 in b :: offtout_digits n (Z.quot (y - b) 256)
  end.

Definition offtout (x : Z) : bytes :=
  let y := if x <? 0 then - x else x in
  let buf := offtout_digits 8 y in
  if x <? 0 then <[7%nat := Z.lor (nth 7 buf 0) 128]> buf else buf.

(** ** The patch itself *)

Section bspatch.
Context `{bz : BzOps}.

(** [int FillBuffer(unsigned char* buffer, int size, bz_stream* stream)];
    [buffer] is the object [buf] at offset [pos]. *)
Fixpoint FillBuffer_loop (fuel : nat) (buf : bytes) (pos avail_out : Z) (stream : bz_stream)
    : outcome (Z * bytes * bz_stream) :=
  if 0 <? avail_out then
    match fuel with
    | O => Diverge
    | S fuel =>
        let '(bzerr, out, stream) := BZ2_bzDecompress stream avail_out in
        buf ← wr_bytes buf pos out;
        if negb (bzerr =? BZ_OK) && negb (bzerr =? BZ_STREAM_END) then Ret (-1, buf, stream)
        else FillBuffer_loop fuel buf (pos + len out) (avail_out - len out) stream
    end
  else Ret (0, buf, stream).

Definition FillBuffer (fuel : nat) (buf : bytes) (pos size : Z) (stream : bz_stream)
    : outcome (Z * bytes * bz_stream) :=
  FillBuffer_loop fuel buf pos (u32 size) stream.

(** The source of the patch: [old_data] is the object [old] at offset [base],
    and [old_size] is what the caller says its size is. *)
Record OldData := mkOld { old : bytes; base : Z; old_size : Z }.

(** "Add old data to diff string": the loop over [i] of lines 226-230, with
    [n] iterations left. *)
Fixpoint add_old_data (od : OldData) (n : nat) (i oldpos newpos : Z) (new_data : bytes)
    : outcome bytes :=
  match n with
  | O => Ret new_data
  | S n =>
      new_data ←
        (if (0 <=? s32 (oldpos + i)) && (s32 (oldpos + i) <? old_size od) then
           d ← rd new_data (newpos + i); o ← rd (old od) (base od + s32 (oldpos + i));
           wr_bytes new_data (newpos + i) [u8 (d + o)]
         else Ret new_data);
      add_old_data od n (i + 1) oldpos newpos new_data
  end.

Record bs_state := mkBs {
  new_data : bytes; newpos : Z; oldpos : Z;
  cstream : bz_stream; dstream : bz_stream; estream : bz_stream }.

(** One iteration of the loop of lines 198-251: [inl s] goes on, [inr r] leaves
    the function with the value [r]. *)
Definition bs_step (fuel : nat) (od : OldData) (new_size : Z) (s : bs_state)
    : outcome (bs_state + Z) :=
  '(r, buf, cs) ← FillBuffer fuel (replicate 24 0) 0 24 (cstream s);
  if negb (r =? 0) then Ret (inr 1) else
  ctrl0 ← offtin buf 0; ctrl1 ← offtin buf 8; ctrl2 ← offtin buf 16;
  if (ctrl0 <? 0) || (ctrl1 <? 0) then Ret (inr 1) else
  if new_size <? s32 (newpos s + ctrl0) then Ret (inr 1) else
  '(r, nd, ds) ← FillBuffer fuel (new_data s) (newpos s) ctrl0 (dstream s);
  if negb (r =? 0) then Ret (inr 1) else
  nd ← add_old_data od (Z.to_nat ctrl0) 0 (oldpos s) (newpos s) nd;
  let np := s32 (newpos s + ctrl0) in
  let op := s32 (oldpos s + ctrl0) in
  if new_size <? s32 (np + ctrl1) then Ret (inr 1) else
  '(r, nd, es) ← FillBuffer fuel nd np ctrl1 (estream s);
  if negb (r =? 0) then Ret (inr 1) else
  Ret (inl (mkBs nd (s32 (np + ctrl1)) (s32 (op + ctrl2)) cs ds es)).

Fixpoint bs_loop (fuel : nat) (od : OldData) (new_size : Z) (s : bs_state)
    : outcome (Z * bytes) :=
  if newpos s <? new_size then
    match fuel with
    | O => Diverge
    | S fuel' =>
        r ← bs_step fuel od new_size s;
        match r with
        | inl s => bs_loop fuel' od new_size s
        | inr ret => Ret (ret, [])
        end
    end
  else Ret (0, new_data s).

Definition bsdiff_magic : bytes := [66; 83; 68; 73; 70; 70; 52; 48].   (* "BSDIFF40" *)

(** [int ApplyBSDiffPatchMem(old_data, old_size, patch, patch_offset, ...)]:
    the return value and, when it is 0, the new data.  [malloc n] is the object
    the allocator returns ([None] for NULL); its contents are indeterminate. *)
Definition ApplyBSDiffPatchMem (malloc : Z -> option bytes) (fuel : nat) (od : OldData)
    (patch : Value) (patch_offset : Z) : outcome (Z * bytes) :=
  magic ← rd_bytes (vdata patch) patch_offset 8;
  if negb (bool_decide (magic = bsdiff_magic)) then Ret (1, []) else
  ctrl_len ← offtin (vdata patch) (patch_offset + 8);
  data_len ← offtin (vdata patch) (patch_offset + 16);
  new_size ← offtin (vdata patch) (patch_offset + 24);
  if (ctrl_len <? 0) || (data_len <? 0) || (new_size <? 0) then Ret (1, []) else
  let cs := snd (BZ2_bzDecompressInit (vdata patch) (patch_offset + 32) (u32 ctrl_len)) in
  let ds := snd (BZ2_bzDecompressInit (vdata patch) (patch_offset + 32 + ctrl_len)
                   (u32 data_len)) in
  let es := snd (BZ2_bzDecompressInit (vdata patch) (patch_offset + 32 + ctrl_len + data_len)
                   (u32 (vsize patch - (patch_offset + 32 + ctrl_len + data_len)))) in
  match malloc new_size with
  | None => Ret (1, [])
  | Some nd => bs_loop fuel od new_size (mkBs nd 0 0 cs ds es)
  end.

End bspatch.

(** ** [offtin] reads what [offtout] writes *)

Lemma offtin_step_s32 a b : offtin_step (s32 a) b = s32 (a * 256 + b).
Proof. unfold offtin_step. words. Qed.

Lemma offtout_digits_le n y : 0 <= y -> offtout_digits n y = le_enc n y.
Proof.
  revert y; induction n as [|n IH]; intros y Hy; [done|].
  cbn [offtout_digits le_enc]. rewrite Z.rem_mod_nonneg by lia.
  assert (y - y mod 256 = 256 * (y / 256)) as E by (Z.div_mod_to_equations; lia).
  pose proof (Z.div_pos y 256).
  rewrite E, Z.quot_div_nonneg, (Z.mul_comm 256), Z.div_mul by lia.
  by rewrite IH by lia.
Qed.

Lemma le_enc_small n m y :
  0 <= y < 2 ^ (8 * Z.of_nat n) -> le_enc (n + m) y = le_enc n y ++ replicate m 0.
Proof.
  revert y; induction n as [|n IH]; intros y Hy; cbn [Nat.add le_enc app].
  - assert (y = 0) as -> by (simpl in Hy; lia). clear Hy.
    induction m as [|m IHm]; cbn [le_enc replicate]; [done|]. by f_equal.
  - f_equal. apply IH.
    replace (8 * Z.of_nat (S n)) with (8 + 8 * Z.of_nat n) in Hy by lia.
    rewrite Z.pow_add_r in Hy by lia. change (2 ^ 8) with 256 in Hy.
    split; [apply Z.div_pos; lia|]. apply Z.div_lt_upper_bound; lia.
Qed.

Lemma offtout_small x :
  INT_MIN < x <= INT_MAX ->
  offtout x = le_enc 4 (Z.abs x) ++ [0; 0; 0; if x <? 0 then 128 else 0].
Proof.
  intros Hx. unfold INT_MIN, INT_MAX in Hx. unfold offtout.
  replace (if x <? 0 then - x else x) with (Z.abs x) by (destruct (Z.ltb_spec x 0); lia).
  rewrite offtout_digits_le by lia. change 8%nat with (4 + 4)%nat.
  rewrite le_enc_small by (change (2 ^ _) with 4294967296; lia).
  destruct (x <? 0); reflexivity.
Qed.

Lemma len_offtout x : INT_MIN < x <= INT_MAX -> len (offtout x) = 8.
Proof. intros. by rewrite offtout_small, len_app, len_le_enc by done. Qed.

Lemma offtout_ok x : INT_MIN < x <= INT_MAX -> bytes_ok (offtout x).
Proof.
  intros. rewrite offtout_small by done. apply bytes_ok_app. split; [apply le_enc_ok|].
  unfold bytes_ok. rewrite !Forall_cons_iff. destruct (x <? 0); repeat split; try lia; constructor.
Qed.

Lemma offtin_eight (b0 b1 b2 b3 b7 : Z) pre post :
  b7 = 0 \/ b7 = 128 ->
  offtin (pre ++ [b0; b1; b2; b3; 0; 0; 0; b7] ++ post) (len pre)
  = Ret (let y := s32 (le_val [b0; b1; b2; b3]) in if b7 =? 0 then y else s32 (- y)).
Proof.
  intros Hb7. unfold offtin.
  rewrite (rd_mid pre _ post 7 b7), (rd_mid pre _ post 6 0), (rd_mid pre _ post 5 0),
    (rd_mid pre _ post 4 0), (rd_mid pre _ post 3 b3), (rd_mid pre _ post 2 b2),
    (rd_mid pre _ post 1 b1), (rd_mid pre _ post 0 b0) by (done || lia).
  simpl mbind. cbv beta zeta.
  assert (Z.land b7 127 = 0) as -> by (destruct Hb7; subst; done).
  cbn [fold_left]. change (offtin_step 0 0) with (s32 0).
  rewrite !offtin_step_s32. cbn [le_val].
  replace (_ + 256 * (b1 + 256 * _)) with
    ((((((0 * 256 + 0) * 256 + 0) * 256 + b3) * 256 + b2) * 256 + b1) * 256 + b0)
    by lia.
  destruct Hb7; subst; reflexivity.
Qed.

Lemma offtin_offtout_at pre x post :
  INT_MIN < x <= INT_MAX -> offtin (pre ++ offtout x ++ post) (len pre) = Ret x.
Proof.
  intros Hx. rewrite offtout_small by done.
  etransitivity;
    [apply (offtin_eight _ _ _ _ (if x <? 0 then 128 else 0)); destruct (x <? 0); auto|].
  pose proof (le_val_enc 4 (Z.abs x)) as E. cbn [le_enc] in E. rewrite E.
  change (2 ^ _) with 4294967296. unfold INT_MIN, INT_MAX in Hx.
  rewrite Z.mod_small by lia.
  rewrite (s32_small (Z.abs x)) by (unfold INT_MIN, INT_MAX; lia). cbv zeta.
  destruct (Z.ltb_spec x 0); simpl; f_equal; [|lia].
  rewrite s32_small by (unfold INT_MIN, INT_MAX; lia). lia.
Qed.

(** ** What a patch means

    A control triple (x, y, z): take [x] bytes of the diff block and add the
    old data to them, take [y] bytes of the extra block, move in the old data
    by [z]. *)

Definition old_byte (od : OldData) (k : Z) : Z := nth (Z.to_nat (base od + k)) (old od) 0.

Fixpoint add_old (od : OldData) (oldpos : Z) (diff : bytes) : bytes :=
  match diff with
  | [] => []
  | d :: r =>
      (if (0 <=? oldpos) && (oldpos <? old_size od) then u8 (d + old_byte od oldpos) else d)
      :: add_old od (oldpos + 1) r
  end.

Fixpoint bspatch_spec (od : OldData) (ctrls : list (Z * Z * Z)) (diff extra : bytes)
    (oldpos : Z) : bytes :=
  match ctrls with
  | [] => []
  | (x, y, z) :: r =>
      add_old od oldpos (take (Z.to_nat x) diff) ++ take (Z.to_nat y) extra
      ++ bspatch_spec od r (drop (Z.to_nat x) diff) (drop (Z.to_nat y) extra) (oldpos + x + z)
  end.

Fixpoint enc_ctrls (ctrls : list (Z * Z * Z)) : bytes :=
  match ctrls with
  | [] => []
  | (x, y, z) :: r => (offtout x ++ offtout y ++ offtout z) ++ enc_ctrls r
  end.

Fixpoint diff_total (ctrls : list (Z * Z * Z)) : Z :=
  match ctrls with [] => 0 | (x, _, _) :: r => x + diff_total r end.
Fixpoint extra_total (ctrls : list (Z * Z * Z)) : Z :=
  match ctrls with [] => 0 | (_, y, _) :: r => y + extra_total r end.

(** The counts are not negative and the position in the old data stays an [off_t]. *)
Fixpoint ctrls_ok (ctrls : list (Z * Z * Z)) (oldpos : Z) : Prop :=
  match ctrls with
  | [] => True
  | (x, y, z) :: r =>
      0 <= x /\ 0 <= y /\ INT_MIN < z <= INT_MAX
      /\ INT_MIN <= oldpos /\ oldpos + x <= INT_MAX
      /\ INT_MIN <= oldpos + x + z <= INT_MAX /\ ctrls_ok r (oldpos + x + z)
  end.

Definition old_ok (od : OldData) : Prop :=
  0 <= base od /\ 0 <= old_size od /\ base od + old_size od <= len (old od).

Lemma diff_total_nonneg c p : ctrls_ok c p -> 0 <= diff_total c.
Proof. revert p; induction c as [|[[x y] z] c IH]; simpl; [lia|]. intros p (?&?&?&?&?&?&H). apply IH in H. lia. Qed.
Lemma extra_total_nonneg c p : ctrls_ok c p -> 0 <= extra_total c.
Proof. revert p; induction c as [|[[x y] z] c IH]; simpl; [lia|]. intros p (?&?&?&?&?&?&H). apply IH in H. lia. Qed.

Lemma length_add_old od p d : length (add_old od p d) = length d.
Proof. revert p; induction d; simpl; auto. Qed.

(** The patch of a control block that is exhausted produces nothing. *)
Lemma bspatch_spec_nil od c diff extra p :
  ctrls_ok c p -> diff_total c + extra_total c = 0 -> bspatch_spec od c diff extra p = [].
Proof.
  revert diff extra p. induction c as [|[[x y] z] c IH]; intros diff extra p; simpl; [done|].
  intros (?&?&?&?&?&?&H) ?.
  pose proof (diff_total_nonneg _ _ H). pose proof (extra_total_nonneg _ _ H).
  assert (x = 0) as -> by lia. assert (y = 0) as -> by lia. simpl.
  apply IH; [done | lia].
Qed.

Lemma old_byte_rd od k :
  old_ok od -> 0 <= k < old_size od -> rd (old od) (base od + k) = Ret (old_byte od k).
Proof.
  intros (?&?&?) ?. destruct (rd_ok (old od) (base od + k)) as (b & -> & Hb); [lia|].
  unfold old_byte. by rewrite (nth_lookup_Some _ _ _ _ Hb).
Qed.

Lemma add_old_data_mid od diff : forall i oldp newp pre post,
  old_ok od -> newp + i = len pre ->
  INT_MIN <= oldp + i -> oldp + i + len diff <= INT_MAX + 1 ->
  add_old_data od (length diff) i oldp newp (pre ++ diff ++ post)
  = Ret (pre ++ add_old od (oldp + i) diff ++ post).
Proof.
  induction diff as [|d diff IH]; intros i oldp newp pre post Ho Hp Hlo Hhi; [done|].
  cbn [length add_old_data add_old]. rewrite len_cons in Hhi. pose proof (len_nonneg diff).
  rewrite s32_small by (unfold INT_MIN, INT_MAX in *; lia).
  set (d' := if (0 <=? oldp + i) && (oldp + i <? old_size od)
             then u8 (d + old_byte od (oldp + i)) else d).
  assert ((if (0 <=? oldp + i) && (oldp + i <? old_size od) then
     d0 ← rd (pre ++ (d :: diff) ++ post) (newp + i);
     o ← rd (old od) (base od + (oldp + i));
     wr_bytes (pre ++ (d :: diff) ++ post) (newp + i) [u8 (d0 + o)]
   else Ret (pre ++ (d :: diff) ++ post)) = Ret ((pre ++ [d']) ++ diff ++ post)) as ->.
  { subst d'. destruct (_ && _) eqn:E.
    - apply andb_true_iff in E as [E1 E2]. apply Z.leb_le in E1. apply Z.ltb_lt in E2.
      pose proof (rd_mid pre (d :: diff) post 0 d) as R.
      rewrite Z.add_0_r, <- Hp in R. rewrite R by (done || lia).
      rewrite old_byte_rd by (done || lia). simpl mbind.
      etransitivity; [apply (wr_bytes_mid pre [d] (diff ++ post)); [lia|done]|].
      by rewrite <- !app_assoc.
    - by rewrite <- app_assoc. }
  simpl mbind.
  rewrite (IH (i + 1) oldp newp (pre ++ [d'])) by
    (try done; rewrite ?len_app, ?len_cons, ?len_nil; lia).
  replace (oldp + (i + 1)) with (oldp + i + 1) by lia.
  subst d'. by rewrite <- app_assoc.
Qed.

Section correctness.
Context `{bz : BzOps} {laws : BzLaws}.

(** [FillBuffer] stores the next bytes of the stream over the [size] bytes it
    is given, and needs at most [size] calls. *)
Lemma FillBuffer_loop_mid : forall n fuel junk pre post d s pos,
  (n <= fuel)%nat -> length junk = n -> Z.of_nat n <= len d -> bz_denotes s d -> pos = len pre ->
  exists s', bz_denotes s' (drop n d) /\
    FillBuffer_loop fuel (pre ++ junk ++ post) pos (Z.of_nat n) s
    = Ret (0, pre ++ take n d ++ post, s').
Proof.
  induction n as [n IH] using lt_wf_ind; intros fuel junk pre post d s pos Hf Hj Hd Hs ->.
  destruct n as [|n].
  { destruct junk; [|done]. exists s. split; [done|]. by destruct fuel. }
  destruct fuel as [|fuel]; [lia|]. cbn [FillBuffer_loop].
  replace (0 <? Z.of_nat (S n)) with true by (symmetry; apply Z.ltb_lt; lia).
  destruct (bz_step s d (Z.of_nat (S n)) Hs) as (err & out & d' & s' & Hc & Herr & Hout & -> & Hs');
    [intros ->; rewrite len_nil in Hd; lia | lia |].
  pose proof (bz_bounded s (Z.of_nat (S n)) _ _ _ ltac:(lia) Hc) as Hle. rewrite Hc.
  assert (exists j1 j2, junk = j1 ++ j2 /\ length j1 = length out) as (j1 & j2 & -> & Hj1).
  { exists (take (length out) junk), (drop (length out) junk). rewrite take_drop, length_take.
    unfold len in Hle. split; [done|lia]. }
  rewrite length_app in Hj. rewrite <- app_assoc.
  rewrite wr_bytes_mid by (done || lia). simpl mbind.
  replace (negb (err =? BZ_OK) && negb (err =? BZ_STREAM_END)) with false
    by (destruct Herr; subst; done).
  assert (0 < length out)%nat by (destruct out; simpl; [done|lia]).
  destruct (IH (length j2) ltac:(lia) fuel j2 (pre ++ out) post d' s' (len pre + len out))
    as (s2 & Hs2 & Heq); try done; [lia| |by rewrite len_app|].
  { rewrite len_app in Hd. unfold len in *. lia. }
  exists s2. split.
  - replace (S n) with (length out + length j2)%nat by lia. by rewrite drop_app_add.
  - replace (Z.of_nat (S n) - len out) with (Z.of_nat (length j2)) by (unfold len; lia).
    rewrite <- app_assoc in Heq. rewrite Heq.
    replace (S n) with (length out + length j2)%nat by lia. rewrite take_app_add.
    by rewrite <- !app_assoc.
Qed.

Lemma FillBuffer_mid fuel junk pre post d s size pos :
  0 <= size <= INT_MAX -> (Z.to_nat size <= fuel)%nat -> len junk = size -> size <= len d ->
  bz_denotes s d -> pos = len pre ->
  exists s', bz_denotes s' (drop (Z.to_nat size) d) /\
    FillBuffer fuel (pre ++ junk ++ post) pos size s
    = Ret (0, pre ++ take (Z.to_nat size) d ++ post, s').
Proof.
  intros Hs Hf Hj Hd Hden Hp. unfold FillBuffer.
  rewrite u32_small by (unfold INT_MAX in Hs; lia).
  pose proof (FillBuffer_loop_mid (Z.to_nat size) fuel junk pre post d s pos) as H.
  rewrite Z2Nat.id in H by lia. apply H; try done; unfold len in Hj; lia.
Qed.

(** A control triple as the 24 bytes read from the control stream. *)
Lemma read_ctrl x y z :
  0 <= x <= INT_MAX -> 0 <= y <= INT_MAX -> INT_MIN < z <= INT_MAX ->
  let buf := offtout x ++ offtout y ++ offtout z in
  len buf = 24 /\ offtin buf 0 = Ret x /\ offtin buf 8 = Ret y /\ offtin buf 16 = Ret z.
Proof.
  intros Hx Hy Hz buf. subst buf.
  assert (INT_MIN < x <= INT_MAX) as Hx' by (unfold INT_MIN; lia).
  assert (INT_MIN < y <= INT_MAX) as Hy' by (unfold INT_MIN; lia).
  rewrite !len_app, !len_offtout by done. split; [done|]. split; [|split].
  - apply (offtin_offtout_at [] x (offtout y ++ offtout z) Hx').
  - pose proof (offtin_offtout_at (offtout x) y (offtout z) Hy') as E.
    by rewrite len_offtout in E.
  - pose proof (offtin_offtout_at (offtout x ++ offtout y) z [] Hz) as E.
    rewrite app_nil_r, len_app, !len_offtout, <- app_assoc in E by done. done.
Qed.

(** One iteration carries out one control triple. *)
Lemma bs_step_ok fuel od x y z ctrls diff extra done_ junk s :
  old_ok od -> ctrls_ok ((x, y, z) :: ctrls) (oldpos s) ->
  new_data s = done_ ++ junk -> newpos s = len done_ ->
  x + y <= len junk -> len done_ + len junk <= INT_MAX ->
  x <= len diff -> y <= len extra ->
  bz_denotes (cstream s) (enc_ctrls ((x, y, z) :: ctrls)) ->
  bz_denotes (dstream s) diff -> bz_denotes (estream s) extra ->
  (24 <= fuel)%nat -> (Z.to_nat x <= fuel)%nat -> (Z.to_nat y <= fuel)%nat ->
  exists cs ds es,
    bz_denotes cs (enc_ctrls ctrls) /\ bz_denotes ds (drop (Z.to_nat x) diff)
    /\ bz_denotes es (drop (Z.to_nat y) extra)
    /\ bs_step fuel od (len done_ + len junk) s
       = Ret (inl (mkBs ((done_ ++ add_old od (oldpos s) (take (Z.to_nat x) diff)
                          ++ take (Z.to_nat y) extra) ++ drop (Z.to_nat (x + y)) junk)
                    (len done_ + x + y) (oldpos s + x + z) cs ds es)).
Proof.
  intros Ho (Hx & Hy & Hz & Hlo & Hhi & Hop & Hc) Hnd Hnp Hj Hmax Hdx Hey Hcs Hds Hes Hf24 Hfx Hfy.
  pose proof (len_nonneg done_). pose proof (len_nonneg junk).
  destruct (read_ctrl x y z) as (Hl24 & R0 & R8 & R16); [lia..|].
  assert (24 <= len (enc_ctrls ((x, y, z) :: ctrls))) as Hl.
  { cbn [enc_ctrls]. rewrite len_app, Hl24. pose proof (len_nonneg (enc_ctrls ctrls)). lia. }
  destruct (FillBuffer_mid fuel (replicate 24 0) [] [] (enc_ctrls ((x,y,z)::ctrls)) (cstream s) 24 0)
    as (cs & Hcs' & F1); try done.
  assert (take (Z.to_nat 24) (enc_ctrls ((x,y,z)::ctrls)) = offtout x ++ offtout y ++ offtout z) as E24.
  { cbn [enc_ctrls]. replace (Z.to_nat 24) with (length (offtout x ++ offtout y ++ offtout z))
      by (unfold len in Hl24; lia). apply take_app_length. }
  assert (drop (Z.to_nat 24) (enc_ctrls ((x,y,z)::ctrls)) = enc_ctrls ctrls) as D24.
  { cbn [enc_ctrls]. replace (Z.to_nat 24) with (length (offtout x ++ offtout y ++ offtout z))
      by (unfold len in Hl24; lia). apply drop_app_length. }
  rewrite D24 in Hcs'. rewrite E24, !app_nil_r in F1. cbn [app] in F1.
  (* the unwritten part of the output: x bytes, y bytes, the rest *)
  set (j1 := take (Z.to_nat x) junk). set (j2 := take (Z.to_nat y) (drop (Z.to_nat x) junk)).
  set (j3 := drop (Z.to_nat (x + y)) junk).
  assert (junk = j1 ++ j2 ++ j3) as Ej.
  { subst j1 j2 j3. rewrite <- drop_drop_Z by lia. by rewrite !take_drop. }
  assert (len j1 = x) as Hj1 by (apply len_take; lia).
  assert (len j2 = y) as Hj2 by (apply len_take; rewrite len_drop; lia).
  destruct (FillBuffer_mid fuel j1 done_ (j2 ++ j3) diff (dstream s) x (newpos s))
    as (ds & Hds' & F2); try done; [lia|].
  set (dx := take (Z.to_nat x) diff) in *.
  assert (len dx = x) as Hldx by (apply len_take; lia).
  assert (length dx = Z.to_nat x) as Hldx' by (unfold len in Hldx; lia).
  pose proof (add_old_data_mid od dx 0 (oldpos s) (newpos s) done_ (j2 ++ j3) Ho) as HA.
  rewrite Hldx', Hldx, !Z.add_0_r in HA. specialize (HA Hnp Hlo ltac:(lia)).
  set (ax := add_old od (oldpos s) dx) in *.
  assert (len ax = x) as Hlax by (subst ax; unfold len; rewrite length_add_old; lia).
  destruct (FillBuffer_mid fuel j2 (done_ ++ ax) j3 extra (estream s) y (len done_ + x))
    as (es & Hes' & F3); try done; [lia|by rewrite len_app; lia|].
  exists cs, ds, es. do 3 (split; [done|]).
  unfold bs_step. rewrite F1. simpl mbind. rewrite R0, R8, R16. simpl mbind.
  replace (x <? 0) with false by (symmetry; apply Z.ltb_ge; lia).
  replace (y <? 0) with false by (symmetry; apply Z.ltb_ge; lia). simpl orb.
  rewrite Hnp, (s32_small (len done_ + x)) by (unfold INT_MIN; lia).
  replace (len done_ + len junk <? len done_ + x) with false by (symmetry; apply Z.ltb_ge; lia).
  rewrite Hnp in F2, HA. rewrite Hnd, Ej, F2. simpl mbind. rewrite HA. simpl mbind.
  cbv zeta. rewrite (s32_small (len done_ + x + y)) by (unfold INT_MIN; lia).
  rewrite <- Ej.
  replace (len done_ + len junk <? len done_ + x + y) with false by (symmetry; apply Z.ltb_ge; lia).
  rewrite <- app_assoc in F3. rewrite F3. simpl mbind.
  rewrite (s32_small (oldpos s + x)) by lia. rewrite (s32_small (oldpos s + x + z)) by lia.
  do 3 f_equal. by rewrite <- !app_assoc.
Qed.

(** The loop produces what the control block means. *)
Lemma bs_loop_ok od N : forall ctrls fuel diff extra done_ junk s,
  old_ok od -> ctrls_ok ctrls (oldpos s) ->
  new_data s = done_ ++ junk -> newpos s = len done_ ->
  diff_total ctrls + extra_total ctrls = len junk -> len done_ + len junk <= INT_MAX ->
  diff_total ctrls <= len diff -> extra_total ctrls <= len extra ->
  bz_denotes (cstream s) (enc_ctrls ctrls) ->
  bz_denotes (dstream s) diff -> bz_denotes (estream s) extra ->
  (24 <= N)%nat -> len done_ + len junk <= Z.of_nat N -> (length ctrls + N <= fuel)%nat ->
  bs_loop fuel od (len done_ + len junk) s
  = Ret (0, done_ ++ bspatch_spec od ctrls diff extra (oldpos s)).
Proof.
  induction ctrls as [|[[x y] z] ctrls IH];
    intros fuel diff extra done_ junk s Ho Hc Hnd Hnp Htot Hmax Hd He Hcs Hds Hes H24 HN Hf.
  { cbn [diff_total extra_total] in Htot.
    assert (junk = []) as -> by (apply len_0_nil; lia).
    rewrite len_nil, app_nil_r in *. destruct fuel; simpl;
      rewrite Hnp, (proj2 (Z.ltb_ge _ _)), Hnd by lia; by rewrite ?app_nil_r. }
  destruct (Z.eq_dec (len junk) 0) as [E0|E0].
  { rewrite (bspatch_spec_nil od _ _ _ _ Hc) by lia.
    apply len_0_nil in E0 as ->. rewrite len_nil, app_nil_r in *.
    destruct fuel; simpl; by rewrite Hnp, (proj2 (Z.ltb_ge _ _)), Hnd by lia. }
  pose proof Hc as (Hx & Hy & Hz & Hlo & Hhi & Hop & Hc').
  cbn [diff_total extra_total length] in *.
  pose proof (diff_total_nonneg _ _ Hc'). pose proof (extra_total_nonneg _ _ Hc').
  pose proof (len_nonneg done_). pose proof (len_nonneg junk).
  destruct (bs_step_ok fuel od x y z ctrls diff extra done_ junk s)
    as (cs & ds & es & Hcs' & Hds' & Hes' & Hstep); try done; try lia.
  destruct fuel as [|fuel]; [lia|]. cbn [bs_loop].
  rewrite Hnp, (proj2 (Z.ltb_lt _ _)) by lia. rewrite Hstep. cbn [mbind outcome_bind].
  set (out := add_old od (oldpos s) (take (Z.to_nat x) diff) ++ take (Z.to_nat y) extra).
  assert (len out = x + y) as Hout.
  { subst out. rewrite len_app. unfold len at 1. rewrite length_add_old.
    fold (len (take (Z.to_nat x) diff)). rewrite !len_take by lia. done. }
  assert (len (drop (Z.to_nat (x + y)) junk) = len junk - (x + y)) as Hrest
    by (apply len_drop; lia).
  replace (len done_ + len junk)
    with (len (done_ ++ out) + len (drop (Z.to_nat (x + y)) junk)) by (rewrite len_app; lia).
  rewrite (IH fuel (drop (Z.to_nat x) diff) (drop (Z.to_nat y) extra));
    cbn [new_data newpos oldpos cstream dstream estream]; try done;
    rewrite ?len_drop, ?len_app; try lia.
  cbn [bspatch_spec]. subst out. by rewrite <- !app_assoc.
Qed.
End correctness.

(** ** The header *)

Definition bsdiff_header (ctrl_len data_len new_size : Z) : bytes :=
  bsdiff_magic ++ offtout ctrl_len ++ offtout data_len ++ offtout new_size.

Lemma len_bsdiff_header c d n :
  INT_MIN < c <= INT_MAX -> INT_MIN < d <= INT_MAX -> INT_MIN < n <= INT_MAX ->
  len (bsdiff_header c d n) = 32.
Proof. intros. unfold bsdiff_header. rewrite !len_app, !len_offtout by done. done. Qed.

Lemma read_bsdiff_header pre c d n post :
  INT_MIN < c <= INT_MAX -> INT_MIN < d <= INT_MAX -> INT_MIN < n <= INT_MAX ->
  let p := pre ++ bsdiff_header c d n ++ post in
  rd_bytes p (len pre) 8 = Ret bsdiff_magic /\ offtin p (len pre + 8) = Ret c
  /\ offtin p (len pre + 16) = Ret d /\ offtin p (len pre + 24) = Ret n.
Proof.
  intros Hc Hd Hn p. pose proof (len_nonneg pre). pose proof (len_nonneg post).
  pose proof (len_bsdiff_header c d n Hc Hd Hn) as Hl.
  assert (len p = len pre + 32 + len post) as Hlp by (subst p; rewrite !len_app; lia).
  split; [|split; [|split]].
  - rewrite rd_bytes_ok by lia. subst p. unfold bsdiff_header. rewrite <- !app_assoc.
    by rewrite slice_mid.
  - pose proof (offtin_offtout_at (pre ++ bsdiff_magic) c (offtout d ++ offtout n ++ post) Hc) as E.
    rewrite len_app in E. subst p. unfold bsdiff_header. rewrite <- !app_assoc in *. exact E.
  - pose proof (offtin_offtout_at (pre ++ bsdiff_magic ++ offtout c) d (offtout n ++ post) Hd) as E.
    rewrite !len_app, len_offtout in E by done.
    subst p. unfold bsdiff_header. rewrite <- !app_assoc in *. exact E.
  - pose proof (offtin_offtout_at (pre ++ bsdiff_magic ++ offtout c ++ offtout d) n post Hn) as E.
    rewrite !len_app, !len_offtout in E by done.
    subst p. unfold bsdiff_header. rewrite <- !app_assoc in *. exact E.
Qed.

(** ** Main theorem *)

Section main.
Context `{bz : BzOps} {laws : BzLaws}.

(** A patch laid out as the format comment says at [patch_offset = len pre],
    whose three blocks decompress to the control triples [ctrls], to [diff] and
    to [extra]. *)
Definition bs_patch_ok (patch : Value) (pre : bytes) (ctrls : list (Z * Z * Z))
    (diff extra : bytes) (new_size : Z) : Prop :=
  exists ctrl_len data_len post,
    0 <= ctrl_len <= INT_MAX /\ 0 <= data_len <= INT_MAX /\
    vdata patch = pre ++ bsdiff_header ctrl_len data_len new_size ++ post /\
    let off := len pre + 32 in
    bz_denotes (snd (BZ2_bzDecompressInit (vdata patch) off (u32 ctrl_len)))
      (enc_ctrls ctrls) /\
    bz_denotes (snd (BZ2_bzDecompressInit (vdata patch) (off + ctrl_len) (u32 data_len))) diff /\
    bz_denotes (snd (BZ2_bzDecompressInit (vdata patch) (off + ctrl_len + data_len)
      (u32 (vsize patch - (off + ctrl_len + data_len))))) extra.

Lemma ApplyBSDiffPatchMem_ok malloc fuel od patch pre ctrls diff extra new_size junk :
  old_ok od -> bs_patch_ok patch pre ctrls diff extra new_size ->
  ctrls_ok ctrls 0 -> diff_total ctrls <= len diff -> extra_total ctrls <= len extra ->
  new_size = diff_total ctrls + extra_total ctrls -> 0 <= new_size <= INT_MAX ->
  malloc new_size = Some junk -> len junk = new_size ->
  (length ctrls + Z.to_nat new_size + 24 <= fuel)%nat ->
  ApplyBSDiffPatchMem malloc fuel od patch (len pre)
  = Ret (0, bspatch_spec od ctrls diff extra 0).
Proof.
  intros Ho (cl & dl & post & Hcl & Hdl & Hp & Hcs & Hds & Hes) Hc Hd He Hn Hmax Hm Hj Hf.
  destruct (read_bsdiff_header pre cl dl new_size post) as (R1 & R2 & R3 & R4);
    [unfold INT_MIN; lia..|].
  unfold ApplyBSDiffPatchMem. cbv zeta in R1, R2, R3, R4. rewrite <- Hp in R1, R2, R3, R4.
  rewrite R1. cbn [mbind outcome_bind]. rewrite bool_decide_true by done. cbn [negb].
  rewrite R2, R3, R4. cbn [mbind outcome_bind].
  rewrite (proj2 (Z.ltb_ge cl 0)), (proj2 (Z.ltb_ge dl 0)), (proj2 (Z.ltb_ge new_size 0)) by lia.
  cbn [orb]. rewrite Hm.
  match goal with |- bs_loop _ _ _ ?s = _ =>
    pose proof (bs_loop_ok od (Z.to_nat new_size + 24) ctrls fuel diff extra [] junk s
      Ho Hc eq_refl eq_refl) as HL end.
  rewrite len_nil, Z.add_0_l, Hj in HL. apply HL; try done; lia.
Qed.
End main.

(** ** Size of the output

    Whatever the streams contain, a successful call returns exactly the number
    of bytes that the header announces. *)

Lemma wr_bytes_len l off src r : wr_bytes l off src = Ret r -> len r = len l.
Proof. intros (?&?&->)%wr_bytes_Ret. by apply len_splice. Qed.

Section size.
Context `{bz : BzOps}.

Lemma FillBuffer_loop_len fuel : forall buf pos n s r buf' s',
  FillBuffer_loop fuel buf pos n s = Ret (r, buf', s') -> len buf' = len buf.
Proof.
  induction fuel as [|fuel IH]; intros buf pos n s r buf' s'; cbn [FillBuffer_loop].
  - destruct (0 <? n); [done|]. by intros [= _ <- _].
  - destruct (0 <? n); [|by intros [= _ <- _]].
    destruct (BZ2_bzDecompress s n) as [[err out] s1]. intros H. inv_ret.
    match goal with H : wr_bytes _ _ _ = Ret _ |- _ => apply wr_bytes_len in H as Hw end.
    destruct (_ && _); [inv_ret; congruence|]. apply IH in H. congruence.
Qed.

Lemma add_old_data_len od n : forall i oldp newp nd nd',
  add_old_data od n i oldp newp nd = Ret nd' -> len nd' = len nd.
Proof.
  induction n as [|n IH]; intros i oldp newp nd nd' H; cbn [add_old_data] in H; inv_ret; [done|].
  apply IH in H. rewrite H. destruct (_ && _); inv_ret; [|done].
  by eapply wr_bytes_len.
Qed.

Lemma bs_step_len fuel od n s s' :
  bs_step fuel od n s = Ret (inl s') -> len (new_data s') = len (new_data s).
Proof.
  unfold bs_step. intros H.
  run_ret.
  cbn [new_data].
  repeat match goal with
    | H : FillBuffer _ _ _ _ _ = Ret _ |- _ => apply FillBuffer_loop_len in H
    | H : add_old_data _ _ _ _ _ _ = Ret _ |- _ => apply add_old_data_len in H
    end. congruence.
Qed.

Lemma bs_loop_len fuel od n : forall s d,
  bs_loop fuel od n s = Ret (0, d) -> len d = len (new_data s).
Proof.
  revert od. induction fuel as [|fuel IH]; intros od s d; cbn [bs_loop];
    (destruct (newpos s <? n); [|by intros [= <-]]); [done|].
  intros H. inv_ret. destruct r as [s'|r].
  - apply IH in H. rewrite H. by eapply bs_step_len.
  - injection H as ? ?. subst. match goal with E : bs_step _ _ _ _ = Ret (inr 0) |- _ => revert E end.
    unfold bs_step. intros H.
    run_ret.
Qed.
End size.

(** ** A concrete stream

    "Compressed" blocks that are stored as they are and handed out at most five
    bytes a call: a model of [BzOps] in which [BzLaws] hold. *)

Definition BZ_SEQUENCE_ERROR : Z := -1.

#[export] Instance stored_bz : BzOps := {
  bz_stream := bytes;
  BZ2_bzDecompressInit data off n := (BZ_OK, slice data off n);
  BZ2_bzDecompress s n :=
    match s with
    | [] => (BZ_SEQUENCE_ERROR, [], [])
    | _ => let k := Z.to_nat (Z.min n 5) in
           ((if bool_decide (length s <= k)%nat then BZ_STREAM_END else BZ_OK), take k s, drop k s)
    end }.

#[export] Instance stored_bz_laws : BzLaws.
Proof.
  refine {| bz_denotes := fun (s : @bz_stream stored_bz) d => s = d; bz_bounded := _; bz_step := _ |}.
  - intros s n err out s' Hn. cbn. destruct s as [|x s].
    + intros [= _ <- _]. by rewrite len_nil.
    + intros [= _ <- _]. change (match Z.to_nat _ with O => _ | S n => _ end)
        with (take (Z.to_nat (Z.min n 5)) (x :: s)).
      unfold len. rewrite length_take. lia.
  - intros s d n -> Hd Hn. destruct d as [|x d]; [done|]. set (k := Z.to_nat (Z.min n 5)).
    do 4 eexists. split; [reflexivity|]. split_and!.
    + cbn. destruct (bool_decide _); auto.
    + fold k. assert (0 < k)%nat by lia. by destruct k; [lia|].
    + symmetry. apply take_drop.
    + done.
Defined.

Definition malloc_ok (n : Z) : option bytes := Some (replicate (Z.to_nat n) 170).

(** The old file is [1..6]; the patch adds 1 to its first three bytes, inserts
    [9; 9], skips one byte and copies the last two. *)
Definition demo_ctrls : list (Z * Z * Z) := [(3, 2, 1); (2, 0, 0)].
Definition demo_diff : bytes := [1; 1; 1; 0; 0].
Definition demo_extra : bytes := [9; 9].
Definition demo_patch : Value :=
  blob (bsdiff_header (len (enc_ctrls demo_ctrls)) (len demo_diff) 7
        ++ enc_ctrls demo_ctrls ++ demo_diff ++ demo_extra).
Definition demo_old : OldData := mkOld [1; 2; 3; 4; 5; 6] 0 6.

Example demo_patch_run :
  ApplyBSDiffPatchMem malloc_ok 60 demo_old demo_patch 0 = Ret (0, [2; 3; 4; 9; 9; 5; 6]).
Proof. vm_compute. reflexivity. Qed.

Lemma demo_patch_ok : bs_patch_ok demo_patch [] demo_ctrls demo_diff demo_extra 7.
Proof.
  exists (len (enc_ctrls demo_ctrls)), (len demo_diff),
    (enc_ctrls demo_ctrls ++ demo_diff ++ demo_extra).
  split_and!; vm_compute; done.
Qed.

(** ** Properties *)

(** Claim C4.  A well-formed bsdiff patch is applied as its control block says:
    for every old file and every patch whose three blocks decompress to control
    triples, diff and extra data that fit the announced size,
    [ApplyBSDiffPatchMem] terminates, returns 0 and produces exactly the bytes
    of [bspatch_spec], independently of what the allocated buffer contained. *)
Theorem bspatch_applies_control_block `{BzLaws} malloc fuel od patch pre ctrls diff extra
    new_size junk :
  old_ok od -> bs_patch_ok patch pre ctrls diff extra new_size ->
  ctrls_ok ctrls 0 -> diff_total ctrls <= len diff -> extra_total ctrls <= len extra ->
  new_size = diff_total ctrls + extra_total ctrls -> 0 <= new_size <= INT_MAX ->
  malloc new_size = Some junk -> len junk = new_size ->
  (length ctrls + Z.to_nat new_size + 24 <= fuel)%nat ->
  ApplyBSDiffPatchMem malloc fuel od patch (len pre)
  = Ret (0, bspatch_spec od ctrls diff extra 0).
Proof. apply ApplyBSDiffPatchMem_ok. Qed.

Lemma bspatch_applies_control_block_witness :
  ApplyBSDiffPatchMem malloc_ok 60 demo_old demo_patch 0
  = Ret (0, bspatch_spec demo_old demo_ctrls demo_diff demo_extra 0).
Proof.
  apply (bspatch_applies_control_block malloc_ok 60 demo_old demo_patch [] demo_ctrls demo_diff
           demo_extra 7 (replicate 7 170)); try reflexivity; try (cbn; unfold INT_MIN, INT_MAX; lia).
  - unfold old_ok. split_and!; vm_compute; done.
  - apply demo_patch_ok.
Defined.

(** Numbers survive the patch format: every [off_t] other than the most
    negative one that [offtout] stores is read back by [offtin], wherever in the
    patch it stands. *)
Theorem offtin_offtout pre x post :
  INT_MIN < x <= INT_MAX -> offtin (pre ++ offtout x ++ post) (len pre) = Ret x.
Proof. apply offtin_offtout_at. Qed.

Lemma offtin_offtout_witness :
  offtin ([7; 7] ++ offtout (-123456) ++ [8]) 2 = Ret (-123456).
Proof. apply (offtin_offtout [7; 7] (-123456) [8]). unfold INT_MIN, INT_MAX; lia. Defined.



(** A patch that announces two bytes and whose only triple asks for one diff
    byte and 2^31-1 extra bytes. *)
Definition overrun_patch : Value :=
  blob (bsdiff_header 24 1 2 ++ enc_ctrls [(1, INT_MAX, 0)] ++ [0] ++ [1; 2; 3; 4; 5; 6; 7]).

