(* ===== verification/Hash.v ===== *)
(** [minzip/Hash.c]: the open-addressing hash table with tombstones, and the
    finite map it implements. *)
From S2P Require Import Prelude.

(** ** Data ([minzip/Hash.h]) *)

Section hash.
Context {A : Type} `{EqDecision A}.

(** A [void*] of a slot: NULL, HASH_TOMBSTONE or a pointer to an item. *)
Inductive Data := NULL | HASH_TOMBSTONE | Ptr (a : A).

Record HashEntry := mkEntry { hashValue : Z; data : Data }.

Record HashTable := mkTable {
  tableSize : Z; numEntries : Z; numDeadEntries : Z; pEntries : list HashEntry }.

Definition is_NULL (d : Data) : bool := match d with NULL => true | _ => false end.
Definition is_TOMBSTONE (d : Data) : bool := match d with HASH_TOMBSTONE => true | _ => false end.
Definition live (d : Data) : option A := match d with Ptr a => Some a | _ => None end.
Definition is_live (d : Data) : bool := match d with Ptr _ => true | _ => false end.

Definition LOAD_NUMER : Z := 5.
Definition LOAD_DENOM : Z := 8.

(** [size_t mzHashSize(size_t size)] *)
Definition mzHashSize (size : Z) : Z := u32 (u32 (size * LOAD_DENOM) / LOAD_NUMER + 1).

(** [unsigned int roundUpPower2(unsigned int val)] *)
Definition roundUpPower2 (val : Z) : Z :=
  let val := u32 (val - 1) in
  let val := Z.lor val (Z.shiftr val 1) in
  let val := Z.lor val (Z.shiftr val 2) in
  let val := Z.lor val (Z.shiftr val 4) in
  let val := Z.lor val (Z.shiftr val 8) in
  let val := Z.lor val (Z.shiftr val 16) in
  u32 (val + 1).

Definition zero_entry : HashEntry := mkEntry 0 NULL.

(** Does the allocator have room for that many entries? *)
Context (calloc_ok : Z -> bool).

(** [assert(c)] *)
Definition assert (c : bool) : outcome unit := if c then Ret tt else Fault.

(** [HashTable* mzHashTableCreate(size_t initialSize, HashFreeFunc freeFunc)];
    [Ret None] is NULL. *)
Definition mzHashTableCreate (initialSize : Z) : outcome (option HashTable) :=
  _ ← assert (0 <? initialSize);
  let size := s32 (roundUpPower2 initialSize) in
  if calloc_ok size
  then Ret (Some (mkTable size 0 0 (replicate (Z.to_nat size) zero_entry)))
  else Ret None.

(** [void mzHashTableClear(HashTable* pHashTable)]: the table and the items
    handed to [freeFunc], in order. *)
Definition mzHashTableClear (t : HashTable) : HashTable * list A :=
  (mkTable (tableSize t) 0 0 ((fun e => mkEntry (hashValue e) NULL) <$> pEntries t),
   omap (fun e => live (data e)) (pEntries t)).

(** [int countTombStones(HashTable* pHashTable)] *)
Definition countTombStones (es : list HashEntry) : Z :=
  Z.of_nat (length (List.filter (fun e => is_TOMBSTONE (data e)) es)).

Definition entry_at (es : list HashEntry) (i : Z) : outcome HashEntry :=
  if 0 <=? i then match es !! Z.to_nat i with Some e => Ret e | None => Fault end else Fault.

(** The inner loop of [resizeHash]: probe for a free slot, wrapping around. *)
Fixpoint probe_free (fuel : nat) (es : list HashEntry) (newSize newIdx : Z) : outcome Z :=
  e ← entry_at es newIdx;
  if is_NULL (data e) then Ret newIdx else
  match fuel with
  | O => Diverge
  | S fuel => probe_free fuel es newSize (Z.land (newIdx + 1) (newSize - 1))
  end.

Fixpoint rehash (fuel : nat) (old : list HashEntry) (newSize : Z) (es : list HashEntry)
    : outcome (list HashEntry) :=
  match old with
  | [] => Ret es
  | e :: old =>
      if is_NULL (data e) || is_TOMBSTONE (data e) then rehash fuel old newSize es else
      newIdx ← probe_free fuel es newSize (Z.land (hashValue e) (newSize - 1));
      rehash fuel old newSize (<[Z.to_nat newIdx := mkEntry (hashValue e) (data e)]> es)
  end.

(** [bool resizeHash(HashTable* pHashTable, int newSize)]; [Ret None] is false. *)
Definition resizeHash (fuel : nat) (t : HashTable) (newSize : Z) : outcome (option HashTable) :=
  _ ← assert (countTombStones (pEntries t) =? numDeadEntries t);
  if calloc_ok newSize then
    es ← rehash fuel (pEntries t) newSize (replicate (Z.to_nat newSize) zero_entry);
    _ ← assert (countTombStones es =? 0);
    Ret (Some (mkTable newSize (numEntries t) 0 es))
  else Ret None.

(** The probing loop of [mzHashTableLookup]: the index at which it stops, with
    [found e] the test of lines 194-196.  [tableSize] itself stands for [pEnd]. *)
Fixpoint probe (fuel : nat) (found : HashEntry -> bool) (t : HashTable) (pEntry : Z) : outcome Z :=
  e ← entry_at (pEntries t) pEntry;
  if is_NULL (data e) then Ret pEntry else
  if found e then Ret pEntry else
  match fuel with
  | O => Diverge
  | S fuel =>
      let pEntry := pEntry + 1 in
      if pEntry =? tableSize t then
        if tableSize t =? 1 then Ret pEntry else probe fuel found t 0
      else probe fuel found t pEntry
  end.

Definition first_slot (t : HashTable) (itemHash : Z) : Z := Z.land itemHash (tableSize t - 1).

(** [void* mzHashTableLookup(pHashTable, itemHash, item, cmpFunc, doAdd)].  The
    loose item has type [B]; [doAdd = Some a] when the flag is set, [a] being
    the same pointer seen as an item of the table. *)
Definition mzHashTableLookup {B : Type} (fuel : nat) (t : HashTable) (itemHash : Z) (item : B)
    (cmpFunc : A -> B -> Z) (doAdd : option A) : outcome (option A * HashTable) :=
  _ ← assert (0 <? tableSize t);
  let found e :=
    match data e with
    | Ptr a => (hashValue e =? itemHash) && (cmpFunc a item =? 0)
    | _ => false
    end in
  i ← probe fuel found t (first_slot t itemHash);
  e ← entry_at (pEntries t) i;
  match data e with
  | NULL =>
      match doAdd with
      | Some a =>
          let t := mkTable (tableSize t) (s32 (numEntries t + 1)) (numDeadEntries t)
                     (<[Z.to_nat i := mkEntry itemHash (Ptr a)]> (pEntries t)) in
          t ← (if s32 (tableSize t * LOAD_NUMER)
                  <? s32 ((numEntries t + numDeadEntries t) * LOAD_DENOM) then
                 r ← resizeHash fuel t (s32 (tableSize t * 2));
                 match r with Some t => Ret t | None => Fault (* abort() *) end
               else Ret t);
          _ ← assert (numEntries t <? tableSize t);
          Ret (Some a, t)
      | None => Ret (None, t)
      end
  | HASH_TOMBSTONE => Fault
  | Ptr a => Ret (Some a, t)
  end.

(** [bool mzHashTableRemove(pHashTable, itemHash, item)] *)
Definition mzHashTableRemove (fuel : nat) (t : HashTable) (itemHash : Z) (item : A)
    : outcome (bool * HashTable) :=
  _ ← assert (0 <? tableSize t);
  let found e := match data e with Ptr a => bool_decide (a = item) | _ => false end in
  i ← probe fuel found t (first_slot t itemHash);
  if i =? tableSize t then Ret (false, t) else   (* the break of lines 276-277 *)
  e ← entry_at (pEntries t) i;
  if found e then
    Ret (true, mkTable (tableSize t) (s32 (numEntries t - 1)) (s32 (numDeadEntries t + 1))
                 (<[Z.to_nat i := mkEntry (hashValue e) HASH_TOMBSTONE]> (pEntries t)))
  else Ret (false, t).

(** [int mzHashForeach(pHashTable, func, arg)] with the state [S] of [arg]. *)
Fixpoint foreach {S : Type} (func : A -> S -> Z * S) (es : list HashEntry) (arg : S) : Z * S :=
  match es with
  | [] => (0, arg)
  | e :: es =>
      match data e with
      | Ptr a => let '(val, arg) := func a arg in
                 if negb (val =? 0) then (val, arg) else foreach func es arg
      | _ => foreach func es arg
      end
  end.
Definition mzHashForeach {S : Type} (t : HashTable) (func : A -> S -> Z * S) (arg : S) : Z * S :=
  foreach func (pEntries t) arg.

(** [int countProbes(pHashTable, itemHash, item, cmpFunc)] *)
Fixpoint countProbes_loop (fuel : nat) (found : HashEntry -> bool) (t : HashTable)
    (pEntry count : Z) : outcome Z :=
  e ← entry_at (pEntries t) pEntry;
  if is_NULL (data e) then Ret (-1) else
  if found e then Ret count else
  match fuel with
  | O => Diverge
  | S fuel =>
      let pEntry := pEntry + 1 in
      if pEntry =? tableSize t then
        if tableSize t =? 1 then
          (e ← entry_at (pEntries t) pEntry; Ret (if is_NULL (data e) then -1 else count))
        else countProbes_loop fuel found t 0 (count + 1)
      else countProbes_loop fuel found t pEntry (count + 1)
  end.
Definition countProbes {B : Type} (fuel : nat) (t : HashTable) (itemHash : Z) (item : B)
    (cmpFunc : A -> B -> Z) : outcome Z :=
  _ ← assert (0 <? tableSize t);
  countProbes_loop fuel
    (fun e => match data e with
              | Ptr a => (hashValue e =? itemHash) && (cmpFunc a item =? 0)
              | _ => false end)
    t (first_slot t itemHash) 0.

(** [HashIter]: the index part of the iterator. *)
Fixpoint iter_from (es : list HashEntry) (i : Z) : Z :=
  match es with
  | [] => i
  | e :: es => if is_NULL (data e) || is_TOMBSTONE (data e) then iter_from es (i + 1) else i
  end.
Definition mzHashIterNext (t : HashTable) (idx : Z) : Z :=
  iter_from (drop (Z.to_nat (idx + 1)) (pEntries t)) (idx + 1).
Definition mzHashIterBegin (t : HashTable) : Z := mzHashIterNext t (-1).
Definition mzHashIterDone (t : HashTable) (idx : Z) : bool := tableSize t <=? idx.
Definition mzHashIterData (t : HashTable) (idx : Z) : outcome Data :=
  _ ← assert ((0 <=? idx) && (idx <? tableSize t));
  e ← entry_at (pEntries t) idx; Ret (data e).

End hash.
Arguments Data : clear implicits.
Arguments HashEntry : clear implicits.
Arguments HashTable : clear implicits.

(** ** [roundUpPower2] *)

(** After the shifts, bit [i] is set iff one of the bits [i .. i + w - 1] of the
    original is. *)
Definition spreads (x : Z) (w : Z) (y : Z) : Prop :=
  forall i, 0 <= i -> Z.testbit y i = true <-> exists d, 0 <= d < w /\ Z.testbit x (i + d) = true.

Lemma spreads_step x w y : 0 < w -> spreads x w y -> spreads x (2 * w) (Z.lor y (Z.shiftr y w)).
Proof.
  intros Hw Hy i Hi. rewrite Z.lor_spec, orb_true_iff, Z.shiftr_spec by lia.
  unfold spreads in Hy. rewrite (Hy i), (Hy (i + w)) by lia. split.
  - intros [(d & ? & ?)|(d & ? & ?)]; [exists d|exists (w + d)]; (split; [lia|]); [done|].
    by rewrite Z.add_assoc.
  - intros (d & ? & ?). destruct (Z.lt_ge_cases d w); [left; exists d; auto with lia|].
    right. exists (d - w). split; [lia|]. by replace (i + w + (d - w)) with (i + d) by lia.
Qed.

Lemma spreads_ones x y : 0 < x < 2 ^ 32 -> 0 <= y -> spreads x 32 y -> y = 2 ^ (Z.log2 x + 1) - 1.
Proof.
  intros Hx Hy Hs. pose proof (Z.log2_nonneg x).
  assert (Z.log2 x < 32) by (apply Z.log2_lt_pow2; lia).
  rewrite Z.sub_1_r, <- Z.ones_equiv. apply Z.bits_inj'. intros i Hi.
  destruct (Z.lt_ge_cases i (Z.log2 x + 1)).
  - rewrite Z.ones_spec_low by lia. apply Hs; [done|]. exists (Z.log2 x - i).
    split; [lia|]. replace (i + (Z.log2 x - i)) with (Z.log2 x) by lia. apply Z.bit_log2; lia.
  - rewrite Z.ones_spec_high by lia. apply not_true_iff_false.
    intros (d & ? & Hd)%Hs; [|done]. rewrite Z.bits_above_log2 in Hd by lia. done.
Qed.

Lemma roundUpPower2_spec v :
  1 < v <= 2 ^ 31 -> roundUpPower2 v = 2 ^ (Z.log2 (v - 1) + 1).
Proof.
  intros Hv. unfold roundUpPower2. rewrite (u32_small (v - 1)) by lia.
  set (x := v - 1). assert (0 < x < 2 ^ 31) as Hx by (subst x; lia).
  assert (spreads x 1 x) as S0.
  { intros i Hi. split; [intros; exists 0; rewrite Z.add_0_r; auto with lia|].
    intros (d & ? & E). by replace d with 0 in E by lia; rewrite Z.add_0_r in E. }
  apply spreads_step in S0; [|lia]. apply spreads_step in S0; [|lia].
  apply spreads_step in S0; [|lia]. apply spreads_step in S0; [|lia].
  apply spreads_step in S0; [|lia]. simpl (2 * _) in S0.
  cbv zeta. revert S0. set (y := Z.lor _ (Z.shiftr _ 16)). intros S0.
  assert (0 <= y) as Hy.
  { subst y. repeat (rewrite ?Z.lor_nonneg, ?Z.shiftr_nonneg). lia. }
  rewrite (spreads_ones x y) by (done || lia).
  assert (Z.log2 x + 1 <= 31) by (assert (Z.log2 x < 31) by (apply Z.log2_lt_pow2; lia); lia).
  pose proof (Z.pow_le_mono_r 2 (Z.log2 x + 1) 31). pose proof (Z.pow_pos_nonneg 2 (Z.log2 x + 1)).
  pose proof (Z.log2_nonneg x). rewrite u32_small by lia. lia.
Qed.

(** The result is the least power of two that is not below the argument. *)
Lemma roundUpPower2_ge v :
  1 <= v <= 2 ^ 31 -> exists k, 0 <= k <= 31 /\ roundUpPower2 v = 2 ^ k /\ v <= 2 ^ k < 2 * v.
Proof.
  intros Hv. destruct (Z.eq_dec v 1) as [->|].
  { exists 0. split; [lia|]. split; [reflexivity|]. lia. }
  exists (Z.log2 (v - 1) + 1). pose proof (Z.log2_nonneg (v - 1)).
  pose proof (Z.log2_spec (v - 1)) as [? ?]; [lia|].
  assert (Z.log2 (v - 1) < 31) by (apply Z.log2_lt_pow2; lia).
  rewrite roundUpPower2_spec by lia. split; [lia|]. split; [done|].
  rewrite <- Z.add_1_r in *. rewrite Z.pow_add_r in * by lia. lia.
Qed.

(** ** Probing

    The slots visited from hash [h] are [(h + j) mod size], j = 0, 1, ... *)

Definition slot (size h j : Z) : Z := (h + j) mod size.

Lemma slot_range size h j : 0 < size -> 0 <= slot size h j < size.
Proof. intros. by apply Z.mod_pos_bound. Qed.

Lemma slot_succ size h j :
  0 < size -> slot size h (j + 1) = if slot size h j + 1 =? size then 0 else slot size h j + 1.
Proof.
  intros Hs. unfold slot. rewrite Z.add_assoc.
  pose proof (Z.mod_pos_bound (h + j) size Hs) as Hr.
  pose proof (Z.div_mod (h + j) size ltac:(lia)) as E.
  destruct (Z.eqb_spec ((h + j) mod size + 1) size) as [E1|E1].
  - symmetry. apply (Z.mod_unique_pos _ _ ((h + j) / size + 1)); lia.
  - symmetry. apply (Z.mod_unique_pos _ _ ((h + j) / size)); lia.
Qed.

Lemma slot_reach size h i : 0 <= i < size -> slot size h ((i - h) mod size) = i.
Proof.
  intros. unfold slot. rewrite Z.add_mod_idemp_r by lia.
  replace (h + (i - h)) with i by lia. by apply Z.mod_small.
Qed.

Lemma land_pow2_slot k h : 0 <= k -> Z.land h (2 ^ k - 1) = slot (2 ^ k) h 0.
Proof.
  intros. unfold slot. rewrite Z.add_0_r, Z.sub_1_r, <- Z.ones_equiv. by apply Z.land_ones.
Qed.

(** The first index at which a test holds. *)
Lemma first_true (f : nat -> bool) n : (exists j, (j < n)%nat /\ f j = true) ->
  exists j, (j < n)%nat /\ f j = true /\ forall i, (i < j)%nat -> f i = false.
Proof.
  revert f; induction n as [|n IH]; intros f (j & Hj & Hf); [lia|].
  destruct (f 0%nat) eqn:E0; [exists 0%nat; split; [lia|]; split; [done|lia]|].
  destruct j as [|j]; [congruence|].
  destruct (IH (fun i => f (S i))) as (k & ? & ? & Hk); [exists j; split; [lia|done]|].
  exists (S k). split; [lia|]. split; [done|]. intros [|i] ?; [done|]. apply Hk. lia.
Qed.

Section probing.
Context {A : Type}.
Implicit Types (t : HashTable A) (es : list (HashEntry A)).

Definition null_at es (i : Z) : bool :=
  match es !! Z.to_nat i with Some e => is_NULL (data e) | None => false end.

Definition shape_ok t : Prop :=
  exists k, 0 <= k <= 28 /\ tableSize t = 2 ^ k /\ Z.of_nat (length (pEntries t)) = tableSize t.

Lemma shape_pos t : shape_ok t -> 0 < tableSize t.
Proof. intros (k & ? & -> & _). apply Z.pow_pos_nonneg; lia. Qed.

Lemma entry_at_ok es i :
  0 <= i < Z.of_nat (length es) -> exists e, es !! Z.to_nat i = Some e /\ entry_at es i = Ret e.
Proof.
  intros [? ?]. destruct (lookup_lt_is_Some_2 es (Z.to_nat i)) as [e He]; [lia|].
  exists e. split; [done|]. unfold entry_at. rewrite (proj2 (Z.leb_le 0 i)) by done. by rewrite He.
Qed.

Lemma first_slot_slot t h : shape_ok t -> first_slot t h = slot (tableSize t) h 0.
Proof. intros (k & ? & E & _). unfold first_slot. rewrite E. apply land_pow2_slot; lia. Qed.

Definition stops (found : HashEntry A -> bool) es (size h : Z) (j : nat) : bool :=
  match es !! Z.to_nat (slot size h (Z.of_nat j)) with
  | Some e => is_NULL (data e) || found e
  | None => false
  end.

(** From the [j]-th slot on, the loop ends at the first slot [J] that stops it. *)
Lemma probe_stops found t h J : shape_ok t ->
  stops found (pEntries t) (tableSize t) h J = true ->
  forall d j fuel, (J = j + d)%nat -> (d <= fuel)%nat ->
  (forall i, (j <= i < J)%nat -> stops found (pEntries t) (tableSize t) h i = false) ->
  probe fuel found t (slot (tableSize t) h (Z.of_nat j))
  = Ret (slot (tableSize t) h (Z.of_nat J)).
Proof.
  intros Hok HJ. pose proof (shape_pos t Hok) as Hpos. destruct Hok as (k & Hk & Hsize & Hlen).
  induction d as [|d IH]; intros j fuel -> Hf Hno.
  - rewrite Nat.add_0_r in *.
    destruct (entry_at_ok (pEntries t) (slot (tableSize t) h (Z.of_nat j))) as (e & He & Hat);
      [rewrite Hlen; by apply slot_range|].
    unfold stops in HJ. rewrite He in HJ.
    destruct fuel; cbn [probe]; rewrite Hat; cbn [mbind outcome_bind];
      (destruct (is_NULL (data e)); [done|]); simpl in HJ; by rewrite HJ.
  - destruct fuel as [|fuel]; [lia|]. cbn [probe].
    destruct (entry_at_ok (pEntries t) (slot (tableSize t) h (Z.of_nat j))) as (e & He & Hat);
      [rewrite Hlen; by apply slot_range|].
    pose proof (Hno j ltac:(lia)) as Hj. unfold stops in Hj. rewrite He in Hj.
    apply orb_false_iff in Hj as [Hn Hfd]. rewrite Hat. cbn [mbind outcome_bind].
    rewrite Hn, Hfd. pose proof (slot_succ (tableSize t) h (Z.of_nat j) Hpos) as Hsucc.
    replace (Z.of_nat j + 1) with (Z.of_nat (S j)) in Hsucc by lia.
    assert (probe fuel found t (slot (tableSize t) h (Z.of_nat (S j)))
            = Ret (slot (tableSize t) h (Z.of_nat (j + S d)))) as HR.
    { apply IH; [lia|lia|]. intros; apply Hno; lia. }
    destruct (Z.eqb_spec (slot (tableSize t) h (Z.of_nat j) + 1) (tableSize t)) as [E|E];
      rewrite Hsucc in HR; [|done].
    destruct (Z.eqb_spec (tableSize t) 1) as [E1|E1]; [|done].
    exfalso. assert (forall i, slot (tableSize t) h i = 0) as Hz.
    { intros i. unfold slot. rewrite E1. apply Z.mod_1_r. }
    unfold stops in HJ. rewrite Hz in HJ. rewrite Hz in He. rewrite He, Hn, Hfd in HJ. done.
Qed.

(** If some slot is empty the search ends, at the first slot that stops it. *)
Lemma probe_ends found t h fuel i : shape_ok t ->
  0 <= i < tableSize t -> null_at (pEntries t) i = true -> (Z.to_nat (tableSize t) <= fuel)%nat ->
  exists J, (Z.of_nat J < tableSize t) /\
    stops found (pEntries t) (tableSize t) h J = true /\
    (forall j, (j < J)%nat -> stops found (pEntries t) (tableSize t) h j = false) /\
    probe fuel found t (first_slot t h) = Ret (slot (tableSize t) h (Z.of_nat J)).
Proof.
  intros Hok Hi Hn Hf. pose proof (shape_pos t Hok) as Hpos.
  destruct (first_true (stops found (pEntries t) (tableSize t) h) (Z.to_nat (tableSize t)))
    as (J & HJ & HJt & HJf).
  { pose proof (Z.mod_pos_bound (i - h) (tableSize t) Hpos).
    exists (Z.to_nat ((i - h) mod tableSize t)). split; [lia|]. unfold stops.
    rewrite Z2Nat.id, slot_reach by lia. unfold null_at in Hn.
    destruct (pEntries t !! Z.to_nat i); [by rewrite Hn|done]. }
  exists J. split; [lia|]. split; [done|]. split; [done|].
  rewrite first_slot_slot by done. apply (probe_stops found t h J Hok HJt J 0); [lia|lia|].
  intros; apply HJf; lia.
Qed.
End probing.

(** ** The map a table implements *)

Definition count {X} (f : X -> bool) (l : list X) : nat := length (List.filter f l).

Lemma count_insert {X} (f : X -> bool) l i x y :
  l !! i = Some x ->
  (count f (<[i:=y]> l) + (if f x then 1 else 0) = count f l + (if f y then 1 else 0))%nat.
Proof.
  unfold count. revert i; induction l as [|z l IH]; intros [|i] Hi; simplify_eq/=.
  - destruct (f x), (f y); simpl; lia.
  - apply IH in Hi. destruct (f z); simpl; lia.
Qed.

Section refinement.
Context {A K : Type} `{EqDecision A} `{Countable K}.
Context (key : A -> K) (hashf : K -> Z).
Implicit Types (t : HashTable A) (es : list (HashEntry A)) (m : gmap K A).

Definition live_count es : nat := count (fun e => is_live (data e)) es.
Definition tomb_count es : nat := count (fun e => is_TOMBSTONE (data e)) es.

(** The items of [es] are the values of [m], each stored once, under its hash,
    and reachable by probing. *)
Record entries_rep (size : Z) es m : Prop := {
  er_live : forall i e a, es !! i = Some e -> data e = Ptr a ->
    hashValue e = hashf (key a) /\ m !! key a = Some a;
  er_map : forall k a, m !! k = Some a ->
    key a = k /\ exists i e, es !! i = Some e /\ data e = Ptr a;
  er_uniq : forall i j e e' a a', es !! i = Some e -> es !! j = Some e' ->
    data e = Ptr a -> data e' = Ptr a' -> key a = key a' -> i = j;
  er_reach : forall i e a, es !! i = Some e -> data e = Ptr a ->
    exists J : nat, Z.of_nat i = slot size (hashValue e) (Z.of_nat J) /\
      forall j, (j < J)%nat -> null_at es (slot size (hashValue e) (Z.of_nat j)) = false }.

(** The invariant of a table that stands for [m]. *)
Record table_rep t m : Prop := {
  tr_shape : shape_ok t;
  tr_entries : entries_rep (tableSize t) (pEntries t) m;
  tr_live : numEntries t = Z.of_nat (live_count (pEntries t));
  tr_dead : numDeadEntries t = Z.of_nat (tomb_count (pEntries t));
  tr_load : (numEntries t + numDeadEntries t) * LOAD_DENOM <= tableSize t * LOAD_NUMER }.

Lemma null_exists es :
  (live_count es + tomb_count es < length es)%nat ->
  exists i, 0 <= i < Z.of_nat (length es) /\ null_at es i = true.
Proof.
  unfold live_count, tomb_count, count.
  induction es as [|e es IH]; simpl; [lia|]. intros Hlt.
  destruct (data e) as [| |a] eqn:E; simpl in Hlt.
  - exists 0. split; [lia|]. unfold null_at. simpl. by rewrite E.
  - destruct IH as (i & ? & Hi); [lia|]. exists (i + 1). split; [lia|].
    unfold null_at in *. by replace (Z.to_nat (i + 1)) with (S (Z.to_nat i)) by lia.
  - destruct IH as (i & ? & Hi); [lia|]. exists (i + 1). split; [lia|].
    unfold null_at in *. by replace (Z.to_nat (i + 1)) with (S (Z.to_nat i)) by lia.
Qed.

Lemma table_has_null t m :
  table_rep t m -> exists i, 0 <= i < tableSize t /\ null_at (pEntries t) i = true.
Proof.
  intros [Hs _ Hl Hd Hload]. pose proof (shape_pos t Hs). destruct Hs as (k & ? & ? & Hlen).
  destruct (null_exists (pEntries t)) as (i & ? & ?);
    [unfold LOAD_DENOM, LOAD_NUMER in Hload; lia|].
  exists i. split; [lia|done].
Qed.

Lemma null_at_insert es i e j :
  null_at es j = false -> is_NULL (data e) = false -> null_at (<[i:=e]> es) j = false.
Proof.
  intros Hj He. unfold null_at in *. rewrite list_lookup_insert.
  case_decide; [|done]. by destruct e as [h []].
Qed.

Lemma rep_empty size n : entries_rep size (replicate n zero_entry) ∅.
Proof.
  split.
  - intros i e a [-> _]%lookup_replicate. done.
  - intros k a. by rewrite lookup_empty.
  - intros i j e e' a a' [-> _]%lookup_replicate. done.
  - intros i e a [-> _]%lookup_replicate. done.
Qed.

(** Storing a new item in the first empty slot of its probe sequence. *)
Lemma rep_place size es m a (J : nat) (i : nat) e0 :
  entries_rep size es m -> m !! key a = None ->
  es !! i = Some e0 -> is_live (data e0) = false ->
  Z.of_nat i = slot size (hashf (key a)) (Z.of_nat J) ->
  (forall j, (j < J)%nat -> null_at es (slot size (hashf (key a)) (Z.of_nat j)) = false) ->
  entries_rep size (<[i := mkEntry (hashf (key a)) (Ptr a)]> es) (<[key a := a]> m).
Proof.
  intros [Hl Hm Hu Hr] Hnew Hi0 He0 Hi HJ.
  assert (i < length es)%nat as Hlt by (by eapply lookup_lt_Some).
  split.
  - intros j e b Hj Hb. rewrite list_lookup_insert in Hj. case_decide; simplify_eq/=.
    + by rewrite lookup_insert_eq.
    + destruct (Hl j e b Hj Hb) as [? Hk]. split; [done|].
      rewrite lookup_insert_ne; [done|]. intros E. congruence.
  - intros k b Hk. destruct (decide (key a = k)) as [<-|Hne].
    + rewrite lookup_insert_eq in Hk. simplify_eq. split; [done|].
      exists i. eexists. rewrite list_lookup_insert_eq by done. done.
    + rewrite lookup_insert_ne in Hk by done. destruct (Hm k b Hk) as (? & j & e & Hj & Hb).
      split; [done|]. exists j, e. split; [|done].
      rewrite list_lookup_insert_ne; [done|]. intros <-. simplify_eq. by rewrite Hb in He0.
  - intros j j' e e' b b' Hj Hj' Hb Hb' Hkey.
    rewrite list_lookup_insert in Hj. rewrite list_lookup_insert in Hj'.
    repeat case_decide; simplify_eq/=; [lia| | |eauto].
    + destruct (Hl j e b Hj Hb) as [_ Hk]. congruence.
    + destruct (Hl j' e' b' Hj' Hb') as [_ Hk]. congruence.
  - intros j e b Hj Hb. rewrite list_lookup_insert in Hj. case_decide; simplify_eq/=.
    + exists J. split; [lia|]. intros. apply null_at_insert; auto.
    + destruct (Hr j e b Hj Hb) as (J' & ? & HJ'). exists J'. split; [done|].
      intros. apply null_at_insert; auto.
Qed.

(** A test that recognises the item with key [k]. *)
Definition finds (found : HashEntry A -> bool) (k : K) : Prop :=
  forall e, found e = true <-> exists a, data e = Ptr a /\ hashValue e = hashf k /\ key a = k.

Lemma not_stops_not_null found es size h j :
  stops found es size h j = false -> null_at es (slot size h (Z.of_nat j)) = false.
Proof.
  unfold stops, null_at. destruct (es !! _); [|done]. by intros [? _]%orb_false_iff.
Qed.

(** Where the search for [k] ends. *)
Lemma lookup_probe t m k found fuel :
  table_rep t m -> finds found k -> (Z.to_nat (tableSize t) <= fuel)%nat ->
  exists i e, probe fuel found t (first_slot t (hashf k)) = Ret i /\
    entry_at (pEntries t) i = Ret e /\ pEntries t !! Z.to_nat i = Some e /\
    0 <= i < tableSize t /\
    match m !! k with
    | Some a => data e = Ptr a
    | None => data e = NULL /\ exists J : nat, i = slot (tableSize t) (hashf k) (Z.of_nat J) /\
        forall j, (j < J)%nat ->
          null_at (pEntries t) (slot (tableSize t) (hashf k) (Z.of_nat j)) = false
    end.
Proof.
  intros Ht Hfind Hf. destruct (table_has_null t m Ht) as (n & Hn & Hnull).
  destruct Ht as [Hs [Hl Hm Hu Hr] _ _ _]. pose proof (shape_pos t Hs) as Hpos.
  destruct (probe_ends found t (hashf k) fuel n Hs Hn Hnull Hf) as (J & HJ & Hstop & Hbefore & Hp).
  pose proof Hs as (p & Hpk & Hsize & Hlen).
  set (i := slot (tableSize t) (hashf k) (Z.of_nat J)) in *.
  assert (0 <= i < tableSize t) as Hi by (by apply slot_range).
  destruct (entry_at_ok (pEntries t) i) as (e & He & Hat); [lia|].
  exists i, e. do 4 (split; [done|]).
  unfold stops in Hstop. fold i in Hstop. rewrite He in Hstop. apply orb_true_iff in Hstop.
  destruct (m !! k) as [a|] eqn:Hk.
  - destruct (Hm k a Hk) as (Hka & i' & e' & He' & Ha').
    destruct (Hl _ _ _ He' Ha') as [Hh _]. rewrite Hka in Hh.
    destruct (Hr _ _ _ He' Ha') as (J' & HJ' & Hpath). rewrite Hh in HJ', Hpath.
    assert (found e' = true) as Hfe' by (apply Hfind; exists a; auto).
    assert (stops found (pEntries t) (tableSize t) (hashf k) J' = true) as Hst'.
    { unfold stops. rewrite <- HJ', Nat2Z.id, He'. rewrite Hfe'. apply orb_true_r. }
    assert (J <= J')%nat as HJle.
    { destruct (decide (J <= J')%nat); [done|]. rewrite Hbefore in Hst' by lia. done. }
    destruct Hstop as [Hnul|Hfe].
    + destruct (decide (J < J')%nat) as [Hlt|].
      * apply Hpath in Hlt. unfold null_at in Hlt. fold i in Hlt. rewrite He in Hlt. congruence.
      * assert (J = J') as -> by lia. subst i. rewrite <- HJ', Nat2Z.id in He. simplify_eq.
        by rewrite Ha' in Hnul.
    + apply Hfind in Hfe as (b & Hb & _ & Hkb).
      destruct (Hl _ _ _ He Hb) as [_ Hmb]. rewrite Hkb, Hk in Hmb. by simplify_eq.
  - destruct Hstop as [Hnul|Hfe].
    + split; [by destruct (data e)|]. exists J. split; [done|]. intros j Hj.
      eapply not_stops_not_null, Hbefore, Hj.
    + exfalso. apply Hfind in Hfe as (b & Hb & _ & Hkb).
      destruct (Hl _ _ _ He Hb) as [_ Hmb]. congruence.
Qed.

Lemma item_in_range size es m i e a :
  entries_rep size es m -> es !! i = Some e -> data e = Ptr a -> m !! key a = Some a.
Proof. intros [Hl _ _ _] Hi Ha. by destruct (Hl i e a Hi Ha). Qed.

(** ** Resizing *)

Lemma probe_free_probe fuel es k idx :
  1 <= k <= 28 -> 0 <= idx < 2 ^ k ->
  probe_free fuel es (2 ^ k) idx = probe fuel (fun _ => false) (mkTable (2 ^ k) 0 0 es) idx.
Proof.
  intros Hk. pose proof (Z.pow_le_mono_r 2 1 k) as Hpow. change (2 ^ 1) with 2 in Hpow.
  revert idx; induction fuel as [|fuel IH]; intros idx Hidx; [done|].
  cbn [probe_free probe pEntries tableSize]. destruct (entry_at es idx); [|done|done].
  cbn [mbind outcome_bind]. destruct (is_NULL _); [done|].
  rewrite land_pow2_slot by lia. unfold slot. rewrite Z.add_0_r.
  rewrite (proj2 (Z.eqb_neq (2 ^ k) 1)) by lia.
  destruct (Z.eqb_spec (idx + 1) (2 ^ k)) as [E|E].
  - rewrite E, Z_mod_same_full. apply IH. lia.
  - rewrite Z.mod_small by lia. apply IH. lia.
Qed.

Definition add_items m (l : list A) : gmap K A := foldl (fun m a => <[key a := a]> m) m l.
Definition items es : list A := omap (fun e => live (data e)) es.

Lemma add_items_lookup_other l m k : k ∉ key <$> l -> add_items m l !! k = m !! k.
Proof.
  revert m; induction l as [|a l IH]; intros m Hk; [done|]. rewrite fmap_cons in Hk.
  apply not_elem_of_cons in Hk as [Hne Hk]. simpl. rewrite IH by done. by rewrite lookup_insert_ne.
Qed.

Lemma add_items_lookup l m a : NoDup (key <$> l) -> a ∈ l -> add_items m l !! key a = Some a.
Proof.
  revert m; induction l as [|b l IH]; intros m Hnd Ha; [by apply not_elem_of_nil in Ha|].
  rewrite fmap_cons in Hnd. apply list.NoDup_cons in Hnd as [Hb Hnd].
  apply elem_of_cons in Ha as [->|Ha]; simpl; [|by apply IH].
  rewrite add_items_lookup_other by done. by rewrite lookup_insert_eq.
Qed.

Lemma live_count_items es : live_count es = length (items es).
Proof.
  unfold live_count, count, items. induction es as [|e es IH]; [done|].
  cbn. destruct (data e); cbn; auto.
Qed.

(** Re-inserting entries into a table with enough room places every item. *)
Lemma rehash_ok k fuel old : 1 <= k <= 28 -> (Z.to_nat (2 ^ k) <= fuel)%nat ->
  forall es m, Z.of_nat (length es) = 2 ^ k -> entries_rep (2 ^ k) es m -> tomb_count es = 0%nat ->
  Z.of_nat (live_count es + live_count old) < 2 ^ k ->
  NoDup (key <$> items old) -> (forall a, a ∈ items old -> m !! key a = None) ->
  (forall e a, e ∈ old -> data e = Ptr a -> hashValue e = hashf (key a)) ->
  exists es', rehash fuel old (2 ^ k) es = Ret es' /\ Z.of_nat (length es') = 2 ^ k /\
    entries_rep (2 ^ k) es' (add_items m (items old)) /\ tomb_count es' = 0%nat /\
    live_count es' = (live_count es + live_count old)%nat.
Proof.
  intros Hk Hfuel. induction old as [|e old IH]; intros es m Hlen Hrep Htomb Hroom Hnd Hfresh Hhash.
  { exists es. unfold live_count at 3. cbn. split_and!; auto. }
  cbn [rehash]. destruct (data e) as [| |a] eqn:E; cbn [is_NULL is_TOMBSTONE orb].
  1,2: unfold live_count, items in *; cbn in *; rewrite E in *; cbn in *; apply IH; auto;
    intros e' a' He'; apply Hhash; by apply list_elem_of_further.
  assert (items (e :: old) = a :: items old) as Eit by (unfold items; cbn; by rewrite E).
  assert (live_count (e :: old) = S (live_count old)) as Elc
    by (unfold live_count, count; cbn; by rewrite E).
  rewrite Eit in *. rewrite Elc in *. rewrite fmap_cons in Hnd. apply list.NoDup_cons in Hnd as [Ha Hnd].
  assert (hashValue e = hashf (key a)) as Hh by (apply Hhash; [apply list_elem_of_here|done]).
  assert (shape_ok (mkTable (2 ^ k) 0 0 es)) as Hsh by (exists k; auto with lia).
  destruct (null_exists es) as (n & Hn & Hnull); [lia|].
  destruct (probe_ends (fun _ => false) (mkTable (2 ^ k) 0 0 es) (hashf (key a)) fuel n Hsh)
    as (J & HJ & Hstop & Hbefore & Hp); cbn [tableSize pEntries] in *; [lia|done|done|].
  unfold first_slot in Hp. cbn [tableSize] in Hp.
  pose proof (slot_range (2 ^ k) (hashf (key a)) 0 ltac:(lia)) as Hs0.
  rewrite Hh, probe_free_probe by (rewrite ?land_pow2_slot by lia; done || lia).
  rewrite Hp. cbn [mbind outcome_bind]. set (i := slot (2 ^ k) (hashf (key a)) (Z.of_nat J)) in *.
  pose proof (slot_range (2 ^ k) (hashf (key a)) (Z.of_nat J) ltac:(lia)) as Hi. fold i in Hi.
  destruct (lookup_lt_is_Some_2 es (Z.to_nat i)) as [e0 He0]; [lia|].
  unfold stops in Hstop. fold i in Hstop. rewrite He0, orb_false_r in Hstop.
  pose proof (count_insert (fun e => is_live (data e)) es (Z.to_nat i) e0
    (mkEntry (hashf (key a)) (Ptr a)) He0) as Cl.
  pose proof (count_insert (fun e => is_TOMBSTONE (data e)) es (Z.to_nat i) e0
    (mkEntry (hashf (key a)) (Ptr a)) He0) as Ct.
  cbn in Cl, Ct. destruct (data e0) eqn:D0; try done. cbn in Cl, Ct.
  fold (live_count es) in Cl. fold (tomb_count es) in Ct.
  fold (live_count (<[Z.to_nat i:=mkEntry (hashf (key a)) (Ptr a)]> es)) in Cl.
  fold (tomb_count (<[Z.to_nat i:=mkEntry (hashf (key a)) (Ptr a)]> es)) in Ct.
  destruct (IH (<[Z.to_nat i := mkEntry (hashf (key a)) (Ptr a)]> es) (<[key a := a]> m))
    as (es' & R1 & R2 & R3 & R4 & R5).
  - by rewrite length_insert.
  - apply (rep_place _ es m a J _ e0); auto.
    + apply Hfresh, list_elem_of_here.
    + by rewrite D0.
    + rewrite Z2Nat.id by lia. done.
    + intros j Hj. by eapply not_stops_not_null, Hbefore.
  - lia.
  - lia.
  - done.
  - intros b Hb. rewrite lookup_insert_ne; [by apply Hfresh, list_elem_of_further|].
    intros Hkk. apply Ha. apply list_elem_of_fmap. by exists b.
  - intros e' a' He'. apply Hhash. by apply list_elem_of_further.
  - exists es'. split_and!; auto. lia.
Qed.

Lemma elem_of_items es a : a ∈ items es <-> exists i e, es !! i = Some e /\ data e = Ptr a.
Proof.
  unfold items. rewrite list_elem_of_omap. split.
  - intros (e & He & Hl). apply list_elem_of_lookup in He as [i Hi]. exists i, e.
    split; [done|]. by destruct (data e); simplify_eq/=.
  - intros (i & e & Hi & Ha). exists e. split; [by eapply list_elem_of_lookup_2|]. by rewrite Ha.
Qed.

Lemma items_NoDup es :
  (forall i j e e' a a', es !! i = Some e -> es !! j = Some e' ->
    data e = Ptr a -> data e' = Ptr a' -> key a = key a' -> i = j) ->
  NoDup (key <$> items es).
Proof.
  induction es as [|e es IH]; intros Hu; [apply NoDup_nil_2|].
  assert (NoDup (key <$> items es)) as Hnd.
  { apply IH. intros i j e1 e2 a1 a2 H1 H2 ? ? ?.
    pose proof (Hu (S i) (S j) e1 e2 a1 a2). naive_solver. }
  unfold items. cbn. destruct (data e) as [| |a] eqn:E; cbn; [done|done|].
  apply list.NoDup_cons. split; [|done]. intros (b & Hk & Hb)%list_elem_of_fmap.
  apply elem_of_items in Hb as (i & e' & Hi & He').
  pose proof (Hu 0%nat (S i) e e' a b). naive_solver.
Qed.

Lemma items_map size es m : entries_rep size es m -> add_items ∅ (items es) = m.
Proof.
  intros [Hl Hm Hu Hr]. apply map_eq. intros k. destruct (m !! k) as [a|] eqn:Hk.
  - destruct (Hm k a Hk) as (<- & Hin). apply add_items_lookup; [by apply items_NoDup|].
    by apply elem_of_items.
  - rewrite add_items_lookup_other; [by rewrite lookup_empty|].
    intros (a & -> & Ha)%list_elem_of_fmap. apply elem_of_items in Ha as (i & e & Hi & He).
    destruct (Hl i e a Hi He). congruence.
Qed.

(** A table between the insertion of an item and the check of the load factor. *)
Record table_rep_pre t m : Prop := {
  tp_shape : shape_ok t;
  tp_entries : entries_rep (tableSize t) (pEntries t) m;
  tp_live : numEntries t = Z.of_nat (live_count (pEntries t));
  tp_dead : numDeadEntries t = Z.of_nat (tomb_count (pEntries t)) }.

Lemma resizeHash_ok calloc_ok t m fuel :
  table_rep_pre t m -> calloc_ok (tableSize t * 2) = true -> tableSize t < 2 ^ 28 ->
  (Z.to_nat (tableSize t * 2) <= fuel)%nat ->
  numEntries t * LOAD_DENOM <= tableSize t * 2 * LOAD_NUMER ->
  exists t', resizeHash calloc_ok fuel t (tableSize t * 2) = Ret (Some t') /\
    table_rep t' m /\ tableSize t' = tableSize t * 2 /\ numEntries t' = numEntries t /\
    numDeadEntries t' = 0.
Proof.
  intros [Hs Hr Hl Hd] Hc Hmax Hf Hload. pose proof (shape_pos t Hs) as Hpos.
  destruct Hs as (k & Hk & Hsize & Hlen).
  assert (k < 28) as Hk' by (apply (Z.pow_lt_mono_r_iff 2); lia).
  assert (tableSize t * 2 = 2 ^ (k + 1)) as E2 by (rewrite Z.pow_add_r, Hsize by lia; lia).
  unfold resizeHash. unfold countTombStones. fold (count (fun e => is_TOMBSTONE (@data A e)) (pEntries t)).
  fold (tomb_count (pEntries t)). rewrite Hd, Z.eqb_refl. cbn [assert mbind outcome_bind].
  rewrite Hc, E2. unfold LOAD_DENOM, LOAD_NUMER in Hload.
  assert (live_count (replicate (Z.to_nat (2 ^ (k + 1))) (@zero_entry A)) = 0%nat) as L0.
  { unfold live_count, count. generalize (Z.to_nat (2 ^ (k + 1))). intros n. by induction n. }
  assert (tomb_count (replicate (Z.to_nat (2 ^ (k + 1))) (@zero_entry A)) = 0%nat) as T0.
  { unfold tomb_count, count. generalize (Z.to_nat (2 ^ (k + 1))). intros n. by induction n. }
  destruct (rehash_ok (k + 1) fuel (pEntries t)) with (es := replicate (Z.to_nat (2 ^ (k + 1))) (@zero_entry A)) (m := (∅ : gmap K A))
    as (es' & R1 & R2 & R3 & R4 & R5); try done; try lia.
  - rewrite length_replicate. lia.
  - apply rep_empty.
  - apply items_NoDup, Hr.
  - intros e a He Ha. apply list_elem_of_lookup in He as [i Hi].
    by destruct (er_live _ _ _ Hr i e a Hi Ha).
  - rewrite R1. cbn [mbind outcome_bind].
    fold (count (fun e => is_TOMBSTONE (@data A e)) es'). fold (tomb_count es'). rewrite R4.
    cbn [Z.of_nat Z.eqb assert mbind outcome_bind]. eexists. split; [done|].
    rewrite (items_map _ _ _ Hr) in R3.
    split; [|done]. split; cbn [tableSize pEntries numEntries numDeadEntries].
    + exists (k + 1). split; [lia|done].
    + done.
    + rewrite R5, L0, Hl. done.
    + by rewrite R4.
    + unfold LOAD_DENOM, LOAD_NUMER. lia.
Qed.

(** ** The operations refine the map *)

Context {B : Type} (keyB : B -> K) (cmpFunc : A -> B -> Z).
Context (cmp_key : forall a b, cmpFunc a b = 0 <-> key a = keyB b).

Lemma lookup_finds item :
  finds (fun e => match data e with
                  | Ptr a => (hashValue e =? hashf (keyB item)) && (cmpFunc a item =? 0)
                  | _ => false end) (keyB item).
Proof.
  intros e. destruct (data e) as [| |a]; [naive_solver..|].
  rewrite andb_true_iff, !Z.eqb_eq, cmp_key. naive_solver.
Qed.

Lemma lookup_present calloc_ok t m fuel item doAdd a :
  table_rep t m -> (Z.to_nat (tableSize t) <= fuel)%nat -> m !! keyB item = Some a ->
  mzHashTableLookup calloc_ok fuel t (hashf (keyB item)) item cmpFunc doAdd = Ret (Some a, t).
Proof.
  intros Ht Hf Ha. pose proof (shape_pos t (tr_shape _ _ Ht)).
  destruct (lookup_probe t m _ _ fuel Ht (lookup_finds item) Hf) as (i & e & Hp & Hat & He & Hi & Hd).
  rewrite Ha in Hd. unfold mzHashTableLookup. rewrite (proj2 (Z.ltb_lt 0 (tableSize t))) by done.
  cbn [assert mbind outcome_bind]. rewrite Hp. cbn [mbind outcome_bind]. rewrite Hat.
  cbn [mbind outcome_bind]. by rewrite Hd.
Qed.

Lemma lookup_absent calloc_ok t m fuel item :
  table_rep t m -> (Z.to_nat (tableSize t) <= fuel)%nat -> m !! keyB item = None ->
  mzHashTableLookup calloc_ok fuel t (hashf (keyB item)) item cmpFunc None = Ret (None, t).
Proof.
  intros Ht Hf Ha. pose proof (shape_pos t (tr_shape _ _ Ht)).
  destruct (lookup_probe t m _ _ fuel Ht (lookup_finds item) Hf) as (i & e & Hp & Hat & He & Hi & Hd).
  rewrite Ha in Hd. destruct Hd as [Hd _].
  unfold mzHashTableLookup. rewrite (proj2 (Z.ltb_lt 0 (tableSize t))) by done.
  cbn [assert mbind outcome_bind]. rewrite Hp. cbn [mbind outcome_bind]. rewrite Hat.
  cbn [mbind outcome_bind]. by rewrite Hd.
Qed.

Lemma lookup_add calloc_ok t m fuel item a :
  table_rep t m -> tableSize t < 2 ^ 28 ->
  (tableSize t * 5 < (numEntries t + 1 + numDeadEntries t) * 8 ->
   calloc_ok (tableSize t * 2) = true) ->
  (Z.to_nat (tableSize t * 2) <= fuel)%nat ->
  m !! keyB item = None -> key a = keyB item ->
  exists t', mzHashTableLookup calloc_ok fuel t (hashf (keyB item)) item cmpFunc (Some a)
    = Ret (Some a, t') /\ table_rep t' (<[key a := a]> m) /\
    numEntries t' = numEntries t + 1 /\ (numDeadEntries t = 0 -> numDeadEntries t' = 0) /\
    tableSize t' = (if tableSize t * 5 <? (numEntries t + 1 + numDeadEntries t) * 8
                    then tableSize t * 2 else tableSize t).
Proof.
  intros Ht Hmax Hc Hf Ha Hka. pose proof (shape_pos t (tr_shape _ _ Ht)) as Hpos.
  destruct (lookup_probe t m _ _ fuel Ht (lookup_finds item)) as (i & e & Hp & Hat & He & Hi & Hd);
    [lia|].
  rewrite Ha in Hd. destruct Hd as (Hd & J & HJ & Hbefore).
  unfold mzHashTableLookup. rewrite (proj2 (Z.ltb_lt 0 (tableSize t))) by done.
  cbn [assert mbind outcome_bind]. rewrite Hp. cbn [mbind outcome_bind]. rewrite Hat.
  cbn [mbind outcome_bind]. rewrite Hd. cbv zeta.
  destruct Ht as [Hs Hr Hl Hde Hload]. unfold LOAD_DENOM, LOAD_NUMER in *.
  set (t1 := mkTable _ _ _ _).
  assert (table_rep_pre t1 (<[key a := a]> m)) as Hpre.
  { assert (0 <= numEntries t /\ 0 <= numDeadEntries t) as [? ?] by lia.
    pose proof (count_insert (fun e => is_live (data e)) (pEntries t) (Z.to_nat i) e
      (mkEntry (hashf (keyB item)) (Ptr a)) He) as Cl.
    pose proof (count_insert (fun e => is_TOMBSTONE (data e)) (pEntries t) (Z.to_nat i) e
      (mkEntry (hashf (keyB item)) (Ptr a)) He) as Ct.
    cbn in Cl, Ct. rewrite Hd in Cl, Ct. cbn in Cl, Ct.
    split; subst t1; cbn [tableSize pEntries numEntries numDeadEntries].
    - destruct Hs as (k & ? & ? & ?). exists k. cbn. rewrite length_insert. auto.
    - rewrite <- Hka. apply (rep_place _ _ _ _ J _ e); rewrite ?Hka, ?Hd; auto; lia.
    - rewrite s32_small by (unfold INT_MIN, INT_MAX; lia). unfold live_count in *. lia.
    - unfold tomb_count in *. lia. }
  assert (numEntries t1 = numEntries t + 1) as En.
  { subst t1. cbn. apply s32_small. unfold INT_MIN, INT_MAX; lia. }
  assert (numDeadEntries t1 = numDeadEntries t) as Ed by done.
  assert (tableSize t1 = tableSize t) as Es by done.
  rewrite En, Ed, Es. rewrite !(s32_small (_ * _)) by (unfold INT_MIN, INT_MAX; lia).
  destruct (Z.ltb_spec (tableSize t * 5) ((numEntries t + 1 + numDeadEntries t) * 8)) as [Hbig|Hbig].
  - destruct (resizeHash_ok calloc_ok t1 (<[key a := a]> m) fuel Hpre) as (t' & R1 & R2 & R3 & R4 & R5);
      rewrite ?En, ?Es; unfold LOAD_DENOM, LOAD_NUMER; try done; try lia; [by apply Hc|].
    rewrite Es in R1. rewrite R1. cbn [mbind outcome_bind].
    rewrite (proj2 (Z.ltb_lt _ _)) by lia.
    cbn [assert mbind outcome_bind]. exists t'. split_and!; auto; lia.
  - cbn [mbind outcome_bind]. rewrite En, Es. rewrite (proj2 (Z.ltb_lt _ _)) by lia.
    cbn [assert mbind outcome_bind]. exists t1. split; [done|]. split; [|by rewrite En].
    destruct Hpre. split; try done. unfold LOAD_DENOM, LOAD_NUMER. lia.
Qed.

(** Removal is by pointer: the item itself must be in the table. *)
Lemma remove_probe t m fuel item :
  table_rep t m -> (Z.to_nat (tableSize t) <= fuel)%nat ->
  let found e := match data e with Ptr a => bool_decide (a = item) | _ => false end in
  exists i e, probe fuel found t (first_slot t (hashf (key item))) = Ret i /\
    entry_at (pEntries t) i = Ret e /\ pEntries t !! Z.to_nat i = Some e /\ 0 <= i < tableSize t /\
    (m !! key item = Some item -> data e = Ptr item) /\
    (m !! key item <> Some item -> data e = NULL).
Proof.
  intros Ht Hf found. destruct (table_has_null t m Ht) as (n & Hn & Hnull).
  destruct Ht as [Hs [Hl Hm Hu Hr] _ _ _]. pose proof (shape_pos t Hs) as Hpos.
  destruct (probe_ends found t (hashf (key item)) fuel n Hs Hn Hnull Hf)
    as (J & HJ & Hstop & Hbefore & Hp).
  pose proof Hs as (p & Hpk & Hsize & Hlen).
  set (i := slot (tableSize t) (hashf (key item)) (Z.of_nat J)) in *.
  assert (0 <= i < tableSize t) as Hi by (by apply slot_range).
  destruct (entry_at_ok (pEntries t) i) as (e & He & Hat); [lia|].
  exists i, e. do 4 (split; [done|]).
  unfold stops in Hstop. fold i in Hstop. rewrite He in Hstop. apply orb_true_iff in Hstop.
  assert (found e = true -> data e = Ptr item) as Hfd.
  { unfold found. destruct (data e); [done..|]. intros ->%bool_decide_eq_true. done. }
  split.
  - intros Hk. destruct Hstop as [Hnul|Hfe]; [|auto].
    destruct (Hm _ _ Hk) as (_ & i' & e' & He' & Ha').
    destruct (Hl _ _ _ He' Ha') as [Hh _]. destruct (Hr _ _ _ He' Ha') as (J' & HJ' & Hpath).
    rewrite Hh in HJ', Hpath.
    assert (stops found (pEntries t) (tableSize t) (hashf (key item)) J' = true) as Hst'.
    { unfold stops. rewrite <- HJ', Nat2Z.id, He'. unfold found.
      rewrite Ha', bool_decide_true by done. done. }
    destruct (decide (J < J')%nat) as [Hlt|].
    + apply Hpath in Hlt. unfold null_at in Hlt. fold i in Hlt. rewrite He in Hlt. congruence.
    + destruct (decide (J = J')) as [->|].
      * subst i. rewrite <- HJ', Nat2Z.id in He. simplify_eq. done.
      * rewrite Hbefore in Hst' by lia. done.
  - intros Hk. destruct Hstop as [Hnul|Hfe]; [by destruct (data e)|].
    apply Hfd in Hfe. destruct (Hl _ _ _ He Hfe) as [_ ?]. done.
Qed.

Lemma rep_remove size es m i e item :
  entries_rep size es m -> es !! i = Some e -> data e = Ptr item ->
  entries_rep size (<[i := mkEntry (hashValue e) HASH_TOMBSTONE]> es) (delete (key item) m).
Proof.
  intros [Hl Hm Hu Hr] Hi Hd. destruct (Hl i e item Hi Hd) as [_ Hk].
  assert (i < length es)%nat as Hlt by (by eapply lookup_lt_Some).
  assert (forall j e' a, <[i:=mkEntry (hashValue e) HASH_TOMBSTONE]> es !! j = Some e' ->
    data e' = Ptr a -> es !! j = Some e' /\ j <> i) as Hold.
  { intros j e' a Hj Ha. destruct (decide (j = i)) as [->|Hne].
    - rewrite list_lookup_insert_eq in Hj by done. by simplify_eq/=.
    - by rewrite list_lookup_insert_ne in Hj by done. }
  split.
  - intros j e' a Hj Ha. destruct (Hold j e' a Hj Ha) as [Hj' Hne].
    destruct (Hl j e' a Hj' Ha) as [? Hka]. split; [done|].
    rewrite lookup_delete_ne; [done|]. intros E. apply Hne. by eapply Hu.
  - intros k a Hka. apply lookup_delete_Some in Hka as [Hne Hka].
    destruct (Hm k a Hka) as (<- & j & e' & Hj & Ha). split; [done|]. exists j, e'.
    split; [|done]. rewrite list_lookup_insert_ne; [done|]. intros ->. congruence.
  - intros j j' e1 e2 a a' Hj Hj' Ha Ha' ?.
    destruct (Hold _ _ _ Hj Ha), (Hold _ _ _ Hj' Ha'). by eapply Hu.
  - intros j e' a Hj Ha. destruct (Hold _ _ _ Hj Ha) as [Hj' _].
    destruct (Hr _ _ _ Hj' Ha) as (J & ? & HJ). exists J. split; [done|].
    intros. apply null_at_insert; auto.
Qed.

Lemma remove_present t m fuel item :
  table_rep t m -> (Z.to_nat (tableSize t) <= fuel)%nat -> m !! key item = Some item ->
  exists t', mzHashTableRemove fuel t (hashf (key item)) item = Ret (true, t') /\
    table_rep t' (delete (key item) m) /\ tableSize t' = tableSize t.
Proof.
  intros Ht Hf Hk. pose proof (shape_pos t (tr_shape _ _ Ht)) as Hpos.
  destruct (remove_probe t m fuel item Ht Hf) as (i & e & Hp & Hat & He & Hi & Hd & _).
  specialize (Hd Hk). unfold mzHashTableRemove.
  rewrite (proj2 (Z.ltb_lt 0 (tableSize t))) by done. cbn [assert mbind outcome_bind].
  cbv zeta in Hp. rewrite Hp. cbn [mbind outcome_bind].
  rewrite (proj2 (Z.eqb_neq i (tableSize t))) by lia. rewrite Hat. cbn [mbind outcome_bind].
  rewrite Hd. rewrite bool_decide_true by done. eexists. split; [done|]. split; [|done].
  destruct Ht as [Hs Hr Hl Hde Hload]. unfold LOAD_DENOM, LOAD_NUMER in *.
  pose proof (count_insert (fun e => is_live (data e)) (pEntries t) (Z.to_nat i) e
    (mkEntry (hashValue e) HASH_TOMBSTONE) He) as Cl.
  pose proof (count_insert (fun e => is_TOMBSTONE (data e)) (pEntries t) (Z.to_nat i) e
    (mkEntry (hashValue e) HASH_TOMBSTONE) He) as Ct.
  cbn in Cl, Ct. rewrite Hd in Cl, Ct. cbn in Cl, Ct.
  destruct Hs as (k & Hk28 & Hsz & Hlen).
  assert (tableSize t <= 2 ^ 28) by (rewrite Hsz; apply Z.pow_le_mono_r; lia).
  unfold live_count, tomb_count in *.
  split; cbn [tableSize pEntries numEntries numDeadEntries].
  - exists k. cbn. rewrite length_insert. auto.
  - by apply rep_remove.
  - rewrite s32_small by (unfold INT_MIN, INT_MAX; lia). unfold live_count. lia.
  - rewrite s32_small by (unfold INT_MIN, INT_MAX; lia). unfold tomb_count. lia.
  - rewrite !s32_small by (unfold INT_MIN, INT_MAX; lia). unfold LOAD_DENOM, LOAD_NUMER. lia.
Qed.

Lemma remove_absent t m fuel item :
  table_rep t m -> (Z.to_nat (tableSize t) <= fuel)%nat -> m !! key item <> Some item ->
  mzHashTableRemove fuel t (hashf (key item)) item = Ret (false, t).
Proof.
  intros Ht Hf Hk. pose proof (shape_pos t (tr_shape _ _ Ht)) as Hpos.
  destruct (remove_probe t m fuel item Ht Hf) as (i & e & Hp & Hat & He & Hi & _ & Hd).
  specialize (Hd Hk). unfold mzHashTableRemove.
  rewrite (proj2 (Z.ltb_lt 0 (tableSize t))) by done. cbn [assert mbind outcome_bind].
  cbv zeta in Hp. rewrite Hp. cbn [mbind outcome_bind].
  rewrite (proj2 (Z.eqb_neq i (tableSize t))) by lia. rewrite Hat. cbn [mbind outcome_bind].
  by rewrite Hd.
Qed.

Lemma create_ok calloc_ok n :
  1 <= n <= 2 ^ 28 -> calloc_ok (roundUpPower2 n) = true ->
  exists t, mzHashTableCreate calloc_ok n = Ret (Some t) /\ table_rep t (∅ : gmap K A) /\
    numEntries t = 0 /\ numDeadEntries t = 0 /\ n <= tableSize t < 2 * n.
Proof.
  intros Hn Hc. destruct (roundUpPower2_ge n) as (k & Hk & Ek & Hle); [lia|].
  assert (k <= 28) as Hk28.
  { destruct (decide (k <= 28)); [done|]. pose proof (Z.pow_le_mono_r 2 29 k). lia. }
  pose proof (Z.pow_pos_nonneg 2 k). pose proof (Z.pow_le_mono_r 2 k 28).
  unfold mzHashTableCreate. rewrite (proj2 (Z.ltb_lt 0 n)) by lia. cbn [assert mbind outcome_bind].
  rewrite Ek in *. rewrite s32_small by (unfold INT_MIN, INT_MAX; lia). rewrite Hc. eexists. split; [done|].
  split; [|cbn; lia].
  assert (forall f, f (@zero_entry A) = false ->
    count f (replicate (Z.to_nat (2 ^ k)) (@zero_entry A)) = 0%nat) as Hz.
  { intros f Hf. generalize (Z.to_nat (2 ^ k)). intros j. unfold count.
    induction j; cbn; [done|]. by rewrite Hf. }
  split; cbn [tableSize pEntries numEntries numDeadEntries].
  - exists k. cbn. rewrite length_replicate. split_and!; lia.
  - apply rep_empty.
  - unfold live_count. by rewrite Hz.
  - unfold tomb_count. by rewrite Hz.
  - unfold LOAD_NUMER. lia.
Qed.

Lemma clear_ok t m :
  table_rep t m -> table_rep (fst (mzHashTableClear t)) (∅ : gmap K A) /\
  snd (mzHashTableClear t) = items (pEntries t).
Proof.
  intros [Hs Hr Hl Hd Hload]. pose proof (shape_pos t Hs). split; [|done].
  assert (forall i e, ((fun e => mkEntry (hashValue e) NULL) <$> pEntries t) !! i = Some e ->
    data e = @NULL A) as Hn.
  { intros i e. rewrite list_lookup_fmap. destruct (pEntries t !! i); cbn; [|done].
    by intros [= <-]. }
  assert (forall f, (forall h, f (mkEntry h (@NULL A)) = false) ->
    count f ((fun e => mkEntry (hashValue e) NULL) <$> pEntries t) = 0%nat) as Hz.
  { intros f Hf. unfold count. generalize (pEntries t). intros l.
    induction l as [|x l IH]; cbn; [done|]. by rewrite Hf. }
  split; cbn [fst mzHashTableClear tableSize pEntries numEntries numDeadEntries].
  - destruct Hs as (k & ? & ? & ?). exists k. cbn. by rewrite length_fmap.
  - split.
    + intros i e a Hi. by rewrite (Hn i e Hi).
    + intros k a. by rewrite lookup_empty.
    + intros i j e e' a a' Hi _. by rewrite (Hn i e Hi).
    + intros i e a Hi. by rewrite (Hn i e Hi).
  - unfold live_count. by rewrite Hz.
  - unfold tomb_count. by rewrite Hz.
  - unfold LOAD_NUMER. lia.
Qed.

Lemma items_perm size es m :
  entries_rep size es m -> items es ≡ₚ (map_to_list m).*2.
Proof.
  intros Hr. apply NoDup_Permutation.
  - apply (NoDup_fmap_1 key). apply items_NoDup, Hr.
  - apply NoDup_fmap_2_strong; [|apply NoDup_map_to_list].
    intros [k a] [k' a'] Ha%elem_of_map_to_list Ha'%elem_of_map_to_list E. simpl in E. subst.
    destruct (er_map _ _ _ Hr _ _ Ha), (er_map _ _ _ Hr _ _ Ha'). congruence.
  - intros a. rewrite elem_of_items, list_elem_of_fmap. split.
    + intros (i & e & Hi & Ha). exists (key a, a). split; [done|]. apply elem_of_map_to_list.
      by destruct (er_live _ _ _ Hr i e a Hi Ha).
    + intros ([k b] & -> & Hb%elem_of_map_to_list). by destruct (er_map _ _ _ Hr k b Hb).
Qed.

(** [mzHashForeach] runs the function over the items until it returns nonzero. *)
Fixpoint foreach_spec {S} (func : A -> S -> Z * S) (l : list A) (arg : S) : Z * S :=
  match l with
  | [] => (0, arg)
  | a :: l => let '(val, arg) := func a arg in
              if val =? 0 then foreach_spec func l arg else (val, arg)
  end.

Lemma foreach_items {S} (func : A -> S -> Z * S) es arg :
  foreach func es arg = foreach_spec func (items es) arg.
Proof.
  revert arg; induction es as [|e es IH]; intros arg; [done|]. cbn [foreach].
  unfold items. cbn. destruct (data e) as [| |a]; cbn; auto.
  destruct (func a arg) as [v arg']. destruct (v =? 0); cbn; auto.
Qed.
End refinement.

(** Adding items one after the other, as [parseZipArchive] does. *)
Section add_all.
Context {A K : Type} `{EqDecision A} `{Countable K}.
Context (key : A -> K) (hashf : K -> Z) (cmpFunc : A -> A -> Z) (calloc_ok : Z -> bool).

Fixpoint add_all (fuel : nat) (t : HashTable A) (l : list A) : outcome (HashTable A) :=
  match l with
  | [] => Ret t
  | a :: l =>
      '(_, t) ← mzHashTableLookup calloc_ok fuel t (hashf (key a)) a cmpFunc (Some a);
      add_all fuel t l
  end.

Context (cmp_key : forall a b, cmpFunc a b = 0 <-> key a = key b).

(** Of several items with the same key the first one is kept. *)
Definition add_first (m : gmap K A) (l : list A) : gmap K A :=
  foldl (fun m a => match m !! key a with Some _ => m | None => <[key a := a]> m end) m l.

Lemma add_first_lookup l m k :
  add_first m l !! k =
  match m !! k with Some a => Some a | None => List.find (fun a => bool_decide (key a = k)) l end.
Proof.
  revert m; induction l as [|a l IH]; intros m; cbn [add_first foldl List.find].
  - by destruct (m !! k).
  - fold (add_first (match m !! key a with Some _ => m | None => <[key a:=a]> m end) l).
    rewrite IH. case_bool_decide as Hk.
    + subst k. destruct (m !! key a) eqn:E; [by rewrite E|]. by rewrite lookup_insert_eq.
    + destruct (m !! key a); [done|]. by rewrite lookup_insert_ne.
Qed.

Lemma add_first_fresh l m :
  NoDup (key <$> l) -> (forall a, a ∈ l -> m !! key a = None) -> add_first m l = add_items key m l.
Proof.
  revert m; induction l as [|a l IH]; intros m Hnd Hfresh; [done|].
  rewrite fmap_cons in Hnd. apply list.NoDup_cons in Hnd as [Ha Hnd].
  cbn. rewrite (Hfresh a (list_elem_of_here _ _)). apply IH; [done|].
  intros b Hb. rewrite lookup_insert_ne; [by apply Hfresh, list_elem_of_further|].
  intros E. apply Ha, list_elem_of_fmap. by exists b.
Qed.

Lemma add_all_presized fuel l : forall t m n,
  table_rep key hashf t m -> numDeadEntries t = 0 -> tableSize t < 2 ^ 28 ->
  (Z.to_nat (tableSize t * 2) <= fuel)%nat ->
  n * 8 <= tableSize t * 5 -> numEntries t + Z.of_nat (length l) <= n ->
  exists t', add_all fuel t l = Ret t' /\ table_rep key hashf t' (add_first m l) /\
    tableSize t' = tableSize t.
Proof.
  induction l as [|a l IH]; intros t m n Ht Hd Hmax Hf Hn Hlen; [by exists t|].
  cbn [length] in Hlen. cbn [add_all add_first foldl].
  pose proof (shape_pos t (tr_shape _ _ _ _ Ht)).
  destruct (m !! key a) as [b|] eqn:E.
  - rewrite (lookup_present key hashf key cmpFunc cmp_key calloc_ok t m fuel a (Some a) b)
      by (done || lia).
    cbn [mbind outcome_bind]. apply (IH t m n); (done || lia).
  - destruct (lookup_add key hashf key cmpFunc cmp_key calloc_ok t m fuel a a)
      as (t1 & R1 & R2 & R3 & Hd1 & R4); auto; [lia|].
    rewrite Hd, (proj2 (Z.ltb_ge _ _)) in R4 by lia. rewrite R1. cbn [mbind outcome_bind].
    destruct (IH t1 (<[key a := a]> m) n) as (t' & S1 & S2 & S3); auto; try lia.
    exists t'. split_and!; auto. lia.
Qed.
End add_all.

(** ** Properties *)

Section demo.
(** Items are pairs keyed by their first component; all keys collide modulo 4. *)
Definition demo_key (a : Z * Z) : Z := fst a.
Definition demo_hash (k : Z) : Z := u32 (4 * k).
Definition demo_cmp (a b : Z * Z) : Z := fst a - fst b.
Definition demo_calloc (n : Z) : bool := true.
Definition demo_table : HashTable (Z * Z) := mkTable 2 0 0 (replicate 2 zero_entry).

Lemma demo_cmp_key a b : demo_cmp a b = 0 <-> demo_key a = demo_key b.
Proof. unfold demo_cmp, demo_key. lia. Qed.

Lemma demo_table_rep : table_rep demo_key demo_hash demo_table ∅.
Proof.
  destruct (create_ok demo_key demo_hash demo_calloc 2) as (t & Ht & Hr & _);
    [lia|done|]. vm_compute in Ht. by injection Ht as <-.
Qed.
End demo.

(** [roundUpPower2] returns the least power of two that is at least its
    argument, for every argument a table size can take. *)
Theorem roundUpPower2_least v :
  1 <= v <= 2 ^ 31 -> exists k, 0 <= k <= 31 /\ roundUpPower2 v = 2 ^ k /\ v <= 2 ^ k < 2 * v.
Proof. apply roundUpPower2_ge. Qed.

Lemma roundUpPower2_least_witness :
  exists k, 0 <= k <= 31 /\ roundUpPower2 1025 = 2 ^ k /\ 1025 <= 2 ^ k < 2 * 1025.
Proof. apply (roundUpPower2_least 1025). lia. Defined.

(** Claim C7.  [mzHashTableLookup] implements a finite map.  On a table that stands
    for [m] (shape, counters, load factor, hashes and probe paths consistent) the
    search terminates within [tableSize] steps; it returns the stored item if the
    key is present and NULL if it is not, without touching the table; with
    [doAdd] a missing item is stored, the table grows exactly when the load
    factor 5/8 is passed, no assertion fails, and the resulting table stands for
    [m] extended by the item. *)
Theorem hash_lookup_implements_map {A K B} `{EqDecision A} `{Countable K}
    (key : A -> K) (hashf : K -> Z) (keyB : B -> K) (cmpFunc : A -> B -> Z) calloc_ok
    (t : HashTable A) (m : gmap K A) fuel (item : B) (self : A) :
  (forall a b, cmpFunc a b = 0 <-> key a = keyB b) -> (forall n, calloc_ok n = true) ->
  table_rep key hashf t m -> tableSize t < 2 ^ 28 -> (Z.to_nat (tableSize t * 2) <= fuel)%nat ->
  key self = keyB item ->
  mzHashTableLookup calloc_ok fuel t (hashf (keyB item)) item cmpFunc None
    = Ret (m !! keyB item, t) /\
  match m !! keyB item with
  | Some a => mzHashTableLookup calloc_ok fuel t (hashf (keyB item)) item cmpFunc (Some self)
      = Ret (Some a, t)
  | None => exists t',
      mzHashTableLookup calloc_ok fuel t (hashf (keyB item)) item cmpFunc (Some self)
        = Ret (Some self, t') /\
      table_rep key hashf t' (<[keyB item := self]> m) /\
      tableSize t' = (if tableSize t * 5 <? (numEntries t + 1 + numDeadEntries t) * 8
                      then tableSize t * 2 else tableSize t)
  end.
Proof.
  intros Hcmp Hcal Ht Hmax Hf Hk. pose proof (shape_pos t (tr_shape _ _ _ _ Ht)).
  destruct (m !! keyB item) as [a|] eqn:E.
  - split; apply (lookup_present key hashf keyB cmpFunc Hcmp _ _ m); (done || lia).
  - split; [apply (lookup_absent key hashf keyB cmpFunc Hcmp _ _ m); (done || lia)|].
    destruct (lookup_add key hashf keyB cmpFunc Hcmp calloc_ok t m fuel item self)
      as (t' & R1 & R2 & _ & _ & R3); auto.
    exists t'. split_and!; auto. by rewrite <- Hk.
Qed.

Lemma hash_lookup_implements_map_witness :
  exists t', mzHashTableLookup demo_calloc 4 demo_table (demo_hash 7) (7, 70) demo_cmp
               (Some (7, 70)) = Ret (Some (7, 70), t')
    /\ table_rep demo_key demo_hash t' (<[7 := (7, 70)]> ∅).
Proof.
  destruct (hash_lookup_implements_map demo_key demo_hash demo_key demo_cmp demo_calloc demo_table
    ∅ 4 (7, 70) (7, 70) demo_cmp_key) as [_ H]; try done; [apply demo_table_rep|].
  change (demo_key (7, 70)) with 7 in H. rewrite lookup_empty in H.
  destruct H as (t' & R1 & R2 & _). by exists t'.
Defined.

(** Claim C8.  [mzHashTableRemove] deletes an item by pointer: if the item is the one
    stored under its key the call returns true and the table stands for the map
    without that key (the slot becomes a tombstone, so that other probe paths stay
    intact); otherwise it returns false and leaves the table as it was. *)
Theorem hash_remove_deletes {A K} `{EqDecision A} `{Countable K}
    (key : A -> K) (hashf : K -> Z) (t : HashTable A) (m : gmap K A) fuel (item : A) :
  table_rep key hashf t m -> (Z.to_nat (tableSize t) <= fuel)%nat ->
  if decide (m !! key item = Some item) then
    exists t', mzHashTableRemove fuel t (hashf (key item)) item = Ret (true, t') /\
      table_rep key hashf t' (delete (key item) m) /\ tableSize t' = tableSize t
  else mzHashTableRemove fuel t (hashf (key item)) item = Ret (false, t).
Proof.
  intros Ht Hf. case_decide.
  - by apply remove_present.
  - by apply (remove_absent key hashf t m).
Qed.

Lemma hash_remove_deletes_witness :
  mzHashTableRemove 2 demo_table (demo_hash 3) (3, 30) = Ret (false, demo_table).
Proof.
  pose proof (hash_remove_deletes demo_key demo_hash demo_table ∅ 2 (3, 30)
    demo_table_rep ltac:(cbn; lia)) as H.
  rewrite decide_False in H; [exact H|]. change (demo_key (3, 30)) with 3.
  by rewrite lookup_empty.
Defined.

(** Claim C30.  The promise of [mzHashSize]: a table created for [n] elements takes any
    [n] items with distinct keys without being reallocated, and then stands for
    the map of exactly these items. *)
Theorem hash_presized_never_resizes {A K} `{EqDecision A} `{Countable K}
    (key : A -> K) (hashf : K -> Z) (cmpFunc : A -> A -> Z) calloc_ok n (l : list A) fuel :
  (forall a b, cmpFunc a b = 0 <-> key a = key b) -> (forall k, calloc_ok k = true) ->
  Z.of_nat (length l) <= n -> 1 <= n <= 2 ^ 24 -> NoDup (key <$> l) -> (Z.to_nat (7 * n + 4) <= fuel)%nat ->
  exists t t', mzHashTableCreate calloc_ok (mzHashSize n) = Ret (Some t) /\
    add_all key hashf cmpFunc calloc_ok fuel t l = Ret t' /\ tableSize t' = tableSize t /\
    table_rep key hashf t' (add_items key ∅ l).
Proof.
  intros Hcmp Hcal Hl Hn Hnd Hf.
  assert (mzHashSize n = n * 8 / 5 + 1) as Es.
  { unfold mzHashSize, LOAD_DENOM, LOAD_NUMER. rewrite !u32_small; [done|lia|].
    rewrite u32_small by lia. Z.div_mod_to_equations; lia. }
  destruct (create_ok key hashf calloc_ok (mzHashSize n)) as (t & Ht & Hr & Hnum & Hdead & Hsz);
    [rewrite Es; Z.div_mod_to_equations; lia|done|].
  rewrite <- (add_first_fresh key l ∅) by (done || intros; apply lookup_empty).
  destruct (add_all_presized key hashf cmpFunc calloc_ok Hcmp fuel l t ∅ n)
    as (t' & R1 & R2 & R3); auto; rewrite ?Es in Hsz.
  - Z.div_mod_to_equations; lia.
  - Z.div_mod_to_equations; lia.
  - Z.div_mod_to_equations; lia.
  - lia.
  - exists t, t'. by rewrite Ht.
Qed.

Lemma hash_presized_never_resizes_witness :
  exists t t', mzHashTableCreate demo_calloc (mzHashSize 3) = Ret (Some t) /\
    add_all demo_key demo_hash demo_cmp demo_calloc 25 t [(1, 10); (2, 20); (3, 30)] = Ret t' /\
    tableSize t' = tableSize t /\
    table_rep demo_key demo_hash t' (add_items demo_key ∅ [(1, 10); (2, 20); (3, 30)]).
Proof.
  apply (hash_presized_never_resizes demo_key demo_hash demo_cmp demo_calloc 3
    [(1, 10); (2, 20); (3, 30)] 25 demo_cmp_key); try done; try (cbn; lia).
  cbn. repeat (apply NoDup_cons_2; [set_solver by lia|]). apply NoDup_nil_2.
Defined.

(** Claim C31.  [mzHashForeach] visits every item of the table exactly once (up to the
    first item for which the callback returns nonzero): it runs the callback over
    a list that is a permutation of the values of the map. *)
Theorem hash_foreach_visits_values {A K S} `{EqDecision A} `{Countable K}
    (key : A -> K) (hashf : K -> Z) (t : HashTable A) (m : gmap K A) (func : A -> S -> Z * S) arg :
  table_rep key hashf t m ->
  exists l, l ≡ₚ (map_to_list m).*2 /\ mzHashForeach t func arg = foreach_spec func l arg.
Proof.
  intros Ht. exists (items (pEntries t)). split.
  - by apply (items_perm key hashf (tableSize t)), Ht.
  - apply foreach_items.
Qed.

Lemma hash_foreach_visits_values_witness :
  exists l, l ≡ₚ (map_to_list (∅ : gmap Z (Z * Z))).*2 /\
    mzHashForeach demo_table (fun a s => (0, a :: s)) [] = foreach_spec (fun a s => (0, a :: s)) l [].
Proof.
  apply (hash_foreach_visits_values demo_key demo_hash demo_table ∅). apply demo_table_rep.
Defined.
