(* ===== verification/Zip.v ===== *)
(** [minzip/Zip.c], first part: finding the end of the central directory, reading
    the central directory into a sorted array and a hash table, and looking up
    entries by name. *)
From S2P Require Import Prelude Endian CString Hash.

(** ** Constants (the enum of lines 31-84) *)

Definition CENSIG : Z := 0x02014b50.
Definition CENHDR : Z := 46.
Definition CENVEM : Z := 4.
Definition CENHOW : Z := 10.
Definition CENTIM : Z := 12.
Definition CENCRC : Z := 16.
Definition CENSIZ : Z := 20.
Definition CENLEN : Z := 24.
Definition CENNAM : Z := 28.
Definition CENEXT : Z := 30.
Definition CENCOM : Z := 32.
Definition CENATX : Z := 38.
Definition CENOFF : Z := 42.
Definition ENDSIG : Z := 0x06054b50.
Definition ENDHDR : Z := 22.
Definition ENDSUB : Z := 8.
Definition ENDOFF : Z := 16.
Definition LOCSIG : Z := 0x04034b50.
Definition LOCHDR : Z := 30.
Definition LOCNAM : Z := 26.
Definition LOCEXT : Z := 28.
Definition STORED : Z := 0.
Definition DEFLATED : Z := 8.
Definition CENVEM_UNIX : Z := Z.shiftl 3 8.
Definition PATH_MAX : Z := 4096.

(** ** Data *)

(** [ZipEntry].  The pair [fileName]/[fileNameLen] is a pointer into the mapping
    and a 16-bit length: the byte string it denotes. *)
Record ZipEntry := mkZipEntry {
  fileName : bytes; offset : Z; compLen : Z; uncompLen : Z; compression : Z;
  modTime : Z; crc32 : Z; versionMadeBy : Z; externalFileAttributes : Z }.
Definition fileNameLen (e : ZipEntry) : Z := len (fileName e).

#[export] Instance ZipEntry_eq_dec : EqDecision ZipEntry.
Proof. solve_decision. Defined.

(** [MemMapping]: where the file is mapped, and its bytes. *)
Record MemMapping := mkMap { addr : Z; mem : bytes }.

Record ZipArchive := mkArchive { zEntries : list ZipEntry; pHash : HashTable ZipEntry }.

(** ** Comparing names *)

(** [memcmp], [strncmp]: the difference of the first bytes that differ. *)
Fixpoint memcmp (n : nat) (a b : bytes) : Z :=
  match n with
  | O => 0
  | S n => let x := hd 0 a in let y := hd 0 b in
           if x =? y then memcmp n (tl a) (tl b) else x - y
  end.
Fixpoint strncmp (n : nat) (a b : bytes) : Z :=
  match n with
  | O => 0
  | S n => let x := hd 0 a in let y := hd 0 b in
           if x =? y then (if x =? 0 then 0 else strncmp n (tl a) (tl b)) else x - y
  end.

(** [int hashcmpZipEntry(const void* ventry1, const void* ventry2)] *)
Definition hashcmpZipEntry (entry1 entry2 : ZipEntry) : Z :=
  if negb (fileNameLen entry1 =? fileNameLen entry2) then fileNameLen entry1 - fileNameLen entry2
  else memcmp (Z.to_nat (fileNameLen entry1)) (fileName entry1) (fileName entry2).

(** [int hashcmpZipName(const void* ventry, const void* vname)] *)
Definition hashcmpZipName (entry : ZipEntry) (name : bytes) : Z :=
  let nameLen := len name in
  if negb (fileNameLen entry =? nameLen) then fileNameLen entry - nameLen
  else memcmp (Z.to_nat nameLen) (fileName entry) name.

(** [unsigned int computeHash(const char* name, int nameLen)] *)
Definition computeHash (name : bytes) : Z := fold_left (fun h c => u32 (h * 31 + c)) name 2.

(** [int validFilename(const char *fileName, unsigned int fileNameLen)] *)
Definition validFilename (name : bytes) : bool :=
  if PATH_MAX <=? len name then false
  else forallb (fun c => negb ((c <? 32) || (127 <=? c))) name.

(** ** Locating the end of the central directory

    The loop of lines 214-218 from offset [pos] downwards. *)
Fixpoint find_eocd (m : bytes) (pos : nat) : outcome (option Z) :=
  c ← rd m (Z.of_nat pos);
  sig ← (if c =? Z.land ENDSIG 255 then get4LE m (Z.of_nat pos) else Ret 0);
  if (c =? Z.land ENDSIG 255) && (sig =? ENDSIG) then Ret (Some (Z.of_nat pos)) else
  match pos with O => Ret None | S pos => find_eocd m pos end.

(** ** One record of the central directory *)

(** The test "[p > pMap->addr + pMap->length]" on addresses. *)
Definition past_end (m : MemMapping) (off : Z) : bool :=
  u32 (addr m + len (mem m)) <? u32 (addr m + off).

(** [safe_add] on [long]: is the sum representable? *)
Definition safe_add_long (a b : Z) : bool := (INT_MIN <=? a + b) && (a + b <=? INT_MAX).

(** The body of the loop of lines 249-392 for the record at offset [ptr], without
    the placing of the entry: [None] is "goto bail", otherwise the entry and the
    next [ptr]. *)
Definition parse_cen (m : MemMapping) (ptr : Z) : outcome (option (ZipEntry * Z)) :=
  let b := mem m in
  if past_end m (ptr + CENHDR) then Ret None else
  sig ← get4LE b ptr;
  if negb (sig =? CENSIG) then Ret None else
  localHdrOffset ← get4LE b (ptr + CENOFF);
  nameLen ← get2LE b (ptr + CENNAM);
  extraLen ← get2LE b (ptr + CENEXT);
  commentLen ← get2LE b (ptr + CENCOM);
  if past_end m (ptr + CENHDR + nameLen) then Ret None else
  name ← rd_bytes b (ptr + CENHDR) nameLen;
  if negb (validFilename name) then Ret None else
  cl ← get4LE b (ptr + CENSIZ); ul ← get4LE b (ptr + CENLEN);
  how ← get2LE b (ptr + CENHOW); tim ← get4LE b (ptr + CENTIM); crc ← get4LE b (ptr + CENCRC);
  vem ← get2LE b (ptr + CENVEM);
  if negb (Z.land vem 0xff00 =? 0) && negb (Z.land vem 0xff00 =? CENVEM_UNIX) then Ret None else
  atx ← get4LE b (ptr + CENATX);
  if 2 ^ 32 <=? addr m + localHdrOffset then Ret None else
  if past_end m (localHdrOffset + LOCHDR) then Ret None else
  lsig ← get4LE b localHdrOffset;
  if negb (lsig =? LOCSIG) then Ret None else
  lnam ← get2LE b (localHdrOffset + LOCNAM);
  lext ← get2LE b (localHdrOffset + LOCEXT);
  let off := s32 (u32 (u32 (u32 (localHdrOffset + LOCHDR) + lnam) + lext)) in
  let cl := s32 cl in
  if negb (safe_add_long off cl) then Ret None else
  if len b <? u32 (u32 off + u32 cl) then Ret None else
  Ret (Some (mkZipEntry name off cl (s32 ul) how (s32 tim) (s32 crc) vem (s32 atx),
             ptr + CENHDR + nameLen + extraLen + commentLen)).

(** ** Placing an entry (lines 278-326) *)

(** The comparison of lines 293-302. *)
Definition name_diff (name1 name2 : bytes) : Z :=
  let diffLen := if len name1 <? len name2 then len name1 else len name2 in
  let diff := strncmp (Z.to_nat diffLen) name1 name2 in
  if diff =? 0 then len name1 - len name2 else diff.

(** The search of lines 284-311: the final value of [high]. *)
Fixpoint search_high (fuel : nat) (es : list ZipEntry) (name : bytes) (low high : Z) : outcome Z :=
  if low <=? high then
    match fuel with
    | O => Diverge
    | S fuel =>
        let mid := low + Z.quot (high - low) 2 in
        match es !! Z.to_nat mid with
        | None => Fault
        | Some e =>
            let diff := name_diff (fileName e) name in
            if diff <? 0 then search_high fuel es name (mid + 1) high
            else if 0 <? diff then search_high fuel es name low (mid - 1)
            else Ret mid
        end
    end
  else Ret high.

Definition place_entry (es : list ZipEntry) (e : ZipEntry) : outcome (list ZipEntry) :=
  let i := length es in
  if (0 <? i)%nat then
    high ← search_high (S i) es (fileName e) 0 (Z.of_nat i - 1);
    let target := high + 1 in
    _ ← assert ((0 <=? target) && (target <=? Z.of_nat i));
    Ret (take (Z.to_nat target) es ++ [e] ++ drop (Z.to_nat target) es)
  else Ret [e].

(** The loop of lines 249-392 with [n] records to go; [None] is "goto bail". *)
Fixpoint parse_loop (n : nat) (m : MemMapping) (ptr : Z) (es : list ZipEntry)
    : outcome (option (list ZipEntry)) :=
  match n with
  | O => Ret (Some es)
  | S n =>
      r ← parse_cen m ptr;
      match r with
      | None => Ret None
      | Some (e, ptr) => es ← place_entry es e; parse_loop n m ptr es
      end
  end.

Section archive.
(** Which allocations of the hash table and of the entry array succeed. *)
Context (calloc_ok calloc_entries_ok : Z -> bool).

(** [void addEntryToHashTable(HashTable* pHash, ZipEntry* pEntry)], once per
    entry (lines 399-403): the return value of the lookup only selects a log
    message. *)
Definition addEntries (fuel : nat) (t : HashTable ZipEntry) (es : list ZipEntry)
    : outcome (HashTable ZipEntry) :=
  add_all fileName computeHash hashcmpZipEntry calloc_ok fuel t es.

Definition hash_fuel (n : Z) : nat := Z.to_nat (7 * n + 4).

(** [bool parseZipArchive(ZipArchive* pArchive, const MemMapping* pMap)]; [None] is
    "return false". *)
Definition parseZipArchive (m : MemMapping) : outcome (option ZipArchive) :=
  let b := mem m in
  val ← get4LE b 0;
  if val =? ENDSIG then Ret None else
  if negb (val =? LOCSIG) then Ret None else
  r ← (if ENDHDR <=? len b then find_eocd b (Z.to_nat (len b - ENDHDR)) else Ret None);
  match r with
  | None => Ret None
  | Some ptr =>
      numEntries ← get2LE b (ptr + ENDSUB);
      cdOffset ← get4LE b (ptr + ENDOFF);
      if (numEntries =? 0) || (len b <=? cdOffset) then Ret None else
      h ← mzHashTableCreate calloc_ok (mzHashSize numEntries);
      if negb (calloc_entries_ok numEntries) then Ret None else
      match h with
      | None => Ret None
      | Some h =>
          es ← parse_loop (Z.to_nat numEntries) m cdOffset [];
          match es with
          | None => Ret None
          | Some es => h ← addEntries (hash_fuel numEntries) h es; Ret (Some (mkArchive es h))
          end
      end
  end.

(** The part of [int mzOpenZipArchive(fileName, pArchive)] after the file is mapped:
    0 with the archive, or -1. *)
Definition mzOpenZipArchive (m : MemMapping) : outcome (Z * option ZipArchive) :=
  if len (mem m) <? ENDHDR then Ret (-1, None) else
  r ← parseZipArchive m;
  match r with None => Ret (-1, None) | Some a => Ret (0, Some a) end.

(** [const ZipEntry* mzFindZipEntry(const ZipArchive* pArchive, const char* entryName)] *)
Definition mzFindZipEntry (pArchive : ZipArchive) (entryName : bytes) : outcome (option ZipEntry) :=
  '(r, _) ← mzHashTableLookup calloc_ok (Z.to_nat (tableSize (pHash pArchive)))
     (pHash pArchive) (computeHash entryName) entryName hashcmpZipName None;
  Ret r.
End archive.

(** [bool mzIsZipEntrySymlink(const ZipEntry* pEntry)] *)
Definition S_ISLNK (mode : Z) : bool := Z.land mode 0xf000 =? 0xa000.
Definition mzIsZipEntrySymlink (e : ZipEntry) : bool :=
  if Z.land (versionMadeBy e) 0xff00 =? CENVEM_UNIX
  then S_ISLNK (Z.shiftr (externalFileAttributes e) 16) else false.

(** ** Names: equality and order *)

Lemma memcmp_eq a b n : length a = n -> length b = n -> memcmp n a b = 0 <-> a = b.
Proof.
  revert a b; induction n as [|n IH]; intros [|x a] [|y b] Ha Hb; simplify_eq/=; [done|].
  destruct (Z.eqb_spec x y) as [->|].
  - rewrite IH by done. naive_solver.
  - split; [lia|congruence].
Qed.

Lemma hashcmpZipEntry_key a b : hashcmpZipEntry a b = 0 <-> fileName a = fileName b.
Proof.
  unfold hashcmpZipEntry, fileNameLen.
  destruct (Z.eqb_spec (len (fileName a)) (len (fileName b))) as [E|E]; cbn [negb].
  - unfold len in *. apply memcmp_eq; lia.
  - split; [lia|congruence].
Qed.

Lemma hashcmpZipName_key a b : hashcmpZipName a b = 0 <-> fileName a = id b.
Proof.
  unfold hashcmpZipName, fileNameLen, id.
  destruct (Z.eqb_spec (len (fileName a)) (len b)) as [E|E]; cbn [negb].
  - unfold len in *. apply memcmp_eq; lia.
  - split; [lia|congruence].
Qed.

Lemma name_diff_sgn a b : nul_free a -> nul_free b -> Z.sgn (name_diff a b) = Z.sgn (lex a b).
Proof.
  unfold name_diff. intros Ha. revert b. induction Ha as [|x a Hx Ha IH]; intros b Hb.
  - destruct Hb as [|y b Hy Hb]; [done|]. rewrite len_nil, len_cons. pose proof (len_nonneg b).
    rewrite (proj2 (Z.ltb_lt 0 (1 + len b))) by lia. cbn [Z.to_nat strncmp Z.eqb lex].
    by destruct (1 + len b) eqn:?; try lia.
  - destruct Hb as [|y b Hy Hb].
    + rewrite len_nil, len_cons. pose proof (len_nonneg a).
      rewrite (proj2 (Z.ltb_ge (1 + len a) 0)) by lia. cbn [Z.to_nat strncmp Z.eqb lex].
      by destruct (1 + len a - 0) eqn:?; try lia.
    + rewrite !len_cons. specialize (IH b Hb). pose proof (len_nonneg a). pose proof (len_nonneg b).
      replace (1 + len a <? 1 + len b) with (len a <? len b)
        by (destruct (Z.ltb_spec (len a) (len b)), (Z.ltb_spec (1 + len a) (1 + len b)); lia).
      set (d := if len a <? len b then len a else len b) in *.
      replace (if len a <? len b then 1 + len a else 1 + len b) with (1 + d)
        by (subst d; destruct (len a <? len b); done).
      assert (0 <= d) by (subst d; destruct (len a <? len b); lia).
      replace (Z.to_nat (1 + d)) with (S (Z.to_nat d)) by lia. cbn [strncmp hd tl lex].
      destruct (Z.eqb_spec x y) as [->|Hne].
      * rewrite (proj2 (Z.eqb_neq y 0)) by lia.
        replace (1 + len a - (1 + len b)) with (len a - len b) by lia. exact IH.
      * by rewrite (proj2 (Z.eqb_neq (x - y) 0)) by lia.
Qed.

(** ** The array stays sorted *)

Definition sorted_names (es : list ZipEntry) : Prop :=
  forall i j e e', (i < j)%nat -> es !! i = Some e -> es !! j = Some e' ->
    name_le (fileName e) (fileName e').

Lemma sorted_le es i j e e' :
  sorted_names es -> (i <= j)%nat -> es !! i = Some e -> es !! j = Some e' ->
  name_le (fileName e) (fileName e').
Proof.
  intros Hs Hij Hi Hj. destruct (decide (i = j)) as [->|].
  - simplify_eq. unfold name_le. by rewrite lex_refl.
  - eapply (Hs i j); eauto. lia.
Qed.

(** The search ends between the entries that are not above the name and those that
    are not below it. *)
Lemma search_high_ok es name fuel : forall low high,
  sorted_names es -> Forall (fun e => nul_free (fileName e)) es -> nul_free name ->
  0 <= low -> high < Z.of_nat (length es) -> low <= high + 1 -> high - low + 1 < Z.of_nat fuel ->
  (forall i e, Z.of_nat i < low -> es !! i = Some e -> name_le (fileName e) name) ->
  (forall i e, high < Z.of_nat i -> es !! i = Some e -> name_le name (fileName e)) ->
  exists h, search_high fuel es name low high = Ret h /\ -1 <= h < Z.of_nat (length es) /\
    (forall i e, Z.of_nat i <= h -> es !! i = Some e -> name_le (fileName e) name) /\
    (forall i e, h < Z.of_nat i -> es !! i = Some e -> name_le name (fileName e)).
Proof.
  induction fuel as [|fuel IH]; intros low high Hs Hnf Hn Hlow Hhigh Hlh Hfuel Hbelow Habove; [lia|].
  cbn [search_high]. destruct (Z.leb_spec low high) as [Hle|Hgt].
  - set (mid := low + Z.quot (high - low) 2).
    assert (low <= mid <= high) as Hmid.
    { subst mid. rewrite Z.quot_div_nonneg by lia. Z.div_mod_to_equations; lia. }
    destruct (lookup_lt_is_Some_2 es (Z.to_nat mid)) as [e He]; [lia|]. rewrite He.
    assert (nul_free (fileName e)) as Hne by (by eapply (Forall_lookup_1 _ _ _ _ Hnf)).
    pose proof (name_diff_sgn (fileName e) name Hne Hn) as Hsgn.
    destruct (Z.ltb_spec (name_diff (fileName e) name) 0) as [Hneg|Hnneg].
    + apply IH; try done; try lia. intros i e' Hi Hi'.
      assert (name_le (fileName e') (fileName e)) as Hle'
        by (apply (sorted_le es i (Z.to_nat mid)); (done || lia)).
      eapply lex_trans; [exact Hle'|]. lia.
    + destruct (Z.ltb_spec 0 (name_diff (fileName e) name)) as [Hpos|Hz].
      * apply IH; try done; try lia. intros i e' Hi Hi'.
        assert (name_le (fileName e) (fileName e')) as Hle'
          by (apply (sorted_le es (Z.to_nat mid) i); (done || lia)).
        eapply lex_trans; [|exact Hle']. apply lex_ge. lia.
      * assert (lex (fileName e) name = 0) as E%lex_eq by lia. subst name.
        exists mid. split; [done|]. split; [lia|]. split; intros i e' Hi Hi'.
        -- apply (sorted_le es i (Z.to_nat mid)); (done || lia).
        -- apply (sorted_le es (Z.to_nat mid) i); (done || lia).
  - assert (low = high + 1) as -> by lia. exists high. split; [done|]. split; [lia|].
    split; [|done]. intros i e Hi. apply Hbelow. lia.
Qed.

Lemma place_entry_ok es e :
  sorted_names es -> Forall (fun e => nul_free (fileName e)) es -> nul_free (fileName e) ->
  exists es', place_entry es e = Ret es' /\ sorted_names es' /\ es' ≡ₚ e :: es.
Proof.
  intros Hs Hnf Hn. unfold place_entry. destruct es as [|e0 es].
  { exists [e]. split; [done|]. split; [|done]. intros [|i] [|j] ? ? ? ? ?; simplify_eq/=; lia. }
  set (l := e0 :: es) in *.
  destruct (search_high_ok l (fileName e) (S (length l)) 0 (Z.of_nat (length l) - 1))
    as (h & Hh & Hr & Hlo & Hhi); try done; try lia.
  { intros i e1 Hi H1. apply lookup_lt_Some in H1. lia. }
  change (0 <? length l)%nat with true. rewrite Hh. cbn [mbind outcome_bind].
  rewrite (proj2 (Z.leb_le 0 (h + 1))), (proj2 (Z.leb_le (h + 1) _)) by lia.
  cbn [andb assert mbind outcome_bind]. eexists. split; [done|].
  set (t := Z.to_nat (h + 1)). assert (t <= length l)%nat as Ht by lia.
  split.
  - assert (forall i e1, (take t l ++ [e] ++ drop t l) !! i = Some e1 ->
      (i < t)%nat /\ l !! i = Some e1 \/ i = t /\ e1 = e \/
      (t < i)%nat /\ l !! (i - 1)%nat = Some e1) as Hcase.
    { intros i e1 Hi. destruct (decide (i < t)%nat) as [Hlt|Hge].
      - left. split; [done|]. rewrite lookup_app_l in Hi by (rewrite length_take; lia).
        by rewrite lookup_take_lt in Hi.
      - right. rewrite lookup_app_r in Hi by (rewrite length_take; lia).
        rewrite length_take, Nat.min_l in Hi by lia. destruct (i - t)%nat as [|k] eqn:Ek.
        + left. cbn in Hi. split; [lia|congruence].
        + right. split; [lia|]. change (drop t l !! k = Some e1) in Hi. rewrite lookup_drop in Hi.
          by replace (i - 1)%nat with (t + k)%nat by lia. }
    intros i j e1 e2 Hij Hi Hj.
    destruct (Hcase i e1 Hi) as [[? Hi']|[[-> ->]|[? Hi']]];
      destruct (Hcase j e2 Hj) as [[? Hj']|[[? ->]|[? Hj']]]; try lia.
    + by eapply (Hs i j).
    + eapply Hlo; [|done]. lia.
    + eapply (Hs i (j - 1)%nat); eauto; lia.
    + eapply Hhi; [|done]. lia.
    + eapply (Hs (i - 1)%nat (j - 1)%nat); eauto; lia.
  - rewrite <- (take_drop t l) at 3. symmetry. apply Permutation_middle.
Qed.

(** ** Reading one record is safe *)

(** The mapping is at a positive address, ends at least 2^18 bytes below the top of
    the address space and is that much smaller than half of it. *)
Definition map_ok (m : MemMapping) : Prop :=
  bytes_ok (mem m) /\ 0 < addr m /\ addr m + len (mem m) + 2 ^ 18 <= 2 ^ 32 /\
  len (mem m) + 2 ^ 18 <= 2 ^ 31.

(** No 32-bit word of the file is an offset that lands within [LOCHDR] bytes of the
    top of the address space. *)
Definition no_wrap (m : MemMapping) : Prop :=
  forall p v, get4LE (mem m) p = Ret v -> ~ (2 ^ 32 - LOCHDR <= addr m + v < 2 ^ 32).

Lemma past_end_small m off :
  map_ok m -> 0 <= off <= len (mem m) + 2 ^ 18 - 1 -> past_end m off = (len (mem m) <? off).
Proof.
  intros (_ & ? & ?) ?. unfold past_end. pose proof (len_nonneg (mem m)).
  rewrite !u32_small by lia.
  destruct (Z.ltb_spec (len (mem m)) off), (Z.ltb_spec (addr m + len (mem m)) (addr m + off)); lia.
Qed.

Lemma validFilename_nul_free name : validFilename name = true -> nul_free name.
Proof.
  unfold validFilename. destruct (_ <=? _); [done|]. intros H. apply Forall_forall.
  intros c Hc.  rewrite forallb_forall in H. apply H in Hc.
  apply negb_true_iff, orb_false_iff in Hc as [Hc%Z.ltb_ge _]. lia.
Qed.

Tactic Notation "rd4" ident(v) := match goal with |- (get4LE ?b ?o ≫= _) = _ \/ _ =>
  let E := fresh "E" v in let R := fresh "R" v in
  destruct (get4LE_ok b o) as (v & E & R); [assumption|lia|lia|]; rewrite E; cbn [mbind outcome_bind] end.
Tactic Notation "rd2" ident(v) := match goal with |- (get2LE ?b ?o ≫= _) = _ \/ _ =>
  let E := fresh "E" v in let R := fresh "R" v in
  destruct (get2LE_ok b o) as (v & E & R); [assumption|lia|lia|]; rewrite E; cbn [mbind outcome_bind] end.
Ltac bail := match goal with |- (if ?c then Ret None else _) = _ \/ _ =>
  let H := fresh "H" in destruct c eqn:H; [by left|] end.

(** What the checks of a record establish: a printable name, and data that is inside
    the mapping unless its length is negative as a [long]. *)
Definition entry_ok (m : MemMapping) (e : ZipEntry) : Prop :=
  validFilename (fileName e) = true /\ 0 <= offset e /\
  (0 <= compLen e -> offset e + compLen e <= len (mem m)).

Lemma parse_cen_safe m ptr :
  map_ok m -> no_wrap m -> 0 <= ptr <= len (mem m) + 3 * 65535 ->
  parse_cen m ptr = Ret None \/
  exists e ptr', parse_cen m ptr = Ret (Some (e, ptr')) /\ entry_ok m e /\
    0 <= ptr' <= len (mem m) + 3 * 65535.
Proof.
  intros Hm Hnw Hptr. pose proof Hm as (Hb & Ha & Htop). unfold no_wrap in Hnw.
  pose proof (len_nonneg (mem m)) as Hln.
  unfold parse_cen, CENHDR, CENOFF, CENNAM, CENEXT, CENCOM, CENSIZ, CENLEN, CENHOW, CENTIM,
    CENCRC, CENVEM, CENATX, LOCHDR, LOCNAM, LOCEXT in *.
  rewrite past_end_small by (done || lia). bail.
  match goal with H : (_ <? _) = false |- _ => apply Z.ltb_ge in H end.
  rd4 sig. bail. rd4 lho. rd2 nl. rd2 el. rd2 cml.
  change (2 ^ 16) with 65536 in *.
  rewrite past_end_small by (done || lia). bail.
  match goal with H : (len _ <? ptr + 46 + nl) = false |- _ => apply Z.ltb_ge in H end.
  rewrite rd_bytes_ok by lia. cbn [mbind outcome_bind]. bail.
  rd4 cl. rd4 ul. rd2 how. rd4 tim. rd4 crc. rd2 vem. bail. rd4 atx. bail.
  match goal with H : (2 ^ 32 <=? _) = false |- _ => apply Z.leb_gt in H end.
  specialize (Hnw _ _ Elho).
  assert (past_end m (lho + 30) = (len (mem m) <? lho + 30)) as ->.
  { unfold past_end. rewrite !u32_small by lia.
    destruct (Z.ltb_spec (len (mem m)) (lho + 30)),
      (Z.ltb_spec (addr m + len (mem m)) (addr m + (lho + 30))); lia. }
  bail. match goal with H : (len _ <? lho + 30) = false |- _ => apply Z.ltb_ge in H end.
  rd4 lsig. bail. rd2 lnam. rd2 lext. cbv zeta. bail. bail.
  right. do 2 eexists. split; [done|]. split; [|lia].
  match goal with H : negb (validFilename _) = false |- _ => apply negb_false_iff in H end.
  assert (s32 (u32 (u32 (u32 (lho + 30) + lnam) + lext)) = lho + 30 + lnam + lext) as Eoff.
  { rewrite (u32_small (lho + 30)), (u32_small (lho + 30 + lnam)), u32_small by lia. apply s32_small. unfold INT_MIN, INT_MAX. lia. }
  rewrite Eoff in *. split; [done|]. cbn [offset compLen]. split; [lia|]. intros Hcl.
  match goal with H : negb (safe_add_long _ _) = false |- _ =>
    apply negb_false_iff, andb_true_iff in H as [_ Hmax%Z.leb_le] end.
  match goal with H : (len _ <? u32 (u32 _ + u32 _)) = false |- _ => apply Z.ltb_ge in H end.
  pose proof (s32_range cl). unfold INT_MAX in *.
  rewrite (u32_small (s32 cl)), (u32_small (lho + 30 + lnam + lext)), u32_small in * by lia. done.
Qed.

(** ** The whole directory *)

(** The records of the central directory in file order: [recs] are read one after
    the other from offset [ptr]. *)
Inductive cen_records (m : MemMapping) : Z -> list ZipEntry -> Prop :=
| cen_nil ptr : cen_records m ptr []
| cen_cons ptr e ptr' recs :
    parse_cen m ptr = Ret (Some (e, ptr')) -> cen_records m ptr' recs ->
    cen_records m ptr (e :: recs).

Definition names_ok (es : list ZipEntry) : Prop := Forall (fun e => nul_free (fileName e)) es.

Lemma parse_loop_ok m n : map_ok m -> no_wrap m -> forall ptr es,
  0 <= ptr <= len (mem m) + 3 * 65535 -> sorted_names es -> names_ok es ->
  parse_loop n m ptr es = Ret None \/
  exists es' recs, parse_loop n m ptr es = Ret (Some es') /\ sorted_names es' /\
    cen_records m ptr recs /\ length recs = n /\ Forall (entry_ok m) recs /\ es' ≡ₚ recs ++ es.
Proof.
  intros Hm Hnw. induction n as [|n IH]; intros ptr es Hptr Hs Hes; cbn [parse_loop].
  { right. exists es, []. split_and!; try done. constructor. }
  destruct (parse_cen_safe m ptr Hm Hnw Hptr) as [->|(e & ptr' & Hp & He & Hptr')]; [by left|].
  rewrite Hp. cbn [mbind outcome_bind].
  assert (nul_free (fileName e)) as Hne by (apply validFilename_nul_free, He).
  destruct (place_entry_ok es e Hs Hes Hne) as (es1 & -> & Hs1 & Hp1). cbn [mbind outcome_bind].
  assert (names_ok es1) as Hes1 by (unfold names_ok; rewrite Hp1; by constructor).
  destruct (IH ptr' es1 Hptr' Hs1 Hes1) as [->|(es' & recs & -> & Hs' & Hr & Hl & Hok & Hperm)];
    [by left|right].
  exists es', (e :: recs). split_and!; try done.
  - by econstructor.
  - cbn. by rewrite Hl.
  - by constructor.
  - rewrite Hperm, Hp1. cbn. symmetry. apply Permutation_middle.
Qed.

(** ** The end-of-central-directory record *)

Definition eocd_at (b : bytes) (p : Z) : Prop := get4LE b p = Ret ENDSIG.

(** [p] is the last place up to [pos] with the signature. *)
Definition last_eocd (b : bytes) (pos p : Z) : Prop :=
  0 <= p <= pos /\ eocd_at b p /\ forall q, p < q <= pos -> ~ eocd_at b q.

Lemma get4LE_first b p v c :
  bytes_ok b -> 0 <= p -> p + 4 <= len b -> get4LE b p = Ret v -> rd b p = Ret c -> v mod 256 = c.
Proof.
  intros Hb Hp Hl. rewrite get4LE_spec by done.
  destruct (slice_four b p Hp Hl) as (b0&b1&b2&b3&Hs&R0&_). rewrite Z.add_0_r in R0.
  rewrite R0. intros [= <-] [= <-]. rewrite Hs. cbn [le_val].
  pose proof (slice_bytes_ok b p 4 Hb) as Hok. rewrite Hs in Hok. inversion_clear Hok.
  rewrite Z.mul_comm, Z.mod_add by lia. by apply Z.mod_small.
Qed.

Lemma find_eocd_step b pos : bytes_ok b -> Z.of_nat pos + 4 <= len b ->
  exists v, get4LE b (Z.of_nat pos) = Ret v /\
  find_eocd b pos = if v =? ENDSIG then Ret (Some (Z.of_nat pos)) else
                    match pos with O => Ret None | S pos => find_eocd b pos end.
Proof.
  intros Hb Hl. destruct (rd_ok b (Z.of_nat pos)) as (c & Hc & _); [lia|].
  destruct (get4LE_ok b (Z.of_nat pos) Hb) as (v & Hv & _); [lia|lia|].
  assert (0 <= Z.of_nat pos) as Hpos by lia. pose proof (get4LE_first b _ v c Hb Hpos Hl Hv Hc) as Hvc.
  exists v. split; [done|].
  destruct pos; cbn [find_eocd]; rewrite Hc, Hv; cbn [mbind outcome_bind];
    destruct (Z.eqb_spec c (Z.land ENDSIG 255)); cbn [andb mbind outcome_bind]; try done;
    (rewrite (proj2 (Z.eqb_neq v ENDSIG)); [done|]); intros ->; by subst c.
Qed.

Lemma find_eocd_ok b pos : bytes_ok b -> Z.of_nat pos + 4 <= len b ->
  (find_eocd b pos = Ret None /\ forall q, 0 <= q <= Z.of_nat pos -> ~ eocd_at b q) \/
  exists p, find_eocd b pos = Ret (Some p) /\ last_eocd b (Z.of_nat pos) p.
Proof.
  intros Hb. induction pos as [|pos IH]; intros Hl;
    destruct (find_eocd_step b _ Hb Hl) as (v & Hv & ->); destruct (Z.eqb_spec v ENDSIG) as [->|Hne].
  - right. exists 0. split; [done|]. split; [lia|]. split; [done|]. intros q Hq; lia.
  - left. split; [done|]. intros q Hq. assert (q = 0) as -> by lia. unfold eocd_at.
    change 0 with (Z.of_nat 0). congruence.
  - right. eexists. split; [done|]. split; [lia|]. split; [done|]. intros q Hq; lia.
  - assert (~ eocd_at b (Z.of_nat (S pos))) by (unfold eocd_at; congruence).
    destruct IH as [[-> Hn]|(p & -> & Hp & He & Hn)]; [lia| |].
    + left. split; [done|]. intros q Hq. destruct (decide (q = Z.of_nat (S pos))) as [->|]; [done|].
      apply Hn. lia.
    + right. exists p. split; [done|]. split; [lia|]. split; [done|]. intros q Hq.
      destruct (decide (q = Z.of_nat (S pos))) as [->|]; [done|]. apply Hn. lia.
Qed.

(** ** The archive that is opened *)

(** The directory the file has: a first local header, the last end record with the
    record count [n] and the offset [cd], and [n] records [recs] at [cd]. *)
Record zip_directory (m : MemMapping) (recs : list ZipEntry) : Prop := {
  zd_loc : get4LE (mem m) 0 = Ret LOCSIG;
  zd_size : ENDHDR <= len (mem m);
  zd_eocd : exists p cd, last_eocd (mem m) (len (mem m) - ENDHDR) p /\
    get2LE (mem m) (p + ENDSUB) = Ret (Z.of_nat (length recs)) /\
    get4LE (mem m) (p + ENDOFF) = Ret cd /\ cd < len (mem m) /\ cen_records m cd recs;
  zd_some : recs <> [] }.

(** The structures that stand for the records. *)
Record archive_rep (m : MemMapping) (recs : list ZipEntry) (a : ZipArchive) : Prop := {
  ar_perm : zEntries a ≡ₚ recs;
  ar_sorted : sorted_names (zEntries a);
  ar_hash : table_rep fileName computeHash (pHash a) (add_first fileName ∅ (zEntries a)) }.

Lemma parse_loop_complete m ptr recs : cen_records m ptr recs ->
  forall es, parse_loop (length recs) m ptr es <> Ret None.
Proof.
  induction 1 as [|ptr e ptr' recs Hp _ IH]; intros es; [done|].
  cbn [length parse_loop]. rewrite Hp. cbn [mbind outcome_bind].
  destruct (place_entry es e) as [es'| |]; cbn [mbind outcome_bind]; [apply IH|done|done].
Qed.

Lemma cen_records_det m ptr r1 r2 :
  cen_records m ptr r1 -> cen_records m ptr r2 -> length r1 = length r2 -> r1 = r2.
Proof.
  intros H. revert r2. induction H as [|ptr e ptr' r1 Hp _ IH]; intros r2 H2 Hl;
    destruct H2 as [|ptr e2 ptr2 r2 Hp2 H2]; try done.
  rewrite Hp in Hp2. injection Hp2 as <- <-. f_equal. by apply IH; [|injection Hl].
Qed.

Lemma last_eocd_det b pos p q : last_eocd b pos p -> last_eocd b pos q -> p = q.
Proof.
  intros (Hp & Ep & Np) (Hq & Eq & Nq). destruct (Z.lt_trichotomy p q) as [H|[H|H]]; [|done|].
  - destruct (Np q); [lia|done].
  - destruct (Nq p); [lia|done].
Qed.

Lemma zip_directory_det m r1 r2 : zip_directory m r1 -> zip_directory m r2 -> r1 = r2.
Proof.
  intros [_ _ (p & cd & Hp & Hn & Hcd & _ & H1) _] [_ _ (p' & cd' & Hp' & Hn' & Hcd' & _ & H2) _].
  rewrite (last_eocd_det _ _ _ _ Hp' Hp) in *. rewrite Hcd in Hcd'. injection Hcd' as <-.
  eapply cen_records_det; [done|done|]. rewrite Hn in Hn'. injection Hn'. lia.
Qed.

Section opening.
Context (calloc_ok calloc_entries_ok : Z -> bool).
Abbreviation parse := (parseZipArchive calloc_ok calloc_entries_ok).

Lemma mzHashSize_small n : 0 < n < 65536 ->
  mzHashSize n = n * 8 / 5 + 1 /\ n * 8 <= mzHashSize n * 5 /\ 1 <= mzHashSize n <= 2 ^ 17.
Proof.
  intros. unfold mzHashSize, LOAD_DENOM, LOAD_NUMER.
  assert (u32 (u32 (n * 8) / 5 + 1) = n * 8 / 5 + 1) as ->.
  { rewrite (u32_small (n * 8)) by lia. apply u32_small. Z.div_mod_to_equations; lia. }
  Z.div_mod_to_equations; lia.
Qed.

Lemma create_small n :
  1 <= n <= 2 ^ 28 ->
  mzHashTableCreate (A:=ZipEntry) calloc_ok n = Ret None \/ calloc_ok (roundUpPower2 n) = true.
Proof.
  intros Hn. destruct (roundUpPower2_ge n) as (k & Hk & Ek & Hle); [lia|].
  unfold mzHashTableCreate. rewrite (proj2 (Z.ltb_lt 0 n)) by lia. cbn [assert mbind outcome_bind].
  destruct (calloc_ok (roundUpPower2 n)) eqn:E; [by right|left].
  assert (k <= 28) as Hk28.
  { destruct (decide (k <= 28)); [done|]. pose proof (Z.pow_le_mono_r 2 29 k). lia. }
  pose proof (Z.pow_pos_nonneg 2 k). pose proof (Z.pow_le_mono_r 2 k 28).
  rewrite Ek in *. rewrite s32_small by (unfold INT_MIN, INT_MAX; lia). by rewrite E.
Qed.

(** The table sized for [n] entries takes them all. *)
Lemma addEntries_ok n h es : 0 < n < 65536 -> Z.of_nat (length es) = n ->
  mzHashTableCreate calloc_ok (mzHashSize n) = Ret (Some h) ->
  exists h', addEntries calloc_ok (hash_fuel n) h es = Ret h' /\
    table_rep fileName computeHash h' (add_first fileName ∅ es).
Proof.
  intros Hn Hl Hc. destruct (mzHashSize_small n Hn) as (E & Hload & Hr).
  destruct (create_small (mzHashSize n)) as [Hc'|Hok]; [lia|congruence|].
  destruct (create_ok fileName computeHash calloc_ok (mzHashSize n)) as (t & Ht & Hrep & Hn0 & Hd & Hsz);
    [lia|done|]. rewrite Hc in Ht. injection Ht as <-.
  destruct (add_all_presized fileName computeHash hashcmpZipEntry calloc_ok hashcmpZipEntry_key
    (hash_fuel n) es h ∅ n) as (h' & H1 & H2 & _); auto.
  - lia.
  - unfold hash_fuel. Z.div_mod_to_equations; lia.
  - lia.
  - lia.
  - by exists h'.
Qed.

Lemma parse_ok m : map_ok m -> no_wrap m -> ENDHDR <= len (mem m) ->
  parse m = Ret None \/
  exists recs a, parse m = Ret (Some a) /\ zip_directory m recs /\ archive_rep m recs a /\
    Forall (entry_ok m) recs.
Proof.
  intros Hm Hnw Hsz. pose proof Hm as (Hb & Ha & Htop).
  unfold parseZipArchive, ENDHDR in *. rd4 val. bail. bail.
  match goal with H : negb (val =? LOCSIG) = false |- _ =>
    apply negb_false_iff, Z.eqb_eq in H; subst val end.
  rewrite (proj2 (Z.leb_le _ _) Hsz).
  destruct (find_eocd_ok (mem m) (Z.to_nat (len (mem m) - 22)) Hb) as [[-> _]|(p & -> & Hp)];
    [lia|by left|]. rewrite Z2Nat.id in Hp by lia. pose proof Hp as (Hpr & _).
  cbn [mbind outcome_bind]. unfold ENDSUB, ENDOFF. rd2 n. rd4 cd. change (2 ^ 16) with 65536 in *.
  bail. match goal with H : _ || _ = false |- _ =>
    apply orb_false_iff in H as [Hn0%Z.eqb_neq Hcd%Z.leb_gt] end.
  destruct (mzHashSize_small n) as (E & Hload & Hr); [lia|].
  destruct (create_small (mzHashSize n)) as [->|Hok]; [lia| |].
  { cbn [mbind outcome_bind]. bail. by left. }
  destruct (create_ok (A:=ZipEntry) fileName computeHash calloc_ok (mzHashSize n)) as (t & Ht & _); [lia|done|].
  rewrite Ht. cbn [mbind outcome_bind]. bail.
  destruct (parse_loop_ok m (Z.to_nat n) Hm Hnw cd [])
    as [->|(es & recs & -> & Hs & Hrecs & Hl & Hok' & Hperm)]; [lia|by intros ?????|constructor|by left|].
  rewrite app_nil_r in Hperm. cbn [mbind outcome_bind].
  destruct (addEntries_ok n t es) as (h' & -> & Hrep); [lia| |done|].
  { rewrite Hperm, Hl. lia. }
  right. exists recs, (mkArchive es h'). split_and!; [done| | |done].
  - split; [done|done| |].
    + exists p, cd. rewrite Hl. rewrite Z2Nat.id by lia. auto.
    + intros ->. cbn in Hl. lia.
  - by split.
Qed.

(** A well-formed directory is accepted when memory suffices. *)
Lemma parse_complete m recs : map_ok m -> no_wrap m -> zip_directory m recs ->
  (forall n, calloc_ok n = true) -> (forall n, calloc_entries_ok n = true) -> parse m <> Ret None.
Proof.
  intros Hm Hnw [Hloc Hsz (p & cd & Hp & Hn & Hcd & Hlt & Hrecs) Hne] Hc1 Hc2.
  pose proof Hm as (Hb & Ha & Htop). unfold parseZipArchive, ENDHDR in *.
  rewrite Hloc. cbn [mbind outcome_bind]. change (LOCSIG =? ENDSIG) with false.
  rewrite Z.eqb_refl. cbn [negb]. rewrite (proj2 (Z.leb_le _ _) Hsz).
  destruct (find_eocd_ok (mem m) (Z.to_nat (len (mem m) - 22)) Hb) as [[_ Hno]|(p' & -> & Hp')];
    [lia| |].
  { destruct (Hno p); [|apply Hp]. destruct Hp. lia. }
  rewrite Z2Nat.id in Hp' by lia. rewrite (last_eocd_det _ _ _ _ Hp' Hp) in *.
  cbn [mbind outcome_bind]. rewrite Hn, Hcd. cbn [mbind outcome_bind].
  destruct recs as [|r recs]; [done|]. set (l := r :: recs) in *.
  destruct (get2LE_ok (mem m) (p + ENDSUB) Hb) as (v & Hv & Hvr);
    [destruct Hp; unfold ENDSUB; lia..|].
  assert (v = Z.of_nat (length l)) as -> by congruence.
  change (2 ^ 16) with 65536 in *. assert (0 < Z.of_nat (length l)) by (cbn; lia).
  rewrite (proj2 (Z.eqb_neq (Z.of_nat (length l)) 0)), (proj2 (Z.leb_gt (len (mem m)) cd)) by lia.
  cbn [orb].
  destruct (mzHashSize_small (Z.of_nat (length l))) as (E & Hload & Hr); [lia|].
  destruct (create_ok (A:=ZipEntry) fileName computeHash calloc_ok (mzHashSize (Z.of_nat (length l))))
    as (t & -> & _); [lia|done|].
  cbn [mbind outcome_bind]. rewrite Hc2. cbn [negb]. rewrite Nat2Z.id.
  pose proof (parse_loop_complete m cd l Hrecs []) as Hpl.
  destruct (parse_loop (length l) m cd []) as [[es|]| |]; [|done..]. cbn [mbind outcome_bind].
  by destruct (addEntries calloc_ok _ t es).
Qed.

Lemma find_entry_ok m recs a name : archive_rep m recs a ->
  mzFindZipEntry calloc_ok a name =
  Ret (List.find (fun e => bool_decide (fileName e = name)) (zEntries a)).
Proof.
  intros [_ _ Hh]. pose proof (add_first_lookup fileName (zEntries a) ∅ name) as Hl.
  rewrite lookup_empty in Hl. rewrite <- Hl. clear Hl. unfold mzFindZipEntry.
  change (computeHash name) with (computeHash (id name)).
  destruct (add_first fileName ∅ (zEntries a) !! id name) as [e|] eqn:E.
  - rewrite (lookup_present fileName computeHash id hashcmpZipName hashcmpZipName_key calloc_ok
      (pHash a) _ _ name None e Hh) by done. cbn [mbind outcome_bind]. unfold id in E. by rewrite E.
  - rewrite (lookup_absent fileName computeHash id hashcmpZipName hashcmpZipName_key calloc_ok
      (pHash a) _ _ name Hh) by done. cbn [mbind outcome_bind]. unfold id in E. by rewrite E.
Qed.
End opening.

(** ** A small archive *)

Definition zip_local (name data : bytes) : bytes :=
  le_enc 4 LOCSIG ++ le_enc 2 10 ++ replicate 8 0 ++ le_enc 4 0 ++ le_enc 4 (len data) ++
  le_enc 4 (len data) ++ le_enc 2 (len name) ++ le_enc 2 0 ++ name ++ data.
Definition zip_cen (name : bytes) (cl ul off : Z) : bytes :=
  le_enc 4 CENSIG ++ le_enc 2 0x314 ++ le_enc 2 10 ++ replicate 8 0 ++ le_enc 4 0 ++ le_enc 4 cl ++
  le_enc 4 ul ++ le_enc 2 (len name) ++ le_enc 2 0 ++ le_enc 2 0 ++ replicate 4 0 ++
  le_enc 4 (Z.shiftl 0x81a4 16) ++ le_enc 4 off ++ name.
Definition zip_end (n size off : Z) (comment : bytes) : bytes :=
  le_enc 4 ENDSIG ++ replicate 4 0 ++ le_enc 2 n ++ le_enc 2 n ++ le_enc 4 size ++ le_enc 4 off ++
  le_enc 2 (len comment) ++ comment.

(** Two files "b" and "a", in this order in the file. *)
Definition demo_zip : MemMapping :=
  let f1 := zip_local [98] [1; 2; 3] in let f2 := zip_local [97] [4; 5] in
  let cd := zip_cen [98] 3 3 0 ++ zip_cen [97] 2 2 (len f1) in
  mkMap 0x10000 (f1 ++ f2 ++ cd ++ zip_end 2 (len cd) (len f1 + len f2) [7]).

(** The same with one file, whose record has the given length and offset. *)
Definition demo_zip_bad (cl off : Z) : MemMapping :=
  let f1 := zip_local [98] [1; 2; 3] in
  let cd := zip_cen [98] cl 3 off in
  mkMap 0x10000 (f1 ++ cd ++ zip_end 1 (len cd) (len f1) []).

Definition no_wrapb (m : MemMapping) : bool :=
  forallb (fun p => match get4LE (mem m) (Z.of_nat p) with
                    | Ret v => negb ((2 ^ 32 - LOCHDR <=? addr m + v) && (addr m + v <? 2 ^ 32))
                    | _ => true end) (seq 0 (length (mem m))).
Lemma no_wrapb_ok m : no_wrapb m = true -> no_wrap m.
Proof.
  unfold no_wrapb. rewrite forallb_forall. intros H p v Hv Hc.
  assert (0 <= p < len (mem m)) as Hp.
  { unfold get4LE in Hv. apply bind_Ret in Hv as (b0 & Hb & _). rewrite Z.add_0_r in Hb.
    apply rd_Ret in Hb as [? Hb%lookup_lt_Some]. unfold len. lia. }
  specialize (H (Z.to_nat p)). rewrite Z2Nat.id, Hv in H by lia.
  rewrite negb_true_iff, andb_false_iff, Z.leb_gt, Z.ltb_ge in H.
  unfold len in Hp. destruct H; [apply in_seq; lia|lia|lia].
Qed.

Ltac map_ok_tac := split_and!; [apply bytes_okb_ok; by vm_compute|by vm_compute|
  by vm_compute|by vm_compute].
Lemma demo_zip_ok : map_ok demo_zip /\ no_wrap demo_zip.
Proof. split; [map_ok_tac|apply no_wrapb_ok; by vm_compute]. Qed.

(** ** Properties *)

Definition all_ok (n : Z) : bool := true.

(** Claim C27.  Lookup by name in an archive that was opened finds an entry of the
    directory with exactly that name, and reports none only when the directory has
    none; the probe always ends. *)
Theorem zip_find_entry calloc_ok calloc_entries_ok m a name
    (Hm : map_ok m) (Hnw : no_wrap m)
    (Hopen : mzOpenZipArchive calloc_ok calloc_entries_ok m = Ret (0, Some a)) :
  exists recs, zip_directory m recs /\
    ((exists e, mzFindZipEntry calloc_ok a name = Ret (Some e) /\ e ∈ recs /\ fileName e = name) \/
     (mzFindZipEntry calloc_ok a name = Ret None /\ forall e, e ∈ recs -> fileName e <> name)).
Proof.
  unfold mzOpenZipArchive in Hopen. destruct (Z.ltb_spec (len (mem m)) ENDHDR) as [Hs|Hs]; [done|].
  destruct (parse_ok calloc_ok calloc_entries_ok m Hm Hnw Hs) as [E|(recs & a' & E & Hd & Ha & _)];
    rewrite E in Hopen; [done|]. injection Hopen as ->.
  exists recs. split; [done|]. rewrite (find_entry_ok calloc_ok m recs a name Ha).
  destruct (List.find _ (zEntries a)) as [e|] eqn:Ef.
  - left. exists e. apply find_some in Ef as [Hin Hb%bool_decide_eq_true_1].
    split; [done|]. split; [|done]. rewrite <- (ar_perm _ _ _ Ha). by apply list_elem_of_In.
  - right. split; [done|]. intros e He Hn. rewrite <- (ar_perm _ _ _ Ha) in He.
    apply list_elem_of_In in He. pose proof (find_none _ _ Ef e He) as H. cbn in H.
    by apply bool_decide_eq_false_1 in H.
Qed.

Definition demo_archive : ZipArchive :=
  Eval vm_compute in match mzOpenZipArchive all_ok all_ok demo_zip with
                     | Ret (_, Some a) => a | _ => mkArchive [] (mkTable 0 0 0 []) end.
Lemma zip_find_entry_witness :
  exists recs, zip_directory demo_zip recs /\
    exists e, mzFindZipEntry all_ok demo_archive [97] = Ret (Some e) /\ e ∈ recs /\ fileName e = [97].
Proof.
  destruct (zip_find_entry all_ok all_ok demo_zip demo_archive [97]
    (proj1 demo_zip_ok) (proj2 demo_zip_ok)) as (recs & Hd & [H|[H _]]).
  - by vm_compute.
  - by exists recs.
  - exfalso. vm_compute in H. discriminate H.
Defined.

(** The check of the local header offset is incomplete: an offset whose
    local header would straddle the top of the address space passes "ptr + offset"
    and wraps in "localHdr + LOCHDR > end", and the signature is read outside the
    mapping. *)
Theorem zip_local_header_check_wraps :
  map_ok (demo_zip_bad 3 0xfffefff0) /\
  mzOpenZipArchive all_ok all_ok (demo_zip_bad 3 0xfffefff0) = Fault.
Proof. split; [map_ok_tac|by vm_compute]. Qed.

(** A compressed size of 2^31 or more is kept as a negative [long] and
    passes the range check: the archive opens with an entry whose length is negative. *)
Theorem zip_negative_length_accepted :
  map_ok (demo_zip_bad 0xffffffff 0) /\ no_wrap (demo_zip_bad 0xffffffff 0) /\
  exists a e, mzOpenZipArchive all_ok all_ok (demo_zip_bad 0xffffffff 0) = Ret (0, Some a) /\
    zEntries a = [e] /\ compLen e = -1.
Proof.
  split; [map_ok_tac|]. split; [apply no_wrapb_ok; by vm_compute|].
  set (r := mzOpenZipArchive _ _ _). vm_compute in r. subst r. do 2 eexists. done.
Qed.
