(* ===== verification/Verifier.v ===== *)
(** [verifier.c]: the whole-file signature of an update package ([verify_file]);
    the file of public keys ([load_keys]) is in [KeyFile]. *)
From S2P Require Import Prelude Endian Mincrypt Hash Zip.

Definition VERIFY_SUCCESS : Z := 0.
Definition VERIFY_FAILURE : Z := 1.
Definition FOOTER_SIZE : Z := 6.
Definition EOCD_HEADER_SIZE : Z := 22.
Definition BUFFER_SIZE : Z := 4096.

Record Certificate := mkCert { hash_len : Z; public_key : RSAPublicKey }.

Section verify.
Context (SHA : HashOps) (SHA256 : HashOps) `{RsaOps}.
(** [io_ok pos n]: the read of [n] bytes at [pos] meets no I/O error;
    [malloc_ok n]: [n] bytes can be allocated. *)
Context (io_ok : Z -> Z -> bool) (malloc_ok : Z -> bool).

(** [fread] on a regular file, at file position [pos]: what there is. *)
Definition fread (f : bytes) (pos n : Z) : bytes := if io_ok pos n then slice f pos n else [].

(** Is the marker $50 $4b $05 $06 at index [i]?  (Lines 119-120 and 128-129.) *)
Definition marker_at (eocd : bytes) (i : Z) : outcome bool :=
  c0 ← rd eocd i; if negb (c0 =? 0x50) then Ret false else
  c1 ← rd eocd (i + 1); if negb (c1 =? 0x4b) then Ret false else
  c2 ← rd eocd (i + 2); if negb (c2 =? 0x05) then Ret false else
  c3 ← rd eocd (i + 3); Ret (c3 =? 0x06).

(** The loop of lines 127-138: does the marker occur at [i] or later? *)
Fixpoint marker_after (fuel : nat) (eocd : bytes) (eocd_size i : Z) : outcome bool :=
  if i <? eocd_size - 3 then
    match fuel with
    | O => Diverge
    | S fuel => m ← marker_at eocd i; if m : bool then Ret true else marker_after fuel eocd eocd_size (i + 1)
    end
  else Ret false.

(** The loop of lines 165-181; [None] is a failed read. *)
Fixpoint hash_loop (fuel : nat) (f : bytes) (need_sha1 need_sha256 : bool) (signed_len so_far : Z)
    (sha1_ctx : HASH_CTX (HashOps:=SHA)) (sha256_ctx : HASH_CTX (HashOps:=SHA256))
    : outcome (option (HASH_CTX (HashOps:=SHA) * HASH_CTX (HashOps:=SHA256))) :=
  if so_far <? signed_len then
    match fuel with
    | O => Diverge
    | S fuel =>
        let size := if signed_len - so_far <? BUFFER_SIZE then signed_len - so_far else BUFFER_SIZE in
        let buffer := fread f so_far size in
        if negb (len buffer =? size) then Ret None else
        hash_loop fuel f need_sha1 need_sha256 signed_len (so_far + size)
          (if need_sha1 then hash_update sha1_ctx buffer else sha1_ctx)
          (if need_sha256 then hash_update sha256_ctx buffer else sha256_ctx)
    end
  else Ret (Some (sha1_ctx, sha256_ctx)).

(** The loop of lines 188-206 over the keys. *)
Fixpoint check_keys (eocd : bytes) (eocd_size : Z) (sha1 sha256 : bytes) (pKeys : list Certificate)
    : outcome Z :=
  match pKeys with
  | [] => Ret VERIFY_FAILURE
  | k :: ks =>
      match (if hash_len k =? SHA_DIGEST_SIZE then Some sha1
             else if hash_len k =? SHA256_DIGEST_SIZE then Some sha256 else None) with
      | None => check_keys eocd eocd_size sha1 sha256 ks
      | Some hash =>
          signature ← rd_bytes eocd (eocd_size - 6 - RSANUMBYTES) RSANUMBYTES;
          if RSA_verify (public_key k) signature hash (hash_len k) then Ret VERIFY_SUCCESS
          else check_keys eocd eocd_size sha1 sha256 ks
      end
  end.

(** [int verify_file(const char* path, const Certificate* pKeys, unsigned int numKeys)];
    the file is [None] when it cannot be opened. *)
Definition verify_file (file : option bytes) (pKeys : list Certificate) : outcome Z :=
  match file with
  | None => Ret VERIFY_FAILURE
  | Some f =>
      if len f <? FOOTER_SIZE then Ret VERIFY_FAILURE else
      let footer := fread f (len f - FOOTER_SIZE) FOOTER_SIZE in
      if negb (len footer =? FOOTER_SIZE) then Ret VERIFY_FAILURE else
      f2 ← rd footer 2; f3 ← rd footer 3;
      if negb (f2 =? 0xff) || negb (f3 =? 0xff) then Ret VERIFY_FAILURE else
      f4 ← rd footer 4; f5 ← rd footer 5;
      let comment_size := f4 + Z.shiftl f5 8 in
      f0 ← rd footer 0; f1 ← rd footer 1;
      let signature_start := f0 + Z.shiftl f1 8 in
      if signature_start - FOOTER_SIZE <? RSANUMBYTES then Ret VERIFY_FAILURE else
      let eocd_size := u32 (comment_size + EOCD_HEADER_SIZE) in
      if len f <? eocd_size then Ret VERIFY_FAILURE else
      let signed_len := u32 (len f - eocd_size + EOCD_HEADER_SIZE - 2) in
      if negb (malloc_ok eocd_size) then Ret VERIFY_FAILURE else
      let eocd := fread f (len f - eocd_size) eocd_size in
      if negb (len eocd =? eocd_size) then Ret VERIFY_FAILURE else
      m ← marker_at eocd 0;
      if negb m then Ret VERIFY_FAILURE else
      again ← marker_after (Z.to_nat eocd_size) eocd eocd_size 4;
      if again : bool then Ret VERIFY_FAILURE else
      let need_sha1 := existsb (fun k => hash_len k =? SHA_DIGEST_SIZE) pKeys in
      let need_sha256 := existsb (fun k => negb (hash_len k =? SHA_DIGEST_SIZE)
                                           && (hash_len k =? SHA256_DIGEST_SIZE)) pKeys in
      if negb (malloc_ok BUFFER_SIZE) then Ret VERIFY_FAILURE else
      h ← hash_loop (Z.to_nat (signed_len / BUFFER_SIZE + 1)) f need_sha1 need_sha256 signed_len 0
            hash_init hash_init;
      match h with
      | None => Ret VERIFY_FAILURE
      | Some (c1, c256) => check_keys eocd eocd_size (hash_final c1) (hash_final c256) pKeys
      end
  end.
End verify.

(** ** The parts *)

Lemma le4_eq b0 b1 b2 b3 : is_byte b0 -> is_byte b1 -> is_byte b2 -> is_byte b3 ->
  le_val [b0; b1; b2; b3] = ENDSIG <-> b0 = 0x50 /\ b1 = 0x4b /\ b2 = 0x05 /\ b3 = 0x06.
Proof. intros. cbn [le_val]. unfold ENDSIG. lia. Qed.

#[export] Instance eocd_at_dec b i : Decision (eocd_at b i).
Proof.
  unfold eocd_at. destruct (get4LE b i) as [v| |]; [|by right..].
  destruct (decide (v = ENDSIG)) as [->|]; [by left|right; congruence].
Defined.

Lemma marker_at_spec b i : bytes_ok b -> 0 <= i -> i + 4 <= len b ->
  marker_at b i = Ret (bool_decide (eocd_at b i)).
Proof.
  intros Hb Hi Hl. destruct (slice_four b i Hi Hl) as (b0&b1&b2&b3&Hs&R0&R1&R2&R3).
  pose proof (slice_bytes_ok b i 4 Hb) as Hok. rewrite Hs in Hok.
  unfold bytes_ok in Hok. rewrite !Forall_cons_iff in Hok. destruct Hok as (K0 & K1 & K2 & K3 & _).
  assert (eocd_at b i <-> b0 = 0x50 /\ b1 = 0x4b /\ b2 = 0x05 /\ b3 = 0x06) as He.
  { unfold eocd_at. rewrite get4LE_spec, Hs by done. rewrite <- le4_eq by done. split; [by intros [= ?]|by intros ->]. }
  rewrite (bool_decide_ext _ _ He). rewrite Z.add_0_r in R0.
  unfold marker_at. rewrite R0, R1, R2, R3. cbn [mbind outcome_bind].
  destruct (Z.eqb_spec b0 0x50); cbn [negb]; [|rewrite bool_decide_eq_false_2; [done|tauto]].
  destruct (Z.eqb_spec b1 0x4b); cbn [negb]; [|rewrite bool_decide_eq_false_2; [done|tauto]].
  destruct (Z.eqb_spec b2 0x05); cbn [negb]; [|rewrite bool_decide_eq_false_2; [done|tauto]].
  destruct (Z.eqb_spec b3 0x06); [by rewrite bool_decide_eq_true_2|].
  rewrite bool_decide_eq_false_2; [done|tauto].
Qed.

Lemma marker_after_spec b size fuel : bytes_ok b -> size = len b -> forall i,
  0 <= i -> size - 3 - i < Z.of_nat fuel ->
  (marker_after fuel b size i = Ret false /\ forall j, i <= j < size - 3 -> ~ eocd_at b j) \/
  (marker_after fuel b size i = Ret true /\ exists j, i <= j < size - 3 /\ eocd_at b j).
Proof.
  intros Hb ->. induction fuel as [|fuel IH]; intros i Hi Hf; cbn [marker_after];
    (destruct (Z.ltb_spec i (len b - 3)) as [Hlt|]; [|left; split; [done|]; intros j Hj; lia]); [lia|].
  rewrite marker_at_spec by (done || lia). cbn [mbind outcome_bind].
  case_bool_decide as Hm; [right; split; [done|]; by exists i; split; [lia|]|].
  destruct (IH (i + 1)) as [[-> Hn]|[-> (j & Hj & He)]]; [lia|lia| |].
  - left. split; [done|]. intros j Hj. destruct (decide (j = i)) as [->|]; [done|]. apply Hn. lia.
  - right. split; [done|]. exists j. split; [lia|done].
Qed.

(** The marker at an offset of the tail of a file is the marker in the file. *)
Lemma eocd_at_drop f n i : bytes_ok f -> 0 <= n <= len f -> 0 <= i ->
  eocd_at (drop (Z.to_nat n) f) i <-> eocd_at f (n + i).
Proof.
  intros Hf Hn Hi. unfold eocd_at.
  assert (forall k, 0 <= k -> rd (drop (Z.to_nat n) f) (i + k) = rd f (n + i + k)) as E.
  { intros k Hk. unfold rd. rewrite len_drop by done. rewrite lookup_drop.
    replace (Z.to_nat n + Z.to_nat (i + k))%nat with (Z.to_nat (n + i + k)) by lia.
    rewrite (proj2 (Z.leb_le 0 (i + k))), (proj2 (Z.leb_le 0 (n + i + k))) by lia. cbn [andb].
    by destruct (Z.ltb_spec (i + k) (len f - n)), (Z.ltb_spec (n + i + k) (len f)); try lia. }
  unfold get4LE. by rewrite !E by lia.
Qed.

Section loops.
Context (SHA : HashOps) (SHA256 : HashOps) (io_ok : Z -> Z -> bool).
Abbreviation loop := (hash_loop SHA SHA256 io_ok).

Lemma fread_len f pos n : 0 <= pos -> 0 <= n -> pos + n <= len f ->
  len (fread io_ok f pos n) = n -> fread io_ok f pos n = slice f pos n.
Proof.
  unfold fread. destruct (io_ok pos n); [done|]. rewrite len_nil. intros. subst n. done.
Qed.

Lemma hash_loop_spec f n1 n256 signed_len fuel : signed_len <= len f -> forall so_far c1 c256,
  0 <= so_far <= signed_len -> signed_len - so_far <= Z.of_nat fuel * BUFFER_SIZE ->
  (loop fuel f n1 n256 signed_len so_far c1 c256 = Ret None /\ ~ (forall p n, io_ok p n = true)) \/
  exists chunks, concat chunks = slice f so_far (signed_len - so_far) /\
    loop fuel f n1 n256 signed_len so_far c1 c256 =
    Ret (Some (if n1 then foldl hash_update c1 chunks else c1,
               if n256 then foldl hash_update c256 chunks else c256)).
Proof.
  intros Hle. unfold BUFFER_SIZE. induction fuel as [|fuel IH]; intros so_far c1 c256 Hs Hf; cbn [hash_loop];
    (destruct (Z.ltb_spec so_far signed_len) as [Hlt|];
     [|right; exists []; replace (signed_len - so_far) with 0 by lia; by destruct n1, n256]); [lia|].
  unfold BUFFER_SIZE.
  set (size := if signed_len - so_far <? 4096 then _ else _).
  assert (0 < size <= signed_len - so_far /\ (size = 4096 \/ so_far + size = signed_len)) as [Hsz Hsz'].
  { subst size. destruct (Z.ltb_spec (signed_len - so_far) 4096); lia. }
  destruct (Z.eqb_spec (len (fread io_ok f so_far size)) size) as [El|El]; cbn [negb].
  - assert (fread io_ok f so_far size = slice f so_far size) as -> by (apply fread_len; lia).
    destruct (IH (so_far + size) (if n1 then hash_update c1 (slice f so_far size) else c1)
      (if n256 then hash_update c256 (slice f so_far size) else c256)) as [?|(ch & Hc & ->)];
      [lia|lia|by left|right].
    exists (slice f so_far size :: ch). split; [|by destruct n1, n256].
    cbn [concat]. rewrite Hc, <- slice_split by lia. f_equal. lia.
  - left. split; [done|]. intros Hio. apply El. unfold fread. rewrite Hio. apply len_slice; lia.
Qed.
End loops.

(** ** The whole of [verify_file] *)

(** The fields of the footer and what they locate. *)
Definition comment_size (f : bytes) : Z := le_val (slice f (len f - 2) 2).
Definition signature_start (f : bytes) : Z := le_val (slice f (len f - 6) 2).
Definition eocd_pos (f : bytes) : Z := len f - 22 - comment_size f.
(** All of the file up to the comment length of the end record. *)
Definition signed_part (f : bytes) : bytes := take (Z.to_nat (eocd_pos f + 20)) f.

Section spec.
Context (SHA : HashOps) (SHA256 : HashOps) `{RSA : RsaOps} `{!HashLaws SHA} `{!HashLaws SHA256}.
Context (io_ok : Z -> Z -> bool) (malloc_ok : Z -> bool).

Definition signature_of (f : bytes) : bytes := slice f (len f - 6 - RSANUMBYTES) RSANUMBYTES.

(** The layout that is checked before any key is tried. *)
Record package_shape (f : bytes) : Prop := {
  ps_magic : slice f (len f - 4) 2 = [255; 255];
  ps_start : RSANUMBYTES + 6 <= signature_start f;
  ps_eocd : last_eocd f (len f - 4) (eocd_pos f) }.

(** The certificate's key accepts the signature of the digest of the signed part. *)
Definition key_matches (f : bytes) (k : Certificate) : bool :=
  if hash_len k =? SHA_DIGEST_SIZE then
    RSA_verify (public_key k) (signature_of f) (digest (H:=SHA) (signed_part f)) (hash_len k)
  else if hash_len k =? SHA256_DIGEST_SIZE then
    RSA_verify (public_key k) (signature_of f) (digest (H:=SHA256) (signed_part f)) (hash_len k)
  else false.

Lemma footer_bytes f : bytes_ok f -> 6 <= len f -> exists f0 f1 f2 f3 f4 f5,
  slice f (len f - 6) 6 = [f0; f1; f2; f3; f4; f5] /\
  f0 + Z.shiftl f1 8 = signature_start f /\ slice f (len f - 4) 2 = [f2; f3] /\
  f4 + Z.shiftl f5 8 = comment_size f /\ 0 <= comment_size f < 65536.
Proof.
  intros Hb Hl.
  destruct (slice_two f (len f - 6)) as (f0 & f1 & E0 & _); [lia|lia|].
  destruct (slice_two f (len f - 4)) as (f2 & f3 & E2 & _); [lia|lia|].
  destruct (slice_two f (len f - 2)) as (f4 & f5 & E4 & _); [lia|lia|].
  exists f0, f1, f2, f3, f4, f5. unfold signature_start, comment_size. rewrite E0, E4.
  pose proof (slice_bytes_ok f (len f - 2) 2 Hb) as Hok. rewrite E4 in Hok.
  unfold bytes_ok in Hok. rewrite !Forall_cons_iff in Hok. destruct Hok as (? & ? & _).
  split_and!; [|by rewrite Z.shiftl_mul_pow2 by lia; cbn; lia|done
    |by rewrite Z.shiftl_mul_pow2 by lia; cbn; lia|cbn; lia|cbn; lia].
  change 6 with (2 + (2 + 2)) at 2. rewrite (slice_split f (len f - 6) 2 (2 + 2)) by lia.
  rewrite (slice_split f (len f - 6 + 2) 2 2) by lia.
  replace (len f - 6 + 2) with (len f - 4) by lia.
  replace (len f - 4 + 2) with (len f - 2) by lia. by rewrite E0, E2, E4.
Qed.

Abbreviation verify := (verify_file SHA SHA256 io_ok malloc_ok).
Abbreviation check := (check_keys).

Lemma slice_drop f n : 0 <= n <= len f -> slice f (len f - n) n = drop (Z.to_nat (len f - n)) f.
Proof.
  intros. unfold slice. apply take_ge. rewrite length_drop. unfold len in *. lia.
Qed.

Lemma eocd_no_overlap b p k : bytes_ok b -> 0 <= p -> p + k + 4 <= len b ->
  eocd_at b p -> 1 <= k <= 3 -> ~ eocd_at b (p + k).
Proof.
  intros Hb Hp Hl He Hk He'. destruct (rd_ok b (p + k)) as (c & Hc & _); [lia|].
  pose proof (get4LE_first b (p + k) ENDSIG c Hb ltac:(lia) Hl He' Hc) as Hf.
  destruct (slice_four b p) as (b0&b1&b2&b3&Hs&R0&R1&R2&R3); [lia|lia|].
  pose proof (slice_bytes_ok b p 4 Hb) as Hok. rewrite Hs in Hok.
  unfold bytes_ok in Hok. rewrite !Forall_cons_iff in Hok. destruct Hok as (K0 & K1 & K2 & K3 & _).
  unfold eocd_at in He. rewrite get4LE_spec, Hs in He by (done || lia).
  assert (le_val [b0; b1; b2; b3] = ENDSIG) as E by congruence.
  apply le4_eq in E as (E0 & E1 & E2 & E3); [|done..].
  change (ENDSIG mod 256) with 0x50 in Hf.
  assert (k = 1 \/ k = 2 \/ k = 3) as [->|[->| ->]] by lia; congruence.
Qed.

Lemma tail_markers f : bytes_ok f -> 0 <= eocd_pos f -> 0 <= comment_size f ->
  let eocd := drop (Z.to_nat (eocd_pos f)) f in
  last_eocd f (len f - 4) (eocd_pos f) <->
  eocd_at eocd 0 /\ forall j, 4 <= j < len eocd - 3 -> ~ eocd_at eocd j.
Proof.
  intros Hb Hp Hc eocd. set (p := eocd_pos f) in *.
  assert (p + 22 <= len f) as Hpl by (subst p; unfold eocd_pos; lia).
  assert (len eocd = len f - p) as Hle by (subst eocd; rewrite len_drop; lia).
  assert (forall j, 0 <= j -> eocd_at eocd j <-> eocd_at f (p + j)) as E.
  { intros j Hj. subst eocd. apply eocd_at_drop; [done|lia|done]. }
  split.
  - intros (_ & He & Hn). split; [apply E; [lia|]; by rewrite Z.add_0_r|].
    intros j Hj Hj'%E; [|lia]. eapply Hn; [|done]. lia.
  - intros [He Hn]. apply E in He; [|lia]. rewrite Z.add_0_r in He.
    split; [lia|]. split; [done|]. intros q Hq He'.
    destruct (decide (q - p <= 3)).
    + apply (eocd_no_overlap f p (q - p)); [done|lia|lia|done|lia|].
      by replace (p + (q - p)) with q by lia.
    + apply (Hn (q - p)); [lia|]. apply E; [lia|]. by replace (p + (q - p)) with q by lia.
Qed.

(** All checks that come before the keys: they fail, or the layout is right and the
    keys are tried on the digest of the signed part. *)
Lemma verify_file_run f keys : bytes_ok f -> len f < 2 ^ 31 ->
  (verify (Some f) keys = Ret VERIFY_FAILURE /\
   ~ (package_shape f /\ (forall p n, io_ok p n = true) /\ (forall n, malloc_ok n = true))) \/
  (package_shape f /\ exists d1 d256,
    verify (Some f) keys =
      check (drop (Z.to_nat (eocd_pos f)) f) (comment_size f + 22) d1 d256 keys /\
    (existsb (fun k => hash_len k =? SHA_DIGEST_SIZE) keys = true ->
       d1 = digest (H:=SHA) (signed_part f)) /\
    (existsb (fun k => negb (hash_len k =? SHA_DIGEST_SIZE) && (hash_len k =? SHA256_DIGEST_SIZE)) keys
       = true -> d256 = digest (H:=SHA256) (signed_part f))).
Proof.
  intros Hb Hmax. unfold verify_file, FOOTER_SIZE, EOCD_HEADER_SIZE.
  pose proof (len_nonneg f) as Hln.
  assert (package_shape f -> 22 <= len f /\ 0 <= eocd_pos f) as Hshape_len.
  { intros [? ? (? & He & _)]. unfold eocd_pos in *.
    pose proof (le_val_range _ (slice_bytes_ok f (len f - 2) 2 Hb)). unfold comment_size in *. lia. }
  destruct (Z.ltb_spec (len f) 6) as [Hs6|Hs6].
  { left. split; [done|]. intros [Hsh _]. apply Hshape_len in Hsh. lia. }
  destruct (footer_bytes f Hb Hs6) as (f0&f1&f2&f3&f4&f5&Ef&Ess&E23&Ecs&Hcs).
  destruct (Z.eqb_spec (len (fread io_ok f (len f - 6) 6)) 6) as [El|El]; cbn [negb].
  2: { left. split; [done|]. intros (_ & Hio & _). apply El. unfold fread. rewrite Hio, Ef. done. }
  rewrite (fread_len io_ok f (len f - 6) 6) by (done || lia). rewrite Ef.
  repeat match goal with |- context [rd ?l ?k ≫= _] =>
    let v := eval cbv in (rd l k) in change (rd l k) with v; cbn [mbind outcome_bind] end.
  destruct (Z.eqb_spec f2 255) as [->|], (Z.eqb_spec f3 255) as [->|]; cbn [negb orb];
    try (left; split; [done|]; intros [[Hm _ _] _]; congruence).
  rewrite Ess, Ecs.
  destruct (Z.ltb_spec (signature_start f - 6) RSANUMBYTES) as [Hst|Hst].
  { left. split; [done|]. intros [[_ ? _] _]. lia. }
  rewrite (u32_small (comment_size f + 22)) by lia.
  destruct (Z.ltb_spec (len f) (comment_size f + 22)) as [Hsz|Hsz].
  { left. split; [done|]. intros [[_ _ (? & _)] _]. unfold eocd_pos in *. lia. }
  assert (0 <= eocd_pos f) as Hpos by (unfold eocd_pos; lia).
  replace (len f - (comment_size f + 22) + 22 - 2) with (eocd_pos f + 20) by (unfold eocd_pos; lia).
  rewrite (u32_small (eocd_pos f + 20)) by (unfold eocd_pos; lia).
  destruct (malloc_ok (comment_size f + 22)) eqn:Hm1; cbn [negb].
  2: { left. split; [done|]. intros (_ & _ & Hm). congruence. }
  replace (len f - (comment_size f + 22)) with (eocd_pos f) by (unfold eocd_pos; lia).
  destruct (Z.eqb_spec (len (fread io_ok f (eocd_pos f) (comment_size f + 22))) (comment_size f + 22))
    as [Ele|Ele]; cbn [negb].
  2: { left. split; [done|]. intros (_ & Hio & _). apply Ele. unfold fread. rewrite Hio.
       apply len_slice; unfold eocd_pos; lia. }
  rewrite (fread_len io_ok f) by (done || unfold eocd_pos; lia). clear Ele.
  assert (slice f (eocd_pos f) (comment_size f + 22) = drop (Z.to_nat (eocd_pos f)) f) as ->.
  { replace (eocd_pos f) with (len f - (comment_size f + 22)) by (unfold eocd_pos; lia).
    apply slice_drop. lia. }
  pose proof (tail_markers f Hb Hpos ltac:(lia)) as Htail. cbv zeta in Htail.
  set (eocd := drop (Z.to_nat (eocd_pos f)) f) in *.
  assert (len eocd = comment_size f + 22) as Hle.
  { subst eocd. rewrite len_drop by (unfold eocd_pos in *; lia). unfold eocd_pos. lia. }
  assert (bytes_ok eocd) as Hbe by (by apply bytes_ok_drop).
  rewrite marker_at_spec by (done || lia). cbn [mbind outcome_bind].
  case_bool_decide as H0; cbn [negb].
  2: { left. split; [done|]. intros [[_ _ He] _]. tauto. }
  destruct (marker_after_spec eocd (comment_size f + 22) (Z.to_nat (comment_size f + 22)) Hbe
    (eq_sym Hle) 4) as [[-> Hn]|[-> (j & Hj & Hej)]]; [lia|lia| |]; cbn [mbind outcome_bind].
  2: { left. split; [done|]. intros [[_ _ He] _]. apply Htail in He as [_ He].
       eapply (He j); [lia|done]. }
  assert (package_shape f) as Hshape.
  { split; [done|lia|]. apply Htail. split; [done|]. intros j Hj. apply Hn. lia. }
  destruct (malloc_ok BUFFER_SIZE) eqn:Hm2; cbn [negb].
  2: { left. split; [done|]. intros (_ & _ & Hm). congruence. }
  destruct (hash_loop_spec SHA SHA256 io_ok f
      (existsb (fun k => hash_len k =? SHA_DIGEST_SIZE) keys)
      (existsb (fun k => negb (hash_len k =? SHA_DIGEST_SIZE) && (hash_len k =? SHA256_DIGEST_SIZE)) keys)
      (eocd_pos f + 20) (Z.to_nat ((eocd_pos f + 20) / BUFFER_SIZE + 1))) with
      (so_far := 0) (c1 := hash_init (HashOps:=SHA)) (c256 := hash_init (HashOps:=SHA256))
    as [[-> Hio]|(chunks & Hc & ->)].
  - unfold eocd_pos. lia.
  - lia.
  - unfold BUFFER_SIZE. Z.div_mod_to_equations; lia.
  - left. split; [done|]. tauto.
  - right. split; [done|]. cbn [mbind outcome_bind]. do 2 eexists. split; [done|].
    assert (concat chunks = signed_part f) as Hcs'.
    { rewrite Hc. unfold slice, signed_part. by rewrite Z.sub_0_r, drop_0. }
    split; intros ->; by rewrite hash_final_digest, Hcs'.
Qed.

Lemma check_keys_spec f d1 d256 keys :
  let eocd := drop (Z.to_nat (eocd_pos f)) f in
  0 <= eocd_pos f -> 0 <= comment_size f -> 0 <= RSANUMBYTES <= comment_size f + 16 ->
  (existsb (fun k => hash_len k =? SHA_DIGEST_SIZE) keys = true ->
     d1 = digest (H:=SHA) (signed_part f)) ->
  (existsb (fun k => negb (hash_len k =? SHA_DIGEST_SIZE) && (hash_len k =? SHA256_DIGEST_SIZE)) keys
     = true -> d256 = digest (H:=SHA256) (signed_part f)) ->
  check eocd (comment_size f + 22) d1 d256 keys =
    Ret (if existsb (key_matches f) keys then VERIFY_SUCCESS else VERIFY_FAILURE).
Proof.
  intros eocd Hp Hc Hr. assert (len eocd = comment_size f + 22) as Hle.
  { subst eocd. rewrite len_drop by (unfold eocd_pos in *; lia). unfold eocd_pos. lia. }
  assert (rd_bytes eocd (comment_size f + 22 - 6 - RSANUMBYTES) RSANUMBYTES = Ret (signature_of f)) as Hrd.
  { rewrite rd_bytes_ok by lia. f_equal. unfold slice, signature_of, slice. subst eocd.
    rewrite drop_drop_Z by lia. do 3 f_equal. unfold eocd_pos. lia. }
  induction keys as [|k keys IH]; intros H1 H256; [done|]. cbn [check_keys existsb] in *.
  assert (check eocd (comment_size f + 22) d1 d256 keys =
    Ret (if existsb (key_matches f) keys then VERIFY_SUCCESS else VERIFY_FAILURE)) as IH'.
  { apply IH; intros E; [apply H1|apply H256]; by rewrite E, orb_true_r. }
  rewrite Hrd, IH'. clear IH IH'. unfold key_matches at 3.
  destruct (Z.eqb_spec (hash_len k) SHA_DIGEST_SIZE) as [E1|E1]; cbn [orb andb negb] in *.
  - rewrite H1 by done. cbn [mbind outcome_bind]. by destruct (RSA_verify _ _ _ _).
  - destruct (Z.eqb_spec (hash_len k) SHA256_DIGEST_SIZE) as [E2|E2]; cbn [orb] in *; [|done].
    rewrite H256 by done. cbn [mbind outcome_bind]. by destruct (RSA_verify _ _ _ _).
Qed.

(** A key is only accepted when the signature lies inside the end record. *)
Lemma check_keys_success eocd size d1 d256 keys :
  check eocd size d1 d256 keys = Ret VERIFY_SUCCESS -> 0 <= RSANUMBYTES <= size - 6.
Proof.
  induction keys as [|k keys IH]; cbn [check_keys]; [done|].
  destruct (if hash_len k =? SHA_DIGEST_SIZE then _ else _) as [h|]; [|done].
  intros (sig & (? & ? & _)%rd_bytes_Ret & _)%bind_Ret. lia.
Qed.
End spec.

(** ** A signed package *)

(** A toy signature scheme: the first byte of the signature is the sum of the digest. *)
#[export] Instance demo_rsa : RsaOps :=
  {| RSANUMBYTES := 256; RSANUMWORDS := 64; SHA_DIGEST_SIZE := 20; SHA256_DIGEST_SIZE := 32;
     RSA_verify k sig h l := hd 0 sig =? foldl Z.add 0 h mod 256 |}.
Definition demo_key : Certificate := mkCert 20 (mkKey 64 0 [] [] 3).
Definition all_io (p n : Z) : bool := true.

Definition demo_footer (cs : Z) : bytes := [6; 1; 255; 255] ++ le_enc 2 cs.
(** The archive of [Zip], with a comment that holds the signature. *)
Definition demo_package : bytes :=
  let body := take (length (mem demo_zip) - 3) (mem demo_zip) in
  body ++ le_enc 2 262 ++ [foldl Z.add 0 body mod 256] ++ replicate 255 0 ++ demo_footer 262.
(** An end record whose comment is only the footer. *)
Definition demo_short : bytes := zip_end 0 0 0 (demo_footer 6).

(** ** Properties of [verify_file] *)

(** Claim C3.  What success means: the package ends in the signature footer, its end
    record is the last end-of-central-directory marker of the file, the signature is
    inside that record's comment, and one of the given keys accepts it for the digest
    of everything before the comment length. *)
Theorem verify_success_means_signed (SHA SHA256 : HashOps) `{RSA : RsaOps}
    `{!HashLaws SHA} `{!HashLaws SHA256} io_ok malloc_ok f keys
    (Hb : bytes_ok f) (Hmax : len f < 2 ^ 31)
    (Hok : verify_file SHA SHA256 io_ok malloc_ok (Some f) keys = Ret VERIFY_SUCCESS) :
  package_shape f /\ 0 <= RSANUMBYTES <= comment_size f + 16 /\
  exists k, k ∈ keys /\ key_matches SHA SHA256 f k = true.
Proof.
  destruct (verify_file_run SHA SHA256 io_ok malloc_ok f keys Hb Hmax) as [[E _]|(Hs & d1 & d256 & E & H1 & H2)].
  { rewrite E in Hok. discriminate Hok. }
  rewrite E in Hok. pose proof (check_keys_success _ _ _ _ _ Hok) as Hr.
  assert (0 <= RSANUMBYTES <= comment_size f + 16) as Hr' by lia.
  split; [done|]. split; [done|].
  pose proof (ps_eocd f Hs) as (Hp & _).
  assert (0 <= comment_size f) by (apply le_val_range, slice_bytes_ok, Hb).
  rewrite (check_keys_spec SHA SHA256 f) in Hok by (done || lia).
  destruct (existsb (key_matches SHA SHA256 f) keys) eqn:Ex; [|discriminate Hok].
  apply existsb_exists in Ex as (k & Hk & Hm). exists k. split; [|done]. by apply list_elem_of_In.
Qed.
Lemma verify_success_means_signed_witness :
  package_shape demo_package /\ 0 <= RSANUMBYTES <= comment_size demo_package + 16 /\
  exists k, k ∈ [demo_key] /\ key_matches plain_hash plain_hash demo_package k = true.
Proof.
  apply (verify_success_means_signed plain_hash plain_hash all_io all_ok).
  - apply bytes_okb_ok. by vm_compute.
  - by vm_compute.
  - by vm_compute.
Defined.

(** Claim C15.  The verifier decides: when reads and allocations succeed and the
    comment has room for a signature it returns, and the result is success exactly for
    the packages with the signed layout for which one of the keys matches. *)
Theorem verify_decides (SHA SHA256 : HashOps) `{RSA : RsaOps}
    `{!HashLaws SHA} `{!HashLaws SHA256} io_ok malloc_ok f keys
    (Hb : bytes_ok f) (Hmax : len f < 2 ^ 31)
    (Hio : forall p n, io_ok p n = true) (Hm : forall n, malloc_ok n = true)
    (Hroom : 0 <= RSANUMBYTES <= comment_size f + 16) :
  exists r, verify_file SHA SHA256 io_ok malloc_ok (Some f) keys = Ret r /\
    (r = VERIFY_SUCCESS \/ r = VERIFY_FAILURE) /\
    (r = VERIFY_SUCCESS <->
       package_shape f /\ existsb (key_matches SHA SHA256 f) keys = true).
Proof.
  destruct (verify_file_run SHA SHA256 io_ok malloc_ok f keys Hb Hmax) as [[E Hn]|(Hs & d1 & d256 & E & H1 & H2)].
  - exists VERIFY_FAILURE. split; [done|]. split; [by right|]. split; [done|]. intros [Hs _]. by destruct Hn.
  - pose proof (ps_eocd f Hs) as (Hp & _).
    assert (0 <= comment_size f) by (apply le_val_range, slice_bytes_ok, Hb).
    rewrite (check_keys_spec SHA SHA256 f) in E by (done || lia).
    eexists. split; [exact E|]. destruct (existsb (key_matches SHA SHA256 f) keys).
    + split; [by left|]. done.
    + split; [by right|]. split; [done|]. by intros [_ ?].
Qed.
Lemma verify_decides_witness :
  exists r, verify_file plain_hash plain_hash all_io all_ok (Some demo_package) [demo_key] = Ret r /\
    (r = VERIFY_SUCCESS \/ r = VERIFY_FAILURE) /\
    (r = VERIFY_SUCCESS <->
       package_shape demo_package /\ existsb (key_matches plain_hash plain_hash demo_package) [demo_key] = true).
Proof.
  apply (verify_decides plain_hash plain_hash all_io all_ok).
  - apply bytes_okb_ok. by vm_compute.
  - by vm_compute.
  - done.
  - done.
  - by vm_compute.
Defined.

Lemma shape_find_eocd `{RsaOps} f : bytes_ok f -> package_shape f ->
  find_eocd f (Z.to_nat (len f - 22)) = Ret (Some (eocd_pos f)).
Proof.
  intros Hb [_ _ (Hp & He & Hn)].
  assert (0 <= comment_size f) by (apply le_val_range, slice_bytes_ok, Hb).
  assert (0 <= len f - 22) as H22 by (unfold eocd_pos in *; lia).
  assert (last_eocd f (len f - 22) (eocd_pos f)) as Hlast.
  { split; [unfold eocd_pos in *; lia|]. split; [done|]. intros q Hq. apply Hn. lia. }
  destruct (find_eocd_ok f (Z.to_nat (len f - 22)) Hb) as [[_ Hno]|(p & -> & Hp')]; [lia| |].
  - exfalso. apply (Hno (eocd_pos f)); [|done]. destruct Hlast. lia.
  - rewrite Z2Nat.id in Hp' by lia. by rewrite (last_eocd_det _ _ _ _ Hp' Hlast).
Qed.

Lemma signed_part_len `{RsaOps} f : bytes_ok f -> package_shape f ->
  len (signed_part f) = eocd_pos f + 20 /\ 0 <= eocd_pos f <= len f - 22.
Proof.
  intros Hb [_ _ (Hp & _)].
  assert (0 <= comment_size f) by (apply le_val_range, slice_bytes_ok, Hb).
  unfold signed_part. rewrite len_take; unfold eocd_pos in *; lia.
Qed.

Lemma rd_take f n i : 0 <= i < n -> n <= len f -> rd (take (Z.to_nat n) f) i = rd f i.
Proof.
  intros Hi Hn. unfold rd. rewrite len_take by lia.
  rewrite (proj2 (Z.ltb_lt i n)), (proj2 (Z.ltb_lt i (len f))), lookup_take_lt by lia. done.
Qed.


