(* ===== verification/KeyFile.v ===== *)
(** [load_keys] of [verifier.c]: the parser of the file of public keys, with the part
    of [fscanf] it uses. *)
From S2P Require Import Prelude Mincrypt CString Hash Zip Verifier.

(** ** [fscanf]

    A format is a list of directives; a call assigns the conversions up to the first
    directive that fails and leaves the rest of the input. *)
Inductive directive := Ws | Lit (c : Z) | Chr | Dec | Int | Hex | Uns.

Definition strip_0x (inp : bytes) : option bytes :=
  match inp with
  | c0 :: c1 :: r => if (c0 =? 48) && ((c1 =? 120) || (c1 =? 88)) then Some r else None
  | _ => None
  end.
(** [%d], [%u]: base 10; [%x]: base 16 with an optional "0x"; [%i]: as in C. *)
Definition scan_int (d : directive) (inp : bytes) : option Z * bytes :=
  let inp := skip_ws inp in
  let neg := starts_with 45 inp in
  let inp := if neg || starts_with 43 inp then tl inp else inp in
  let '(base, inp) := match d with
                      | Hex => (16, default inp (strip_0x inp))
                      | Int => match strip_0x inp with
                               | Some r => (16, r)
                               | None => (if starts_with 48 inp then 8 else 10, inp)
                               end
                      | _ => (10, inp) end in
  let '(v, any, rest) := scan_digits base inp 0 false in
  (if any then Some (if neg then - v else v) else None, rest).

(** The value stored for a conversion; one that the type cannot hold is undefined.
    An unsigned conversion accepts a sign and negates in the type. *)
Definition store (d : directive) (v : Z) : outcome Z :=
  match d with
  | Dec | Int => if (INT_MIN <=? v) && (v <=? INT_MAX) then Ret v else Fault
  | _ => if Z.abs v <? 2 ^ 32 then Ret (u32 v) else Fault
  end.

Fixpoint fscanf (fmt : list directive) (inp : bytes) : outcome (list Z * bytes) :=
  match fmt with
  | [] => Ret ([], inp)
  | Ws :: fmt => fscanf fmt (skip_ws inp)
  | Lit c :: fmt => match inp with
                    | x :: r => if x =? c then fscanf fmt r else Ret ([], inp)
                    | [] => Ret ([], inp)
                    end
  | Chr :: fmt => match inp with
                  | x :: r => '(vs, inp) ← fscanf fmt r; Ret (x :: vs, inp)
                  | [] => Ret ([], inp)
                  end
  | d :: fmt => match scan_int d inp with
                | (Some v, inp) => v ← store d v; '(vs, inp) ← fscanf fmt inp; Ret (v :: vs, inp)
                | (None, inp) => Ret ([], inp)
                end
  end.

(** ** [load_keys] *)

Section load.
Context `{RsaOps}.
(** What fresh memory holds in the fields [hash_len] and [exponent]. *)
Context (fresh_hash_len fresh_exponent : Z).

(** Lines 262-286: the hash and the exponent, and the rest of the input. *)
Definition read_version (inp : bytes) : outcome (option (Z * Z * bytes)) :=
  '(vs, inp) ← fscanf [Ws; Chr] inp;
  match vs with
  | [start_char] =>
      if start_char =? 123 (* { *) then Ret (Some (SHA_DIGEST_SIZE, 3, inp))
      else if start_char =? 118 (* v *) then
        '(vs, inp) ← fscanf [Dec; Ws; Lit 123] inp;
        match vs with
        | [version] =>
            if version =? 2 then Ret (Some (SHA_DIGEST_SIZE, 65537, inp))
            else if version =? 3 then Ret (Some (SHA256_DIGEST_SIZE, 3, inp))
            else if version =? 4 then Ret (Some (SHA256_DIGEST_SIZE, 65537, inp))
            else Ret None
        | _ => Ret None
        end
      else Ret (Some (fresh_hash_len, fresh_exponent, inp))
  | _ => Ret None
  end.

(** The loops of lines 297-299 and 301-303: [n] more words. *)
Fixpoint read_words (n : nat) (inp : bytes) : outcome (option (list Z * bytes)) :=
  match n with
  | O => Ret (Some ([], inp))
  | S n =>
      '(vs, inp) ← fscanf [Ws; Lit 44; Uns] inp;
      match vs with
      | [w] => r ← read_words n inp;
               match r with Some (ws, inp) => Ret (Some (w :: ws, inp)) | None => Ret None end
      | _ => Ret None
      end
  end.

(** Lines 288-304: the numbers of the key. *)
Definition read_key (expo : Z) (inp : bytes) : outcome (option (RSAPublicKey * bytes)) :=
  '(vs, inp) ← fscanf [Ws; Int; Ws; Lit 44; Ws; Lit 48; Lit 120; Hex; Ws; Lit 44; Ws; Lit 123; Uns] inp;
  match vs with
  | [l; inv; n_0] =>
      if negb (l =? RSANUMWORDS) then Ret None else
      r ← read_words (Z.to_nat (l - 1)) inp;
      match r with
      | None => Ret None
      | Some (n_, inp) =>
          '(vs, inp) ← fscanf [Ws; Lit 125; Ws; Lit 44; Ws; Lit 123; Uns] inp;
          match vs with
          | [rr_0] =>
              r ← read_words (Z.to_nat (l - 1)) inp;
              match r with
              | None => Ret None
              | Some (rr_, inp) =>
                  '(_, inp) ← fscanf [Ws; Lit 125; Ws; Lit 125; Ws] inp;
                  Ret (Some (mkKey l inv (n_0 :: n_) (rr_0 :: rr_) expo, inp))
              end
          | _ => Ret None
          end
      end
  | _ => Ret None
  end.

(** The loop of lines 255-321. *)
Fixpoint load_loop (fuel : nat) (inp : bytes) (out : list Certificate)
    : outcome (option (list Certificate)) :=
  match fuel with
  | O => Diverge
  | S fuel =>
      r ← read_version inp;
      match r with
      | None => Ret None
      | Some (hlen, expo, inp) =>
          r ← read_key expo inp;
          match r with
          | None => Ret None
          | Some (key, inp) =>
              let out := out ++ [mkCert hlen key] in
              match inp with
              | [] => Ret (Some out)
              | c :: inp => if c =? 44 then load_loop fuel inp out else Ret None
              end
          end
      end
  end.

(** [Certificate* load_keys(const char* filename, int* numKeys)]: NULL is [None]. *)
Definition load_keys (file : option bytes) : outcome (option (list Certificate)) :=
  match file with
  | None => Ret None
  | Some inp => load_loop (S (length inp)) inp []
  end.
End load.

(** ** The loop ends *)

Lemma strip_0x_le inp r : strip_0x inp = Some r -> (length r <= length inp)%nat.
Proof.
  destruct inp as [|a [|b inp]]; cbn; try done. destruct (_ && _); intros [= <-]. lia.
Qed.
Lemma scan_int_le d inp v r : scan_int d inp = (v, r) -> (length r <= length inp)%nat.
Proof.
  unfold scan_int. pose proof (skip_ws_le inp) as Hw.
  set (i1 := skip_ws inp) in *. set (i2 := if _ || _ then tl i1 else i1).
  assert (length i2 <= length i1)%nat as H2 by (subst i2; destruct (_ || _); [destruct i1; cbn|]; lia).
  clearbody i1 i2.
  set (p := match d with Hex => _ | _ => _ end).
  assert (length p.2 <= length i2)%nat as H3.
  { subst p. destruct d; cbn; try done; destruct (strip_0x i2) eqn:E; cbn; try done;
      by apply strip_0x_le in E. }
  destruct p as [base i3]. cbn in H3. destruct (scan_digits base i3 0 false) as [[v' any] r'] eqn:E.
  intros [= _ <-]. apply scan_digits_le in E. lia.
Qed.

Lemma fscanf_le fmt : forall inp vs r,
  fscanf fmt inp = Ret (vs, r) -> (length r <= length inp)%nat.
Proof.
  induction fmt as [|d fmt IH]; intros inp vs r; cbn [fscanf]; [by intros [= _ <-]|].
  assert (forall d', (match scan_int d' inp with
     | (Some v, inp) => v ← store d' v; '(vs, inp) ← fscanf fmt inp; Ret (v :: vs, inp)
     | (None, inp) => Ret ([], inp) end) = Ret (vs, r) -> (length r <= length inp)%nat) as Hnum.
  { intros d' E. destruct (scan_int d' inp) as [[v|] i1] eqn:Es; apply scan_int_le in Es.
    - apply bind_Ret in E as (w & _ & E). apply bind_Ret in E as ([vs' i2] & E & E2).
      injection E2 as <- <-. apply IH in E. lia.
    - injection E as <- <-. done. }
  destruct d; try apply Hnum.
  - intros E%IH. pose proof (skip_ws_le inp). lia.
  - destruct inp as [|x i]; [by intros [= _ <-]|]. destruct (x =? c); [|by intros [= _ <-]].
    intros E%IH. cbn. lia.
  - destruct inp as [|x i]; [by intros [= _ <-]|].
    intros ([vs' i2] & E & E2)%bind_Ret. injection E2 as <- <-. apply IH in E. cbn. lia.
Qed.

(** A computation that returns or is undefined, but does not loop. *)
Definition ends {A} (m : outcome A) : Prop := m <> Diverge.
Lemma ends_bind {A B} (m : outcome A) (f : A -> outcome B) :
  ends m -> (forall a, m = Ret a -> ends (f a)) -> ends (m ≫= f).
Proof. unfold ends. destruct m; cbn; intros H1 H2; [by apply H2|done|done]. Qed.
Lemma ends_Ret {A} (a : A) : ends (Ret a).
Proof. done. Qed.
Create HintDb ends.
#[export] Hint Resolve ends_Ret : ends.

Lemma fscanf_ends fmt inp : ends (fscanf fmt inp).
Proof.
  revert inp; induction fmt as [|d fmt IH]; intros inp; cbn [fscanf]; [done|].
  assert (forall d', ends (match scan_int d' inp with
     | (Some v, inp) => v ← store d' v; '(vs, inp) ← fscanf fmt inp; Ret (v :: vs, inp)
     | (None, inp) => Ret ([], inp) end)) as Hnum.
  { intros d'. destruct (scan_int d' inp) as [[v|] i1]; [|done].
    apply ends_bind; [unfold store; destruct d'; by destruct (_ : bool)|].
    intros w _. apply ends_bind; [apply IH|]. by intros [??] _. }
  destruct d; try apply Hnum; [apply IH|destruct inp as [|x i]; [done|]..].
  - destruct (x =? c); [apply IH|done].
  - apply ends_bind; [apply IH|]. by intros [??] _.
Qed.
#[export] Hint Resolve fscanf_ends : ends.

Section termination.
Context `{RsaOps} (fresh_hash_len fresh_exponent : Z).
Abbreviation version := (read_version fresh_hash_len fresh_exponent).

Lemma read_version_ends inp : ends (version inp).
Proof.
  unfold read_version. apply ends_bind; [auto with ends|]. intros [[|c [|? ?]] i] _; try done.
  destruct (c =? 123); [done|]. destruct (c =? 118); [|done].
  apply ends_bind; [auto with ends|]. intros [[|v [|? ?]] i'] _; try done.
  by destruct (v =? 2), (v =? 3), (v =? 4).
Qed.
Lemma read_version_le inp h e r : version inp = Ret (Some (h, e, r)) -> (length r <= length inp)%nat.
Proof.
  unfold read_version. intros ([vs i] & E & E2)%bind_Ret. apply fscanf_le in E.
  destruct vs as [|c [|? ?]]; try done. destruct (c =? 123); [injection E2; intros; by subst|].
  destruct (c =? 118); [|injection E2; intros; by subst].
  apply bind_Ret in E2 as ([vs i'] & E' & E2). apply fscanf_le in E'.
  destruct vs as [|v [|? ?]]; try done.
  destruct (v =? 2), (v =? 3), (v =? 4); try discriminate E2; injection E2; intros; subst; lia.
Qed.

Lemma read_words_ends n inp : ends (read_words n inp).
Proof.
  revert inp; induction n as [|n IH]; intros inp; cbn [read_words]; [done|].
  apply ends_bind; [auto with ends|]. intros [[|w [|? ?]] i] _; try done.
  apply ends_bind; [apply IH|]. by intros [[??]|] _.
Qed.
Lemma read_words_le n : forall inp ws r,
  read_words n inp = Ret (Some (ws, r)) -> (length r <= length inp)%nat.
Proof.
  induction n as [|n IH]; intros inp ws r; cbn [read_words]; [by intros [= _ <-]|].
  intros ([vs i] & E & E2)%bind_Ret. apply fscanf_le in E. destruct vs as [|w [|? ?]]; try done.
  apply bind_Ret in E2 as ([[ws' i']|] & E' & E2); [|done]. injection E2 as <- <-.
  apply IH in E'. lia.
Qed.
#[local] Hint Resolve read_words_ends : ends.

Lemma read_key_ends e inp : ends (read_key e inp).
Proof.
  unfold read_key. apply ends_bind; [auto with ends|].
  intros [[|l [|inv [|n0 [|? ?]]]] i] _; try done. destruct (negb _); [done|].
  apply ends_bind; [auto with ends|]. intros [[ns i1]|] _; [|done].
  apply ends_bind; [auto with ends|]. intros [[|rr0 [|? ?]] i2] _; try done.
  apply ends_bind; [auto with ends|]. intros [[rrs i3]|] _; [|done].
  apply ends_bind; [auto with ends|]. by intros [??] _.
Qed.
Lemma read_key_le e inp k r : read_key e inp = Ret (Some (k, r)) -> (length r <= length inp)%nat.
Proof.
  unfold read_key. intros ([vs i] & E1 & E)%bind_Ret. apply fscanf_le in E1.
  destruct vs as [|l [|inv [|n0 [|? ?]]]]; try done. destruct (negb _); [done|].
  apply bind_Ret in E as ([[ns i1]|] & E2 & E); [|done]. apply read_words_le in E2.
  apply bind_Ret in E as ([vs i2] & E3 & E). apply fscanf_le in E3.
  destruct vs as [|rr0 [|? ?]]; try done.
  apply bind_Ret in E as ([[rrs i3]|] & E4 & E); [|done]. apply read_words_le in E4.
  apply bind_Ret in E as ([vs i4] & E5 & E). apply fscanf_le in E5. injection E as <- <-. lia.
Qed.

Lemma load_loop_ends fuel : forall inp out,
  (length inp < fuel)%nat -> ends (load_loop fresh_hash_len fresh_exponent fuel inp out).
Proof.
  induction fuel as [|fuel IH]; intros inp out Hf; [lia|]. cbn [load_loop].
  apply ends_bind; [apply read_version_ends|]. intros [[[h e] i1]|] E1; [|done].
  apply read_version_le in E1. apply ends_bind; [apply read_key_ends|].
  intros [[k i2]|] E2; [|done]. apply read_key_le in E2.
  destruct i2 as [|c i2]; [done|]. destruct (c =? 44); [|done]. apply IH. cbn in E2. lia.
Qed.
End termination.

(** ** The format that the comment before [load_keys] describes *)

(** A word is printed as the signed integer with its bits. *)
Definition print_word (w : Z) : bytes := print_Z (s32 w).
Definition print_more (ws : list Z) : bytes := concat ((fun w => 44 :: print_word w) <$> ws).
Definition print_words (ws : list Z) : bytes := print_word (hd 0 ws) ++ print_more (tl ws).

(** {len,0xn0inv,{n...},{rr...}} *)
Definition print_key (k : RSAPublicKey) : bytes :=
  [123] ++ print_nat 10 (key_len k) ++ [44; 48; 120] ++ print_nat 16 (n0inv k) ++ [44; 123] ++
  print_words (key_n k) ++ [125; 44; 123] ++ print_words (key_rr k) ++ [125; 125].

Section format.
Context `{RsaOps}.
(** The prefix of a key of version 1 (none), 2, 3 or 4. *)
Definition cert_prefix (c : Certificate) : bytes :=
  if hash_len c =? SHA_DIGEST_SIZE then
    if exponent (public_key c) =? 3 then [] else [118; 50; 32]
  else if exponent (public_key c) =? 3 then [118; 51; 32] else [118; 52; 32].
Definition print_cert (c : Certificate) : bytes := cert_prefix c ++ print_key (public_key c).
Fixpoint print_keys (cs : list Certificate) : bytes :=
  match cs with [] => [] | [c] => print_cert c | c :: cs => print_cert c ++ 44 :: print_keys cs end.

(** The certificates the format can express. *)
Record cert_ok (c : Certificate) : Prop := {
  co_len : key_len (public_key c) = RSANUMWORDS;
  co_inv : 0 <= n0inv (public_key c) < 2 ^ 32;
  co_n : Z.of_nat (length (key_n (public_key c))) = RSANUMWORDS;
  co_rr : Z.of_nat (length (key_rr (public_key c))) = RSANUMWORDS;
  co_words : Forall (fun w => 0 <= w < 2 ^ 32) (key_n (public_key c) ++ key_rr (public_key c));
  co_hash : hash_len c = SHA_DIGEST_SIZE \/ hash_len c = SHA256_DIGEST_SIZE;
  co_expo : exponent (public_key c) = 3 \/ exponent (public_key c) = 65537 }.
End format.

(** *** Numbers *)

(** *** Numbers *)

Section numbers.
Context (rest : bytes).

(** A printed number in front of [rest] is scanned back. *)
Lemma scan_nat d n : d = Dec \/ d = Uns -> 0 <= n < 2 ^ 32 -> no_digit 10 rest ->
  scan_int d (print_nat 10 n ++ rest) = (Some n, rest).
Proof.
  intros Hd Hn Hr. unfold print_nat. rewrite print_digits_app.
  assert (0 <= n < 10 ^ Z.of_nat 32) as Hn' by (change (10 ^ Z.of_nat 32) with (10 ^ 32); lia).
  destruct (print_head 10 32 ltac:(lia) n ([] ++ rest) Hn' ltac:(lia)) as (x & r & E & Hx & _).
  pose proof (scan_print 10 32 ltac:(lia) n ([] ++ rest) false Hn' ltac:(lia)) as Hs.
  rewrite E in *. destruct (digit_char_plain x) as (P1 & P2 & P3 & _); [lia|].
  unfold scan_int. cbn [skip_ws]. rewrite P1. cbn [starts_with]. rewrite P2, P3. cbn [orb].
  destruct Hd as [-> | ->]; rewrite Hs, app_nil_l, scan_stop by done; done.
Qed.

Lemma scan_neg d n : d = Dec \/ d = Uns -> 0 <= n < 2 ^ 32 -> no_digit 10 rest ->
  scan_int d (45 :: print_nat 10 n ++ rest) = (Some (- n), rest).
Proof.
  intros Hd Hn Hr. unfold print_nat. rewrite print_digits_app.
  assert (0 <= n < 10 ^ Z.of_nat 32) as Hn' by (change (10 ^ Z.of_nat 32) with (10 ^ 32); lia).
  pose proof (scan_print 10 32 ltac:(lia) n ([] ++ rest) false Hn' ltac:(lia)) as Hs.
  unfold scan_int. cbn [skip_ws]. change (isspace 45) with false. cbn [starts_with].
  rewrite Z.eqb_refl. cbn [orb tl].
  destruct Hd as [-> | ->]; rewrite Hs, app_nil_l, scan_stop by done; done.
Qed.

Lemma scan_len n : 0 < n < 2 ^ 31 -> no_digit 10 rest ->
  scan_int Int (print_nat 10 n ++ rest) = (Some n, rest).
Proof.
  intros Hn Hr. unfold print_nat. rewrite print_digits_app.
  assert (0 <= n < 10 ^ Z.of_nat 32) as Hn' by (change (10 ^ Z.of_nat 32) with (10 ^ 32); lia).
  destruct (print_head 10 32 ltac:(lia) n ([] ++ rest) Hn' ltac:(lia)) as (x & r & E & Hx & Hz).
  pose proof (scan_print 10 32 ltac:(lia) n ([] ++ rest) false Hn' ltac:(lia)) as Hs.
  rewrite E in *. destruct (digit_char_plain x) as (P1 & P2 & P3 & P4 & _); [lia|].
  assert (x <> 0) as Hx0 by (intros ->; destruct Hz; [done|lia]).
  rewrite (proj2 (Z.eqb_neq x 0) Hx0) in P4.
  unfold scan_int. cbn [skip_ws]. rewrite P1. cbn [starts_with]. rewrite P2, P3. cbn [orb].
  assert (strip_0x (digit_char x :: r) = None) as -> by (cbn; destruct r; [done|]; by rewrite P4).
  cbn [starts_with]. rewrite P4, Hs, app_nil_l, scan_stop by done. done.
Qed.

Lemma scan_hex n : 0 <= n < 2 ^ 32 -> no_digit 16 rest -> starts_with 120 rest = false ->
  starts_with 88 rest = false -> scan_int Hex (print_nat 16 n ++ rest) = (Some n, rest).
Proof.
  intros Hn Hr Hx1 Hx2. unfold print_nat. rewrite print_digits_app.
  assert (0 <= n < 16 ^ Z.of_nat 32) as Hn' by (change (16 ^ Z.of_nat 32) with (16 ^ 32); lia).
  destruct (print_head 16 32 ltac:(lia) n ([] ++ rest) Hn' ltac:(lia)) as (x & r & E & Hx & Hz).
  pose proof (scan_print 16 32 ltac:(lia) n ([] ++ rest) false Hn' ltac:(lia)) as Hs.
  rewrite E in *. destruct (digit_char_plain x) as (P1 & P2 & P3 & P4 & _); [lia|].
  unfold scan_int. cbn [skip_ws]. rewrite P1. cbn [starts_with]. rewrite P2, P3. cbn [orb].
  assert (strip_0x (digit_char x :: r) = None) as ->.
  { cbn. destruct r as [|c r]; [done|]. rewrite P4. destruct (Z.eqb_spec x 0) as [->|]; [|done].
    destruct Hz as [_ Hz]; [done|]. cbn in Hz. subst rest. cbn in Hx1, Hx2. by rewrite Hx1, Hx2. }
  cbn [default]. rewrite Hs, app_nil_l, scan_stop by done. done.
Qed.

Lemma scan_word w : 0 <= w < 2 ^ 32 -> no_digit 10 rest ->
  scan_int Uns (print_word w ++ rest) = (Some (s32 w), rest) /\ store Uns (s32 w) = Ret w.
Proof.
  intros Hw Hr. pose proof (s32_range w) as Hs. unfold INT_MIN, INT_MAX in Hs. split.
  - unfold print_word, print_Z. destruct (Z.ltb_spec (s32 w) 0).
    + rewrite <- app_comm_cons, scan_neg by (auto || lia). do 2 f_equal. lia.
    + rewrite scan_nat by (auto || lia). done.
  - unfold store. rewrite (proj2 (Z.ltb_lt _ _)) by lia. rewrite u32_s32, u32_small by lia. done.
Qed.
End numbers.

(** *** Words, keys, certificates *)

Lemma fscanf_uns fmt w rest : 0 <= w < 2 ^ 32 -> no_digit 10 rest ->
  fscanf (Uns :: fmt) (print_word w ++ rest) = '(vs, inp) ← fscanf fmt rest; Ret (w :: vs, inp).
Proof.
  intros Hw Hr. destruct (scan_word rest w Hw Hr) as [E1 E2]. cbn [fscanf].
  rewrite E1, E2. done.
Qed.

Lemma no_digit_more ws rest : no_digit 10 rest -> no_digit 10 (print_more ws ++ rest).
Proof. by destruct ws. Qed.

Lemma read_words_print ws rest : Forall (fun w => 0 <= w < 2 ^ 32) ws -> no_digit 10 rest ->
  read_words (length ws) (print_more ws ++ rest) = Ret (Some (ws, rest)).
Proof.
  intros Hws Hr. induction Hws as [|w ws Hw Hws IH]; [done|].
  replace (print_more (w :: ws) ++ rest) with (44 :: print_word w ++ print_more ws ++ rest)
    by (unfold print_more; cbn; by rewrite <- app_assoc).
  cbn [length read_words].
  assert (fscanf [Ws; Lit 44; Uns] (44 :: print_word w ++ print_more ws ++ rest) =
    Ret ([w], print_more ws ++ rest)) as ->.
  { change (fscanf [Uns] (print_word w ++ print_more ws ++ rest) = Ret ([w], print_more ws ++ rest)).
    rewrite fscanf_uns by (done || by apply no_digit_more). done. }
  cbn [mbind outcome_bind]. by rewrite IH.
Qed.

(** The text of a key after its opening brace. *)
Definition key_body (k : RSAPublicKey) (rest : bytes) : bytes :=
  print_nat 10 (key_len k) ++ 44 :: 48 :: 120 :: print_nat 16 (n0inv k) ++ 44 :: 123 ::
  print_words (key_n k) ++ 125 :: 44 :: 123 :: print_words (key_rr k) ++ 125 :: 125 :: rest.

Lemma print_key_body k rest : print_key k ++ rest = 123 :: key_body k rest.
Proof. unfold print_key, key_body. rewrite <- !app_assoc. reflexivity. Qed.

Definition no_space (rest : bytes) : Prop := skip_ws rest = rest.

Lemma fscanf_header l inv w rest : 0 < l < 2 ^ 31 -> 0 <= inv < 2 ^ 32 -> 0 <= w < 2 ^ 32 ->
  no_digit 10 rest ->
  fscanf [Ws; Int; Ws; Lit 44; Ws; Lit 48; Lit 120; Hex; Ws; Lit 44; Ws; Lit 123; Uns]
    (print_nat 10 l ++ 44 :: 48 :: 120 :: print_nat 16 inv ++ 44 :: 123 :: print_word w ++ rest) =
  Ret ([l; inv; w], rest).
Proof.
  intros Hl Hi Hw Hr. set (r1 := 44 :: 48 :: 120 :: _).
  assert (skip_ws (print_nat 10 l ++ r1) = print_nat 10 l ++ r1) as Hsk.
  { unfold print_nat. rewrite print_digits_app.
    destruct (print_head 10 32 ltac:(lia) l ([] ++ r1)) as (x & r & -> & Hx & _);
      [change (10 ^ Z.of_nat 32) with (10 ^ 32); lia|lia|].
    destruct (digit_char_plain x) as (P1 & _); [lia|]. cbn [skip_ws]. by rewrite P1. }
  assert (store Int l = Ret l) as Hst.
  { unfold store. by rewrite (proj2 (Z.leb_le INT_MIN l)), (proj2 (Z.leb_le l INT_MAX))
      by (unfold INT_MIN, INT_MAX; lia). }
  assert (store Hex inv = Ret inv) as Hsh.
  { unfold store. by rewrite (proj2 (Z.ltb_lt (Z.abs inv) _)), u32_small by lia. }
  cbn [fscanf]. rewrite Hsk, (scan_len r1 l Hl), Hst by done.
  cbn [andb mbind outcome_bind]. subst r1. cbn [skip_ws isspace Z.leb Z.eqb Z.compare Pos.compare
    Pos.compare_cont Pos.eqb andb orb].
  set (r2 := 44 :: 123 :: _). rewrite (scan_hex r2 inv Hi), Hsh by done.
  cbn [mbind outcome_bind]. subst r2. cbn [skip_ws isspace Z.leb Z.eqb Z.compare Pos.compare
    Pos.compare_cont Pos.eqb andb orb].
  destruct (scan_word rest w Hw Hr) as [E1 E2]. by rewrite E1, E2.
Qed.

Section roundtrip.
Context `{RsaOps} (fresh_hash_len fresh_exponent : Z) (Hwords : 0 < RSANUMWORDS < 2 ^ 31).

Lemma read_key_print c rest : cert_ok c -> no_space rest ->
  read_key (exponent (public_key c)) (key_body (public_key c) rest) = Ret (Some (public_key c, rest)).
Proof.
  destruct c as [h [l inv n rr e]]. intros [Hl Hi Hn Hrr Hw _ _] Hr.
  cbn [public_key key_len n0inv key_n key_rr exponent] in *.
  rewrite Forall_app in Hw. destruct Hw as [Hw1 Hw2].
  destruct n as [|n0 n]; [cbn in Hn; lia|]. destruct rr as [|rr0 rr]; [cbn in Hrr; lia|].
  cbn [length] in Hn, Hrr. inversion_clear Hw1. inversion_clear Hw2.
  unfold read_key, key_body, print_words. cbn [key_len n0inv key_n key_rr hd tl].
  rewrite <- !app_assoc, fscanf_header by (done || lia || by apply no_digit_more).
  cbn [mbind outcome_bind]. rewrite Hl, Z.eqb_refl. cbn [negb].
  replace (Z.to_nat (RSANUMWORDS - 1)) with (length n) by lia.
  rewrite read_words_print by done. cbn [mbind outcome_bind].
  assert (forall r, no_digit 10 r -> fscanf [Ws; Lit 125; Ws; Lit 44; Ws; Lit 123; Uns]
    (125 :: 44 :: 123 :: print_word rr0 ++ r) = Ret ([rr0], r)) as Hf.
  { intros r Hnr. change (fscanf [Uns] (print_word rr0 ++ r) = Ret ([rr0], r)).
    by rewrite fscanf_uns. }
  rewrite Hf by (by apply no_digit_more). cbn [mbind outcome_bind].
  replace (length n) with (length rr) by lia.
  rewrite read_words_print by done. cbn [mbind outcome_bind].
  assert (fscanf [Ws; Lit 125; Ws; Lit 125; Ws] (125 :: 125 :: rest) = Ret ([], rest)) as ->.
  { change (Ret ([] : list Z, skip_ws rest) = Ret ([], rest)). by rewrite Hr. }
  done.
Qed.

Lemma read_version_print c rest : cert_ok c ->
  read_version fresh_hash_len fresh_exponent (print_cert c ++ rest) =
  Ret (Some (hash_len c, exponent (public_key c), key_body (public_key c) rest)).
Proof.
  intros Hc. unfold print_cert. rewrite <- app_assoc, print_key_body.
  destruct (co_expo _ Hc) as [He|He]; destruct (co_hash _ Hc) as [Hh|Hh]; unfold cert_prefix;
    rewrite He, Hh, ?Z.eqb_refl; try done;
    destruct (Z.eqb_spec SHA256_DIGEST_SIZE SHA_DIGEST_SIZE) as [Es|Es]; rewrite ?Es; done.
Qed.

Lemma load_loop_print cs : Forall cert_ok cs -> cs <> [] -> forall fuel out, (length cs <= fuel)%nat ->
  load_loop fresh_hash_len fresh_exponent fuel (print_keys cs) out = Ret (Some (out ++ cs)).
Proof.
  induction 1 as [|c cs Hc Hcs IH]; intros Hne fuel out Hf; [done|].
  destruct fuel as [|fuel]; [cbn in Hf; lia|].
  assert (print_keys (c :: cs) = print_cert c ++ match cs with [] => [] | _ => 44 :: print_keys cs end) as ->
    by (destruct cs; cbn; [by rewrite app_nil_r|done]).
  cbn [load_loop]. rewrite read_version_print by done. cbn [mbind outcome_bind].
  rewrite read_key_print by (done || by destruct cs). cbn [mbind outcome_bind].
  assert (mkCert (hash_len c) (public_key c) = c) as -> by (by destruct c).
  destruct cs as [|c' cs]; [done|]. rewrite Z.eqb_refl.
  rewrite IH; [by rewrite <- app_assoc|done|cbn in *; lia].
Qed.

Lemma length_print_keys cs : Forall cert_ok cs -> (length cs <= length (print_keys cs))%nat.
Proof.
  assert (forall c, (1 <= length (print_cert c))%nat) as H1.
  { intros c. unfold print_cert, print_key. rewrite length_app. cbn. lia. }
  induction 1 as [|c cs _ _ IH]; [done|]. specialize (H1 c). cbn [print_keys].
  destruct cs; [done|]. rewrite length_app. cbn [length] in *. lia.
Qed.
End roundtrip.

(** ** Properties *)

(** A certificate of every version, with 64-word numbers. *)
Definition demo_cert (h e : Z) : Certificate :=
  mkCert h (mkKey 64 0xc926ad21 (replicate 63 1795090719 ++ [3599964420]) (replicate 64 3437017481) e).
Definition demo_certs : list Certificate :=
  [demo_cert 20 3; demo_cert 20 65537; demo_cert 32 3; demo_cert 32 65537].

(** Claim C16.  A key file in the documented format is read back: for every non-empty
    list of certificates of versions 1 to 4, [load_keys] returns exactly these
    certificates, with their exponents and hashes. *)
Theorem load_keys_round_trip `{RsaOps} fresh_hash_len fresh_exponent cs
    (Hwords : 0 < RSANUMWORDS < 2 ^ 31) (Hcs : Forall cert_ok cs) (Hne : cs <> []) :
  load_keys fresh_hash_len fresh_exponent (Some (print_keys cs)) = Ret (Some cs).
Proof.
  unfold load_keys. rewrite load_loop_print; [done..|].
  pose proof (length_print_keys cs Hcs). lia.
Qed.
Lemma load_keys_round_trip_witness :
  load_keys 0 0 (Some (print_keys demo_certs)) = Ret (Some demo_certs).
Proof.
  apply (load_keys_round_trip 0 0 demo_certs).
  - done.
  - repeat constructor; cbn [hash_len public_key exponent demo_cert]; auto;
      try (by vm_compute); apply Forall_app; split; repeat constructor; by vm_compute.
  - done.
Defined.

(** Claim C32.  Whatever the key file holds, reading it does not loop: every round of
    the loop consumes input. *)
Theorem load_keys_terminates `{RsaOps} fresh_hash_len fresh_exponent file :
  load_keys fresh_hash_len fresh_exponent file <> Diverge.
Proof. destruct file as [inp|]; [|done]. apply load_loop_ends. lia. Qed.

