(* ===== verification/Edify.v ===== *)
(** [edify/expr.c]: the evaluator of the installation scripts, its builtin functions,
    the function table and the argument readers; [Build] and the actions of
    [edify/parser.y] that make expressions. *)
From S2P Require Import Prelude CString KeyFile Value.

(** ** State, values, expressions *)

(** [Function] pointers: the functions of [expr.c], and the functions that other
    programs register, by a number. *)
Inductive Fn :=
| Literal | ConcatFn | IfElseFn | AbortFn | AssertFn | SleepFn | StdoutFn
| LogicalAndFn | LogicalOrFn | LogicalNotFn | SubstringFn | EqualityFn | InequalityFn
| SequenceFn | LessThanIntFn | GreaterThanIntFn
| Registered (n : nat).
#[export] Instance Fn_eq_dec : EqDecision Fn.
Proof. solve_decision. Defined.

(** [struct Expr]; [argc] is the length of [argv]. *)
Inductive Expr := mkExpr (fn : Fn) (name : bytes) (argv : list Expr) (start end_ : Z).

Section edify.
(** [Cookie] is the application's data behind [state->cookie]. *)
Context {Cookie : Type}.

(** [State], with what the process writes to stdout and the seconds it sleeps. *)
Record State := mkState {
  cookie : Cookie; script : bytes; errmsg : option bytes; out : bytes; slept : list Z }.
Definition set_errmsg (m : bytes) (s : State) : State :=
  mkState (cookie s) (script s) (Some m) (out s) (slept s).
Definition puts (o : bytes) (s : State) : State :=
  mkState (cookie s) (script s) (errmsg s) (out s ++ o) (slept s).
Definition sleep (n : Z) (s : State) : State :=
  mkState (cookie s) (script s) (errmsg s) (out s) (slept s ++ [n]).

(** The state-passing computations of the evaluator; a NULL result is [None]. *)
Definition M (A : Type) : Type := State -> outcome (A * State).
Definition ret {A} (a : A) : M A := fun s => Ret (a, s).
Definition bind {A B} (m : M A) (f : A -> M B) : M B := fun s => '(a, s) ← m s; f a s.
Definition fault {A} : M A := fun _ => Fault.
Definition modify (f : State -> State) : M unit := fun s => Ret (tt, f s).
(** Continue with the value, or return NULL. *)
Definition bind_ptr {A B} (m : M (option A)) (f : A -> M (option B)) : M (option B) :=
  bind m (fun r => match r with Some a => f a | None => ret None end).

(** [let*]: run and continue; [let?]: run, return NULL on NULL, else continue. *)
#[local] Notation "'let*' x ':=' m 'in' k" := (bind m (fun x => k))
  (at level 200, x name, m at level 100, k at level 200).
#[local] Notation "'let?' x ':=' m 'in' k" := (bind_ptr m (fun x => k))
  (at level 200, x name, m at level 100, k at level 200).

(** An element of [argv] as a function sees it: [EvaluateValue] on it, and its place
    in the script. *)
Record Arg := mkArg { EvaluateValue : M (option Value); arg_start : Z; arg_end : Z }.

(** [Value* ErrorAbort(State* state, const char* format, ...)] with the formatted text *)
Definition ErrorAbort {A} (text : bytes) : M (option A) :=
  bind (modify (set_errmsg (take 4095 text))) (fun _ => ret None).
(** [free(state->errmsg); state->errmsg = strdup(text); return NULL;] *)
Definition fail {A} (text : bytes) : M (option A) :=
  bind (modify (set_errmsg text)) (fun _ => ret None).

(** [Value* StringValue(char* str)] *)
Definition StringValue (str : bytes) : Value := mkValue VAL_STRING (len str) str.
Definition string_value (str : bytes) : M (option Value) := ret (Some (StringValue str)).
(** [int BooleanString(const char* s)] *)
Definition BooleanString (s : bytes) : bool := match s with [] => false | _ => true end.

(** [char* Evaluate(State* state, Expr* expr)] *)
Definition Evaluate (a : Arg) : M (option bytes) :=
  let? v := EvaluateValue a in
  if negb (vtype v =? VAL_STRING)
  then ErrorAbort (str "expecting string, got value type " ++ print_Z (vtype v))
  else ret (Some (c_str (vdata v))).

(** [argv[i]]: reading past the array is undefined. *)
Definition argv_at (argv : list Arg) (i : nat) : M Arg :=
  match argv !! i with Some a => ret a | None => fault end.

(** ** Argument readers *)

(** [char** ReadVarArgs(State* state, int argc, Expr* argv[])]; [ReadArgs] with
    [count] arguments is the same on the first [count]. *)
Fixpoint ReadVarArgs (argv : list Arg) : M (option (list bytes)) :=
  match argv with
  | [] => ret (Some [])
  | a :: argv => let? x := Evaluate a in let? xs := ReadVarArgs argv in ret (Some (x :: xs))
  end.
Fixpoint ReadArgs (argv : list Arg) (count : nat) : M (option (list bytes)) :=
  match count with
  | O => ret (Some [])
  | S n => match argv with
           | [] => fault
           | a :: argv => let? x := Evaluate a in let? xs := ReadArgs argv n in ret (Some (x :: xs))
           end
  end.

(** [ReadValueArgs], [ReadValueVarArgs] *)
Fixpoint ReadValueVarArgs (argv : list Arg) : M (option (list Value)) :=
  match argv with
  | [] => ret (Some [])
  | a :: argv => let? x := EvaluateValue a in let? xs := ReadValueVarArgs argv in ret (Some (x :: xs))
  end.
Fixpoint ReadValueArgs (argv : list Arg) (count : nat) : M (option (list Value)) :=
  match count with
  | O => ret (Some [])
  | S n => match argv with
           | [] => fault
           | a :: argv => let? x := EvaluateValue a in let? xs := ReadValueArgs argv n in ret (Some (x :: xs))
           end
  end.

(** ** The functions *)

(** The loop over the arguments of lines 79-85. *)
Definition ConcatFn_body (argv : list Arg) : M (option Value) :=
  if (length argv =? 0)%nat then string_value [] else
  let? strings := ReadVarArgs argv in
  string_value (concat strings).

Definition IfElseFn_body (argv : list Arg) : M (option Value) :=
  if negb (length argv =? 2)%nat && negb (length argv =? 3)%nat
  then fail (str "ifelse expects 2 or 3 arguments") else
  let* a0 := argv_at argv 0 in
  let? cond := Evaluate a0 in
  if BooleanString cond then let* a1 := argv_at argv 1 in EvaluateValue a1
  else if (length argv =? 3)%nat then let* a2 := argv_at argv 2 in EvaluateValue a2
  else string_value cond.

Definition AbortFn_body (argv : list Arg) : M (option Value) :=
  let* msg := (if (0 <? length argv)%nat then let* a0 := argv_at argv 0 in Evaluate a0 else ret None) in
  match msg with
  | Some m => fail m
  | None => fail (str "called abort()")
  end.

Definition AssertFn_failed (a : Arg) : M (option Value) := fun s =>
  src ← rd_bytes (script s) (arg_start a) (arg_end a - arg_start a);
  Ret (None, set_errmsg (str "assert failed: " ++ src) s).
Fixpoint AssertFn_body (argv : list Arg) : M (option Value) :=
  match argv with
  | [] => string_value []
  | a :: argv =>
      let? v := Evaluate a in
      if negb (BooleanString v) then AssertFn_failed a else AssertFn_body argv
  end.

Definition SleepFn_body (argv : list Arg) : M (option Value) :=
  let* a0 := argv_at argv 0 in
  let? val := Evaluate a0 in
  let* u := modify (sleep (fst (strtol val))) in
  string_value val.

Fixpoint StdoutFn_body (argv : list Arg) : M (option Value) :=
  match argv with
  | [] => string_value []
  | a :: argv => let? v := Evaluate a in let* u := modify (puts v) in StdoutFn_body argv
  end.

Definition LogicalAndFn_body (argv : list Arg) : M (option Value) :=
  let* a0 := argv_at argv 0 in
  let? left := Evaluate a0 in
  if BooleanString left then let* a1 := argv_at argv 1 in EvaluateValue a1
  else string_value left.

Definition LogicalOrFn_body (argv : list Arg) : M (option Value) :=
  let* a0 := argv_at argv 0 in
  let? left := Evaluate a0 in
  if negb (BooleanString left) then let* a1 := argv_at argv 1 in EvaluateValue a1
  else string_value left.

(** The strings of a truth value. *)
Definition bool_str (b : bool) : bytes := if b then str "t" else [].

Definition LogicalNotFn_body (argv : list Arg) : M (option Value) :=
  let* a0 := argv_at argv 0 in
  let? val := Evaluate a0 in
  string_value (bool_str (negb (BooleanString val))).

(** Two string arguments, left first. *)
Definition two_strings (argv : list Arg) (k : bytes -> bytes -> M (option Value)) : M (option Value) :=
  let* a0 := argv_at argv 0 in
  let? left := Evaluate a0 in
  let* a1 := argv_at argv 1 in
  let? right := Evaluate a1 in
  k left right.

Definition SubstringFn_body (argv : list Arg) : M (option Value) :=
  two_strings argv (fun needle haystack => string_value (bool_str (strstr haystack needle))).
Definition EqualityFn_body (argv : list Arg) : M (option Value) :=
  two_strings argv (fun left right => string_value (bool_str (strcmp left right =? 0))).
Definition InequalityFn_body (argv : list Arg) : M (option Value) :=
  two_strings argv (fun left right => string_value (bool_str (negb (strcmp left right =? 0)))).

Definition SequenceFn_body (argv : list Arg) : M (option Value) :=
  let* a0 := argv_at argv 0 in
  let? left := EvaluateValue a0 in
  let* a1 := argv_at argv 1 in
  EvaluateValue a1.

(** Lines 288-300: the number, if all of the string is one. *)
Definition int_of (s : bytes) : M (option Z) :=
  let '(v, rest) := strtol s in
  if negb (BooleanString s) || BooleanString rest
  then let* u := modify (puts (str "[" ++ s ++ str "] is not an int" ++ [10])) in ret None
  else ret (Some v).
Definition LessThanIntFn_body (argv : list Arg) : M (option Value) :=
  if negb (length argv =? 2)%nat then fail (str "less_than_int expects 2 arguments") else
  let? args := ReadArgs argv 2 in
  match args with
  | [x; y] =>
      let* l := int_of x in
      match l with
      | None => string_value []
      | Some l_int =>
          let* r := int_of y in
          match r with
          | None => string_value []
          | Some r_int => string_value (bool_str (l_int <? r_int))
          end
      end
  | _ => fault
  end.

Definition GreaterThanIntFn_body (argv : list Arg) : M (option Value) :=
  match argv with
  | [a0; a1] => LessThanIntFn_body [a1; a0]
  | _ => fail (str "greater_than_int expects 2 arguments")
  end.

(** ** The evaluator *)

(** The functions registered by the application. *)
Context (registered : nat -> bytes -> list Arg -> M (option Value)).

(** A call through [expr->fn]. *)
Definition call (fn : Fn) (name : bytes) (argv : list Arg) : M (option Value) :=
  match fn with
  | Literal => string_value (c_str name)
  | ConcatFn => ConcatFn_body argv
  | IfElseFn => IfElseFn_body argv
  | AbortFn => AbortFn_body argv
  | AssertFn => AssertFn_body argv
  | SleepFn => SleepFn_body argv
  | StdoutFn => StdoutFn_body argv
  | LogicalAndFn => LogicalAndFn_body argv
  | LogicalOrFn => LogicalOrFn_body argv
  | LogicalNotFn => LogicalNotFn_body argv
  | SubstringFn => SubstringFn_body argv
  | EqualityFn => EqualityFn_body argv
  | InequalityFn => InequalityFn_body argv
  | SequenceFn => SequenceFn_body argv
  | LessThanIntFn => LessThanIntFn_body argv
  | GreaterThanIntFn => GreaterThanIntFn_body argv
  | Registered n => registered n name argv
  end.

(** [EvaluateValue(state, expr)]: [expr->fn(expr->name, state, expr->argc, expr->argv)] *)
Fixpoint evaluate_value (e : Expr) : M (option Value) :=
  match e with
  | mkExpr fn name argv _ _ =>
      call fn name ((fun a => match a with mkExpr _ _ _ s e => mkArg (evaluate_value a) s e end) <$> argv)
  end.
Definition as_arg (e : Expr) : Arg :=
  match e with mkExpr _ _ _ s t => mkArg (evaluate_value e) s t end.
(** [Evaluate(state, expr)], as the updater calls it on the whole script. *)
Definition evaluate (e : Expr) : M (option bytes) := Evaluate (as_arg e).
End edify.

(** ** What the parser builds *)

(** [Expr* Build(Function fn, YYLTYPE loc, int count, ...)] *)
Definition Build (fn : Fn) (loc : Z * Z) (args : list Expr) : Expr :=
  mkExpr fn (str "(operator)") args (fst loc) (snd loc).
(** The action for a STRING. *)
Definition string_expr (s : bytes) (loc : Z * Z) : Expr := mkExpr Literal s [] (fst loc) (snd loc).
(** The action for "expr ; expr", which associates to the left. *)
Definition sequence (e : Expr) (es : list (Expr * (Z * Z))) : Expr :=
  foldl (fun acc p => Build SequenceFn (snd p) [acc; fst p]) e es.
