(* ===== verification/FnTable.v ===== *)
(** The function table of [edify/expr.c]: [RegisterFunction], [FinishRegistration],
    [FindFunction] and [RegisterBuiltins]. *)
From Stdlib Require Import Sorting.Sorted.
From S2P Require Import Prelude CString Value KeyFile Edify.

(** [NamedFunction]; the table has [fn_size] slots, of which [fn_entries] are filled;
    a slot that [realloc] added and nothing wrote is [None]. *)
Record NamedFunction := mkNamed { nf_name : bytes; nf_fn : Fn }.
Record FnTable := mkFnTable { fn_entries : Z; fn_size : Z; fn_table : list (option NamedFunction) }.
Definition fn_empty : FnTable := mkFnTable 0 0 [].

(** [void RegisterFunction(const char* name, Function fn)] *)
Definition RegisterFunction (name : bytes) (fn : Fn) (t : FnTable) : outcome FnTable :=
  let t := if fn_size t <=? fn_entries t then
             let size := fn_size t * 2 + 1 in
             mkFnTable (fn_entries t) size
               (fn_table t ++ replicate (Z.to_nat size - length (fn_table t)) None)
           else t in
  if (0 <=? fn_entries t) && (fn_entries t <? Z.of_nat (length (fn_table t))) then
    Ret (mkFnTable (fn_entries t + 1) (fn_size t)
           (<[Z.to_nat (fn_entries t) := Some (mkNamed name fn)]> (fn_table t)))
  else Fault.

(** [int fn_entry_compare(const void* a, const void* b)] *)
Definition fn_entry_compare (a b : NamedFunction) : Z := strcmp (nf_name a) (nf_name b).

(** [qsort] with this comparison. *)
Fixpoint insert_entry (a : NamedFunction) (l : list NamedFunction) : list NamedFunction :=
  match l with
  | [] => [a]
  | b :: l' => if fn_entry_compare a b <=? 0 then a :: l else b :: insert_entry a l'
  end.
Definition qsort (l : list NamedFunction) : list NamedFunction := foldr insert_entry [] l.

(** The [n] first slots, which must all be written. *)
Fixpoint filled (n : nat) (l : list (option NamedFunction)) : outcome (list NamedFunction) :=
  match n with
  | O => Ret []
  | S n => match l with
           | Some a :: l => r ← filled n l; Ret (a :: r)
           | _ => Fault
           end
  end.

(** [void FinishRegistration()] *)
Definition FinishRegistration (t : FnTable) : outcome FnTable :=
  l ← filled (Z.to_nat (fn_entries t)) (fn_table t);
  Ret (mkFnTable (fn_entries t) (fn_size t)
         ((Some <$> qsort l) ++ drop (Z.to_nat (fn_entries t)) (fn_table t))).

(** [bsearch]: the interval [l, u) is halved. *)
Fixpoint bsearch (fuel : nat) (key : NamedFunction) (tab : list NamedFunction) (l u : Z)
    : outcome (option NamedFunction) :=
  if l <? u then
    match fuel with
    | O => Diverge
    | S fuel =>
        let idx := (l + u) / 2 in
        match tab !! Z.to_nat idx with
        | None => Fault
        | Some p =>
            let c := fn_entry_compare key p in
            if c <? 0 then bsearch fuel key tab l idx
            else if 0 <? c then bsearch fuel key tab (idx + 1) u
            else Ret (Some p)
        end
    end
  else Ret None.

(** [Function FindFunction(const char* name)]; NULL is [None]. *)
Definition FindFunction (name : bytes) (t : FnTable) : outcome (option Fn) :=
  l ← filled (Z.to_nat (fn_entries t)) (fn_table t);
  r ← bsearch (S (length l)) (mkNamed name Literal) l 0 (fn_entries t);
  Ret (option_map nf_fn r).

(** A sequence of registrations. *)
Fixpoint register_all (fns : list NamedFunction) (t : FnTable) : outcome FnTable :=
  match fns with
  | [] => Ret t
  | f :: fns => t ← RegisterFunction (nf_name f) (nf_fn f) t; register_all fns t
  end.

(** [void RegisterBuiltins()] *)
Definition builtins : list NamedFunction :=
  [ mkNamed (str "ifelse") IfElseFn; mkNamed (str "abort") AbortFn;
    mkNamed (str "assert") AssertFn; mkNamed (str "concat") ConcatFn;
    mkNamed (str "is_substring") SubstringFn; mkNamed (str "stdout") StdoutFn;
    mkNamed (str "sleep") SleepFn; mkNamed (str "less_than_int") LessThanIntFn;
    mkNamed (str "greater_than_int") GreaterThanIntFn ].
Definition RegisterBuiltins (t : FnTable) : outcome FnTable := register_all builtins t.

(** ** Registration keeps what was registered *)

Record table_holds (t : FnTable) (l : list NamedFunction) : Prop := {
  th_entries : fn_entries t = Z.of_nat (length l);
  th_size : fn_size t = Z.of_nat (length (fn_table t));
  th_slots : exists rest, fn_table t = (Some <$> l) ++ rest }.

Lemma RegisterFunction_holds t l name fn : table_holds t l ->
  exists t', RegisterFunction name fn t = Ret t' /\ table_holds t' (l ++ [mkNamed name fn]).
Proof.
  destruct t as [n size tab]. intros [He Hs (rest & Ht)]. cbn in *. subst.
  unfold RegisterFunction. cbn [fn_entries fn_size fn_table].
  set (t1 := if _ <=? _ then _ else _).
  assert (exists x r, t1 = mkFnTable (Z.of_nat (length l))
    (Z.of_nat (length ((Some <$> l) ++ x :: r))) ((Some <$> l) ++ x :: r)) as (x & r & ->).
  { subst t1. rewrite length_app, length_fmap. destruct rest as [|x rest].
    - rewrite (proj2 (Z.leb_le _ _)) by (cbn; lia).
      rewrite app_nil_r. cbn [length].
      replace (Z.to_nat (Z.of_nat (length l + 0) * 2 + 1) - (length l + 0))%nat
        with (S (length l)) by lia.
      exists None, (replicate (length l) None). f_equal.
      rewrite length_app, length_fmap. cbn [length]. rewrite length_replicate. lia.
    - exists x, rest. rewrite (proj2 (Z.leb_gt _ _)) by (cbn; lia).
      by rewrite length_app, length_fmap. }
  cbn [fn_entries fn_size fn_table].
  rewrite (proj2 (Z.leb_le 0 _)), (proj2 (Z.ltb_lt _ _)) by
    (rewrite ?length_app, ?length_fmap; cbn; lia). cbn [andb].
  eexists. split; [done|]. split; cbn [fn_entries fn_size fn_table].
  - rewrite length_app. cbn. lia.
  - by rewrite length_insert.
  - exists r. rewrite Nat2Z.id, insert_app_r_alt by (rewrite length_fmap; lia).
    rewrite length_fmap, Nat.sub_diag, fmap_app. cbn. by rewrite <- app_assoc.
Qed.

Lemma register_all_holds fns : forall t l, table_holds t l ->
  exists t', register_all fns t = Ret t' /\ table_holds t' (l ++ fns).
Proof.
  induction fns as [|[n f] fns IH]; intros t l Ht; [exists t; by rewrite app_nil_r|].
  cbn [register_all nf_name nf_fn]. destruct (RegisterFunction_holds t l n f Ht) as (t1 & -> & H1).
  cbn [mbind outcome_bind]. destruct (IH t1 _ H1) as (t' & -> & H'). exists t'. split; [done|].
  by rewrite <- app_assoc in H'.
Qed.

Lemma filled_holds l rest : filled (length l) ((Some <$> l) ++ rest) = Ret l.
Proof. induction l as [|a l IH]; [done|]. cbn. by rewrite IH. Qed.
Lemma table_filled t l : table_holds t l -> filled (Z.to_nat (fn_entries t)) (fn_table t) = Ret l.
Proof. intros [-> _ (rest & ->)]. rewrite Nat2Z.id. apply filled_holds. Qed.

(** ** Sorting and searching *)

Definition names_le (a b : NamedFunction) : Prop := name_le (nf_name a) (nf_name b).
Definition names_ok (l : list NamedFunction) : Prop := Forall (fun a => nul_free (nf_name a)) l.
Definition names_sorted (l : list NamedFunction) : Prop := StronglySorted names_le l.

Lemma compare_sgn a b : nul_free (nf_name a) -> nul_free (nf_name b) ->
  Z.sgn (fn_entry_compare a b) = Z.sgn (lex (nf_name a) (nf_name b)).
Proof. apply strcmp_lex. Qed.

Lemma insert_entry_ok a l : nul_free (nf_name a) -> names_ok l -> names_sorted l ->
  names_sorted (insert_entry a l) /\ insert_entry a l ≡ₚ a :: l.
Proof.
  intros Ha Hl Hs. induction Hs as [|b l Hs IH Hb].
  { split; [repeat constructor|done]. }
  inversion_clear Hl as [|? ? Hbn Hln]. cbn [insert_entry].
  pose proof (compare_sgn a b Ha Hbn) as Hc. unfold names_le, name_le in *.
  destruct (Z.leb_spec (fn_entry_compare a b) 0) as [Hle|Hgt].
  - split; [|done]. constructor; [by constructor|]. constructor; [unfold names_le, name_le; lia|].
    revert Hb. apply Forall_impl. intros c Hbc. eapply lex_trans; [|exact Hbc]. lia.
  - destruct (IH Hln) as [Hs' Hp']. split.
    + constructor; [done|]. rewrite Hp'. constructor; [unfold names_le, name_le|done].
      pose proof (lex_sgn (nf_name a) (nf_name b)). lia.
    + rewrite Hp'. constructor.
Qed.

Lemma qsort_ok l : names_ok l -> names_sorted (qsort l) /\ qsort l ≡ₚ l.
Proof.
  induction 1 as [|a l Ha Hl [Hs Hp]]; [by split; [constructor|]|]. cbn [qsort foldr].
  assert (names_ok (qsort l)) as Hq by (unfold names_ok; by rewrite Hp).
  destruct (insert_entry_ok a (qsort l) Ha Hq Hs) as [Hs' Hp']. split; [done|].
  change (insert_entry a (qsort l) ≡ₚ a :: l). by rewrite Hp', Hp.
Qed.

Lemma sorted_lookup l i j a b : names_sorted l -> (i < j)%nat ->
  l !! i = Some a -> l !! j = Some b -> names_le a b.
Proof.
  intros Hs. revert i j. induction Hs as [|c l Hs IH Hc]; intros i j Hij Hi Hj; [done|].
  destruct j as [|j]; [lia|]. destruct i as [|i]; cbn in *.
  - simplify_eq. rewrite Forall_lookup in Hc. by eapply Hc.
  - eapply IH; [|done|done]. lia.
Qed.

(** The search finds an entry with the name, or there is none in the interval. *)
Lemma bsearch_ok key tab fuel : names_ok tab -> nul_free (nf_name key) -> names_sorted tab -> forall l u,
  0 <= l -> u <= Z.of_nat (length tab) -> u - l < Z.of_nat fuel ->
  (exists p i, bsearch fuel key tab l u = Ret (Some p) /\ tab !! i = Some p /\ nf_name p = nf_name key) \/
  (bsearch fuel key tab l u = Ret None /\
   forall i p, l <= Z.of_nat i < u -> tab !! i = Some p -> nf_name p <> nf_name key).
Proof.
  intros Hok Hk Hs. induction fuel as [|fuel IH]; intros l u Hl Hu Hf; cbn [bsearch];
    (destruct (Z.ltb_spec l u) as [Hlu|]; [|right; split; [done|]; intros i p Hi; lia]); [lia|].
  set (idx := (l + u) / 2). assert (l <= idx < u) as Hidx by (subst idx; Z.div_mod_to_equations; lia).
  clearbody idx. destruct (lookup_lt_is_Some_2 tab (Z.to_nat idx)) as [p Hp]; [lia|]. rewrite Hp.
  assert (nul_free (nf_name p)) as Hpn by (by eapply (Forall_lookup_1 _ _ _ _ Hok)).
  pose proof (compare_sgn key p Hk Hpn) as Hc.
  assert (forall i q, tab !! i = Some q -> nf_name q = nf_name key ->
    (Z.of_nat i < idx -> 0 <= lex (nf_name p) (nf_name key)) /\
    (idx < Z.of_nat i -> lex (nf_name p) (nf_name key) <= 0)) as Hside.
  { intros i q Hq <-. split; intros Hi.
    - apply lex_ge. apply (sorted_lookup tab i (Z.to_nat idx) q p Hs); [lia|done|done].
    - apply (sorted_lookup tab (Z.to_nat idx) i p q Hs); [lia|done|done]. }
  pose proof (lex_sgn (nf_name key) (nf_name p)) as Hsym.
  destruct (Z.ltb_spec (fn_entry_compare key p) 0) as [Hlt|Hge].
  - destruct (IH l idx) as [?|[-> Hn]]; [lia..|by left|right]. split; [done|].
    intros i q Hi Hq Hqn. destruct (decide (Z.of_nat i < idx)); [eapply Hn; [|done..]; lia|].
    destruct (decide (i = Z.to_nat idx)) as [->|]; [|destruct (Hside i q); [done..|lia]].
    simplify_eq. rewrite Hqn, lex_refl in Hc. lia.
  - destruct (Z.ltb_spec 0 (fn_entry_compare key p)) as [Hgt|Hz].
    + destruct (IH (idx + 1) u) as [?|[-> Hn]]; [lia..|by left|right]. split; [done|].
      intros i q Hi Hq Hqn. destruct (decide (idx < Z.of_nat i)); [eapply Hn; [|done..]; lia|].
      destruct (decide (i = Z.to_nat idx)) as [->|]; [|destruct (Hside i q); [done..|lia]].
      simplify_eq. rewrite Hqn, lex_refl in Hc. lia.
    + left. exists p, (Z.to_nat idx). split; [done|]. split; [done|].
      symmetry. apply lex_eq. lia.
Qed.

(** ** Property *)

(** Claim C21.  The function table is a dictionary: after any functions with distinct
    names have been registered and the registration is finished, looking up a name
    gives the function that was registered under it, and NULL for every other name. *)
Theorem find_function_finds_registered fns name
    (Hok : names_ok fns) (Hnd : NoDup (nf_name <$> fns)) (Hname : nul_free name) :
  exists t t', register_all fns fn_empty = Ret t /\ FinishRegistration t = Ret t' /\
    FindFunction name t' =
    Ret (option_map nf_fn (List.find (fun f => bool_decide (nf_name f = name)) fns)).
Proof.
  destruct (register_all_holds fns fn_empty []) as (t & Ht & Hh); [by split; [..|exists []]|].
  cbn [app] in Hh. destruct (qsort_ok fns Hok) as [Hs Hp].
  exists t. unfold FinishRegistration. rewrite (table_filled t fns Hh). cbn [mbind outcome_bind].
  eexists. split; [done|]. split; [done|].
  set (t' := mkFnTable _ _ _).
  assert (table_holds t' (qsort fns)) as Hh'.
  { destruct Hh as [He Hsz (rest & Hr)]. subst t'. split; cbn [fn_entries fn_size fn_table].
    - by rewrite He, Hp.
    - rewrite Hsz, Hr, He, Nat2Z.id. rewrite drop_app_length' by (by rewrite length_fmap).
      by rewrite !length_app, !length_fmap, Hp.
    - by eexists. }
  unfold FindFunction. rewrite (table_filled t' _ Hh'). cbn [mbind outcome_bind].
  assert (names_ok (qsort fns)) as Hqok by (unfold names_ok; by rewrite Hp).
  destruct (bsearch_ok (mkNamed name Literal) (qsort fns) (S (length (qsort fns))) Hqok Hname Hs
    0 (fn_entries t')) as [(p & i & -> & Hi & Hn)|[-> Hn]];
    [lia|rewrite (th_entries _ _ Hh'); lia|rewrite (th_entries _ _ Hh'); lia| |];
    cbn [mbind outcome_bind nf_name] in *.
  - do 2 f_equal. assert (p ∈ fns) as Hin by (rewrite <- Hp; by eapply list_elem_of_lookup_2).
    subst name. clear -Hnd Hin. induction fns as [|f fns IH]; [by apply not_elem_of_nil in Hin|].
    rewrite fmap_cons in Hnd. apply list.NoDup_cons in Hnd as [Hf Hnd]. cbn [List.find].
    apply elem_of_cons in Hin as [->|Hin]; [by rewrite bool_decide_eq_true_2|].
    rewrite bool_decide_eq_false_2; [by apply IH|].
    intros E. apply Hf. rewrite E. by apply list_elem_of_fmap_2.
  - destruct (List.find _ fns) as [f|] eqn:Ef; [|done]. exfalso.
    apply find_some in Ef as [Hin Hb%bool_decide_eq_true_1].
    assert (f ∈ qsort fns) as [i Hi]%list_elem_of_lookup_1 by (rewrite Hp; by apply list_elem_of_In).
    apply (Hn i f); [|done|done]. apply lookup_lt_Some in Hi. rewrite (th_entries _ _ Hh'). lia.
Qed.
Lemma find_function_finds_registered_witness :
  exists t t', register_all builtins fn_empty = Ret t /\ FinishRegistration t = Ret t' /\
    FindFunction (str "less_than_int") t' = Ret (Some LessThanIntFn).
Proof.
  apply (find_function_finds_registered builtins (str "less_than_int")).
  - repeat constructor.
  - by apply (bool_decide_unpack _).
  - repeat constructor.
Defined.
