(* ===== verification/EdifyProps.v ===== *)
(** Properties of the script evaluator of [Edify]: evaluation returns, a NULL result
    comes with a message, statements run in order up to the first failure, operators
    compute what they denote, integers compare. *)
From S2P Require Import Prelude CString KeyFile Value Edify.

(** ** Induction over expressions *)

Section expr_ind.
Context (P : Expr -> Prop)
  (H : forall fn name argv s e, Forall P argv -> P (mkExpr fn name argv s e)).
Fixpoint Expr_ind' (e : Expr) : P e :=
  match e with
  | mkExpr fn name argv s t =>
      H fn name argv s t ((fix go l : Forall P l := match l with
                                       | [] => List.Forall_nil P
                                       | a :: l => List.Forall_cons P a l (Expr_ind' a) (go l)
                                       end) argv)
  end.
End expr_ind.

(** ** Safe computations *)

Section safety.
Context {Cookie : Type}.
Abbreviation State := (@State Cookie).
Abbreviation M := (@M Cookie).
Abbreviation Arg := (@Arg Cookie).
Context (sc : bytes).

(** On the script [sc] the computation returns; a NULL result leaves a message, and a
    message that is there stays or is replaced. *)
Definition safe {A} (m : M (option A)) : Prop := forall s : State, script s = sc ->
  exists r s', m s = Ret (r, s') /\ script s' = sc /\ (r = None -> errmsg s' <> None) /\
    (errmsg s <> None -> errmsg s' <> None).

Lemma safe_bind_ptr {A B} (m : M (option A)) (f : A -> M (option B)) :
  safe m -> (forall a, safe (f a)) -> safe (bind_ptr m f).
Proof.
  intros Hm Hf s Hs. destruct (Hm s Hs) as ([a|] & s1 & E & Hs1 & Hn & Hk).
  - destruct (Hf a s1 Hs1) as (r & s2 & E2 & Hs2 & Hn2 & Hk2).
    exists r, s2. unfold bind_ptr, bind. rewrite E. cbn [mbind outcome_bind]. split_and!; auto.
  - exists None, s1. unfold bind_ptr, bind. rewrite E. cbn [mbind outcome_bind]. split_and!; auto.
Qed.
Lemma safe_ret {A} (a : A) : safe (ret (Some a)).
Proof. intros s Hs. by exists (Some a), s. Qed.
Lemma safe_string v : safe (string_value v).
Proof. apply safe_ret. Qed.
Lemma safe_modify {A} (f : State -> State) (k : unit -> M (option A)) :
  (forall s, script (f s) = script s) -> (forall s, errmsg s <> None -> errmsg (f s) <> None) ->
  safe (k tt) -> safe (bind (modify f) k).
Proof.
  intros H1 H2 Hk s Hs. destruct (Hk (f s)) as (r & s' & E & Hs' & Hn & Hm); [by rewrite H1|].
  exists r, s'. unfold bind, modify. cbn [mbind outcome_bind]. split_and!; auto.
Qed.
Lemma safe_fail {A} text : safe (fail (A:=A) text).
Proof. intros s Hs. by exists None, (set_errmsg text s). Qed.
Lemma safe_ErrorAbort {A} text : safe (ErrorAbort (A:=A) text).
Proof. apply safe_fail. Qed.
Lemma safe_argv {A} (argv : list Arg) i a (k : Arg -> M (option A)) :
  argv !! i = Some a -> safe (k a) -> safe (bind (argv_at argv i) k).
Proof. intros Ha Hk s Hs. unfold bind, argv_at. rewrite Ha. by apply Hk. Qed.

Definition arg_safe (a : Arg) : Prop := safe (EvaluateValue a).
Lemma safe_Evaluate a : arg_safe a -> safe (Evaluate a).
Proof.
  intros Ha. apply safe_bind_ptr; [done|]. intros v. destruct (negb _); [apply safe_ErrorAbort|apply safe_ret].
Qed.
Hint Resolve safe_ret safe_string safe_fail safe_Evaluate : safe.

Lemma safe_ReadVarArgs argv : Forall arg_safe argv -> safe (ReadVarArgs argv).
Proof.
  induction 1 as [|a argv Ha Hargv IH]; cbn [ReadVarArgs]; [apply safe_ret|].
  apply safe_bind_ptr; [auto with safe|]. intros x. apply safe_bind_ptr; auto with safe.
Qed.
Lemma safe_ReadArgs argv n : Forall arg_safe argv -> (n <= length argv)%nat -> safe (ReadArgs argv n).
Proof.
  intros Hargv. revert n. induction Hargv as [|a argv Ha Hargv IH]; intros [|n] Hn; cbn in Hn;
    try lia; cbn [ReadArgs]; try apply safe_ret.
  apply safe_bind_ptr; [auto with safe|]. intros x. apply safe_bind_ptr; [apply IH; lia|auto with safe].
Qed.

(** A function may be called with these arguments. *)
Definition arity (fn : Fn) (n : nat) : bool :=
  match fn with
  | LogicalAndFn | LogicalOrFn | SubstringFn | EqualityFn | InequalityFn | SequenceFn => (2 <=? n)%nat
  | LogicalNotFn | SleepFn => (1 <=? n)%nat
  | _ => true
  end.
Definition span_ok (s e : Z) : Prop := 0 <= s <= e /\ e <= len sc.

Lemma two_args (argv : list Arg) : Forall arg_safe argv -> (2 <= length argv)%nat ->
  exists a b, argv !! 0%nat = Some a /\ argv !! 1%nat = Some b /\ arg_safe a /\ arg_safe b.
Proof.
  intros H Hl. destruct argv as [|a [|b l]]; cbn in Hl; try lia. exists a, b.
  rewrite !Forall_cons_iff in H. tauto.
Qed.

Lemma safe_two_strings argv k : Forall arg_safe argv -> (2 <= length argv)%nat ->
  (forall x y, safe (k x y)) -> safe (two_strings argv k).
Proof.
  intros H Hl Hk. destruct (two_args argv H Hl) as (a & b & Ha & Hb & Sa & Sb).
  eapply safe_argv; [exact Ha|]. apply safe_bind_ptr; [auto with safe|]. intros x.
  eapply safe_argv; [exact Hb|]. apply safe_bind_ptr; auto with safe.
Qed.

Lemma safe_AssertFn argv : Forall arg_safe argv ->
  Forall (fun a => span_ok (arg_start a) (arg_end a)) argv -> safe (AssertFn_body argv).
Proof.
  induction 1 as [|a argv Ha Hargv IH]; intros Hsp; cbn [AssertFn_body]; [apply safe_string|].
  inversion_clear Hsp as [|? ? [Hs He] Hsp']. apply safe_bind_ptr; [auto with safe|]. intros v.
  destruct (negb (BooleanString v)); [|by apply IH]. intros s Hsc.
  unfold AssertFn_failed. rewrite Hsc, rd_bytes_ok by lia. cbn [mbind outcome_bind].
  do 2 eexists. split; [done|]. done.
Qed.

Lemma safe_StdoutFn argv : Forall arg_safe argv -> safe (StdoutFn_body argv).
Proof.
  induction 1 as [|a argv Ha Hargv IH]; cbn [StdoutFn_body]; [apply safe_string|].
  apply safe_bind_ptr; [auto with safe|]. intros v. by apply safe_modify.
Qed.

Lemma safe_IfElse argv : Forall arg_safe argv -> safe (IfElseFn_body argv).
Proof.
  intros H. unfold IfElseFn_body. destruct argv as [|a [|b [|c [|? ?]]]]; cbn [length Nat.eqb negb andb];
    try apply safe_fail; rewrite !Forall_cons_iff in H.
  - eapply safe_argv; [done|]. apply safe_bind_ptr; [apply safe_Evaluate; tauto|]. intros x.
    destruct (BooleanString x); [|apply safe_string]. eapply safe_argv; [done|]. apply H.
  - eapply safe_argv; [done|]. apply safe_bind_ptr; [apply safe_Evaluate; tauto|]. intros x.
    destruct (BooleanString x); (eapply safe_argv; [done|]); apply H.
Qed.

Lemma safe_AbortFn argv : Forall arg_safe argv -> safe (AbortFn_body argv).
Proof.
  intros H s Hs. unfold AbortFn_body, bind at 1. destruct argv as [|a argv].
  { cbn. do 2 eexists. split; [done|]. done. }
  cbn [length Nat.ltb Nat.leb]. inversion_clear H as [|? ? Ha _].
  destruct (safe_Evaluate a Ha s Hs) as (r & s' & E & Hs' & Hn & Hk).
  change (bind (argv_at (a :: argv) 0) (fun a0 => Evaluate a0) s) with (Evaluate a s). rewrite E.
  cbn [mbind outcome_bind]. destruct r; do 2 eexists; (split; [done|]); done.
Qed.

Lemma safe_int_of {A} x (k : option Z -> M (option A)) :
  (forall o, safe (k o)) -> safe (bind (int_of x) k).
Proof.
  intros Hk s Hs. unfold int_of. destruct (strtol x) as [v rest]. destruct (negb _ || _); [|by apply Hk].
  unfold bind, modify. cbn. destruct (Hk None (puts (str "[" ++ x ++ str "] is not an int" ++ [10]) s))
    as (r & s' & E & Hr); [done|]. exists r, s'. split; [exact E|]. exact Hr.
Qed.

Lemma safe_ext {A} (m m' : M (option A)) : (forall s, m s = m' s) -> safe m' -> safe m.
Proof. intros E H s Hs. rewrite E. by apply H. Qed.

Lemma ReadArgs_two {A} (a b : Arg) (k : list bytes -> M (option A)) s :
  bind_ptr (ReadArgs [a; b] 2) k s =
  bind_ptr (Evaluate a) (fun x => bind_ptr (Evaluate b) (fun y => k [x; y])) s.
Proof.
  cbn [ReadArgs]. unfold bind_ptr, bind, ret.
  destruct (Evaluate a s) as [[[x|] s1]| |]; cbn [mbind outcome_bind]; try done.
  destruct (Evaluate b s1) as [[[y|] s2]| |]; done.
Qed.

Lemma safe_LessThan argv : Forall arg_safe argv -> safe (LessThanIntFn_body argv).
Proof.
  intros H. unfold LessThanIntFn_body. destruct argv as [|a [|b [|? ?]]]; cbn [length Nat.eqb negb];
    try apply safe_fail. rewrite !Forall_cons_iff in H. destruct H as (Ha & Hb & _).
  eapply safe_ext; [intros s; apply ReadArgs_two|].
  apply safe_bind_ptr; [auto with safe|]. intros x. apply safe_bind_ptr; [auto with safe|]. intros y.
  apply safe_int_of. intros [l|]; [|apply safe_string]. apply safe_int_of.
  intros [r|]; apply safe_string.
Qed.

(** ** Every call *)

Context (registered : nat -> bytes -> list Arg -> M (option Value)).

Lemma safe_call fn name argv :
  (forall n, fn = Registered n -> safe (registered n name argv)) ->
  Forall arg_safe argv -> arity fn (length argv) = true ->
  Forall (fun a => span_ok (arg_start a) (arg_end a)) argv -> safe (call registered fn name argv).
Proof.
  intros Hreg H Har Hsp. destruct fn; cbn [call]; cbn [arity] in Har; try apply Nat.leb_le in Har.
  - apply safe_string.
  - unfold ConcatFn_body. destruct (length argv =? 0)%nat; [apply safe_string|].
    apply safe_bind_ptr; [by apply safe_ReadVarArgs|auto with safe].
  - by apply safe_IfElse.
  - apply safe_AbortFn. done.
  - by apply safe_AssertFn.
  - unfold SleepFn_body. destruct argv as [|a argv]; [cbn in Har; lia|]. inversion_clear H.
    eapply safe_argv; [done|]. apply safe_bind_ptr; [auto with safe|]. intros v. by apply safe_modify; [..|apply safe_string].
  - by apply safe_StdoutFn.
  - destruct (two_args argv H Har) as (a & b & Ha & Hb & Sa & Sb). unfold LogicalAndFn_body.
    eapply safe_argv; [exact Ha|]. apply safe_bind_ptr; [auto with safe|]. intros x.
    destruct (BooleanString x); [|apply safe_string]. by eapply safe_argv.
  - destruct (two_args argv H Har) as (a & b & Ha & Hb & Sa & Sb). unfold LogicalOrFn_body.
    eapply safe_argv; [exact Ha|]. apply safe_bind_ptr; [auto with safe|]. intros x.
    destruct (negb (BooleanString x)); [|apply safe_string]. by eapply safe_argv.
  - unfold LogicalNotFn_body. destruct argv as [|a argv]; [cbn in Har; lia|]. inversion_clear H.
    eapply safe_argv; [done|]. apply safe_bind_ptr; auto with safe.
  - apply safe_two_strings; auto with safe.
  - apply safe_two_strings; auto with safe.
  - apply safe_two_strings; auto with safe.
  - destruct (two_args argv H Har) as (a & b & Ha & Hb & Sa & Sb). unfold SequenceFn_body.
    eapply safe_argv; [exact Ha|]. apply safe_bind_ptr; [done|]. intros x. by eapply safe_argv.
  - by apply safe_LessThan.
  - unfold GreaterThanIntFn_body. destruct argv as [|a [|b [|? ?]]]; try apply safe_fail.
    apply safe_LessThan. rewrite !Forall_cons_iff in *. tauto.
  - by apply Hreg.
Qed.

(** An expression whose calls have enough arguments and whose arguments lie in the
    script. *)
Fixpoint expr_ok (e : Expr) : Prop :=
  match e with
  | mkExpr fn _ argv _ _ =>
      arity fn (length argv) = true /\
      (fix all l := match l with
                    | [] => True
                    | mkExpr _ _ _ s t as a :: l => expr_ok a /\ span_ok s t /\ all l
                    end) argv
  end.

Lemma evaluate_safe e :
  (forall n name argv, Forall arg_safe argv -> safe (registered n name argv)) ->
  expr_ok e -> safe (evaluate_value registered e).
Proof.
  intros Hreg. induction e as [fn name argv s t IH] using Expr_ind'. intros [Har Hargs].
  cbn [evaluate_value]. set (args := _ <$> argv).
  assert (Forall arg_safe args /\ Forall (fun a => span_ok (arg_start a) (arg_end a)) args) as [H1 H2].
  { subst args. clear Har. induction IH as [|a l Ha Hl IHl]; [by split; constructor|].
    destruct a as [fa na aa sa ta]. destruct Hargs as (Hok & Hsp & Hargs). destruct (IHl Hargs) as [I1 I2].
    split; rewrite fmap_cons; constructor; try done. by apply Ha. }
  apply safe_call; auto. subst args. by rewrite length_fmap.
Qed.
End safety.

(** ** Statements *)

Section statements.
Context {Cookie : Type} (registered : nat -> bytes -> list (@Arg Cookie) -> @M Cookie (option Value)).
Abbreviation eval := (evaluate_value registered).

(** The statements return values, one after the other. *)
Inductive runs : list Expr -> @State Cookie -> @State Cookie -> Prop :=
| runs_nil s : runs [] s s
| runs_cons e es s v s1 s2 : eval e s = Ret (Some v, s1) -> runs es s1 s2 -> runs (e :: es) s s2.

Lemma eval_build fn loc args :
  eval (Build fn loc args) = call registered fn (str "(operator)") (as_arg registered <$> args).
Proof. reflexivity. Qed.
Lemma EvaluateValue_arg e : EvaluateValue (as_arg registered e) = eval e.
Proof. by destruct e. Qed.

Lemma eval_sequence loc a b s :
  eval (Build SequenceFn loc [a; b]) s =
  ('(r, s1) ← eval a s; match r with Some _ => eval b s1 | None => Ret (None, s1) end).
Proof.
  rewrite eval_build, !fmap_cons. unfold call, SequenceFn_body, argv_at, bind_ptr, bind, ret.
  cbn [lookup list_lookup mbind outcome_bind]. rewrite !EvaluateValue_arg.
  by destruct (eval a s) as [[[v|] s1]| |].
Qed.

Lemma sequence_null es : forall e s s1,
  eval e s = Ret (None, s1) -> eval (sequence e es) s = Ret (None, s1).
Proof.
  induction es as [|[e' loc] es IH]; intros e s s1 He; [done|].
  cbn [sequence foldl]. apply IH. rewrite eval_sequence. by rewrite He.
Qed.

Lemma sequence_runs pre : forall e s s1 s2 v post,
  eval e s = Ret (Some v, s1) -> runs (fst <$> pre) s1 s2 ->
  exists w, eval (sequence e pre) s = Ret (Some w, s2) /\
    sequence e (pre ++ post) = sequence (sequence e pre) post.
Proof.
  induction pre as [|[e' loc] pre IH]; intros e s s1 s2 v post He Hr.
  - inversion Hr; subst. by exists v.
  - inversion Hr as [|? ? ? v' s' ? He' Hr']; subst. cbn [fst] in He'.
    apply (IH (Build SequenceFn loc [e; e']) s s' s2 v' post); [|done].
    rewrite eval_sequence, He. cbn [mbind outcome_bind]. done.
Qed.
End statements.

(** ** Operators *)

(** Expressions of literals and operators, and the strings they stand for: a string
    is true when it is not empty. *)
Inductive op_expr :=
| OLit (s : bytes) | OSeq (a b : op_expr) | OConcat (a b : op_expr) | OEq (a b : op_expr)
| ONe (a b : op_expr) | OAnd (a b : op_expr) | OOr (a b : op_expr) | ONot (a : op_expr)
| OIf (c a : op_expr) | OIfElse (c a b : op_expr).

Fixpoint compile (loc : Z * Z) (e : op_expr) : Expr :=
  match e with
  | OLit s => string_expr s loc
  | OSeq a b => Build SequenceFn loc [compile loc a; compile loc b]
  | OConcat a b => Build ConcatFn loc [compile loc a; compile loc b]
  | OEq a b => Build EqualityFn loc [compile loc a; compile loc b]
  | ONe a b => Build InequalityFn loc [compile loc a; compile loc b]
  | OAnd a b => Build LogicalAndFn loc [compile loc a; compile loc b]
  | OOr a b => Build LogicalOrFn loc [compile loc a; compile loc b]
  | ONot a => Build LogicalNotFn loc [compile loc a]
  | OIf c a => Build IfElseFn loc [compile loc c; compile loc a]
  | OIfElse c a b => Build IfElseFn loc [compile loc c; compile loc a; compile loc b]
  end.

Fixpoint meaning (e : op_expr) : bytes :=
  match e with
  | OLit s => s
  | OSeq a b => meaning b
  | OConcat a b => meaning a ++ meaning b
  | OEq a b => bool_str (bool_decide (meaning a = meaning b))
  | ONe a b => bool_str (bool_decide (meaning a <> meaning b))
  | OAnd a b => if BooleanString (meaning a) then meaning b else []
  | OOr a b => if BooleanString (meaning a) then meaning a else meaning b
  | ONot a => bool_str (negb (BooleanString (meaning a)))
  | OIf c a => if BooleanString (meaning c) then meaning a else []
  | OIfElse c a b => if BooleanString (meaning c) then meaning a else meaning b
  end.

Fixpoint literals_ok (e : op_expr) : Prop :=
  match e with
  | OLit s => nul_free s
  | OSeq a b | OConcat a b | OEq a b | ONe a b | OAnd a b | OOr a b | OIf a b => literals_ok a /\ literals_ok b
  | ONot a => literals_ok a
  | OIfElse c a b => literals_ok c /\ literals_ok a /\ literals_ok b
  end.

Lemma c_str_nul_free l : nul_free l -> c_str l = l.
Proof.
  induction 1 as [|c l Hc _ IH]; [done|]. cbn. rewrite (proj2 (Z.eqb_neq c 0)) by lia. by rewrite IH.
Qed.
Lemma bool_str_ok b : nul_free (bool_str b).
Proof. destruct b; repeat constructor. Qed.
Lemma BooleanString_false l : BooleanString l = false -> l = [].
Proof. by destruct l. Qed.

Lemma meaning_ok e : literals_ok e -> nul_free (meaning e).
Proof.
  induction e; cbn [literals_ok meaning]; try (by intros); try (intros; apply bool_str_ok).
  - intros [? ?]. auto.
  - intros [? ?]. apply Forall_app. split; [by apply IHe1|by apply IHe2].
  - intros [? ?]. destruct (BooleanString _); [auto|constructor].
  - intros [? ?]. destruct (BooleanString _); auto.
  - intros [? ?]. destruct (BooleanString _); [auto|constructor].
  - intros (? & ? & ?). destruct (BooleanString _); auto.
Qed.

Section operators.
Context {Cookie : Type} (registered : nat -> bytes -> list (@Arg Cookie) -> @M Cookie (option Value)).
Abbreviation eval := (evaluate_value registered).
Abbreviation arg := (as_arg registered).

Lemma Evaluate_string e s v : nul_free v -> eval e s = Ret (Some (StringValue v), s) ->
  Evaluate (arg e) s = Ret (Some v, s).
Proof.
  intros Hv He. unfold Evaluate, bind_ptr, bind. rewrite EvaluateValue_arg, He.
  cbn [mbind outcome_bind StringValue vtype vdata]. by rewrite c_str_nul_free.
Qed.

Lemma operators_ok loc e s : literals_ok e ->
  eval (compile loc e) s = Ret (Some (StringValue (meaning e)), s).
Proof.
  revert s. induction e as [l|a IHa b IHb|a IHa b IHb|a IHa b IHb|a IHa b IHb|a IHa b IHb|a IHa b IHb
    |a IHa|c IHc a IHa|c IHc a IHa b IHb]; intros s Hok; cbn [literals_ok compile meaning] in *;
    [|rewrite eval_build, ?fmap_cons, ?fmap_nil..].
  { cbn. by rewrite c_str_nul_free. }
  all: repeat match goal with H : _ /\ _ |- _ => destruct H end.
  all: repeat match goal with IH : forall s, literals_ok ?a -> _, H : literals_ok ?a |- _ =>
    let E := fresh "E" in
    pose proof (Evaluate_string (compile loc a) s (meaning a) (meaning_ok a H) (IH s H)) as E;
    specialize (IH s H) end.
  all: cbn [call].
  all: unfold SequenceFn_body, ConcatFn_body, EqualityFn_body, InequalityFn_body, LogicalAndFn_body,
    LogicalOrFn_body, LogicalNotFn_body, IfElseFn_body, two_strings, ReadVarArgs, argv_at,
    string_value, bind_ptr, bind, ret.
  all: cbn [length Nat.eqb negb andb].
  all: repeat (progress (cbn [lookup list_lookup mbind outcome_bind concat]; rewrite ?EvaluateValue_arg;
    repeat match goal with
      | E : Evaluate _ _ = _ |- _ => rewrite E
      | E : evaluate_value _ _ _ = _ |- _ => rewrite E end)).
  all: rewrite ?app_nil_r; try done.
  - do 5 f_equal. pose proof (strcmp_eq (meaning a) (meaning b)) as Hc.
    case_bool_decide as Hd; [apply Z.eqb_eq|apply Z.eqb_neq]; rewrite Hc; auto using meaning_ok.
  - do 5 f_equal. pose proof (strcmp_eq (meaning a) (meaning b)) as Hc.
    case_bool_decide as Hd; [apply negb_true_iff, Z.eqb_neq|apply negb_false_iff, Z.eqb_eq];
      rewrite Hc; auto using meaning_ok.
  - destruct (BooleanString (meaning a)) eqn:Eb; [by rewrite ?EvaluateValue_arg|].
    by rewrite (BooleanString_false _ Eb).
  - destruct (BooleanString (meaning a)) eqn:Eb; [done|]. by rewrite ?EvaluateValue_arg.
  - destruct (BooleanString (meaning c)) eqn:Eb; [by rewrite ?EvaluateValue_arg|].
    by rewrite (BooleanString_false _ Eb).
  - destruct (BooleanString (meaning c)) eqn:Eb; by rewrite ?EvaluateValue_arg.
Qed.
End operators.

(** ** Integers *)

(** The value of a number that is written out, in a 32-bit [long]. *)
Definition clamp (z : Z) : Z := Z.max INT_MIN (Z.min INT_MAX z).

Lemma strtol_print z : Z.abs z < 10 ^ 32 -> strtol (print_Z z) = (clamp z, []).
Proof.
  intros Hz. unfold strtol, print_Z, print_nat. change 32%nat with (Z.to_nat 32).
  assert (forall n, 0 <= n < 10 ^ 32 -> exists d r, print_digits 32 10 n [] = digit_char d :: r /\ 0 <= d < 10) as Hh.
  { intros n Hn. destruct (print_head 10 32 ltac:(lia) n []) as (d & r & E & Hd & _); [done|lia|].
    by exists d, r. }
  assert (forall n, 0 <= n < 10 ^ 32 -> scan_digits 10 (print_digits 32 10 n []) 0 false = (n, true, [])) as Hs.
  { intros n Hn. rewrite scan_print by (done || lia). done. }
  destruct (Z.ltb_spec z 0) as [Hneg|Hpos].
  - cbn [skip_ws]. change (isspace 45) with false. cbn [starts_with]. rewrite Z.eqb_refl. cbn [orb tl].
    rewrite Hs by lia. by rewrite Z.opp_involutive.
  - destruct (Hh z) as (d & r & E & Hd); [lia|].
    destruct (digit_char_plain d) as (P1 & P2 & P3 & _); [lia|].
    specialize (Hs z ltac:(lia)). change (Z.to_nat 32) with 32%nat. rewrite E in *. cbn [skip_ws]. rewrite P1.
    cbn [starts_with]. rewrite P2, P3. cbn [orb]. by rewrite Hs.
Qed.

Lemma print_Z_nonempty z : Z.abs z < 10 ^ 32 -> BooleanString (print_Z z) = true.
Proof.
  intros Hz. unfold print_Z, print_nat. destruct (Z.ltb_spec z 0); [done|].
  destruct (print_head 10 32 ltac:(lia) z []) as (d & r & -> & _); [|lia|done].
  change (10 ^ Z.of_nat 32) with (10 ^ 32). lia.
Qed.
Lemma digit_char_pos d : 0 <= d -> 0 < digit_char d.
Proof. unfold digit_char. destruct (d <? 10); lia. Qed.
Lemma print_digits_nul_free fuel n acc : 0 <= n -> nul_free acc -> nul_free (print_digits fuel 10 n acc).
Proof.
  revert n acc; induction fuel as [|fuel IH]; intros n acc Hn Ha; cbn; [done|].
  destruct (n <? 10); [constructor; [by apply digit_char_pos|done]|].
  apply IH; [by apply Z.div_pos|]. constructor; [|done]. apply digit_char_pos, Z.mod_pos_bound; lia.
Qed.
Lemma print_Z_nul_free z : nul_free (print_Z z).
Proof.
  unfold print_Z, print_nat. destruct (Z.ltb_spec z 0).
  - constructor; [lia|]. apply print_digits_nul_free; [lia|constructor].
  - apply print_digits_nul_free; [lia|constructor].
Qed.

(** ** Properties *)

Definition demo_state (sc : bytes) : @State unit := mkState tt sc None [] [].
Definition no_functions (n : nat) (name : bytes) (argv : list (@Arg unit)) : @M unit (option Value) :=
  fail (str "no such function").


(** Claim C18.  A script stops at its first failing statement: when the statements
    before it return values and it returns NULL, the whole sequence returns NULL in the
    state it left, and no later statement has any effect; when all statements return
    values, the sequence ends in the state after the last one. *)
Theorem script_stops_at_first_failure {Cookie}
    (registered : nat -> bytes -> list (@Arg Cookie) -> @M Cookie (option Value))
    e0 v0 pre s s0 s1
    (H0 : evaluate_value registered e0 s = Ret (Some v0, s0)) (Hpre : runs registered (fst <$> pre) s0 s1) :
  (exists v, evaluate_value registered (sequence e0 pre) s = Ret (Some v, s1)) /\
  (forall bad loc post s2, evaluate_value registered bad s1 = Ret (None, s2) ->
   evaluate_value registered (sequence e0 (pre ++ (bad, loc) :: post)) s = Ret (None, s2)).
Proof.
  split; [destruct (sequence_runs registered pre e0 s s0 s1 v0 [] H0 Hpre) as (w & E & _); by exists w|].
  intros bad loc post s2 Hbad.
  destruct (sequence_runs registered pre e0 s s0 s1 v0 ((bad, loc) :: post) H0 Hpre) as (w & E & ->).
  cbn [sequence foldl]. apply sequence_null. cbn [fst snd]. rewrite eval_sequence, E.
  cbn [mbind outcome_bind]. done.
Qed.
Lemma script_stops_at_first_failure_witness :
  evaluate_value no_functions
    (sequence (string_expr (str "a") (0, 0)) ([] ++ (mkExpr AbortFn (str "abort") [] 0 0, (0, 0)) ::
       [(mkExpr StdoutFn (str "stdout") [string_expr (str "x") (0, 0)] 0 0, (0, 0))])) (demo_state []) =
  Ret (None, set_errmsg (str "called abort()") (demo_state [])).
Proof.
  apply (script_stops_at_first_failure no_functions (string_expr (str "a") (0, 0)) (StringValue (str "a"))
    [] (demo_state []) (demo_state []) (demo_state [])).
  - done.
  - constructor.
  - done.
Defined.

(** Claim C19.  The operators compute what they denote: an expression of literals,
    concatenation, comparisons, the logical operators, conditionals and sequences
    evaluates to its meaning (a string is true when it is not empty), without touching
    the state. *)
Theorem operators_denote {Cookie}
    (registered : nat -> bytes -> list (@Arg Cookie) -> @M Cookie (option Value)) loc e s
    (Hok : literals_ok e) :
  evaluate_value registered (compile loc e) s = Ret (Some (StringValue (meaning e)), s).
Proof. by apply operators_ok. Qed.
Lemma operators_denote_witness :
  evaluate_value no_functions
    (compile (0, 0) (OIfElse (OEq (OConcat (OLit (str "a")) (OLit (str "b"))) (OLit (str "ab")))
       (OLit (str "yes")) (OLit (str "no")))) (demo_state []) =
  Ret (Some (StringValue (str "yes")), demo_state []).
Proof.
  apply (operators_denote no_functions (0, 0) (OIfElse (OEq (OConcat (OLit (str "a")) (OLit (str "b")))
    (OLit (str "ab"))) (OLit (str "yes")) (OLit (str "no")))).
  cbn. repeat split; repeat constructor.
Defined.


(** [is_substring] and the two-place operators do not check their argument
    count: a call with one argument reads past the argument array. *)
Theorem substring_one_argument_faults :
  evaluate_value no_functions (mkExpr SubstringFn (str "is_substring") [string_expr (str "a") (0, 0)] 0 0)
    (demo_state []) = Fault.
Proof. by vm_compute. Qed.
