(* ===== verification/ImgPatch.v ===== *)
(** [applypatch/imgpatch.c] ([ApplyImagePatch]), the sink wrapper [ApplyBSDiffPatch] of
    [applypatch/bspatch.c], and the part of [applypatch/imgdiff.c] that writes the
    container.  zlib is a parameter ([ZlibOps]). *)
From S2P Require Import Prelude Endian Value Mincrypt BsPatch.

Definition CHUNK_NORMAL : Z := 0.
Definition CHUNK_DEFLATE : Z := 2.
Definition CHUNK_RAW : Z := 3.

(** ** zlib *)

Definition Z_OK : Z := 0.
Definition Z_STREAM_END : Z := 1.

(** [inflateInit2]: its return value; [inflate_raw in n]: one call of [inflate] with
    [avail_out = n] on the compressed bytes [in], the return value and the bytes written.  [deflateInit2] and [deflate s n]:
    the return value, the bytes written with [avail_out = n], the stream. *)
Class ZlibOps := {
  z_stream : Type;
  inflateInit2 : Z;
  inflate_raw : bytes -> Z -> Z * bytes;
  deflateInit2 : bytes -> Z -> Z -> Z -> Z -> Z -> z_stream;
  deflate : z_stream -> Z -> Z * bytes * z_stream }.

(** [z_denotes s d]: the compressed data that is still to come out of [s] is [d]. *)
Class ZlibLaws (zl : ZlibOps) := {
  z_denotes : z_stream -> bytes -> Prop;
  z_inflate_bounded inp n ret out : 0 <= n -> inflate_raw inp n = (ret, out) -> len out <= n;
  z_step s d n : z_denotes s d -> 0 < n ->
    exists ret out d' s', deflate s n = (ret, out, s') /\ d = out ++ d' /\ len out <= n /\
      (ret = Z_STREAM_END /\ d' = [] \/ ret <> Z_STREAM_END /\ out <> [] /\ z_denotes s' d') }.

(** ** Applying an image patch *)

Section imgpatch.
Context {Token : Type} (sink : bytes -> Token -> Z * Token).
Context `{bz : BzOps} `{zl : ZlibOps} (SHA : HashOps).
Context (malloc : Z -> option bytes) (fuel : nat).
Abbreviation ctx_t := (HASH_CTX (HashOps:=SHA)).

(** [int ApplyBSDiffPatch(old_data, old_size, patch, patch_offset, sink, token, ctx)] *)
Definition ApplyBSDiffPatch (od : OldData) (patch : Value) (patch_offset : Z) (token : Token)
    (ctx : ctx_t) : outcome (Z * Token * ctx_t) :=
  '(r, new_data) ← ApplyBSDiffPatchMem malloc fuel od patch patch_offset;
  if negb (r =? 0) then Ret (-1, token, ctx) else
  let '(n, token) := sink new_data token in
  if n <? len new_data then Ret (1, token, ctx) else
  Ret (0, token, hash_update ctx new_data).

(** What goes on after a chunk: the next [pos], or the function's return. *)
Definition chunk_result : Type := outcome ((Z + Z) * Token * ctx_t).

(** Lines 69-82. *)
Definition normal_chunk (od : OldData) (patch : Value) (pos : Z) (token : Token) (ctx : ctx_t)
    : chunk_result :=
  let normal_header := pos in
  let pos := s32 (pos + 24) in
  if vsize patch <? pos then Ret (inr (-1), token, ctx) else
  src_start ← Read8 (vdata patch) normal_header;
  src_len ← Read8 (vdata patch) (normal_header + 8);
  patch_offset ← Read8 (vdata patch) (normal_header + 16);
  '(_, token, ctx) ← ApplyBSDiffPatch (mkOld (old od) (base od + u32 src_start) (s32 (u32 src_len)))
                       patch (s32 (u32 patch_offset)) token ctx;
  Ret (inl pos, token, ctx).

(** Lines 83-103. *)
Definition raw_chunk (patch : Value) (pos : Z) (token : Token) (ctx : ctx_t) : chunk_result :=
  let raw_header := pos in
  let pos := s32 (pos + 4) in
  if vsize patch <? pos then Ret (inr (-1), token, ctx) else
  data_len ← Read4 (vdata patch) raw_header;
  if vsize patch <? s32 (pos + data_len) then Ret (inr (-1), token, ctx) else
  data ← rd_bytes (vdata patch) pos data_len;
  let ctx := hash_update ctx data in
  let '(n, token) := sink data token in
  if negb (n =? data_len) then Ret (inr (-1), token, ctx) else
  Ret (inl (s32 (pos + data_len)), token, ctx).

(** The compression loop of lines 208-220. *)
Fixpoint deflate_loop (n : nat) (temp_size : Z) (strm : z_stream) (token : Token) (ctx : ctx_t)
    : outcome (bool * Token * ctx_t) :=
  match n with
  | O => Diverge
  | S n =>
      let '(ret, out, strm) := deflate strm temp_size in
      let have := len out in
      let '(w, token) := sink out token in
      if negb (w =? have) then Ret (false, token, ctx) else
      let ctx := hash_update ctx out in
      if negb (ret =? Z_STREAM_END) then deflate_loop n temp_size strm token ctx
      else Ret (true, token, ctx)
  end.

(** Lines 131-174: the source of a deflate chunk, expanded; [None] is "return -1". *)
Definition expand_source (od : OldData) (bonus_size : Z) (bonus : bytes)
    (src_start src_len expanded_len : Z) : outcome (option bytes) :=
  match malloc expanded_len with
  | None => Ret None
  | Some expanded_source =>
      if negb (inflateInit2 =? Z_OK) then Ret None else
      inp ← rd_bytes (old od) (base od + src_start) src_len;
      let '(ret, out) := inflate_raw inp expanded_len in
      buf ← wr_bytes expanded_source 0 out;
      if negb (ret =? Z_STREAM_END) then Ret None else
      if negb (u32 (expanded_len - len out) =? bonus_size) then Ret None else
      buf ← (if negb (bonus_size =? 0) then
               b ← rd_bytes bonus 0 bonus_size; wr_bytes buf (expanded_len - bonus_size) b
             else Ret buf);
      Ret (Some buf)
  end.

(** Lines 104-224. *)
Definition deflate_chunk (i : Z) (od : OldData) (patch : Value) (bonus_data : option Value) (pos : Z)
    (token : Token) (ctx : ctx_t) : chunk_result :=
  let h := pos in
  let pos := s32 (pos + 60) in
  if vsize patch <? pos then Ret (inr (-1), token, ctx) else
  src_start ← Read8 (vdata patch) h;
  src_len ← Read8 (vdata patch) (h + 8);
  patch_offset ← Read8 (vdata patch) (h + 16);
  expanded_len ← Read8 (vdata patch) (h + 24);
  target_len ← Read8 (vdata patch) (h + 32);
  level ← Read4 (vdata patch) (h + 40);
  method ← Read4 (vdata patch) (h + 44);
  windowBits ← Read4 (vdata patch) (h + 48);
  memLevel ← Read4 (vdata patch) (h + 52);
  strategy ← Read4 (vdata patch) (h + 56);
  let '(bonus_size, bonus) := match bonus_data with
                              | Some b => if i =? 1 then (u32 (vsize b), vdata b) else (0, [])
                              | None => (0, []) end in
  e ← expand_source od bonus_size bonus (u32 src_start) (u32 src_len) (u32 expanded_len);
  match e with
  | None => Ret (inr (-1), token, ctx)
  | Some expanded_source =>
      '(r, target) ← ApplyBSDiffPatchMem malloc fuel
                       (mkOld expanded_source 0 (s32 (u32 expanded_len))) patch (s32 (u32 patch_offset));
      if negb (r =? 0) then Ret (inr (-1), token, ctx) else
      let temp_size := if s32 (u32 expanded_len) <? 32768 then 32768 else s32 (u32 expanded_len) in
      match (if s32 (u32 expanded_len) <? 32768 then malloc 32768 else Some expanded_source) with
      | None => Fault
      | Some _ =>
          let strm := deflateInit2 target level method windowBits memLevel strategy in
          '(ok, token, ctx) ← deflate_loop fuel temp_size strm token ctx;
          if ok : bool then Ret (inl pos, token, ctx) else Ret (inr (-1), token, ctx)
      end
  end.

(** The dispatch on the type of the chunk (lines 69, 83, 104, 225). *)
Definition one_chunk (type i : Z) (od : OldData) (patch : Value) (bonus_data : option Value) (pos : Z)
    (token : Token) (ctx : ctx_t) : chunk_result :=
  if type =? CHUNK_NORMAL then normal_chunk od patch pos token ctx
  else if type =? CHUNK_RAW then raw_chunk patch pos token ctx
  else if type =? CHUNK_DEFLATE then deflate_chunk i od patch bonus_data pos token ctx
  else Ret (inr (-1), token, ctx).

(** The loop of lines 60-229 with [n] chunks to go. *)
Fixpoint chunk_loop (n : nat) (i : Z) (od : OldData) (patch : Value) (bonus_data : option Value)
    (pos : Z) (token : Token) (ctx : ctx_t) : outcome (Z * Token * ctx_t) :=
  match n with
  | O => Ret (0, token, ctx)
  | S n =>
      if vsize patch <? s32 (pos + 4) then Ret (-1, token, ctx) else
      type ← Read4 (vdata patch) pos;
      '(r, token, ctx) ← one_chunk type i od patch bonus_data (s32 (pos + 4)) token ctx;
      match r with
      | inl pos => chunk_loop n (i + 1) od patch bonus_data pos token ctx
      | inr ret => Ret (ret, token, ctx)
      end
  end.

Definition imgdiff_magic : bytes := [73; 77; 71; 68; 73; 70; 70; 50].   (* "IMGDIFF2" *)

(** [int ApplyImagePatch(old_data, old_size, patch, sink, token, ctx, bonus_data)] *)
Definition ApplyImagePatch (od : OldData) (patch : Value) (token : Token) (ctx : ctx_t)
    (bonus_data : option Value) : outcome (Z * Token * ctx_t) :=
  if vsize patch <? 12 then Ret (-1, token, ctx) else
  magic ← rd_bytes (vdata patch) 0 8;
  if negb (bool_decide (magic = imgdiff_magic)) then Ret (-1, token, ctx) else
  num_chunks ← Read4 (vdata patch) 8;
  chunk_loop (Z.to_nat num_chunks) 0 od patch bonus_data 12 token ctx.
End imgpatch.

(** ** Writing the container ([imgdiff.c], lines 973-1047) *)

(** The fields of [ImageChunk] that are written, and the chunk's patch data. *)
Record TgtChunk := mkChunk {
  c_type : Z; source_start : Z; source_len : Z; source_uncompressed_len : Z; c_len : Z;
  c_level : Z; c_method : Z; c_windowBits : Z; c_memLevel : Z; c_strategy : Z; patch_data : bytes }.

(** Lines 979-990: what the chunk adds to [total_header_size]. *)
Definition header_size (c : TgtChunk) : Z :=
  4 + (if c_type c =? CHUNK_NORMAL then 8 * 3
       else if c_type c =? CHUNK_DEFLATE then 8 * 5 + 4 * 5
       else if c_type c =? CHUNK_RAW then 4 + len (patch_data c) else 0).
Definition total_header_size (cs : list TgtChunk) : Z := 12 + foldr (fun c n => header_size c + n) 0 cs.

(** Lines 1004-1036: the fields of one chunk, whose patch is at [offset]. *)
Definition chunk_fields (c : TgtChunk) (offset : Z) : bytes :=
  if c_type c =? CHUNK_NORMAL then
    Write8 (source_start c) ++ Write8 (source_len c) ++ Write8 offset
  else if c_type c =? CHUNK_DEFLATE then
    Write8 (source_start c) ++ Write8 (source_len c) ++ Write8 offset ++
    Write8 (source_uncompressed_len c) ++ Write8 (c_len c) ++ Write4 (c_level c) ++
    Write4 (c_method c) ++ Write4 (c_windowBits c) ++ Write4 (c_memLevel c) ++ Write4 (c_strategy c)
  else if c_type c =? CHUNK_RAW then Write4 (len (patch_data c)) ++ patch_data c else [].
Definition chunk_header (c : TgtChunk) (offset : Z) : bytes := Write4 (c_type c) ++ chunk_fields c offset.
(** The bytes appended after the headers for the chunk. *)
Definition chunk_tail (c : TgtChunk) : bytes := if c_type c =? CHUNK_RAW then [] else patch_data c.
Fixpoint chunk_headers (cs : list TgtChunk) (offset : Z) : bytes :=
  match cs with
  | [] => []
  | c :: cs =>
      chunk_header c offset ++
      chunk_headers cs (offset + if (c_type c =? CHUNK_NORMAL) || (c_type c =? CHUNK_DEFLATE)
                                 then len (patch_data c) else 0)
  end.
Definition write_imgdiff (cs : list TgtChunk) : bytes :=
  imgdiff_magic ++ Write4 (Z.of_nat (length cs)) ++ chunk_headers cs (total_header_size cs) ++
  concat (chunk_tail <$> cs).

(** ** Reading what was written *)

(** The bytes [x] stand at [pos] in [data]. *)
Definition holds (data : bytes) (pos : Z) (x : bytes) : Prop :=
  exists pre post, data = pre ++ x ++ post /\ len pre = pos.

Lemma holds_app data pos x y : holds data pos (x ++ y) -> holds data pos x /\ holds data (pos + len x) y.
Proof.
  intros (pre & post & -> & <-). split.
  - exists pre, (y ++ post). by rewrite <- app_assoc.
  - exists (pre ++ x), post. by rewrite len_app, <- !app_assoc.
Qed.
Lemma holds_range data pos x : holds data pos x -> 0 <= pos /\ pos + len x <= len data.
Proof.
  intros (pre & post & -> & <-). rewrite !len_app. pose proof (len_nonneg pre). pose proof (len_nonneg post). lia.
Qed.
Lemma holds_rd data pos x n : n = len x -> holds data pos x -> rd_bytes data pos n = Ret x.
Proof.
  intros -> H. pose proof (holds_range _ _ _ H). pose proof (len_nonneg x).
  rewrite rd_bytes_ok by lia. destruct H as (pre & post & -> & <-). by rewrite slice_mid.
Qed.
Lemma holds_Read8 data pos v : bytes_ok data -> holds data pos (Write8 v) -> Read8 data pos = Ret (s64 v).
Proof.
  intros Hb (pre & post & -> & <-). rewrite !bytes_ok_app in Hb. apply Read8_Write8_at; tauto.
Qed.
Lemma holds_Read4 data pos v : bytes_ok data -> holds data pos (Write4 v) -> Read4 data pos = Ret (s32 v).
Proof.
  intros Hb (pre & post & -> & <-). rewrite !bytes_ok_app in Hb. apply Read4_Write4_at; tauto.
Qed.
Lemma s64_small z : 0 <= z < 2 ^ 31 -> s64 z = z.
Proof. intros. words. Qed.

(** ** The chunks *)

Section apply.
Context {Token : Type} (sink : bytes -> Token -> Z * Token).
Context `{bz : BzOps} `{zl : ZlibOps} `{!ZlibLaws zl} (SHA : HashOps).
Context (malloc : Z -> option bytes) (fuel : nat).
Abbreviation ctx_t := (HASH_CTX (HashOps:=SHA)).

(** A sink that takes everything and appends it to its contents. *)
Context (contents : Token -> bytes)
  (sink_all : forall d t, exists t', sink d t = (len d, t') /\ contents t' = contents t ++ d).

(** The effect of writing [d] in some pieces. *)
Definition emitted (token token' : Token) (ctx ctx' : ctx_t) (d : bytes) : Prop :=
  contents token' = contents token ++ d /\
  exists pieces, ctx' = foldl hash_update ctx pieces /\ concat pieces = d.

Lemma emitted_one token token' ctx d :
  contents token' = contents token ++ d -> emitted token token' ctx (hash_update ctx d) d.
Proof. intros H. split; [done|]. exists [d]. cbn. by rewrite app_nil_r. Qed.
Lemma emitted_trans t1 t2 t3 c1 c2 c3 d1 d2 :
  emitted t1 t2 c1 c2 d1 -> emitted t2 t3 c2 c3 d2 -> emitted t1 t3 c1 c3 (d1 ++ d2).
Proof.
  intros [E1 (p1 & -> & <-)] [E2 (p2 & -> & <-)]. split; [by rewrite E2, E1, app_assoc|].
  exists (p1 ++ p2). by rewrite foldl_app, concat_app.
Qed.

Lemma deflate_loop_ok temp_size : 0 < temp_size -> forall n strm d token ctx,
  z_denotes strm d -> (length d < n)%nat ->
  exists token' ctx', deflate_loop sink SHA n temp_size strm token ctx = Ret (true, token', ctx') /\
    emitted token token' ctx ctx' d.
Proof.
  intros Ht. induction n as [|n IH]; intros strm d token ctx Hd Hn; [lia|]. cbn [deflate_loop].
  destruct (z_step strm d temp_size Hd Ht) as (ret & o & d' & s' & -> & -> & Hl & Hcase).
  destruct (sink_all o token) as (t' & -> & Hc). rewrite Z.eqb_refl. cbn [negb].
  destruct Hcase as [[-> ->]|(Hret & Ho & Hd')].
  - rewrite Z.eqb_refl. cbn [negb]. do 2 eexists. split; [done|]. rewrite app_nil_r. by apply emitted_one.
  - rewrite (proj2 (Z.eqb_neq _ _) Hret). cbn [negb].
    destruct (IH s' d' t' (hash_update ctx o) Hd') as (t2 & c2 & E & Hem).
    { rewrite length_app in Hn. destruct o; [done|]. cbn in Hn. lia. }
    exists t2, c2. split; [done|]. eapply emitted_trans; [by apply emitted_one|done].
Qed.

Context (od : OldData) (patch : Value) (bonus_data : option Value).
Context (Hbytes : bytes_ok (vdata patch)) (Hsize : vsize patch = len (vdata patch))
  (Hmax : vsize patch < 2 ^ 31).
Abbreviation small z := (0 <= z < 2 ^ 31).

(** The bytes that follow the expanded source of chunk [i]. *)
Definition bonus_of (i : Z) : bytes :=
  match bonus_data with Some b => if i =? 1 then vdata b else [] | None => [] end.
Context (Hbonus : forall b, bonus_data = Some b -> vsize b = len (vdata b) /\ len (vdata b) < 2 ^ 31).

(** What chunk [i] contributes to the output, its bsdiff patch being at [offset]. *)
Inductive chunk_yields (i : Z) (c : TgtChunk) (offset : Z) : bytes -> Prop :=
| yields_raw : c_type c = CHUNK_RAW -> chunk_yields i c offset (patch_data c)
| yields_normal out : c_type c = CHUNK_NORMAL ->
    ApplyBSDiffPatchMem malloc fuel (mkOld (old od) (base od + source_start c) (source_len c)) patch offset
      = Ret (0, out) -> chunk_yields i c offset out
| yields_deflate inp expanded junk target out : c_type c = CHUNK_DEFLATE ->
    rd_bytes (old od) (base od + source_start c) (source_len c) = Ret inp ->
    inflateInit2 = Z_OK -> inflate_raw inp (source_uncompressed_len c) = (Z_STREAM_END, expanded) ->
    len expanded + len (bonus_of i) = source_uncompressed_len c ->
    malloc (source_uncompressed_len c) = Some junk -> len junk = source_uncompressed_len c ->
    is_Some (malloc 32768) ->
    ApplyBSDiffPatchMem malloc fuel (mkOld (expanded ++ bonus_of i) 0 (source_uncompressed_len c)) patch offset
      = Ret (0, target) ->
    z_denotes (deflateInit2 target (c_level c) (c_method c) (c_windowBits c) (c_memLevel c) (c_strategy c)) out ->
    (length out < fuel)%nat -> chunk_yields i c offset out.

Record chunk_ok (c : TgtChunk) : Prop := {
  ck_start : small (source_start c); ck_len : small (source_len c);
  ck_exp : small (source_uncompressed_len c); ck_tlen : small (c_len c);
  ck_level : INT_MIN <= c_level c <= INT_MAX; ck_method : INT_MIN <= c_method c <= INT_MAX;
  ck_wbits : INT_MIN <= c_windowBits c <= INT_MAX; ck_mem : INT_MIN <= c_memLevel c <= INT_MAX;
  ck_strategy : INT_MIN <= c_strategy c <= INT_MAX; ck_data : small (len (patch_data c)) }.

Lemma word_small z : small z -> u32 (s64 z) = z /\ s32 (u32 (s64 z)) = z.
Proof.
  intros. rewrite s64_small, u32_small by lia. split; [done|]. apply s32_small. unfold INT_MIN, INT_MAX. lia.
Qed.

Lemma normal_chunk_ok i c offset out pos token ctx : chunk_ok c -> small offset ->
  c_type c = CHUNK_NORMAL -> chunk_yields i c offset out ->
  holds (vdata patch) pos (Write8 (source_start c) ++ Write8 (source_len c) ++ Write8 offset) ->
  exists token' ctx', normal_chunk sink SHA malloc fuel od patch pos token ctx
    = Ret (inl (pos + 24), token', ctx') /\ emitted token token' ctx ctx' out.
Proof.
  intros Hc Hoff Ht Hy Hh. inversion Hy as [Ht'|? _ Happ|? ? ? ? ? Ht']; [by rewrite Ht in Ht'| |by rewrite Ht in Ht'].
  pose proof (holds_range _ _ _ Hh) as Hr. change (len (_ ++ _)) with 24 in Hr.
  apply holds_app in Hh as [H1 Hh]. apply holds_app in Hh as [H2 H3].
  change (len (Write8 _)) with 8 in *. replace (pos + 8 + 8) with (pos + 16) in H3 by lia.
  unfold normal_chunk. rewrite (s32_small (pos + 24)) by (unfold INT_MIN, INT_MAX; lia).
  rewrite (proj2 (Z.ltb_ge (vsize patch) _)) by lia.
  rewrite (holds_Read8 _ _ _ Hbytes H1), (holds_Read8 _ _ _ Hbytes H2), (holds_Read8 _ _ _ Hbytes H3).
  cbn [mbind outcome_bind].
  destruct (word_small _ (ck_start c Hc)) as [-> _]. destruct (word_small _ (ck_len c Hc)) as [_ ->].
  destruct (word_small _ Hoff) as [_ ->]. unfold ApplyBSDiffPatch. rewrite Happ. cbn [mbind outcome_bind].
  rewrite Z.eqb_refl. cbn [negb]. destruct (sink_all out token) as (t' & -> & Hct).
  rewrite Z.ltb_irrefl. cbn [mbind outcome_bind]. do 2 eexists. split; [done|]. by apply emitted_one.
Qed.

Lemma raw_chunk_ok i c offset out pos token ctx : chunk_ok c ->
  c_type c = CHUNK_RAW -> chunk_yields i c offset out ->
  holds (vdata patch) pos (Write4 (len (patch_data c)) ++ patch_data c) ->
  exists token' ctx', raw_chunk sink SHA patch pos token ctx
    = Ret (inl (pos + 4 + len (patch_data c)), token', ctx') /\ emitted token token' ctx ctx' out.
Proof.
  intros Hc Ht Hy Hh. inversion Hy as [_ E|? Ht'|? ? ? ? ? Ht']; [|by rewrite Ht in Ht'..]. clear E Hy.
  pose proof (holds_range _ _ _ Hh) as Hr. rewrite len_app in Hr. pose proof (ck_data c Hc).
  apply holds_app in Hh as [H1 H2]. change (len (Write4 _)) with 4 in *.
  unfold raw_chunk. rewrite (s32_small (pos + 4)) by (unfold INT_MIN, INT_MAX; lia).
  rewrite (proj2 (Z.ltb_ge (vsize patch) (pos + 4))) by lia.
  rewrite (holds_Read4 _ _ _ Hbytes H1). cbn [mbind outcome_bind].
  rewrite (s32_small (len (patch_data c))) by (unfold INT_MIN, INT_MAX; lia).
  rewrite (s32_small (pos + 4 + len (patch_data c))) by (unfold INT_MIN, INT_MAX; lia).
  rewrite (proj2 (Z.ltb_ge (vsize patch) (pos + 4 + len (patch_data c)))) by lia.
  rewrite (holds_rd _ _ _ _ eq_refl H2). cbn [mbind outcome_bind].
  destruct (sink_all (patch_data c) token) as (t' & -> & Hct).
  rewrite Z.eqb_refl. cbn [negb]. do 2 eexists. split; [done|]. by apply emitted_one.
Qed.

Lemma expand_source_ok i c inp expanded junk : chunk_ok c ->
  rd_bytes (old od) (base od + source_start c) (source_len c) = Ret inp ->
  inflateInit2 = Z_OK -> inflate_raw inp (source_uncompressed_len c) = (Z_STREAM_END, expanded) ->
  len expanded + len (bonus_of i) = source_uncompressed_len c ->
  malloc (source_uncompressed_len c) = Some junk -> len junk = source_uncompressed_len c ->
  expand_source malloc od (len (bonus_of i)) (bonus_of i) (source_start c) (source_len c)
    (source_uncompressed_len c) = Ret (Some (expanded ++ bonus_of i)).
Proof.
  intros Hc Hin Hi Hinf Hlen Hm Hj. pose proof (ck_exp c Hc). unfold expand_source.
  rewrite Hm, Hi, Z.eqb_refl. cbn [negb]. rewrite Hin. cbn [mbind outcome_bind]. rewrite Hinf.
  set (b := bonus_of i) in *. pose proof (len_nonneg b). pose proof (len_nonneg expanded).
  assert (wr_bytes junk 0 expanded = Ret (expanded ++ drop (length expanded) junk)) as ->.
  { rewrite wr_bytes_ok by lia. unfold splice. cbn. done. }
  cbn [mbind outcome_bind]. rewrite Z.eqb_refl. cbn [negb].
  rewrite u32_small by lia. replace (source_uncompressed_len c - len expanded) with (len b) by lia.
  rewrite Z.eqb_refl. cbn [negb].
  assert (len (drop (length expanded) junk) = len b) as Hd.
  { unfold len in *. rewrite length_drop. lia. }
  destruct (Z.eqb_spec (len b) 0) as [Hz|Hnz]; cbn [negb mbind outcome_bind].
  - rewrite (len_0_nil _ Hz). rewrite Hz in Hd. by rewrite (len_0_nil _ Hd).
  - rewrite rd_bytes_ok by lia. rewrite slice_all. cbn [mbind outcome_bind].
    replace (source_uncompressed_len c - len b) with (len expanded) by lia.
    rewrite <- (app_nil_r (drop _ _)), wr_bytes_mid; [by rewrite app_nil_r|done|].
    unfold len in Hd. lia.
Qed.

Lemma deflate_chunk_ok i c offset out pos token ctx : chunk_ok c -> small offset ->
  c_type c = CHUNK_DEFLATE -> chunk_yields i c offset out ->
  holds (vdata patch) pos
    (Write8 (source_start c) ++ Write8 (source_len c) ++ Write8 offset ++
     Write8 (source_uncompressed_len c) ++ Write8 (c_len c) ++ Write4 (c_level c) ++
     Write4 (c_method c) ++ Write4 (c_windowBits c) ++ Write4 (c_memLevel c) ++ Write4 (c_strategy c)) ->
  exists token' ctx', deflate_chunk sink SHA malloc fuel i od patch bonus_data pos token ctx
    = Ret (inl (pos + 60), token', ctx') /\ emitted token token' ctx ctx' out.
Proof.
  intros Hc Hoff Ht Hy Hh.
  inversion Hy as [Ht'|? Ht'|inp expanded junk target ? _ Hin Hi Hinf Hlen Hm Hj Hm2 Happ Hz Hf];
    [by rewrite Ht in Ht'..|]; subst.
  pose proof (holds_range _ _ _ Hh) as Hr. change (len (_ ++ _)) with 60 in Hr.
  repeat match goal with H : holds _ _ (_ ++ _) |- _ => apply holds_app in H as [? H] end.
  change (len (Write8 _)) with 8 in *. change (len (Write4 _)) with 4 in *.
  repeat rewrite <- Z.add_assoc in *.
  repeat match goal with
    | H : holds _ (pos + (?a + ?b)) _ |- _ =>
        let k := eval vm_compute in (a + b) in change (a + b) with k in H end.
  unfold deflate_chunk. rewrite (s32_small (pos + 60)) by (unfold INT_MIN, INT_MAX; lia).
  rewrite (proj2 (Z.ltb_ge (vsize patch) (pos + 60))) by lia.
  repeat match goal with
    | H : holds _ ?p (Write8 _) |- context [Read8 _ ?p] => rewrite (holds_Read8 _ _ _ Hbytes H); clear H
    | H : holds _ ?p (Write4 _) |- context [Read4 _ ?p] => rewrite (holds_Read4 _ _ _ Hbytes H); clear H
    end. cbn [mbind outcome_bind].
  rewrite (s32_small (c_level c)), (s32_small (c_method c)), (s32_small (c_windowBits c)),
    (s32_small (c_memLevel c)), (s32_small (c_strategy c)) by apply Hc.
  destruct (word_small _ (ck_start c Hc)) as [-> _]. destruct (word_small _ (ck_len c Hc)) as [-> _].
  destruct (word_small _ (ck_exp c Hc)) as [-> _]. destruct (word_small _ Hoff) as [_ ->].
  assert ((match bonus_data with
           | Some b => if i =? 1 then (u32 (vsize b), vdata b) else (0, [])
           | None => (0, []) end) = (len (bonus_of i), bonus_of i)) as ->.
  { unfold bonus_of. destruct bonus_data as [b|]; [|done]. destruct (i =? 1); [|done].
    destruct (Hbonus b eq_refl) as [-> ?]. rewrite u32_small; [done|]. pose proof (len_nonneg (vdata b)). lia. }
  rewrite (expand_source_ok i c inp expanded junk Hc Hin Hi Hinf Hlen Hm Hj). cbn [mbind outcome_bind].
  pose proof (ck_exp c Hc) as Hexp.
  rewrite !(s32_small (source_uncompressed_len c)) by (unfold INT_MIN, INT_MAX; lia).
  rewrite Happ. cbn [mbind outcome_bind]. rewrite Z.eqb_refl. cbn [negb].
  set (temp_size := if source_uncompressed_len c <? 32768 then 32768 else source_uncompressed_len c).
  assert (0 < temp_size) as Htemp.
  { subst temp_size. destruct (Z.ltb_spec (source_uncompressed_len c) 32768); lia. }
  destruct (deflate_loop_ok temp_size Htemp fuel _ out token ctx Hz Hf) as (t' & c' & E & Hem).
  destruct (if source_uncompressed_len c <? 32768 then malloc 32768 else _) as [tmp|] eqn:Etmp.
  - rewrite E. cbn [mbind outcome_bind]. by exists t', c'.
  - exfalso. destruct Hm2 as [x Hx]. rewrite Hx in Etmp. by destruct (_ <? _).
Qed.

(** The chunks from number [i] on, their patches from [offset] on. *)
Inductive chunks_yield : Z -> Z -> list TgtChunk -> bytes -> Prop :=
| cy_nil i offset : chunks_yield i offset [] []
| cy_cons i offset c cs out outs :
    chunk_ok c -> small offset -> chunk_yields i c offset out ->
    chunks_yield (i + 1) (offset + len (chunk_tail c)) cs outs ->
    chunks_yield i offset (c :: cs) (out ++ outs).

Lemma chunk_type i c offset out : chunk_yields i c offset out ->
  c_type c = CHUNK_RAW \/ c_type c = CHUNK_NORMAL \/ c_type c = CHUNK_DEFLATE.
Proof. destruct 1; auto. Qed.

Lemma one_chunk_ok i c offset out pos token ctx : chunk_ok c -> small offset ->
  chunk_yields i c offset out -> holds (vdata patch) pos (chunk_fields c offset) ->
  exists token' ctx', one_chunk sink SHA malloc fuel (s32 (c_type c)) i od patch bonus_data pos token ctx
    = Ret (inl (pos + len (chunk_fields c offset)), token', ctx') /\ emitted token token' ctx ctx' out.
Proof.
  intros Hc Hoff Hcy Hh. unfold chunk_fields, one_chunk in *.
  destruct (chunk_type _ _ _ _ Hcy) as [Ht|[Ht|Ht]]; rewrite Ht in Hh |- *;
    [change (s32 CHUNK_RAW) with 3|change (s32 CHUNK_NORMAL) with 0|change (s32 CHUNK_DEFLATE) with 2];
    cbn [CHUNK_RAW CHUNK_NORMAL CHUNK_DEFLATE Z.eqb Pos.eqb] in *.
  - destruct (raw_chunk_ok i c offset out pos token ctx Hc Ht Hcy Hh) as (t1 & c1 & E & Hem).
    exists t1, c1. split; [|done]. rewrite len_app. change (len (Write4 _)) with 4.
    by rewrite Z.add_assoc.
  - exact (normal_chunk_ok i c offset out pos token ctx Hc Hoff Ht Hcy Hh).
  - exact (deflate_chunk_ok i c offset out pos token ctx Hc Hoff Ht Hcy Hh).
Qed.

Lemma chunk_loop_ok cs : forall i offset outs pos token ctx,
  chunks_yield i offset cs outs -> holds (vdata patch) pos (chunk_headers cs offset) ->
  exists token' ctx', chunk_loop sink SHA malloc fuel (length cs) i od patch bonus_data pos token ctx
    = Ret (0, token', ctx') /\ emitted token token' ctx ctx' outs.
Proof.
  induction cs as [|c cs IH]; intros i offset outs pos token ctx Hy Hh;
    inversion Hy as [|? ? ? ? out outs' Hc Hoff Hcy Hys]; subst.
  { exists token, ctx. split; [done|]. split; [by rewrite app_nil_r|]. by exists []. }
  cbn [chunk_headers] in Hh. unfold chunk_header in Hh. rewrite <- app_assoc in Hh.
  pose proof (holds_range _ _ _ Hh) as Hr. apply holds_app in Hh as [H1 Hh].
  rewrite len_app in Hr. change (len (Write4 _)) with 4 in *.
  match type of Hr with context [len (?a ++ ?b)] => pose proof (len_nonneg (a ++ b)) end.
  cbn [length chunk_loop].
  rewrite (s32_small (pos + 4)) by (unfold INT_MIN, INT_MAX; lia).
  rewrite (proj2 (Z.ltb_ge (vsize patch) (pos + 4))) by lia.
  rewrite (holds_Read4 _ _ _ Hbytes H1). cbn [mbind outcome_bind].
  apply holds_app in Hh as [H2 Hh].
  destruct (one_chunk_ok i c offset out (pos + 4) token ctx Hc Hoff Hcy H2) as (token1 & ctx1 & -> & Hem).
  cbn [mbind outcome_bind].
  destruct (IH (i + 1) (offset + len (chunk_tail c)) outs' (pos + 4 + len (chunk_fields c offset))
    token1 ctx1 Hys) as (t2 & c2 & E2 & Hem2).
  { revert Hh. unfold chunk_tail.
    destruct (chunk_type _ _ _ _ Hcy) as [Ht|[Ht|Ht]]; rewrite Ht; cbn [Z.eqb Pos.eqb orb]; done. }
  exists t2, c2. split; [exact E2|]. by eapply emitted_trans.
Qed.
End apply.

(** ** The writer *)

Definition known_type (c : TgtChunk) : Prop :=
  c_type c = CHUNK_RAW \/ c_type c = CHUNK_NORMAL \/ c_type c = CHUNK_DEFLATE.

Lemma len_chunk_header c offset : len (chunk_header c offset) = header_size c.
Proof.
  unfold chunk_header, chunk_fields, header_size. rewrite len_app. change (len (Write4 _)) with 4.
  destruct (c_type c =? CHUNK_NORMAL); [done|]. destruct (c_type c =? CHUNK_DEFLATE); [done|].
  destruct (c_type c =? CHUNK_RAW); [|done]. rewrite len_app. by change (len (Write4 _)) with 4.
Qed.
Lemma len_chunk_headers cs offset :
  len (chunk_headers cs offset) = foldr (fun c n => header_size c + n) 0 cs.
Proof.
  revert offset; induction cs as [|c cs IH]; intros offset; [done|].
  cbn [chunk_headers foldr]. by rewrite len_app, len_chunk_header, IH.
Qed.
Lemma len_imgdiff_prefix cs offset :
  len (imgdiff_magic ++ Write4 (Z.of_nat (length cs)) ++ chunk_headers cs offset) = total_header_size cs.
Proof. rewrite !len_app, len_chunk_headers. unfold total_header_size. change (len (Write4 _)) with 4. change (len imgdiff_magic) with 8. lia. Qed.

Lemma bytes_ok_Write4 v : bytes_ok (Write4 v).
Proof. rewrite Write4_le. apply le_enc_ok. Qed.
Lemma bytes_ok_Write8 v : bytes_ok (Write8 v).
Proof. rewrite Write8_le. apply le_enc_ok. Qed.
Lemma chunk_headers_ok cs offset : Forall (fun c => bytes_ok (patch_data c)) cs ->
  bytes_ok (chunk_headers cs offset).
Proof.
  intros H. revert offset. induction H as [|c cs Hc _ IH]; intros offset; [constructor|].
  cbn [chunk_headers]. apply bytes_ok_app. split; [|apply IH]. unfold chunk_header, chunk_fields.
  apply bytes_ok_app. split; [apply bytes_ok_Write4|].
  destruct (_ =? _); [|destruct (_ =? _); [|destruct (_ =? _); [|constructor]]];
    rewrite !bytes_ok_app; auto 20 using bytes_ok_Write4, bytes_ok_Write8.
Qed.
Lemma write_imgdiff_ok cs : Forall (fun c => bytes_ok (patch_data c)) cs -> bytes_ok (write_imgdiff cs).
Proof.
  intros H. unfold write_imgdiff. rewrite !bytes_ok_app. split_and!.
  - unfold bytes_ok, imgdiff_magic. rewrite !Forall_cons_iff. repeat split; try lia. constructor.
  - apply bytes_ok_Write4.
  - by apply chunk_headers_ok.
  - induction H as [|c cs Hc _ IH]; [constructor|]. cbn. apply bytes_ok_app. split; [|done].
    unfold chunk_tail. destruct (_ =? _); [constructor|done].
Qed.

(** ** A stored "compression", for examples *)

#[export] Instance stored_zlib : ZlibOps := {
  z_stream := bytes;
  inflateInit2 := Z_OK;
  inflate_raw inp n := (if len inp <=? n then Z_STREAM_END else Z_OK, take (Z.to_nat n) inp);
  deflateInit2 d _ _ _ _ _ := d;
  deflate s n := (if len s <=? n then Z_STREAM_END else Z_OK, take (Z.to_nat n) s, drop (Z.to_nat n) s) }.

#[export] Instance stored_zlib_laws : ZlibLaws stored_zlib.
Proof.
  refine {| z_denotes := fun (s : @z_stream stored_zlib) d => s = d; z_inflate_bounded := _; z_step := _ |}.
  - intros inp n ret out Hn [= _ <-]. unfold len. rewrite length_take. lia.
  - intros s d n -> Hn. do 4 eexists. split; [reflexivity|]. split; [symmetry; apply take_drop|].
    split; [unfold len; rewrite length_take; lia|]. destruct (Z.leb_spec (len d) n) as [Hl|Hl].
    + left. split; [done|]. apply drop_ge. unfold len in Hl. lia.
    + right. split; [done|]. split; [|done]. intros E. destruct d as [|x d]; [unfold len in Hl; cbn in Hl; lia|].
      destruct (Z.to_nat n) eqn:En; [lia|done].
Defined.

(** A raw chunk, a normal chunk that patches bytes 1 to 6 of the source and a deflate
    chunk that patches its last six bytes with two bytes of bonus data. *)
Definition demo_normal : TgtChunk := mkChunk CHUNK_NORMAL 1 6 0 7 0 0 0 0 0 (vdata demo_patch).
Definition demo_chunks : list TgtChunk :=
  [ mkChunk CHUNK_RAW 0 0 0 0 0 0 0 0 0 [11; 12];
    mkChunk CHUNK_DEFLATE 7 4 6 7 9 8 (-15) 8 0 (vdata demo_patch);
    demo_normal ].
Definition demo_img_old : OldData := mkOld [0; 1; 2; 3; 4; 5; 6; 1; 2; 3; 4] 0 11.
Definition demo_bonus : option Value := Some (blob [5; 6]).
Definition mem_sink (d t : bytes) : Z * bytes := (len d, t ++ d).

Example demo_img_run :
  ApplyImagePatch mem_sink plain_hash malloc_ok 60 demo_img_old (blob (write_imgdiff demo_chunks)) [] [] demo_bonus
  = Ret (0, [11; 12; 2; 3; 4; 9; 9; 5; 6; 2; 3; 4; 9; 9; 5; 6],
            [11; 12; 2; 3; 4; 9; 9; 5; 6; 2; 3; 4; 9; 9; 5; 6]).
Proof. vm_compute. reflexivity. Qed.

(** ** Properties *)

(** Claim C12.  An image patch is applied chunk by chunk: for every container that
    [imgdiff] writes and whose chunks can be applied (raw data; a bsdiff patch of a
    window of the source; a bsdiff patch of the inflated window and the bonus data,
    compressed again), [ApplyImagePatch] returns 0, hands the outputs of the chunks to
    the sink in order and without gaps, and updates the hash with the same bytes. *)
Theorem image_patch_applies_chunks {Token} (sink : bytes -> Token -> Z * Token)
    `{bz : BzOps} `{zl : ZlibOps} `{!ZlibLaws zl} (SHA : HashOps) malloc fuel
    (contents : Token -> bytes) od bonus_data cs outs token ctx
    (Hsink : forall d t, exists t', sink d t = (len d, t') /\ contents t' = contents t ++ d)
    (Hbonus : forall b, bonus_data = Some b -> vsize b = len (vdata b) /\ len (vdata b) < 2 ^ 31)
    (Hdata : Forall (fun c => bytes_ok (patch_data c)) cs)
    (Hmax : len (write_imgdiff cs) < 2 ^ 31) (Hcount : Z.of_nat (length cs) < 2 ^ 31)
    (Hy : chunks_yield malloc fuel od (blob (write_imgdiff cs)) bonus_data 0 (total_header_size cs) cs outs) :
  exists token' ctx',
    ApplyImagePatch sink SHA malloc fuel od (blob (write_imgdiff cs)) token ctx bonus_data
      = Ret (0, token', ctx') /\ emitted SHA contents token token' ctx ctx' outs.
Proof.
  pose proof (write_imgdiff_ok cs Hdata) as Hok.
  assert (12 <= len (write_imgdiff cs)) as H12.
  { unfold write_imgdiff. rewrite !len_app. change (len imgdiff_magic) with 8.
    change (len (Write4 _)) with 4. pose proof (len_nonneg (chunk_headers cs (total_header_size cs))).
    pose proof (len_nonneg (concat (chunk_tail <$> cs))). lia. }
  assert (holds (write_imgdiff cs) 0 (imgdiff_magic ++ Write4 (Z.of_nat (length cs)) ++
    chunk_headers cs (total_header_size cs))) as Hh.
  { exists [], (concat (chunk_tail <$> cs)). split; [|done]. unfold write_imgdiff. by rewrite <- !app_assoc. }
  apply holds_app in Hh as [H1 Hh]. apply holds_app in Hh as [H2 H3].
  unfold ApplyImagePatch. cbn [blob vsize vdata]. rewrite (proj2 (Z.ltb_ge _ 12)) by lia.
  rewrite (holds_rd _ 0 imgdiff_magic 8 eq_refl H1). cbn [mbind outcome_bind].
  rewrite bool_decide_true by done. cbn [negb].
  rewrite (holds_Read4 _ 8 _ Hok H2). cbn [mbind outcome_bind].
  rewrite s32_small by (unfold INT_MIN, INT_MAX; lia). rewrite Nat2Z.id.
  by apply (chunk_loop_ok sink SHA malloc fuel contents Hsink od (blob (write_imgdiff cs)) bonus_data
    Hok eq_refl Hmax Hbonus cs 0 (total_header_size cs)).
Qed.
Lemma image_patch_applies_chunks_witness :
  exists token' ctx',
    ApplyImagePatch mem_sink plain_hash malloc_ok 60 demo_img_old (blob (write_imgdiff demo_chunks)) [] []
      demo_bonus = Ret (0, token', ctx') /\
    emitted plain_hash (fun t => t) [] token' [] ctx' [11; 12; 2; 3; 4; 9; 9; 5; 6; 2; 3; 4; 9; 9; 5; 6].
Proof.
  apply (image_patch_applies_chunks mem_sink plain_hash malloc_ok 60 (fun t => t) demo_img_old demo_bonus
    demo_chunks [11; 12; 2; 3; 4; 9; 9; 5; 6; 2; 3; 4; 9; 9; 5; 6] [] []).
  - intros d t. by exists (t ++ d).
  - by intros b [= <-].
  - repeat constructor; try lia; by vm_compute.
  - by vm_compute.
  - by vm_compute.
  - change [11; 12; 2; 3; 4; 9; 9; 5; 6; 2; 3; 4; 9; 9; 5; 6] with
      ([11; 12] ++ [2; 3; 4; 9; 9; 5; 6] ++ [2; 3; 4; 9; 9; 5; 6] ++ []).
    constructor; [split; by vm_compute|by vm_compute|by apply yields_raw|].
    constructor; [split; by vm_compute|by vm_compute| |].
    { apply (yields_deflate _ _ _ _ _ _ _ _ [1; 2; 3; 4] [1; 2; 3; 4] (replicate 6 170) [2; 3; 4; 9; 9; 5; 6]);
        try (by vm_compute); [by eexists|vm_compute; lia]. }
    constructor; [split; by vm_compute|by vm_compute|by apply yields_normal; vm_compute|constructor].
Defined.

(** The offset under which the writer records the patch of the chunk after [pre]. *)
Fixpoint tails_len (pre : list TgtChunk) : Z :=
  match pre with [] => 0 | c :: pre => len (chunk_tail c) + tails_len pre end.
Lemma len_tails pre : len (concat (chunk_tail <$> pre)) = tails_len pre.
Proof. induction pre as [|c pre IH]; [done|]. cbn. by rewrite len_app, IH. Qed.
Lemma chunk_headers_app pre c post offset : Forall known_type pre ->
  chunk_headers (pre ++ c :: post) offset =
  chunk_headers pre offset ++ chunk_headers (c :: post) (offset + tails_len pre).
Proof.
  intros H. revert offset. induction H as [|d pre Hd _ IH]; intros offset.
  - cbn [app chunk_headers tails_len]. by rewrite Z.add_0_r.
  - cbn [app tails_len]. change (chunk_headers (d :: pre ++ c :: post) offset) with
      (chunk_header d offset ++ chunk_headers (pre ++ c :: post) (offset +
        if (c_type d =? CHUNK_NORMAL) || (c_type d =? CHUNK_DEFLATE) then len (patch_data d) else 0)).
    assert ((if (c_type d =? CHUNK_NORMAL) || (c_type d =? CHUNK_DEFLATE) then len (patch_data d) else 0)
      = len (chunk_tail d)) as E.
    { unfold chunk_tail. destruct Hd as [->|[->| ->]]; done. }
    rewrite E, IH, app_assoc, Z.add_assoc. cbn [chunk_headers]. by rewrite E.
Qed.

(** Claim C22.  The offsets in the container are right: the patch of every chunk that is
    not raw stands exactly at the offset that the chunk's header records. *)
Theorem imgdiff_offsets_locate_patches pre c post
    (Hpre : Forall known_type pre) (Hc : c_type c = CHUNK_NORMAL \/ c_type c = CHUNK_DEFLATE) :
  let file := write_imgdiff (pre ++ c :: post) in
  exists offset pos, holds file pos (chunk_header c offset) /\ holds file offset (patch_data c).
Proof.
  intros file. set (cs := pre ++ c :: post) in *. exists (total_header_size cs + tails_len pre).
  exists (12 + len (chunk_headers pre (total_header_size cs))). split.
  - exists (imgdiff_magic ++ Write4 (Z.of_nat (length cs)) ++ chunk_headers pre (total_header_size cs)).
    eexists. split; [|by rewrite !len_app, Z.add_assoc].
    subst file. unfold write_imgdiff. fold cs. subst cs. rewrite chunk_headers_app by done.
    cbn [chunk_headers]. rewrite <- !app_assoc. reflexivity.
  - exists ((imgdiff_magic ++ Write4 (Z.of_nat (length cs)) ++ chunk_headers cs (total_header_size cs)) ++
      concat (chunk_tail <$> pre)), (concat (chunk_tail <$> post)).
    split; [|by rewrite len_app, len_imgdiff_prefix, len_tails].
    subst file. unfold write_imgdiff. rewrite <- !app_assoc. do 3 f_equal. subst cs.
    rewrite fmap_app, concat_app. f_equal. cbn. f_equal. unfold chunk_tail. by destruct Hc as [->| ->].
Qed.
Lemma imgdiff_offsets_locate_patches_witness :
  exists offset pos,
    holds (write_imgdiff demo_chunks) pos (chunk_header demo_normal offset) /\
    holds (write_imgdiff demo_chunks) offset (patch_data demo_normal).
Proof.
  apply (imgdiff_offsets_locate_patches (take 2 demo_chunks) demo_normal []).
  - constructor; [by left|]. constructor; [by right; right|constructor].
  - by left.
Defined.


(** Claim C37.  The compression loop has no exit on an error: when [deflate] keeps
    failing without output (as on a stream whose [deflateInit2] failed, whose result is
    not checked), no number of rounds is enough. *)
Theorem deflate_error_never_ends {Token} (sink : bytes -> Token -> Z * Token) `{zl : ZlibOps}
    (SHA : HashOps) temp_size strm err token ctx n
    (Herr : deflate strm temp_size = (err, [], strm)) (Hne : err <> Z_STREAM_END)
    (Hsink : forall t, exists t', sink [] t = (0, t')) :
  deflate_loop sink SHA n temp_size strm token ctx = Diverge.
Proof.
  revert token ctx. induction n as [|n IH]; intros token ctx; [done|]. cbn [deflate_loop].
  rewrite Herr. destruct (Hsink token) as (t' & ->). cbn [negb Z.eqb len length].
  rewrite (proj2 (Z.eqb_neq _ _) Hne). apply IH.
Qed.
(** A zlib in which every [deflate] is a stream error. *)
Definition failing_zlib : ZlibOps :=
  {| z_stream := unit; inflateInit2 := Z_OK; inflate_raw _ _ := (-2, []);
     deflateInit2 _ _ _ _ _ _ := tt; deflate _ _ := (-2, [], tt) |}.
Lemma deflate_error_never_ends_witness :
  deflate_loop (zl:=failing_zlib) mem_sink plain_hash 1000 32768 tt [] [] = Diverge.
Proof.
  apply (deflate_error_never_ends mem_sink (zl:=failing_zlib) plain_hash 32768 tt (-2) [] [] 1000).
  - done.
  - done.
  - intros t. by exists (t ++ []).
Defined.
