(* ===== verification/ZipExtract.v ===== *)
(** [minzip/Zip.c], second part: streaming the contents of an entry, its CRC, reading it
    into memory or a file, and extracting a directory of an archive. *)
From S2P Require Import Prelude Endian CString Hash Zip ImgPatch.

(** ** zlib *)

Definition Z_BUF_ERROR : Z := -5.
(** [inflateInit2(&zstream, -MAX_WBITS)]; [inflate s in n] with the input bytes [in] and
    [avail_out = n]: the return value, how many input bytes were consumed, the bytes
    written, the stream; [crc32(crc, data, len)]. *)
Class InflateOps := {
  i_stream : Type;
  inflateInit : Z * i_stream;
  inflate : i_stream -> bytes -> Z -> Z * Z * bytes * i_stream;
  zcrc32 : Z -> bytes -> Z }.

(** [i_denotes s i d]: from the input [i], [s] still produces [d] and then ends.
    A call makes progress as long as there is input, or no more input is to come. *)
Class InflateLaws (zl : InflateOps) := {
  i_denotes : i_stream -> bytes -> bytes -> Prop;
  i_bounded s i n ret k out s' : 0 <= n -> inflate s i n = (ret, k, out, s') -> 0 <= k <= len i /\ len out <= n;
  i_step s now later d n : i_denotes s (now ++ later) d -> 0 < n -> now <> [] \/ later = [] ->
    exists ret k out d' s', inflate s now n = (ret, k, out, s') /\ d = out ++ d' /\
      (ret = Z_STREAM_END /\ d' = [] /\ drop (Z.to_nat k) now ++ later = [] \/
       ret = Z_OK /\ (0 < k \/ out <> []) /\ i_denotes s' (drop (Z.to_nat k) now ++ later) d');
  crc_nil c : zcrc32 c [] = c;
  crc_app c a b : zcrc32 c (a ++ b) = zcrc32 (zcrc32 c a) b }.

(** [sizeof(readBuf)], [sizeof(procBuf)] *)
Definition BUF : Z := 32 * 1024.

Section process.
Context `{InflateOps}.
(** The bytes of the archive file, and whether a [read] of [n] bytes at a position meets
    no error. *)
Context (archive : bytes) (read_ok : Z -> Z -> bool) (fuel : nat).
Context {Cookie : Type} (processFunction : bytes -> Cookie -> outcome (bool * Cookie)).

(** [read(pArchive->fd, buf, count)] at [pos]; [None] if it is not [count] bytes. *)
Definition read_fd (pos count : Z) : option bytes :=
  let b := slice archive pos count in
  if read_ok pos count && (len b =? count) then Some b else None.

(** [bool processStoredEntry(pArchive, pEntry, processFunction, cookie)] with [bytesLeft]
    bytes to go from [pos]. *)
Fixpoint processStoredEntry (n : nat) (pos bytesLeft : Z) (cookie : Cookie) : outcome (bool * Cookie) :=
  if 0 <? bytesLeft then
    match n with
    | O => Diverge
    | S n =>
        let count := if BUF <? bytesLeft then BUF else bytesLeft in
        match read_fd pos count with
        | None => Ret (false, cookie)
        | Some buf =>
            '(ret, cookie) ← processFunction buf cookie;
            if negb ret then Ret (false, cookie)
            else processStoredEntry n (pos + count) (bytesLeft - count) cookie
        end
    end
  else Ret (true, cookie).

(** The loop of lines 600-642 with the unread input [inp], the output [procBuf] that has
    not been processed and [total] bytes of output so far: the value of [result].  A
    negative [getSize] makes [read] write over [readBuf]. *)
Fixpoint inflate_loop (n : nat) (zstream : i_stream) (inp : bytes) (pos compRemaining : Z) (procBuf : bytes)
    (total : Z) (cookie : Cookie) : outcome (Z * Cookie) :=
  match n with
  | O => Diverge
  | S n =>
      let getSize := if BUF <? compRemaining then BUF else compRemaining in
      let empty := match inp with [] => true | _ => false end in
      if empty && (getSize <? 0) then Fault else
      match (if empty then read_fd pos getSize else Some inp) with
      | None => Ret (-1, cookie)
      | Some inp =>
          let '(pos, compRemaining) := if empty then (pos + getSize, compRemaining - getSize)
                                       else (pos, compRemaining) in
          let '(zerr, used, out, zstream) := inflate zstream inp (BUF - len procBuf) in
          if negb (zerr =? Z_OK) && negb (zerr =? Z_STREAM_END) then Ret (-1, cookie) else
          let procBuf := procBuf ++ out in
          let total := total + len out in
          '(ret, cookie, procBuf) ←
            (if (len procBuf =? BUF) || ((zerr =? Z_STREAM_END) && negb (len procBuf =? 0)) then
               '(ret, cookie) ← processFunction procBuf cookie; Ret (ret, cookie, [])
             else Ret (true, cookie, procBuf));
          if negb ret then Ret (-1, cookie) else
          if zerr =? Z_OK then
            inflate_loop n zstream (drop (Z.to_nat used) inp) pos compRemaining procBuf total cookie
          else Ret (s32 total, cookie)
      end
  end.

(** [bool processDeflatedEntry(pArchive, pEntry, processFunction, cookie)] *)
Definition processDeflatedEntry (pEntry : ZipEntry) (cookie : Cookie) : outcome (bool * Cookie) :=
  '(result, cookie) ←
    (if negb (fst inflateInit =? Z_OK) then Ret (-1, cookie)
     else inflate_loop fuel (snd inflateInit) [] (offset pEntry) (compLen pEntry) [] 0 cookie);
  Ret (result =? uncompLen pEntry, cookie).

(** [bool mzProcessZipEntryContents(pArchive, pEntry, processFunction, cookie)]; [oldOff]
    is the position of the descriptor, which is the third component of the result. *)
Definition mzProcessZipEntryContents (pEntry : ZipEntry) (oldOff : Z) (cookie : Cookie)
    : outcome (bool * Cookie * Z) :=
  '(ret, cookie) ←
    (if compression pEntry =? STORED then
       processStoredEntry fuel (offset pEntry) (u32 (compLen pEntry)) cookie
     else if compression pEntry =? DEFLATED then processDeflatedEntry pEntry cookie
     else Ret (false, cookie));
  Ret (ret, cookie, oldOff).
End process.

(** ** The users of the stream *)

Section users.
Context `{InflateOps} (archive : bytes) (read_ok : Z -> Z -> bool) (fuel : nat).

Definition crcProcessFunction (data : bytes) (crc : Z) : outcome (bool * Z) := Ret (true, zcrc32 crc data).

(** [bool mzIsZipEntryIntact(pArchive, pEntry)] *)
Definition mzIsZipEntryIntact (pEntry : ZipEntry) : outcome bool :=
  '(ret, crc, _) ← mzProcessZipEntryContents archive read_ok fuel crcProcessFunction pEntry 0 0;
  if negb ret then Ret false else Ret (crc =? u32 (crc32 pEntry)).

(** [CopyProcessArgs]: the object, the offset [buf] points to, and [bufLen]. *)
Record CopyProcessArgs := mkCopy { cp_object : bytes; cp_buf : Z; cp_bufLen : Z }.
Definition copyProcessFunction (data : bytes) (args : CopyProcessArgs) : outcome (bool * CopyProcessArgs) :=
  if len data <=? cp_bufLen args then
    o ← wr_bytes (cp_object args) (cp_buf args) data;
    Ret (true, mkCopy o (cp_buf args + len data) (cp_bufLen args - len data))
  else Ret (false, args).
(** [bool mzReadZipEntry(pArchive, pEntry, buf, bufLen)]: the value and the buffer. *)
Definition mzReadZipEntry (pEntry : ZipEntry) (buf : bytes) (bufLen : Z) : outcome (bool * bytes) :=
  '(ret, args, _) ← mzProcessZipEntryContents archive read_ok fuel copyProcessFunction pEntry 0 (mkCopy buf 0 bufLen);
  Ret (ret, cp_object args).

(** [BufferExtractCookie] *)
Record BufferExtractCookie := mkBec { bec_object : bytes; bec_buffer : Z; bec_len : Z }.
Definition bufferProcessFunction (data : bytes) (bec : BufferExtractCookie) : outcome (bool * BufferExtractCookie) :=
  o ← wr_bytes (bec_object bec) (bec_buffer bec) data;
  Ret (true, mkBec o (bec_buffer bec + len data) (bec_len bec - len data)).
(** [bool mzExtractZipEntryToBuffer(pArchive, pEntry, buffer)] *)
Definition mzExtractZipEntryToBuffer (pEntry : ZipEntry) (buffer : bytes) : outcome (bool * bytes) :=
  '(ret, bec, _) ← mzProcessZipEntryContents archive read_ok fuel bufferProcessFunction pEntry 0
                     (mkBec buffer 0 (uncompLen pEntry));
  Ret (ret && (bec_len bec =? 0), bec_object bec).

(** ** Extracting to the file system

    What is done to the file system, in order; each call takes the next answer of the
    environment (0, also when there are none left: success). *)
Inductive Event :=
| DirCreateHierarchy (path : bytes) (stripFileName : bool)
| SymLink (linkTarget path : bytes)
| Creat (path : bytes)
| Write (path data : bytes)
| UTime (path : bytes)
| Callback (path : bytes).
Record XWorld := mkX { trace : list Event; env : list Z }.
Definition next (w : XWorld) : Z * XWorld :=
  match env w with [] => (0, w) | a :: l => (a, mkX (trace w) l) end.
Definition log (e : Event) (w : XWorld) : XWorld := mkX (trace w ++ [e]) (env w).
Definition do_call (e : Event) (w : XWorld) : Z * XWorld := let '(a, w) := next w in (a, log e w).

(** [bool writeProcessFunction(data, dataLen, cookie)]: the answer to a [write] is the
    number of bytes (0 for all), -1 for EINTR, less for another error. *)
Fixpoint write_all (n : nat) (path data : bytes) (soFar : Z) (w : XWorld) : outcome (bool * XWorld) :=
  match n with
  | O => Diverge
  | S n =>
      let '(a, w) := next w in
      let rest := slice data soFar (len data - soFar) in
      let k := if a <? 0 then a else if a =? 0 then len rest else Z.min a (len rest) in
      if k <=? 0 then if k =? -1 then write_all n path data soFar w else Ret (false, w)
      else let w := log (Write path (take (Z.to_nat k) rest)) w in
           if soFar + k =? len data then Ret (true, w)
           else if len data <? soFar + k then Ret (false, w)
           else write_all n path data (soFar + k) w
  end.
Definition writeProcessFunction (path data : bytes) (w : XWorld) : outcome (bool * XWorld) :=
  write_all fuel path data 0 w.
(** [bool mzExtractZipEntryToFile(pArchive, pEntry, fd)] on the file [path]. *)
Definition mzExtractZipEntryToFile (pEntry : ZipEntry) (path : bytes) (w : XWorld) : outcome (bool * XWorld) :=
  '(ret, w, _) ← mzProcessZipEntryContents archive read_ok fuel (writeProcessFunction path) pEntry 0 w;
  Ret (ret, w).
End users.

(** ** Target paths *)

(** [MzPathHelper]; [h_buf = None] is NULL. *)
Record MzPathHelper := mkHelper {
  h_targetDir : bytes; h_zipDir : bytes; h_buf : option bytes;
  h_targetDirLen : Z; h_zipDirLen : Z; h_bufLen : Z }.

Section extract.
Context `{InflateOps} (archive : bytes) (read_ok : Z -> Z -> bool) (fuel : nat).
(** [alloc_ok n]: [n] bytes can be allocated; their contents are [junk]. *)
Context (alloc_ok : Z -> bool) (junk : Z).

(** [realloc(buf, n)] *)
Definition realloc (buf : option bytes) (n : Z) : option bytes :=
  if alloc_ok n then
    let old := take (Z.to_nat n) (default [] buf) in Some (old ++ replicate (Z.to_nat n - length old)%nat junk)
  else None.

(** [const char *targetEntryPath(MzPathHelper *helper, ZipEntry *pEntry)]: the path,
    [None] for NULL, and the helper. *)
Definition targetEntryPath (helper : MzPathHelper) (pEntry : ZipEntry) : outcome (option bytes * MzPathHelper) :=
  let firstTime := match h_buf helper with None => true | Some _ => false end in
  let needLen := h_targetDirLen helper + 1 + fileNameLen pEntry - h_zipDirLen helper + 1 in
  room ← (if h_bufLen helper <? needLen then
            Ret (match realloc (h_buf helper) (needLen * 2) with
                 | None => None
                 | Some b => Some (b, needLen * 2)
                 end)
          else match h_buf helper with Some b => Ret (Some (b, h_bufLen helper)) | None => Fault end);
  match room with
  | None => Ret (None, helper)
  | Some (buf, bufLen) =>
      '(buf, targetDirLen) ←
        (if firstTime then
           buf ← wr_bytes buf 0 (take (Z.to_nat (h_targetDirLen helper)) (h_targetDir helper));
           let p := h_targetDirLen helper in
           slash ← (if p =? 0 then Ret true else c ← rd buf (p - 1); Ret (negb (c =? 47)));
           if slash : bool then buf ← wr_bytes buf p [47]; Ret (buf, p + 1) else Ret (buf, p)
         else Ret (buf, h_targetDirLen helper));
      let part := drop (Z.to_nat (h_zipDirLen helper)) (fileName pEntry) in
      buf ← wr_bytes buf targetDirLen part;
      buf ← wr_bytes buf (targetDirLen + len part) [0];
      Ret (Some (c_str buf), mkHelper (h_targetDir helper) (h_zipDir helper) (Some buf) targetDirLen
                               (h_zipDirLen helper) bufLen)
  end.

(** ** [mzExtractRecursive] *)

Definition MZ_EXTRACT_FILES_ONLY : Z := 1.
Definition MZ_EXTRACT_DRY_RUN : Z := 2.
Definition flag (flags f : Z) : bool := negb (Z.land flags f =? 0).

Context (flags : Z) (timestamp callback : bool).

(** Lines 1080-1113, a symbolic link: [None] goes on, [Some b] leaves the loop with
    [ok = b]. *)
Definition extract_symlink (pEntry : ZipEntry) (targetFile : bytes) (w : XWorld) : outcome (option bool * XWorld) :=
  if uncompLen pEntry =? 0 then Ret (Some false, w) else
  match realloc None (u32 (uncompLen pEntry + 1)) with
  | None => Ret (Some false, w)
  | Some linkTarget =>
      '(ok, linkTarget) ← mzReadZipEntry archive read_ok fuel pEntry linkTarget (uncompLen pEntry);
      if negb ok then Ret (Some false, w) else
      linkTarget ← wr_bytes linkTarget (uncompLen pEntry) [0];
      let '(ret, w) := do_call (SymLink (c_str linkTarget) targetFile) w in
      Ret (if negb (ret =? 0) then Some false else None, w)
  end.
(** Lines 1115-1156, a regular file.  The [ok] of line 1140 is a variable of the block:
    leaving the loop after it, the outer [ok] is still true. *)
Definition extract_file (pEntry : ZipEntry) (targetFile : bytes) (w : XWorld) : outcome (option bool * XWorld) :=
  let '(fd, w) := do_call (Creat targetFile) w in
  if negb (fd =? 0) then Ret (Some false, w) else
  '(ok, w) ← mzExtractZipEntryToFile archive read_ok fuel pEntry targetFile w;
  if negb ok then Ret (Some true, w) else
  if timestamp then
    let '(r, w) := do_call (UTime targetFile) w in
    Ret (if negb (r =? 0) then Some true else None, w)
  else Ret (None, w).

(** Lines 1036-1159 for one entry. *)
Definition extract_entry (pEntry : ZipEntry) (targetFile : bytes) (w : XWorld) : outcome (option bool * XWorld) :=
  let notify w := if callback then log (Callback targetFile) w else w in
  if flag flags MZ_EXTRACT_DRY_RUN then Ret (None, notify w) else
  c ← rd (fileName pEntry) (fileNameLen pEntry - 1);
  '(r, w) ←
    (if c =? 47 then
       if negb (flag flags MZ_EXTRACT_FILES_ONLY) then
         let '(ret, w) := do_call (DirCreateHierarchy targetFile false) w in
         Ret (if negb (ret =? 0) then Some false else None, w)
       else Ret (None, w)
     else
       let '(ret, w) := do_call (DirCreateHierarchy targetFile true) w in
       if negb (ret =? 0) then Ret (Some false, w) else
       if negb (flag flags MZ_EXTRACT_FILES_ONLY) && mzIsZipEntrySymlink pEntry
       then extract_symlink pEntry targetFile w
       else extract_file pEntry targetFile w);
  match r with
  | Some _ => Ret (r, w)
  | None => Ret (None, notify w)
  end.

(** The loop of lines 989-1160: the value of [ok]. *)
Fixpoint extract_loop (zpath : bytes) (es : list ZipEntry) (helper : MzPathHelper) (seenMatch : bool) (w : XWorld)
    : outcome (bool * XWorld) :=
  match es with
  | [] => Ret (true, w)
  | pEntry :: es =>
      if (fileNameLen pEntry <? len zpath) || negb (strncmp (length zpath) (fileName pEntry) zpath =? 0) then
        if seenMatch then Ret (true, w) else extract_loop zpath es helper seenMatch w
      else
        '(targetFile, helper) ← targetEntryPath helper pEntry;
        match targetFile with
        | None => Ret (false, w)
        | Some targetFile =>
            '(r, w) ← extract_entry pEntry targetFile w;
            match r with
            | Some ok => Ret (ok, w)
            | None => extract_loop zpath es helper true w
            end
        end
  end.

(** The canonical form of [zipDir] (lines 957-968). *)
Definition zip_path (zipDir : bytes) : bytes :=
  match zipDir with
  | [] => []
  | _ => if last zipDir 0 =? 47 then zipDir else zipDir ++ [47]
  end.

(** [bool mzExtractRecursive(pArchive, zipDir, targetDir, flags, timestamp, callback, cookie, NULL)] *)
Definition mzExtractRecursive (es : list ZipEntry) (zipDir targetDir : bytes) (w : XWorld) : outcome (bool * XWorld) :=
  if starts_with 47 zipDir then Ret (false, w) else
  if negb (starts_with 47 targetDir) then Ret (false, w) else
  if negb (alloc_ok (len zipDir + 2)) then Ret (false, w) else
  let zpath := zip_path zipDir in
  extract_loop zpath es (mkHelper targetDir zpath None (len targetDir) (len zpath) 0) false w.
End extract.

(** ** What a stream of pieces does *)

Section feed.
Context {Cookie : Type} (processFunction : bytes -> Cookie -> outcome (bool * Cookie)).
(** The pieces are processed in order until the function returns false. *)
Fixpoint feed (pieces : list bytes) (cookie : Cookie) : outcome (bool * Cookie) :=
  match pieces with
  | [] => Ret (true, cookie)
  | p :: pieces =>
      '(ret, cookie) ← processFunction p cookie;
      if negb ret then Ret (false, cookie) else feed pieces cookie
  end.
End feed.
Definition piece_ok (p : bytes) : Prop := p <> [] /\ len p <= BUF.

Section streams.
Context `{zl : InflateOps} `{!InflateLaws zl}.
Context (archive : bytes) (read_ok : Z -> Z -> bool) (Hread : forall p n, read_ok p n = true).
Context {Cookie : Type} (processFunction : bytes -> Cookie -> outcome (bool * Cookie)).

Lemma read_fd_ok pos n : 0 <= pos -> 0 <= n -> pos + n <= len archive ->
  read_fd archive read_ok pos n = Some (slice archive pos n).
Proof. intros. unfold read_fd. rewrite Hread, len_slice, Z.eqb_refl by lia. done. Qed.

Lemma stored_feeds n : forall pos left, 0 <= pos -> 0 <= left -> pos + left <= len archive -> left <= Z.of_nat n ->
  exists pieces, concat pieces = slice archive pos left /\ Forall piece_ok pieces /\
    forall cookie, processStoredEntry archive read_ok processFunction n pos left cookie =
      feed processFunction pieces cookie.
Proof.
  induction n as [|n IH]; intros pos left Hp Hl Hend Hn; cbn [processStoredEntry].
  { rewrite (proj2 (Z.ltb_ge 0 left)) by lia. exists []. assert (left = 0) as -> by lia. unfold slice. done. }
  destruct (Z.ltb_spec 0 left) as [Hlt|Hge].
  2: { exists []. assert (left = 0) as -> by lia. unfold slice. done. }
  set (count := if BUF <? left then BUF else left).
  assert (0 < count <= left /\ count <= BUF) as [Hc Hb]
    by (subst count; destruct (Z.ltb_spec BUF left); unfold BUF in *; lia).
  rewrite read_fd_ok by lia. destruct (IH (pos + count) (left - count)) as (pieces & Hcat & Hok & Hrun); [lia..|].
  exists (slice archive pos count :: pieces). split_and!.
  - cbn [concat]. rewrite Hcat. rewrite <- slice_split by lia. f_equal. lia.
  - constructor; [|done]. split; [|rewrite len_slice by lia; lia].
    intros E. pose proof (len_slice archive pos count ltac:(lia) ltac:(lia) ltac:(lia)) as L. rewrite E, len_nil in L. lia.
  - intros cookie. cbn [feed]. destruct (processFunction _ cookie) as [[[] c]| |]; cbn; [|done..]. apply Hrun.
Qed.

Lemma inflate_feeds n : forall s inp pos remaining procBuf total d,
  0 <= pos -> 0 <= remaining -> pos + remaining <= len archive -> len procBuf < BUF ->
  i_denotes s (inp ++ slice archive pos remaining) d -> len inp + remaining + len d < Z.of_nat n ->
  exists pieces, concat pieces = procBuf ++ d /\ Forall piece_ok pieces /\
    forall cookie, inflate_loop archive read_ok processFunction n s inp pos remaining procBuf total cookie =
      ('(b, cookie) ← feed processFunction pieces cookie; Ret (if b : bool then s32 (total + len d) else -1, cookie)).
Proof.
  induction n as [|n IH]; intros s inp pos remaining procBuf total d Hp Hr Hend Hbuf Hden Hn.
  { pose proof (len_nonneg inp). pose proof (len_nonneg d). lia. }
  cbn [inflate_loop]. set (getSize := if BUF <? remaining then BUF else remaining).
  set (empty := match inp with [] => true | _ => false end).
  assert (0 <= getSize <= remaining /\ (0 < remaining -> 0 < getSize)) as [Hg Hg0]
    by (subst getSize; destruct (Z.ltb_spec BUF remaining); unfold BUF in *; lia).
  rewrite (proj2 (Z.ltb_ge getSize 0)), andb_false_r by lia.
  (* the input of the call, and what stays in the file *)
  assert (exists now pos' rem', (if empty then read_fd archive read_ok pos getSize else Some inp) = Some now /\
    (if empty then (pos + getSize, remaining - getSize) else (pos, remaining)) = (pos', rem') /\
    0 <= pos' /\ 0 <= rem' /\ pos' + rem' <= len archive /\
    now ++ slice archive pos' rem' = inp ++ slice archive pos remaining /\
    (now <> [] \/ slice archive pos' rem' = [])) as (now & pos' & rem' & -> & -> & Hp' & Hr' & He' & Hsame & Hprog).
  { subst empty. destruct inp as [|b inp]; [|exists (b :: inp), pos, remaining; split_and!; try done; by left].
    exists (slice archive pos getSize), (pos + getSize), (remaining - getSize). rewrite read_fd_ok by lia.
    assert (slice archive pos getSize ++ slice archive (pos + getSize) (remaining - getSize) =
      slice archive pos remaining) as Hs by (rewrite <- slice_split by lia; f_equal; lia).
    split_and!; try done; try lia. destruct (decide (remaining = 0)) as [->|].
    - right. assert (getSize = 0) as -> by lia. unfold slice. done.
    - left. intros E. pose proof (len_slice archive pos getSize ltac:(lia) ltac:(lia) ltac:(lia)) as L.
      rewrite E, len_nil in L. lia. }
  rewrite <- Hsame in Hden.
  assert (len now + rem' = len inp + remaining) as Hlen.
  { apply (f_equal len) in Hsame. rewrite !len_app, !len_slice in Hsame by lia. lia. }
  clearbody empty getSize. clear Hg Hg0 Hsame.
  destruct (i_step s now _ d (BUF - len procBuf) Hden ltac:(lia) Hprog) as (ret & k & out & d' & s' & Hinf & -> & Hcase).
  pose proof (i_bounded s now (BUF - len procBuf) ret k out s' ltac:(lia) Hinf) as [Hk Ho]. rewrite Hinf.
  rewrite len_app in Hn. pose proof (len_nonneg procBuf) as Hnn. pose proof (len_nonneg d') as Hnn'.
  assert (len (procBuf ++ out) = len procBuf + len out) as Hlo by apply len_app.
  destruct Hcase as [(-> & -> & _)|(-> & Hpr & Hden')].
  - (* the stream ends *)
    cbn [Z_STREAM_END Z_OK Z.eqb Pos.eqb negb andb]. rewrite !app_nil_r.
    destruct (Z.eqb_spec (len (procBuf ++ out)) 0) as [E0|E0].
    + rewrite E0. exists []. apply len_0_nil in E0. rewrite E0.
      split_and!; [done|constructor|]. intros cookie. unfold BUF. done.
    + rewrite orb_true_r. exists [procBuf ++ out]. split_and!; [cbn; by rewrite app_nil_r| |].
      * repeat constructor; [|lia]. intros E. by rewrite E in E0.
      * intros cookie. cbn [feed]. destruct (processFunction _ cookie) as [[[] c]| |]; done.
  - (* it goes on *)
    cbn [Z_STREAM_END Z_OK Z.eqb Pos.eqb negb andb]. rewrite orb_false_r.
    assert (len (drop (Z.to_nat k) now) = len now - k) as Hld by (rewrite len_drop; lia).
    assert (len (drop (Z.to_nat k) now) + rem' + len d' < Z.of_nat n) as Hn'.
    { rewrite Hld. assert (0 < k \/ 0 < len out) by (destruct Hpr; [by left|right; destruct out; [done|rewrite len_cons; pose proof (len_nonneg out); lia]]).
      pose proof (len_nonneg out). lia. }
    destruct (Z.eqb_spec (len (procBuf ++ out)) BUF) as [Ef|Ef].
    + destruct (IH s' (drop (Z.to_nat k) now) pos' rem' [] (total + len out) d')
        as (pieces & Hcat & Hok & Hrun); try done.
      exists ((procBuf ++ out) :: pieces). split_and!.
      * cbn [concat]. rewrite Hcat. by rewrite <- !app_assoc.
      * constructor; [|done]. split; [|lia]. intros E. rewrite E, len_nil in Ef. done.
      * intros cookie. cbn [feed]. destruct (processFunction _ cookie) as [[[] c]| |]; cbn [mbind outcome_bind negb]; [|done..].
        rewrite Hrun. rewrite len_app. by rewrite Z.add_assoc.
    + destruct (IH s' (drop (Z.to_nat k) now) pos' rem' (procBuf ++ out) (total + len out) d')
        as (pieces & Hcat & Hok & Hrun); try done; [lia|].
      exists pieces. rewrite Hcat, <- app_assoc. split_and!; [done|done|]. intros cookie.
      cbn [mbind outcome_bind negb]. rewrite Hrun, len_app. by rewrite Z.add_assoc.
Qed.
End streams.

(** ** The pieces in memory *)

Lemma feed_crc `{zl : InflateOps} `{!InflateLaws zl} pieces : forall c, feed crcProcessFunction pieces c = Ret (true, zcrc32 c (concat pieces)).
Proof.
  induction pieces as [|p pieces IH]; intros c; cbn; [by rewrite crc_nil|]. by rewrite IH, crc_app.
Qed.
Lemma wr_front pre room p : len p <= len room ->
  wr_bytes (pre ++ room) (len pre) p = Ret ((pre ++ p) ++ drop (length p) room).
Proof.
  intros Hl. rewrite <- (take_drop (length p) room) at 1.
  rewrite wr_bytes_mid; [by rewrite <- app_assoc|done|]. rewrite length_take. unfold len in Hl. lia.
Qed.
Lemma copy_step pre room l p : len p <= l <= len room ->
  copyProcessFunction p (mkCopy (pre ++ room) (len pre) l) =
  Ret (true, mkCopy ((pre ++ p) ++ drop (length p) room) (len (pre ++ p)) (l - len p)).
Proof.
  intros Hl. unfold copyProcessFunction. cbn [cp_bufLen cp_object cp_buf].
  rewrite (proj2 (Z.leb_le (len p) l)), wr_front by lia. by rewrite len_app.
Qed.
Lemma buffer_step pre room l p : len p <= len room ->
  bufferProcessFunction p (mkBec (pre ++ room) (len pre) l) =
  Ret (true, mkBec ((pre ++ p) ++ drop (length p) room) (len (pre ++ p)) (l - len p)).
Proof.
  intros Hl. unfold bufferProcessFunction. cbn [bec_object bec_buffer bec_len]. rewrite wr_front by lia. by rewrite len_app.
Qed.
Lemma feed_copy pieces : forall pre room l, len (concat pieces) <= l <= len room ->
  feed copyProcessFunction pieces (mkCopy (pre ++ room) (len pre) l) =
  Ret (true, mkCopy (pre ++ concat pieces ++ drop (length (concat pieces)) room)
               (len pre + len (concat pieces)) (l - len (concat pieces))).
Proof.
  induction pieces as [|p pieces IH]; intros pre room l Hl; cbn [concat feed length app].
  { rewrite len_nil, drop_0. do 3 f_equal; lia. }
  cbn [concat] in Hl. rewrite len_app in Hl. pose proof (len_nonneg (concat pieces)). pose proof (len_nonneg p).
  rewrite copy_step by lia. cbn [mbind outcome_bind negb].
  rewrite IH by (unfold len in *; rewrite length_drop; lia).
  rewrite !len_app, length_app, drop_drop, <- !app_assoc. do 3 f_equal; lia.
Qed.
Lemma feed_buffer pieces : forall pre room l, len (concat pieces) <= len room ->
  feed bufferProcessFunction pieces (mkBec (pre ++ room) (len pre) l) =
  Ret (true, mkBec (pre ++ concat pieces ++ drop (length (concat pieces)) room)
               (len pre + len (concat pieces)) (l - len (concat pieces))).
Proof.
  induction pieces as [|p pieces IH]; intros pre room l Hl; cbn [concat feed length app].
  { rewrite len_nil, drop_0. do 3 f_equal; lia. }
  cbn [concat] in Hl. rewrite len_app in Hl. pose proof (len_nonneg (concat pieces)). pose proof (len_nonneg p).
  rewrite buffer_step by lia. cbn [mbind outcome_bind negb].
  rewrite IH by (unfold len in *; rewrite length_drop; lia).
  rewrite !len_app, length_app, drop_drop, <- !app_assoc. do 3 f_equal; lia.
Qed.

(** ** The contents of an entry *)

(** The entry [e] of [archive] holds the data [d]: stored as they are, or deflated. *)
Inductive entry_contents `{zl : InflateOps} `{!InflateLaws zl} (archive : bytes) (e : ZipEntry) (d : bytes) : Prop :=
| contents_stored : compression e = STORED -> 0 <= offset e -> 0 <= compLen e < 2 ^ 32 ->
    offset e + compLen e <= len archive -> uncompLen e = compLen e ->
    d = slice archive (offset e) (compLen e) -> entry_contents archive e d
| contents_deflated : compression e = DEFLATED -> 0 <= offset e -> 0 <= compLen e ->
    offset e + compLen e <= len archive -> uncompLen e = len d -> len d < 2 ^ 31 ->
    fst inflateInit = Z_OK -> i_denotes (snd inflateInit) (slice archive (offset e) (compLen e)) d ->
    entry_contents archive e d.

Section contents.
Context `{zl : InflateOps} `{!InflateLaws zl}.
Context (archive : bytes) (read_ok : Z -> Z -> bool) (Hread : forall p n, read_ok p n = true).
Context (fuel : nat) (e : ZipEntry) (d : bytes) (He : entry_contents archive e d).
Context (Hfuel : compLen e + len d < Z.of_nat fuel).

Lemma entry_len : uncompLen e = len d.
Proof. clear Hfuel. destruct He as [? ? ? ? -> ->|]; [by rewrite len_slice by lia|done]. Qed.

Lemma process_feeds {Cookie : Type} (f : bytes -> Cookie -> outcome (bool * Cookie)) :
  exists pieces, concat pieces = d /\ Forall piece_ok pieces /\ forall oldOff cookie,
    mzProcessZipEntryContents archive read_ok fuel f e oldOff cookie =
    ('(b, cookie) ← feed f pieces cookie; Ret (b, cookie, oldOff)).
Proof.
  unfold mzProcessZipEntryContents, processDeflatedEntry. pose proof (len_nonneg d).
  destruct He as [Hc Ho Hl Hend Hu Hd|Hc Ho Hl Hend Hu Hmax Hi Hden]; rewrite Hc.
  - rewrite u32_small by lia. destruct (stored_feeds archive read_ok Hread f fuel (offset e) (compLen e))
      as (ps & Hcat & Hok & Hrun); [lia..|].
    exists ps. split_and!; [by rewrite Hcat, Hd|done|]. intros oldOff cookie. cbn [STORED Z.eqb]. by rewrite Hrun.
  - destruct (inflate_feeds archive read_ok Hread f fuel (snd inflateInit) [] (offset e) (compLen e) [] 0 d)
      as (ps & Hcat & Hok & Hrun); try done.
    exists ps. split_and!; [done|done|]. intros oldOff cookie. cbn [STORED DEFLATED Z.eqb].
    rewrite Hi. cbn [Z_OK Z.eqb negb]. rewrite Hrun. destruct (feed f ps cookie) as [[[] c]| |]; cbn [mbind outcome_bind]; [| |done..].
    + rewrite Hu, s32_small, Z.eqb_refl by (unfold INT_MIN, INT_MAX; lia). done.
    + rewrite Hu. by rewrite (proj2 (Z.eqb_neq (-1) (len d))) by lia.
Qed.

End contents.

(** ** Writing to a file *)

Lemma write_all_ok n path data : forall soFar w w', 0 <= soFar <= len data ->
  write_all n path data soFar w = Ret (true, w') ->
  exists ds, trace w' = trace w ++ (Write path <$> ds) /\ concat ds = slice data soFar (len data - soFar).
Proof.
  induction n as [|n IH]; intros soFar w w' Hs; cbn [write_all]; [done|].
  assert (trace (next w).2 = trace w) as Ht by (unfold next; by destruct (env w)).
  destruct (next w) as [a w1]. cbn in Ht. set (rest := slice data soFar (len data - soFar)).
  assert (len rest = len data - soFar) as Hr by (apply len_slice; lia).
  set (k := if a <? 0 then a else _). destruct (Z.leb_spec k 0) as [Hk|Hk].
  { destruct (k =? -1); [|done]. intros Hw. apply IH in Hw; [|done]. by rewrite Ht in Hw. }
  assert (k <= len rest) as Hk'.
  { subst k. destruct (Z.ltb_spec a 0); [lia|]. destruct (Z.eqb_spec a 0); lia. }
  clearbody k. destruct (Z.eqb_spec (soFar + k) (len data)) as [E|E].
  - intros [= <-]. exists [take (Z.to_nat k) rest]. cbn [log trace fmap list_fmap concat]. split; [by rewrite Ht|].
    rewrite app_nil_r. apply take_ge. unfold len in *. lia.
  - destruct (len data <? soFar + k); [done|]. intros Hw. apply IH in Hw; [|lia].
    destruct Hw as (ds & Htr & Hcat). exists (take (Z.to_nat k) rest :: ds). split.
    + rewrite Htr. cbn [log trace fmap list_fmap]. by rewrite Ht, <- app_assoc.
    + cbn [concat]. rewrite Hcat. assert (take (Z.to_nat k) rest = slice data soFar k) as ->.
      { subst rest. unfold slice. rewrite take_take. f_equal. lia. }
      rewrite <- slice_split by lia. f_equal. lia.
Qed.
Lemma feed_write fuel path pieces : forall w w',
  feed (writeProcessFunction fuel path) pieces w = Ret (true, w') ->
  exists ds, trace w' = trace w ++ (Write path <$> ds) /\ concat ds = concat pieces.
Proof.
  induction pieces as [|p pieces IH]; intros w w'; cbn [feed].
  { intros [= <-]. exists []. by rewrite app_nil_r. }
  intros Hf. apply bind_Ret in Hf as ([b w1] & Hp & Hf). destruct b; [|done]. cbn [negb] in Hf.
  apply write_all_ok in Hp as (ds & Ht & Hc); [|pose proof (len_nonneg p); lia].
  apply IH in Hf as (ds' & Ht' & Hc'). exists (ds ++ ds'). rewrite Ht', Ht, fmap_app, app_assoc. split; [done|].
  rewrite concat_app, Hc, Hc', Z.sub_0_r, slice_all. done.
Qed.
Lemma feed_write_runs fuel path pieces : (0 < fuel)%nat -> Forall piece_ok pieces -> forall w, env w = [] ->
  exists w', feed (writeProcessFunction fuel path) pieces w = Ret (true, w').
Proof.
  intros Hf. induction 1 as [|p pieces [Hne _] _ IH]; intros w Hw; cbn [feed]; [by exists w|].
  assert (writeProcessFunction fuel path p w = Ret (true, log (Write path p) w)) as ->.
  { unfold writeProcessFunction. destruct fuel as [|n]; [lia|]. cbn [write_all]. unfold next. rewrite Hw. cbn [Z.ltb Z.compare Z.eqb].
    assert (0 < len p) by (destruct p; [done|rewrite len_cons; pose proof (len_nonneg p); lia]).
    rewrite Z.sub_0_r, slice_all, (proj2 (Z.leb_gt (len p) 0)), Z.add_0_l, Z.eqb_refl by lia.
    rewrite take_ge by (unfold len; lia). done. }
  cbn [mbind outcome_bind negb]. by apply IH.
Qed.

(** ** Which entries are extracted *)

Lemma prefix_between z : forall a b c, is_prefix z a = true -> is_prefix z c = true ->
  name_le a b -> name_le b c -> is_prefix z b = true.
Proof.
  unfold name_le. induction z as [|x z IH]; intros a b c Ha Hc; [done|].
  destruct a as [|y a], c as [|y' c]; try done. cbn in Ha, Hc.
  apply andb_true_iff in Ha as [<-%Z.eqb_eq Ha]. apply andb_true_iff in Hc as [<-%Z.eqb_eq Hc].
  destruct b as [|v b]; cbn [lex is_prefix]; [lia|].
  destruct (Z.eqb_spec x v), (Z.eqb_spec v x); try lia. cbn [andb]. by apply IH.
Qed.
Lemma strncmp_prefix z : forall name, nul_free z -> nul_free name ->
  (fileNameLen (mkZipEntry name 0 0 0 0 0 0 0 0) <? len z) || negb (strncmp (length z) name z =? 0) = negb (is_prefix z name).
Proof.
  unfold fileNameLen. cbn [fileName]. intros name Hz. revert name.
  induction Hz as [|x z Hx _ IH]; intros name Hn.
  { cbn. rewrite orb_false_r. apply Z.ltb_ge. apply len_nonneg. }
  destruct Hn as [|y name Hy Hn].
  { cbn [is_prefix negb]. apply orb_true_iff. left. apply Z.ltb_lt. rewrite len_cons, len_nil.
    pose proof (len_nonneg z). lia. }
  cbn [length strncmp hd tl is_prefix]. rewrite (Z.eqb_sym x y), !len_cons. destruct (Z.eqb_spec y x) as [->|Hne]; cbn [andb].
  - rewrite (proj2 (Z.eqb_neq x 0)) by lia. rewrite <- IH by done. f_equal.
    destruct (Z.ltb_spec (len name) (len z)), (Z.ltb_spec (1 + len name) (1 + len z)); (done || lia).
  - rewrite (proj2 (Z.eqb_neq (y - x) 0)) by lia. by rewrite orb_true_r.
Qed.

(** ** The path of an entry *)

Definition dir_slash (dir : bytes) : bytes := if last dir 0 =? 47 then dir else dir ++ [47].

Section paths.
Context (alloc_ok : Z -> bool) (junk : Z) (Halloc : forall n, alloc_ok n = true).
Context (targetDir zpath : bytes) (Hdir : targetDir <> []) (Hnul : nul_free targetDir).

(** Before the first path, and after: the buffer starts with the directory. *)
Definition helper_ok (h : MzPathHelper) : Prop :=
  h_zipDirLen h = len zpath /\ h_zipDir h = zpath /\ h_targetDir h = targetDir /\
  match h_buf h with
  | None => h_targetDirLen h = len targetDir /\ h_bufLen h = 0
  | Some b => h_targetDirLen h = len (dir_slash targetDir) /\ h_bufLen h = len b /\
      exists rest, b = dir_slash targetDir ++ rest
  end.

Lemma len_realloc buf n : 0 <= n -> exists b, realloc alloc_ok junk buf n = Some b /\ len b = n /\
  forall pre rest, buf = Some (pre ++ rest) -> len (pre ++ rest) <= n -> exists rest', b = pre ++ rest'.
Proof.
  intros Hn. unfold realloc. rewrite Halloc. eexists. split; [done|]. split.
  - unfold len. rewrite length_app, length_replicate, length_take. lia.
  - intros pre rest -> Hl. cbn [default]. unfold id. rewrite take_ge by (unfold len in Hl; lia). rewrite <- app_assoc. by eexists.
Qed.

(** The first time, the directory and a slash are put at the start of the buffer. *)
Lemma first_path buf : len targetDir + 1 <= len buf ->
  exists rest, (buf ← wr_bytes buf 0 (take (Z.to_nat (len targetDir)) targetDir);
    slash ← (if len targetDir =? 0 then Ret true else c ← rd buf (len targetDir - 1); Ret (negb (c =? 47)));
    if slash : bool then buf ← wr_bytes buf (len targetDir) [47]; Ret (buf, len targetDir + 1)
    else Ret (buf, len targetDir)) = Ret (dir_slash targetDir ++ rest, len (dir_slash targetDir)) /\
    len (dir_slash targetDir ++ rest) = len buf.
Proof.
  intros Hl. rewrite take_ge by (unfold len; lia). pose proof (len_nonneg targetDir).
  pose proof (wr_front [] buf targetDir ltac:(lia)) as Hw. rewrite len_nil in Hw. cbn [app] in Hw. rewrite Hw.
  cbn [mbind outcome_bind]. set (rest := drop (length targetDir) buf).
  assert (len rest = len buf - len targetDir) as Hr by (subst rest; unfold len in *; rewrite length_drop; lia).
  destruct (exists_last Hdir) as (pre & c & E).
  assert (last targetDir 0 = c) as Hc by (rewrite E; apply last_last).
  assert (0 < len targetDir) as Hpos by (rewrite E, len_app, len_cons, len_nil; pose proof (len_nonneg pre); lia).
  rewrite (proj2 (Z.eqb_neq (len targetDir) 0)) by lia.
  assert (rd (targetDir ++ rest) (len targetDir - 1) = Ret c) as ->.
  { rewrite E at 1. rewrite <- app_assoc. pose proof (rd_mid pre [c] rest 0 c) as R.
    rewrite Z.add_0_r in R. rewrite E, len_app, len_cons, len_nil. replace (len pre + (1 + 0) - 1) with (len pre) by lia.
    apply R; [lia|done]. }
  cbn [mbind outcome_bind]. unfold dir_slash. rewrite Hc. destruct (c =? 47); cbn [negb].
  - exists rest. split; [done|]. rewrite len_app. lia.
  - destruct rest as [|b rest']; [rewrite len_nil in Hr; lia|]. rewrite len_cons in Hr.
    rewrite wr_front by (rewrite !len_cons, len_nil; pose proof (len_nonneg rest'); lia).
    cbn [mbind outcome_bind length drop]. exists (drop 0 rest'). rewrite !len_app, !len_cons, len_nil, drop_0. split; [|lia].
    do 2 f_equal.
Qed.

Lemma target_path_ok h e : helper_ok h -> len zpath <= fileNameLen e -> nul_free (fileName e) ->
  exists h', targetEntryPath alloc_ok junk h e =
    Ret (Some (dir_slash targetDir ++ drop (length zpath) (fileName e)), h') /\ helper_ok h'.
Proof.
  intros (Hz & Hzd & Htd & Hbuf) Hlen Hn. unfold targetEntryPath. rewrite Hz, Htd.
  set (part := drop (Z.to_nat (len zpath)) (fileName e)).
  assert (len part = fileNameLen e - len zpath) as Hpart by (apply len_drop; unfold fileNameLen in *; pose proof (len_nonneg zpath); lia).
  assert (len (dir_slash targetDir) <= len targetDir + 1) as Hds.
  { unfold dir_slash. destruct (_ =? 47); rewrite ?len_app, ?len_cons, ?len_nil; lia. }
  pose proof (len_nonneg targetDir). pose proof (len_nonneg part).
  (* the buffer and what has been put in it *)
  match goal with |- context [room ← ?r; _] => set (room := r) end.
  assert (exists buf n, room = Ret (Some (buf, n)) /\ n = len buf /\
    h_targetDirLen h + 1 + len part + 1 <= n /\
    (forall b, h_buf h = Some b -> exists rest, buf = dir_slash targetDir ++ rest)) as (buf & n & -> & -> & Hroom & Hkeep).
  { subst room. destruct (Z.ltb_spec (h_bufLen h) (h_targetDirLen h + 1 + fileNameLen e - len zpath + 1)) as [Hlt|Hge].
    - assert (0 <= h_targetDirLen h) as Htl.
      { destruct (h_buf h) as [b|]; [destruct Hbuf as [-> _]|destruct Hbuf as [-> _]]; apply len_nonneg. }
      destruct (len_realloc (h_buf h) ((h_targetDirLen h + 1 + fileNameLen e - len zpath + 1) * 2))
        as (b & -> & Hb & Hpre); [lia|]. exists b, (len b). rewrite Hb. split_and!; [done|done|lia|].
      intros b0 Eb. rewrite Eb in Hbuf, Hpre. destruct Hbuf as (_ & Hbl & rest & ->).
      apply (Hpre _ rest eq_refl). lia.
    - destruct (h_buf h) as [b|].
      + destruct Hbuf as (Hl & Hbl & rest & E). exists b, (h_bufLen h). split_and!; [done|done|lia|]. intros ? [= <-].
        by exists rest.
      + destruct Hbuf. lia. }
  cbn [mbind outcome_bind].
  assert (exists rest, (if match h_buf h with Some _ => false | None => true end then
      buf0 ← wr_bytes buf 0 (take (Z.to_nat (h_targetDirLen h)) targetDir);
      slash ← (if h_targetDirLen h =? 0 then Ret true else c ← rd buf0 (h_targetDirLen h - 1); Ret (negb (c =? 47)));
      if slash : bool then buf1 ← wr_bytes buf0 (h_targetDirLen h) [47]; Ret (buf1, h_targetDirLen h + 1)
      else Ret (buf0, h_targetDirLen h)
    else Ret (buf, h_targetDirLen h)) = Ret (dir_slash targetDir ++ rest, len (dir_slash targetDir)) /\
    len (dir_slash targetDir ++ rest) = len buf) as (rest & Hrun & Hlb).
  { destruct (h_buf h) as [b|].
    - destruct Hbuf as (-> & _). destruct (Hkeep b eq_refl) as [rest ->]. by exists rest.
    - destruct Hbuf as (Hl & _). rewrite Hl in Hroom |- *. apply first_path. lia. }
  cbv zeta in Hrun |- *. rewrite Hrun. cbn [mbind outcome_bind].
  assert (len part + 1 <= len rest) as Hrest.
  { rewrite len_app in Hlb. destruct (h_buf h) as [b|]; destruct Hbuf as [Hl _]; lia. }
  rewrite wr_front by lia. cbn [mbind outcome_bind].
  assert (1 <= len (drop (length part) rest)) as Hend by (unfold len in *; rewrite length_drop; lia).
  rewrite <- (len_app (dir_slash targetDir) part).
  rewrite wr_front by (rewrite len_cons, len_nil; lia). cbn [mbind outcome_bind].
  rewrite <- app_assoc. set (tail := drop _ (drop _ _)). eexists. split.
  - do 3 f_equal. rewrite <- app_assoc, app_assoc. subst part. replace (Z.to_nat (len zpath)) with (length zpath) by (unfold len; lia).
    assert (nul_free (dir_slash targetDir ++ drop (length zpath) (fileName e))) as Hfree.
    { apply Forall_app. split; [|by apply Forall_drop]. unfold dir_slash. destruct (_ =? 47); [done|].
      apply Forall_app. split; [done|]. by repeat constructor. }
    clear -Hfree. induction Hfree as [|c l Hc _ IH]; cbn; [done|].
    rewrite (proj2 (Z.eqb_neq c 0)) by lia. by f_equal.
  - split_and!; cbn [h_zipDirLen h_zipDir h_targetDir h_buf h_targetDirLen h_bufLen]; try done.
    split; [done|]. split; [|rewrite <- !app_assoc; by eexists].
    subst tail. rewrite <- Hlb. unfold len in *. rewrite !length_app, !length_drop. cbn [length]. lia.
Qed.
End paths.

(** ** The loop is a filter *)

Section selection.
Context `{InflateOps} (archive : bytes) (read_ok : Z -> Z -> bool) (fuel : nat).
Context (alloc_ok : Z -> bool) (junk : Z) (flags : Z) (timestamp callback : bool).

(** The entries [es] are extracted in order under [dir], until one fails. *)
Fixpoint extract_all (dir : bytes) (zlen : nat) (es : list ZipEntry) (w : XWorld) : outcome (bool * XWorld) :=
  match es with
  | [] => Ret (true, w)
  | e :: es =>
      '(r, w) ← extract_entry archive read_ok fuel alloc_ok junk flags timestamp callback e
                  (dir ++ drop zlen (fileName e)) w;
      match r with
      | Some ok => Ret (ok, w)
      | None => extract_all dir zlen es w
      end
  end.
Definition under (zpath : bytes) (es : list ZipEntry) : list ZipEntry :=
  List.filter (fun e => is_prefix zpath (fileName e)) es.

Context (Halloc : forall n, alloc_ok n = true).
Context (targetDir zpath : bytes) (Hdir : targetDir <> []) (Hnul : nul_free targetDir) (Hz : nul_free zpath).

Lemma is_prefix_len z : forall l, is_prefix z l = true -> len z <= len l.
Proof.
  induction z as [|x z IH]; intros l; [rewrite len_nil; intros; apply len_nonneg|].
  destruct l as [|y l]; cbn; [done|]. intros [_ Hl%IH]%andb_true_iff. rewrite !len_cons. lia.
Qed.

Lemma under_nil m es : is_prefix zpath m = true ->
  (exists e0 rest, es = e0 :: rest /\ is_prefix zpath (fileName e0) = false /\ name_le m (fileName e0) /\
     Forall (fun e => name_le (fileName e0) (fileName e)) rest) -> under zpath es = [].
Proof.
  intros Hm (e0 & rest & -> & H0 & Hle & Hall). cbn [under List.filter]. rewrite H0.
  induction Hall as [|e rest He _ IH]; [done|]. cbn [List.filter].
  destruct (is_prefix zpath (fileName e)) eqn:E; [|done].
  by rewrite (prefix_between zpath m (fileName e0) (fileName e) Hm E Hle He) in H0.
Qed.

Lemma sorted_tail e es : sorted_names (e :: es) ->
  Forall (fun e' => name_le (fileName e) (fileName e')) es /\ sorted_names es.
Proof.
  intros Hs. split.
  - apply Forall_forall. intros e' Hin. apply list_elem_of_In, list_elem_of_lookup in Hin as [i Hi].
    apply (Hs 0%nat (S i) e e'); [lia|done|done].
  - intros i j a b Hij Ha Hb. apply (Hs (S i) (S j) a b); [lia|done|done].
Qed.

Lemma extract_loop_filters es : forall helper seen w m,
  sorted_names es -> Forall (fun e => nul_free (fileName e)) es -> helper_ok targetDir zpath helper ->
  (seen = true -> is_prefix zpath m = true /\ Forall (fun e => name_le m (fileName e)) es) ->
  extract_loop archive read_ok fuel alloc_ok junk flags timestamp callback zpath es helper seen w =
  extract_all (dir_slash targetDir) (length zpath) (under zpath es) w.
Proof.
  induction es as [|e es IH]; intros helper seen w m Hs Hn Hh Hm; [done|]. cbn [extract_loop].
  destruct (sorted_tail e es Hs) as [Hle Hs']. inversion_clear Hn as [|? ? Hne Hn'].
  change (fileNameLen e) with (fileNameLen (mkZipEntry (fileName e) 0 0 0 0 0 0 0 0)).
  rewrite strncmp_prefix by done. destruct (is_prefix zpath (fileName e)) eqn:Ep; cbn [negb].
  - destruct (target_path_ok alloc_ok junk Halloc targetDir zpath Hdir Hnul helper e Hh
      (is_prefix_len _ _ Ep) Hne) as (h' & -> & Hh'). cbn [mbind outcome_bind].
    cbn [under List.filter]. rewrite Ep. cbn [extract_all].
    destruct (extract_entry _ _ _ _ _ _ _ _ _ _ _) as [[[ok|] w1]| |]; cbn [mbind outcome_bind]; try done.
    apply (IH h' true w1 (fileName e)); try done.
  - destruct seen.
    + destruct (Hm eq_refl) as [Hpm Hall]. inversion_clear Hall as [|? ? Hme _].
      rewrite (under_nil m); [done|done|]. by exists e, es.
    + cbn [under List.filter]. rewrite Ep. apply (IH helper false w m); done.
Qed.
End selection.

(** ** A concrete stream

    "Compressed" data are the bytes themselves, followed by 255. *)
Fixpoint copy_until (n : nat) (i : bytes) : Z * Z * bytes :=
  match n, i with
  | O, _ | _, [] => (Z_OK, 0, [])
  | S n, b :: i =>
      if b =? 255 then (Z_STREAM_END, 1, [])
      else let '(r, k, o) := copy_until n i in (r, k + 1, b :: o)
  end.
#[export] Instance plain_inflate : InflateOps := {
  i_stream := unit;
  inflateInit := (Z_OK, tt);
  inflate s i n := (copy_until (Z.to_nat n) i, s);
  zcrc32 c d := foldl (fun c b => u32 (c * 31 + b)) c d }.

Lemma copy_until_ok d : Forall (fun b => b <> 255) d -> forall n now later, now ++ later = d ++ [255] ->
  (0 < n)%nat -> now <> [] ->
  exists ret k out d', copy_until n now = (ret, k, out) /\ d = out ++ d' /\ 0 <= k <= len now /\ len out <= Z.of_nat n /\
    (ret = Z_STREAM_END /\ d' = [] /\ drop (Z.to_nat k) now ++ later = [] \/
     ret = Z_OK /\ 0 < k /\ drop (Z.to_nat k) now ++ later = d' ++ [255]).
Proof.
  induction 1 as [|b d Hb Hd IH]; intros n now later Hsplit Hn Hne; destruct now as [|c now]; try done;
    (destruct n as [|n]; [lia|]); injection Hsplit as -> Hsplit; cbn [copy_until].
  - apply app_eq_nil in Hsplit as [-> ->]. exists Z_STREAM_END, 1, [], []. cbn. rewrite len_nil.
    split_and!; [done|done|done|by rewrite len_cons, len_nil|lia|by left].
  - rewrite (proj2 (Z.eqb_neq b 255)) by done. rewrite len_cons. pose proof (len_nonneg now).
    destruct n as [|n]; [|destruct now as [|c now]].
    + destruct now; cbn [copy_until]; exists Z_OK, (0 + 1), [b], d;
        (split_and!; [done|done|lia|lia|rewrite len_cons, len_nil; lia|right; split_and!; [done|lia|exact Hsplit]]).
    + cbn [copy_until]. exists Z_OK, (0 + 1), [b], d.
      split_and!; [done|done|lia|lia|rewrite len_cons, len_nil; lia|right; split_and!; [done|lia|exact Hsplit]].
    + destruct (IH (S n) (c :: now) later Hsplit) as (ret & k & out & d' & E & -> & Hk & Hl & Hcase); [lia|done|].
      rewrite E. exists ret, (k + 1), (b :: out), d'. replace (Z.to_nat (k + 1)) with (S (Z.to_nat k)) by lia.
      split_and!; [done|done|lia|lia|rewrite len_cons; lia|]. cbn [drop].
      destruct Hcase as [?|(? & ? & ?)]; [by left|right; split_and!; [done|lia|done]].
Qed.
Lemma copy_until_bounded n : forall i ret k out, copy_until n i = (ret, k, out) -> 0 <= k <= len i /\ len out <= Z.of_nat n.
Proof.
  induction n as [|n IH]; intros [|b i] ret k out; cbn [copy_until];
    try (intros [= <- <- <-]; rewrite ?len_nil; pose proof (len_nonneg (b :: i)); lia);
    try (intros [= <- <- <-]; rewrite ?len_nil; lia).
  destruct (b =? 255).
  - intros [= <- <- <-]. rewrite len_cons, len_nil. pose proof (len_nonneg i). lia.
  - destruct (copy_until n i) as [[r k'] o] eqn:E. intros [= <- <- <-]. apply IH in E. rewrite !len_cons. lia.
Qed.
#[export] Instance plain_inflate_laws : InflateLaws plain_inflate.
Proof.
  refine {| i_denotes := fun (_ : @i_stream plain_inflate) i d => i = d ++ [255] /\ Forall (fun b => b <> 255) d |}.
  - intros s i n ret k out s' Hn. cbn. destruct (copy_until (Z.to_nat n) i) as [[r k'] o] eqn:E.
    intros [= <- <- <- _]. apply copy_until_bounded in E. lia.
  - intros s now later d n [Hsplit Hd] Hn Hprog.
    assert (now <> []) as Hne.
    { destruct Hprog as [?| ->]; [done|]. intros ->. cbn in Hsplit. by destruct d. }
    destruct (copy_until_ok d Hd (Z.to_nat n) now later Hsplit ltac:(lia) Hne)
      as (ret & k & out & d' & E & -> & Hk & Hl & Hcase).
    exists ret, k, out, d', s. cbn. rewrite E. split; [done|]. split; [done|].
    apply Forall_app in Hd as [_ Hd]. destruct Hcase as [?|(? & ? & ?)]; [by left|right].
    split; [done|]. split; [by left|]. done.
  - done.
  - intros c a b. cbn. by rewrite foldl_app.
Defined.

(** ** Properties *)

(** Claim C25.  An entry is extracted exactly: when its data, stored or deflated, stand for
    [d] and the archive can be read, the integrity check compares the CRC of [d] with the
    recorded one; reading it into a buffer of at least its size gives [d] and leaves the
    rest of the buffer; and extracting it to a file, whenever it returns true, has
    written exactly [d] whatever short or interrupted writes there were, and it does
    return true when no write fails. *)
Theorem zip_entry_extracts `{zl : InflateOps} `{!InflateLaws zl} archive read_ok fuel e d
    (Hread : forall p n, read_ok p n = true) (He : entry_contents archive e d)
    (Hfuel : compLen e + len d < Z.of_nat fuel) :
  mzIsZipEntryIntact archive read_ok fuel e = Ret (zcrc32 0 d =? u32 (crc32 e)) /\
  (forall buf bufLen, len d <= bufLen <= len buf ->
     mzReadZipEntry archive read_ok fuel e buf bufLen = Ret (true, d ++ drop (length d) buf)) /\
  (forall buf, len d <= len buf ->
     mzExtractZipEntryToBuffer archive read_ok fuel e buf = Ret (true, d ++ drop (length d) buf)) /\
  (forall path w w', mzExtractZipEntryToFile archive read_ok fuel e path w = Ret (true, w') ->
     exists ds, trace w' = trace w ++ (Write path <$> ds) /\ concat ds = d) /\
  (forall path w, env w = [] -> exists w', mzExtractZipEntryToFile archive read_ok fuel e path w = Ret (true, w')).
Proof.
  pose proof (entry_len archive e d He) as Hlen.
  split_and!.
  - destruct (process_feeds archive read_ok Hread fuel e d He Hfuel crcProcessFunction) as (ps & <- & _ & Hrun).
    unfold mzIsZipEntryIntact. rewrite Hrun, feed_crc. done.
  - intros buf bufLen Hb. destruct (process_feeds archive read_ok Hread fuel e d He Hfuel copyProcessFunction)
      as (ps & <- & _ & Hrun). unfold mzReadZipEntry. rewrite Hrun.
    pose proof (feed_copy ps [] buf bufLen Hb) as Hf. rewrite len_nil in Hf. cbn [app] in Hf. by rewrite Hf.
  - intros buf Hb. destruct (process_feeds archive read_ok Hread fuel e d He Hfuel bufferProcessFunction)
      as (ps & <- & _ & Hrun). unfold mzExtractZipEntryToBuffer. rewrite Hrun, Hlen.
    pose proof (feed_buffer ps [] buf (len (concat ps)) Hb) as Hf. rewrite len_nil in Hf. cbn [app] in Hf. rewrite Hf. cbn [mbind outcome_bind bec_len]. by rewrite Z.sub_diag.
  - intros path w w'. destruct (process_feeds archive read_ok Hread fuel e d He Hfuel (writeProcessFunction fuel path))
      as (ps & <- & _ & Hrun). unfold mzExtractZipEntryToFile. rewrite Hrun. intros Hf.
    apply bind_Ret in Hf as ([[b w1] o] & Hf & [= -> ->]). apply bind_Ret in Hf as ([b w2] & Hf & [= -> -> _]).
    by apply feed_write in Hf.
  - intros path w Hw. destruct (process_feeds archive read_ok Hread fuel e d He Hfuel (writeProcessFunction fuel path))
      as (ps & <- & Hok & Hrun).
    assert (0 < fuel)%nat as Hf0.
    { pose proof (len_nonneg (concat ps)). destruct He; lia. }
    destruct (feed_write_runs fuel path ps Hf0 Hok w Hw) as [w' E]. exists w'.
    unfold mzExtractZipEntryToFile. by rewrite Hrun, E.
Qed.
Definition demo_deflated : ZipEntry := mkZipEntry (str "x") 2 4 3 DEFLATED 0 5 0 0.
Lemma demo_deflated_contents : entry_contents [9; 9; 1; 2; 3; 255; 9] demo_deflated [1; 2; 3].
Proof. apply contents_deflated; try (by vm_compute). split; [by vm_compute|]. repeat constructor; lia. Qed.
Lemma zip_entry_extracts_witness :
  mzReadZipEntry [9; 9; 1; 2; 3; 255; 9] (fun _ _ => true) 20 demo_deflated [0; 0; 0; 0; 0] 4 =
  Ret (true, [1; 2; 3; 0; 0]).
Proof.
  apply (zip_entry_extracts [9; 9; 1; 2; 3; 255; 9] (fun _ _ => true) 20 demo_deflated [1; 2; 3]).
  - done.
  - exact demo_deflated_contents.
  - by vm_compute.
  - by vm_compute.
Defined.

(** Claim C26.  Extracting a directory of an archive that was opened extracts exactly the
    entries below it, in the order of their names, each to the target directory followed
    by the rest of its name: leaving the loop at the first entry that does not match
    after one that did loses nothing, because the entries are sorted, and assembling the
    paths never overruns the buffer. *)
Theorem extract_recursive_selects `{InflateOps} calloc_ok calloc_entries_ok m a read_ok fuel alloc_ok junk flags
    timestamp callback zipDir targetDir w (Hm : map_ok m) (Hnw : no_wrap m)
    (Hopen : mzOpenZipArchive calloc_ok calloc_entries_ok m = Ret (0, Some a))
    (Halloc : forall n, alloc_ok n = true) (Hz : nul_free zipDir) (Ht : nul_free targetDir)
    (Hrel : starts_with 47 zipDir = false) (Habs : starts_with 47 targetDir = true) :
  mzExtractRecursive (mem m) read_ok fuel alloc_ok junk flags timestamp callback (zEntries a) zipDir targetDir w =
  extract_all (mem m) read_ok fuel alloc_ok junk flags timestamp callback (dir_slash targetDir)
    (length (zip_path zipDir)) (under (zip_path zipDir) (zEntries a)) w.
Proof.
  unfold mzExtractRecursive. rewrite Hrel, Habs, Halloc. cbn [negb].
  unfold mzOpenZipArchive in Hopen. destruct (Z.ltb_spec (len (mem m)) ENDHDR) as [Hs|Hs]; [done|].
  destruct (parse_ok calloc_ok calloc_entries_ok m Hm Hnw Hs) as [E|(recs & a' & E & Hd & Ha & Hall)];
    rewrite E in Hopen; [done|]. injection Hopen as ->.
  apply (extract_loop_filters (mem m) read_ok fuel alloc_ok junk flags timestamp callback Halloc targetDir
    (zip_path zipDir)) with (m := []).
  - by destruct targetDir.
  - done.
  - unfold zip_path. destruct zipDir as [|c l]; [done|]. destruct (_ =? 47); [done|].
    apply Forall_app. split; [done|]. by repeat constructor.
  - apply Ha.
  - rewrite (ar_perm _ _ _ Ha). revert Hall. apply Forall_impl. intros e [Hv _]. by apply validFilename_nul_free.
  - split_and!; done.
  - done.
Qed.
(** The file "d/a" of a small archive. *)
Definition demo_tree : MemMapping :=
  let f1 := zip_local (str "d/b") [1; 2; 3] in let f2 := zip_local (str "e") [4; 5] in
  let cd := zip_cen (str "d/b") 3 3 0 ++ zip_cen (str "e") 2 2 (len f1) in
  mkMap 0x10000 (f1 ++ f2 ++ cd ++ zip_end 2 (len cd) (len f1 + len f2) []).
Definition demo_tree_archive : ZipArchive :=
  Eval vm_compute in match mzOpenZipArchive all_ok all_ok demo_tree with
                     | Ret (_, Some a) => a | _ => mkArchive [] (mkTable 0 0 0 []) end.
Lemma extract_recursive_selects_witness :
  mzExtractRecursive (mem demo_tree) (fun _ _ => true) 20 all_ok 0 0 false false (zEntries demo_tree_archive)
    (str "d") (str "/tmp") (mkX [] []) =
  Ret (true, mkX [DirCreateHierarchy (str "/tmp/b") true; Creat (str "/tmp/b"); Write (str "/tmp/b") [1; 2; 3]] []).
Proof.
  rewrite (extract_recursive_selects all_ok all_ok demo_tree demo_tree_archive).
  - by vm_compute.
  - map_ok_tac.
  - apply no_wrapb_ok. by vm_compute.
  - by vm_compute.
  - done.
  - by repeat constructor.
  - by repeat constructor.
  - done.
  - done.
Defined.


