(* ===== verification/Retouch.v ===== *)
(** [minelf/Retouch.c]: undoing and redoing the randomization of prelinked binaries in
    memory, which [LoadFileContents] does before it hashes a file. *)
From S2P Require Import Prelude Endian CString.

Definition RETOUCH_DATA_ERROR : Z := 0.
Definition RETOUCH_DATA_MATCHED : Z := 1.
Definition RETOUCH_DATA_MISMATCHED : Z := 2.
Definition RETOUCH_DATA_NOTAPPLICABLE : Z := 3.
(** [sizeof(prelink_info_t)], [sizeof(retouch_info_t)] *)
Definition PRELINK_INFO : Z := 8.
Definition RETOUCH_INFO : Z := 12.

(** The decoder state [offs_prev], [cont_prev]. *)
Record Dec := mkDec { offs_prev : Z; cont_prev : Z }.
Definition init_compression_state : Dec := mkDec 0 0.

(** [void decode_bytes(encoded_bytes, encoded_size, dst_offset, dst_contents)] *)
Definition decode_bytes (st : Dec) (input : bytes) (encoded_size : Z) : Z * Z :=
  let b k := nth k input 0 in
  if encoded_size =? 2 then
    let tmp := Z.lor (Z.shiftl (Z.land (b 0%nat) 0x1f) 8) (b 1%nat) in
    let tmp := if negb (Z.land tmp 0x1000 =? 0) then s32 (Z.lor 0xffffe000 tmp) else tmp in
    (s32 (offs_prev st + (Z.shiftr (Z.land (b 0%nat) 0x60) 5 + 1) * 4), u32 (cont_prev st + tmp))
  else if encoded_size =? 3 then
    let tmp := Z.lor (Z.lor (Z.shiftl (Z.land (b 0%nat) 0x0f) 16) (Z.shiftl (b 1%nat) 8)) (b 2%nat) in
    let tmp := if negb (Z.land tmp 0x80000 =? 0) then s32 (Z.lor 0xfff00000 tmp) else tmp in
    (s32 (offs_prev st + (Z.shiftr (Z.land (b 0%nat) 0x30) 4 + 1) * 4), u32 (cont_prev st + tmp))
  else
    let word i := Z.lor (Z.lor (Z.lor (Z.shiftl (b i) 24) (Z.shiftl (b (S i)) 16))
                           (Z.shiftl (b (S (S i))) 8)) (b (S (S (S i)))) in
    let off := s32 (word 0%nat) in
    (if off =? 0x3fffffff then -1 else off, u32 (word 4%nat)).

(** [uint8_t *decode_in_memory(encoded_bytes, offset, contents)] at address [ptr]: the
    entry, the state and the next address. *)
Definition decode_in_memory (d : bytes) (st : Dec) (ptr : Z) : outcome (Z * Z * Dec * Z) :=
  b0 ← rd d ptr;
  let input_size := if negb (Z.land b0 0x80 =? 0) then 2 else if negb (Z.land b0 0x40 =? 0) then 3 else 8 in
  rest ← rd_bytes d (ptr + 1) (input_size - 1);
  let '(offset, contents) := decode_bytes st (b0 :: rest) input_size in
  Ret (offset, contents, mkDec offset contents, ptr + input_size).

(** Reading and writing a 32-bit word of the image. *)
Definition rd32 (d : bytes) (off : Z) : outcome Z := b ← rd_bytes d off 4; Ret (le_val b).
Definition wr32 (d : bytes) (off v : Z) : outcome bytes := wr_bytes d off (le_enc 4 v).

(** The shift inferred so far: [offset_candidate], [offset_set], [offset_mismatch]. *)
Record Inferred := mkInf { candidate : Z; is_set : bool; mismatch : bool }.
Definition infer (inf : Inferred) (shift : Z) : Inferred :=
  if negb (is_set inf) then mkInf shift true (mismatch inf)
  else if negb (candidate inf =? shift) then mkInf (candidate inf) true true else inf.

(** The loop of lines 150-190 over the blob; [None] is [RETOUCH_DATA_ERROR]. *)
Fixpoint retouch_loop (fuel : nat) (desired : option Z) (p_offs r_offs b_offs : Z) (d : bytes)
    (st : Dec) (inf : Inferred) (b_ptr : Z) : outcome (bytes * option (Inferred * Z)) :=
  if b_ptr <? r_offs then
    match fuel with
    | O => Diverge
    | S fuel =>
        '(entry_offset, original, st, b_ptr) ← decode_in_memory d st b_ptr;
        if (entry_offset <? -1) || (b_offs <=? entry_offset) then Ret (d, None) else
        let entry := if entry_offset =? -1 then p_offs else entry_offset in
        d ← (match desired with
             | Some target => wr32 d entry (u32 (original + target))
             | None => Ret d end);
        v ← rd32 d entry;
        retouch_loop fuel desired p_offs r_offs b_offs d st (infer inf (s32 (u32 (v - original)))) b_ptr
    end
  else Ret (d, Some (inf, b_ptr)).

(** [int retouch_mask_data(binary_object, binary_size, desired_offset, retouch_offset)]:
    the return value, the image and [*retouch_offset]. *)
Definition retouch_mask_data (d : bytes) (desired : option Z) : outcome (Z * bytes * Z) :=
  let target_offset := default 0 desired in
  let not_retouched := match desired with None => RETOUCH_DATA_NOTAPPLICABLE
                                        | Some _ => RETOUCH_DATA_MATCHED end in
  let p_offs := len d - PRELINK_INFO in
  let r_offs := p_offs - RETOUCH_INFO in
  if r_offs <? 0 then Ret (not_retouched, d, target_offset) else
  ptag ← rd_bytes d (p_offs + 4) 4;
  rtag ← (if bool_decide (ptag = str "PRE ") then rd_bytes d r_offs 8 else Ret []);
  if negb (bool_decide (ptag = str "PRE ")) || negb (bool_decide (rtag = str "RETOUCH "))
  then Ret (not_retouched, d, target_offset) else
  blob_size ← rd32 d (r_offs + 8);
  let b_offs := s32 (u32 (r_offs - blob_size)) in
  if b_offs <? 0 then Ret (RETOUCH_DATA_ERROR, d, target_offset) else
  '(d, r) ← retouch_loop (length d) desired p_offs r_offs b_offs d init_compression_state
              (mkInf target_offset false false) b_offs;
  match r with
  | None => Ret (RETOUCH_DATA_ERROR, d, target_offset)
  | Some (inf, b_ptr) =>
      if r_offs <? b_ptr then Ret (RETOUCH_DATA_ERROR, d, target_offset) else
      if mismatch inf then Ret (RETOUCH_DATA_MISMATCHED, d, target_offset) else
      Ret (RETOUCH_DATA_MATCHED, d, candidate inf)
  end.

(** ** The scan is safe *)

Lemma rd32_ok d off : bytes_ok d -> 0 <= off -> off + 4 <= len d ->
  rd32 d off = Ret (le_val (slice d off 4)) /\ 0 <= le_val (slice d off 4) < 2 ^ 32.
Proof.
  intros Hb Ho Hl. unfold rd32. rewrite rd_bytes_ok by lia. split; [done|].
  pose proof (le_val_range _ (slice_bytes_ok d off 4 Hb)) as H. by rewrite len_slice in H by lia.
Qed.

Lemma bytes_ok_splice d off s : bytes_ok d -> bytes_ok s -> bytes_ok (splice d off s).
Proof. intros. unfold splice. rewrite !bytes_ok_app. auto using bytes_ok_take, bytes_ok_drop. Qed.

Lemma wr32_ok d off v : bytes_ok d -> 0 <= off -> off + 4 <= len d ->
  exists d', wr32 d off v = Ret d' /\ bytes_ok d' /\ len d' = len d /\ d' = splice d off (le_enc 4 v).
Proof.
  intros Hb Ho Hl. unfold wr32. exists (splice d off (le_enc 4 v)).
  rewrite wr_bytes_ok by (rewrite ?len_le_enc; lia). split; [done|]. split.
  - by apply bytes_ok_splice, le_enc_ok.
  - split; [|done]. apply len_splice; [done|]. rewrite len_le_enc. lia.
Qed.

Lemma decode_in_memory_ok d st ptr : 0 <= ptr -> ptr + 8 <= len d ->
  exists off con st' ptr', decode_in_memory d st ptr = Ret (off, con, st', ptr') /\ ptr + 2 <= ptr' <= ptr + 8.
Proof.
  intros Hp Hl. unfold decode_in_memory. destruct (rd_ok d ptr) as (b0 & -> & _); [lia|].
  cbn [mbind outcome_bind]. set (n := if negb _ then 2 else _).
  assert (2 <= n <= 8) as Hn by (subst n; destruct (negb _); [|destruct (negb _)]; lia). clearbody n.
  rewrite rd_bytes_ok by lia. cbn [mbind outcome_bind].
  destruct (decode_bytes st (b0 :: slice d (ptr + 1) (n - 1)) n) as [off con].
  do 4 eexists. split; [done|]. lia.
Qed.

Lemma retouch_loop_safe desired p_offs r_offs b_offs n fuel : forall d st inf b_ptr,
  bytes_ok d -> len d = n -> p_offs = n - 8 -> r_offs = n - 20 -> 0 <= b_offs ->
  0 <= b_ptr -> (b_offs <= r_offs \/ r_offs <= b_ptr) -> r_offs - b_ptr < Z.of_nat fuel -> 0 <= r_offs ->
  exists d' r, retouch_loop fuel desired p_offs r_offs b_offs d st inf b_ptr = Ret (d', r) /\
    bytes_ok d' /\ len d' = n.
Proof.
  induction fuel as [|fuel IH]; intros d st inf b_ptr Hb Hl -> -> Hbo Hbp Hsz Hf Hr; cbn [retouch_loop];
    (destruct (Z.ltb_spec b_ptr (n - 20)) as [Hlt|]; [|by exists d, (Some (inf, b_ptr))]); [lia|].
  destruct (decode_in_memory_ok d st b_ptr) as (off & con & st' & ptr' & -> & Hp'); [lia|lia|].
  cbn [mbind outcome_bind].
  destruct (Z.ltb_spec off (-1)) as [|Hoff1], (Z.leb_spec b_offs off) as [|Hoff2]; cbn [orb];
    try (by exists d, None).
  set (entry := if off =? -1 then n - 8 else off).
  assert (0 <= entry /\ entry + 4 <= n) as He.
  { subst entry. destruct (Z.eqb_spec off (-1)); lia. }
  assert (exists d1, (match desired with Some target => wr32 d entry (u32 (con + target)) | None => Ret d end)
    = Ret d1 /\ bytes_ok d1 /\ len d1 = n) as (d1 & -> & Hb1 & Hl1).
  { destruct desired as [t|]; [|by exists d].
    destruct (wr32_ok d entry (u32 (con + t)) Hb) as (d1 & E & H1 & H2 & _); [lia|lia|].
    exists d1. split; [done|]. split; [done|]. lia. }
  cbn [mbind outcome_bind]. destruct (rd32_ok d1 entry Hb1) as [-> _]; [lia|lia|].
  cbn [mbind outcome_bind]. apply IH; (done || lia).
Qed.

(** ** Entries and writes *)

(** The blob holds the entries [l] from [p] on; the decoder stops at [e]. *)
Inductive decodes (d : bytes) (r_offs : Z) : Dec -> Z -> list (Z * Z) -> Z -> Prop :=
| dec_end st p : r_offs <= p -> decodes d r_offs st p [] p
| dec_step st p off con st' p' l e :
    p < r_offs -> decode_in_memory d st p = Ret (off, con, st', p') ->
    decodes d r_offs st' p' l e -> decodes d r_offs st p ((off, con) :: l) e.

Section image.
Context (n b_offs : Z) (Hn : 0 <= b_offs <= n - 20).
Abbreviation p_offs := (n - 8).
Abbreviation r_offs := (n - 20).

Definition entry_pos (off : Z) : Z := if off =? -1 then p_offs else off.
(** The word of the entry is below the blob, or it is the address in the trailer. *)
Definition entry_fits (e : Z * Z) : Prop := -1 <= fst e /\ fst e + 4 <= b_offs.

Definition write_entry (t : Z) (d : bytes) (e : Z * Z) : bytes :=
  splice d (entry_pos (fst e)) (le_enc 4 (u32 (snd e + t))).
Definition write_entries (t : Z) (l : list (Z * Z)) (d : bytes) : bytes := foldl (write_entry t) d l.

Lemma entry_pos_range e : entry_fits e -> 0 <= entry_pos (fst e) /\ entry_pos (fst e) + 4 <= n /\
  (entry_pos (fst e) + 4 <= b_offs \/ p_offs <= entry_pos (fst e)).
Proof. intros [H1 H2]. unfold entry_pos. destruct (Z.eqb_spec (fst e) (-1)); lia. Qed.

Lemma splice_lookup d off s (i : nat) : 0 <= off -> off + len s <= len d ->
  splice d off s !! i =
  if (off <=? Z.of_nat i) && (Z.of_nat i <? off + len s) then s !! (i - Z.to_nat off)%nat else d !! i.
Proof.
  intros Ho Hl. unfold splice. unfold len in *.
  destruct (Z.leb_spec off (Z.of_nat i)) as [H1|H1]; cbn [andb].
  - rewrite lookup_app_r by (rewrite length_take; lia). rewrite length_take, Nat.min_l by lia.
    destruct (Z.ltb_spec (Z.of_nat i) (off + Z.of_nat (length s))) as [H2|H2].
    + by rewrite lookup_app_l by lia.
    + rewrite lookup_app_r by lia. rewrite lookup_drop. f_equal. lia.
  - rewrite lookup_app_l by (rewrite length_take; lia). by rewrite lookup_take_lt by lia.
Qed.

Lemma write_entry_ok t d e : bytes_ok d -> len d = n -> entry_fits e ->
  bytes_ok (write_entry t d e) /\ len (write_entry t d e) = n /\
  wr32 d (entry_pos (fst e)) (u32 (snd e + t)) = Ret (write_entry t d e).
Proof.
  intros Hb Hl He. destruct (entry_pos_range e He) as (H1 & H2 & _).
  destruct (wr32_ok d (entry_pos (fst e)) (u32 (snd e + t)) Hb) as (d' & E & Hb' & Hl' & ->); [lia|lia|].
  split; [done|]. split; [|done]. unfold write_entry. lia.
Qed.

Lemma write_entry_lookup t d e (i : nat) : len d = n -> entry_fits e ->
  write_entry t d e !! i =
  if (entry_pos (fst e) <=? Z.of_nat i) && (Z.of_nat i <? entry_pos (fst e) + 4)
  then le_enc 4 (u32 (snd e + t)) !! (i - Z.to_nat (entry_pos (fst e)))%nat else d !! i.
Proof.
  intros Hl He. destruct (entry_pos_range e He) as (H1 & H2 & _).
  unfold write_entry. by rewrite splice_lookup by (rewrite ?len_le_enc; lia).
Qed.

(** The blob and the trailer's tag are not written. *)
Lemma write_entry_blob t d e i : bytes_ok d -> len d = n -> entry_fits e -> b_offs <= i < p_offs ->
  rd (write_entry t d e) i = rd d i.
Proof.
  intros Hb Hl He Hi. destruct (write_entry_ok t d e Hb Hl He) as (_ & Hl' & _).
  destruct (entry_pos_range e He) as (H1 & H2 & H3).
  unfold rd. rewrite Hl', Hl, (write_entry_lookup t d e (Z.to_nat i) Hl He).
  destruct ((entry_pos (fst e) <=? Z.of_nat (Z.to_nat i)) && _) eqn:E; [|done].
  apply andb_true_iff in E as [?%Z.leb_le ?%Z.ltb_lt]. lia.
Qed.

(** Images that agree on the blob decode alike. *)
Definition same_blob (d d' : bytes) : Prop :=
  len d = n /\ len d' = n /\ forall i, b_offs <= i < p_offs -> rd d i = rd d' i.

Lemma rd_bytes_ext d d' off k : len d = n -> len d' = n -> 0 <= off -> 0 <= k -> off + k <= n ->
  (forall i, off <= i < off + k -> rd d i = rd d' i) -> rd_bytes d off k = rd_bytes d' off k.
Proof.
  intros Hl Hl' Ho Hk Hn' H. rewrite !rd_bytes_ok by lia. f_equal. apply list_eq. intros i.
  destruct (decide (Z.of_nat i < k)) as [Hi|Hi].
  - rewrite !slice_lookup by lia. specialize (H (off + Z.of_nat i) ltac:(lia)).
    destruct (rd_ok d (off + Z.of_nat i)) as (x & E & ->); [lia|].
    rewrite H in E. apply rd_Ret in E as [_ ->]. done.
  - pose proof (len_slice d off k Ho Hk ltac:(lia)) as L1.
    pose proof (len_slice d' off k Ho Hk ltac:(lia)) as L2. unfold len in L1, L2.
    rewrite !lookup_ge_None_2 by lia. done.
Qed.

Lemma decode_same d d' st p : same_blob d d' -> b_offs <= p < r_offs ->
  decode_in_memory d' st p = decode_in_memory d st p.
Proof.
  intros (Hl & Hl' & H) Hp. unfold decode_in_memory. rewrite <- (H p) by lia.
  destruct (rd d p) as [b0| |]; cbn [mbind outcome_bind]; [|done..].
  set (k := if negb _ then 2 else _).
  assert (2 <= k <= 8) as Hk by (subst k; destruct (negb _); [|destruct (negb _)]; lia). clearbody k.
  rewrite (rd_bytes_ext d' d) by (done || lia || (intros; symmetry; apply H; lia)). done.
Qed.

Lemma decodes_same d d' st p l e : same_blob d d' -> b_offs <= p ->
  decodes d r_offs st p l e -> decodes d' r_offs st p l e.
Proof.
  intros Hs Hp Hd. induction Hd as [st p Hend|st p off con st' p' l e Hlt Hdec _ IH]; [by constructor|].
  assert (p + 2 <= p' <= p + 8) as Hp'.
  { destruct Hs as (Hl & _). destruct (decode_in_memory_ok d st p) as (o & c & s & q & E & Hq); [lia|lia|].
    rewrite Hdec in E. injection E as -> -> -> ->. done. }
  econstructor; [done|rewrite (decode_same d d'); [exact Hdec|done|lia]|]. apply IH. lia.
Qed.

Lemma same_blob_refl d : len d = n -> same_blob d d.
Proof. by intros Hl. Qed.
Lemma same_blob_write t d d' e : bytes_ok d' -> same_blob d d' -> entry_fits e -> same_blob d (write_entry t d' e).
Proof.
  intros Hb (Hl & Hl' & H) He. destruct (write_entry_ok t d' e Hb Hl' He) as (_ & Hw & _).
  split; [done|]. split; [done|]. intros i Hi. by rewrite write_entry_blob, H.
Qed.

(** *** Applying the entries *)

Lemma infer_steady t : forall inf, mismatch inf = false -> (is_set inf = true -> candidate inf = t) ->
  mismatch (infer inf t) = false /\ is_set (infer inf t) = true /\ candidate (infer inf t) = t.
Proof.
  intros [c st m] Hm Hc. cbn in *. subst m. unfold infer. cbn. destruct st; cbn; [|done].
  rewrite Hc by done. by rewrite Z.eqb_refl.
Qed.

Lemma shift_of con t : INT_MIN <= t <= INT_MAX -> s32 (u32 (u32 (con + t) - con)) = t.
Proof. intros Ht. rewrite <- (s32_small t Ht) at 2. words. Qed.

Lemma rd32_written t d e : bytes_ok d -> len d = n -> entry_fits e ->
  rd32 (write_entry t d e) (entry_pos (fst e)) = Ret (u32 (snd e + t)).
Proof.
  intros Hb Hl He. destruct (entry_pos_range e He) as (H1 & H2 & _).
  destruct (write_entry_ok t d e Hb Hl He) as (Hb' & Hl' & _).
  destruct (rd32_ok (write_entry t d e) (entry_pos (fst e)) Hb') as [-> _]; [lia|lia|]. f_equal.
  unfold write_entry, splice. rewrite slice_mid.
  - rewrite le_val_enc. change (8 * Z.of_nat 4) with 32. apply Z.mod_small. apply u32_range.
  - rewrite len_take; lia.
  - by rewrite len_le_enc.
Qed.

Lemma mask_loop t l : INT_MIN <= t <= INT_MAX -> Forall entry_fits l -> forall fuel d st p e inf,
  bytes_ok d -> len d = n -> decodes d r_offs st p l e -> b_offs <= p -> r_offs - p < Z.of_nat fuel ->
  mismatch inf = false -> (is_set inf = true -> candidate inf = t) ->
  exists inf', retouch_loop fuel (Some t) p_offs r_offs b_offs d st inf p
    = Ret (write_entries t l d, Some (inf', e)) /\ mismatch inf' = false /\
    candidate inf' = (if is_set inf || negb (bool_decide (l = [])) then t else candidate inf).
Proof.
  intros Ht Hl. induction Hl as [|[off con] l Hfit Hl IH]; intros fuel d st p e inf Hb Hlen Hd Hp Hf Hm Hc;
    inversion Hd as [? ? Hend|? ? ? ? st' p' ? ? Hlt Hdec Hd']; subst.
  - exists inf. destruct fuel; cbn [retouch_loop]; rewrite (proj2 (Z.ltb_ge _ _)) by lia;
      (split; [done|]); (split; [done|]); destruct (is_set inf) eqn:Es; cbn; auto.
  - destruct fuel as [|fuel]; [lia|]. cbn [retouch_loop]. rewrite (proj2 (Z.ltb_lt _ _)) by lia.
    destruct (decode_in_memory_ok d st p) as (o & c & s & q & E & Hq); [lia|lia|].
    rewrite Hdec in E. injection E as <- <- <- <-. rewrite Hdec. cbn [mbind outcome_bind].
    pose proof Hfit as [Hf1 Hf2]. cbn [fst] in Hf1, Hf2.
    rewrite (proj2 (Z.ltb_ge off (-1))), (proj2 (Z.leb_gt b_offs off)) by lia. cbn [orb].
    fold (entry_pos off). destruct (write_entry_ok t d (off, con) Hb Hlen Hfit) as (Hb1 & Hl1 & Hw).
    cbn [fst snd] in Hw. rewrite Hw. cbn [mbind outcome_bind].
    pose proof (rd32_written t d (off, con) Hb Hlen Hfit) as Hr. cbn [fst snd] in Hr. rewrite Hr.
    cbn [mbind outcome_bind]. rewrite shift_of by done.
    destruct (infer_steady t inf Hm Hc) as (Hm' & Hs' & Hc').
    destruct (IH fuel (write_entry t d (off, con)) st' p' e (infer inf t)) as (inf' & E & Hmi & Hci); try done; try lia.
    { eapply decodes_same; [|lia|exact Hd']. apply same_blob_write; [done|by apply same_blob_refl|done]. }
    exists inf'. split; [exact E|]. split; [done|]. rewrite Hs' in Hci. cbn [orb] in Hci.
    rewrite Hci. cbn. by rewrite orb_true_r.
Qed.

(** The byte that the last write to index [i] leaves, if there is one. *)
Definition covers (e : Z * Z) (i : nat) : bool :=
  (entry_pos (fst e) <=? Z.of_nat i) && (Z.of_nat i <? entry_pos (fst e) + 4).
Definition written (t : Z) (e : Z * Z) (i : nat) : option Z :=
  le_enc 4 (u32 (snd e + t)) !! (i - Z.to_nat (entry_pos (fst e)))%nat.
Fixpoint last_write (t : Z) (l : list (Z * Z)) (i : nat) : option (option Z) :=
  match l with
  | [] => None
  | e :: l => match last_write t l i with
              | Some b => Some b
              | None => if covers e i then Some (written t e i) else None
              end
  end.

Lemma write_entries_ok t l : Forall entry_fits l -> forall d, bytes_ok d -> len d = n ->
  bytes_ok (write_entries t l d) /\ len (write_entries t l d) = n.
Proof.
  induction 1 as [|e l He _ IH]; intros d Hb Hl; [done|]. cbn.
  destruct (write_entry_ok t d e Hb Hl He) as (? & ? & _). by apply IH.
Qed.
Lemma write_entries_lookup t l i : Forall entry_fits l -> forall d, bytes_ok d -> len d = n ->
  write_entries t l d !! i = default (d !! i) (last_write t l i).
Proof.
  induction 1 as [|e l He _ IH]; intros d Hb Hl; [done|]. cbn [write_entries foldl last_write].
  destruct (write_entry_ok t d e Hb Hl He) as (Hb' & Hl' & _).
  change (write_entries t l (write_entry t d e) !! i = default (d !! i)
    (match last_write t l i with Some b => Some b | None => if covers e i then Some (written t e i) else None end)).
  rewrite IH by done. destruct (last_write t l i); [done|]. cbn [default].
  rewrite write_entry_lookup by done. unfold covers. by destruct (_ && _).
Qed.
Lemma last_write_None t t' l i : last_write t l i = None -> last_write t' l i = None.
Proof.
  induction l as [|e l IH]; cbn [last_write]; [done|].
  destruct (last_write t l i); [done|]. rewrite IH by done. by destruct (covers e i).
Qed.
Lemma write_entries_over t t' l d : Forall entry_fits l -> bytes_ok d -> len d = n ->
  write_entries t' l (write_entries t l d) = write_entries t' l d.
Proof.
  intros Hl Hb Hn'. destruct (write_entries_ok t l Hl d Hb Hn') as [Hb' Hn''].
  apply list_eq. intros i. rewrite !write_entries_lookup by done.
  destruct (last_write t' l i) eqn:E; [done|]. by rewrite (last_write_None t' t l i E).
Qed.

(** Entries whose words do not overlap. *)
Definition separate (l : list (Z * Z)) : Prop := forall e1 e2, e1 ∈ l -> e2 ∈ l ->
  Z.abs (entry_pos (fst e1) - entry_pos (fst e2)) < 4 -> e1 = e2.

Lemma last_write_separate t l e i : covers e i = true ->
  (forall e', e' ∈ l -> covers e' i = true -> e' = e) ->
  last_write t l i = (if decide (e ∈ l) then Some (written t e i) else None).
Proof.
  intros Hc. induction l as [|a l IH]; intros Hsame.
  { rewrite decide_False; [done|]. apply not_elem_of_nil. }
  cbn [last_write]. rewrite IH by (intros e' He'; apply Hsame; by apply list_elem_of_further).
  destruct (decide (e ∈ l)) as [Hin|Hin].
  - rewrite decide_True; [done|]. by apply list_elem_of_further.
  - destruct (covers a i) eqn:Ea.
    + rewrite (Hsame a (list_elem_of_here _ _) Ea). rewrite decide_True; [done|]. apply list_elem_of_here.
    + rewrite decide_False; [done|]. intros [<-|?]%elem_of_cons; congruence.
Qed.

Lemma rd32_separate t l e d : Forall entry_fits l -> separate l -> e ∈ l -> bytes_ok d -> len d = n ->
  rd32 (write_entries t l d) (entry_pos (fst e)) = Ret (u32 (snd e + t)).
Proof.
  intros Hl Hsep He Hb Hlen. destruct (write_entries_ok t l Hl d Hb Hlen) as [Hb' Hl'].
  assert (entry_fits e) as Hfit by (rewrite Forall_forall in Hl; by apply Hl, list_elem_of_In).
  destruct (entry_pos_range e Hfit) as (H1 & H2 & _).
  destruct (rd32_ok (write_entries t l d) (entry_pos (fst e)) Hb') as [-> _]; [lia|lia|]. f_equal.
  assert (slice (write_entries t l d) (entry_pos (fst e)) 4 = le_enc 4 (u32 (snd e + t))) as ->.
  { apply list_eq. intros j. destruct (decide (j < 4)%nat) as [Hj|Hj].
    - rewrite slice_lookup by lia. set (i := Z.to_nat (entry_pos (fst e) + Z.of_nat j)).
      assert (covers e i = true) as Hci.
      { unfold covers. subst i. rewrite andb_true_iff, Z.leb_le, Z.ltb_lt. lia. }
      rewrite write_entries_lookup by done. rewrite (last_write_separate t l e i Hci).
      + rewrite decide_True by done. cbn [default]. unfold written, id. subst i. f_equal. lia.
      + intros e' He' Hce'. apply Hsep; [done|done|]. unfold covers in Hci, Hce'.
        apply andb_true_iff in Hci as [?%Z.leb_le ?%Z.ltb_lt].
        apply andb_true_iff in Hce' as [?%Z.leb_le ?%Z.ltb_lt]. lia.
    - rewrite !lookup_ge_None_2; [done|rewrite length_le_enc; lia|].
      assert (len (slice (write_entries t l d) (entry_pos (fst e)) 4) = 4) as L4 by (apply len_slice; lia).
      unfold len in L4. lia. }
  rewrite le_val_enc. change (8 * Z.of_nat 4) with 32. apply Z.mod_small, u32_range.
Qed.

Lemma infer_loop t l : INT_MIN <= t <= INT_MAX -> Forall entry_fits l -> forall fuel d st p e inf,
  bytes_ok d -> len d = n -> decodes d r_offs st p l e -> b_offs <= p -> r_offs - p < Z.of_nat fuel ->
  (forall x, x ∈ l -> rd32 d (entry_pos (fst x)) = Ret (u32 (snd x + t))) ->
  mismatch inf = false -> (is_set inf = true -> candidate inf = t) ->
  exists inf', retouch_loop fuel None p_offs r_offs b_offs d st inf p = Ret (d, Some (inf', e)) /\
    mismatch inf' = false /\
    candidate inf' = (if is_set inf || negb (bool_decide (l = [])) then t else candidate inf).
Proof.
  intros Ht Hl. induction Hl as [|[off con] l Hfit Hl IH]; intros fuel d st p e inf Hb Hlen Hd Hp Hf Hrd Hm Hc;
    inversion Hd as [? ? Hend|? ? ? ? st' p' ? ? Hlt Hdec Hd']; subst.
  - exists inf. destruct fuel; cbn [retouch_loop]; rewrite (proj2 (Z.ltb_ge _ _)) by lia;
      (split; [done|]); (split; [done|]); destruct (is_set inf) eqn:Es; cbn; auto.
  - destruct fuel as [|fuel]; [lia|]. cbn [retouch_loop]. rewrite (proj2 (Z.ltb_lt _ _)) by lia.
    destruct (decode_in_memory_ok d st p) as (o & c & s & q & E & Hq); [lia|lia|].
    rewrite Hdec in E. injection E as <- <- <- <-. rewrite Hdec. cbn [mbind outcome_bind].
    pose proof Hfit as [Hf1 Hf2]. cbn [fst] in Hf1, Hf2.
    rewrite (proj2 (Z.ltb_ge off (-1))), (proj2 (Z.leb_gt b_offs off)) by lia. cbn [orb].
    fold (entry_pos off). pose proof (Hrd _ (list_elem_of_here (off, con) l)) as Hr. cbn [fst snd] in Hr.
    cbn [mbind outcome_bind]. rewrite Hr. cbn [mbind outcome_bind]. rewrite shift_of by done.
    destruct (infer_steady t inf Hm Hc) as (Hm' & Hs' & Hc').
    destruct (IH fuel d st' p' e (infer inf t)) as (inf' & E & Hmi & Hci); try done; try lia.
    { intros x Hx. apply Hrd. by apply list_elem_of_further. }
    exists inf'. split; [exact E|]. split; [done|]. rewrite Hs' in Hci. cbn [orb] in Hci.
    rewrite Hci. cbn. by rewrite orb_true_r.
Qed.
End image.

(** ** A retouched image *)

(** The trailer is there, the blob starts at [b_offs] and holds the entries [l], whose
    words fit below it. *)
Record retouched (d : bytes) (b_offs : Z) (l : list (Z * Z)) : Prop := {
  rt_bytes : bytes_ok d;
  rt_range : 0 <= b_offs <= len d - 20;
  rt_ptag : rd_bytes d (len d - 4) 4 = Ret (str "PRE ");
  rt_rtag : rd_bytes d (len d - 20) 8 = Ret (str "RETOUCH ");
  rt_size : rd32 d (len d - 12) = Ret (len d - 20 - b_offs);
  rt_blob : decodes d (len d - 20) init_compression_state b_offs l (len d - 20);
  rt_fits : Forall (entry_fits b_offs) l }.

Lemma retouch_mask_data_unfold d b_offs l desired : retouched d b_offs l -> len d < 2 ^ 31 ->
  forall d' inf, retouch_loop (length d) desired (len d - 8) (len d - 20) b_offs d init_compression_state
    (mkInf (default 0 desired) false false) b_offs = Ret (d', Some (inf, len d - 20)) ->
  mismatch inf = false ->
  retouch_mask_data d desired = Ret (RETOUCH_DATA_MATCHED, d', candidate inf).
Proof.
  intros [Hb Hr Hp Ht Hs _ _] Hmax d' inf Hloop Hm. unfold retouch_mask_data, PRELINK_INFO, RETOUCH_INFO.
  replace (len d - 8 - 12) with (len d - 20) by lia. rewrite (proj2 (Z.ltb_ge _ 0)) by lia.
  replace (len d - 8 + 4) with (len d - 4) by lia. rewrite Hp. cbn [mbind outcome_bind].
  rewrite bool_decide_true by done. rewrite Ht. cbn [mbind outcome_bind].
  rewrite bool_decide_true by done. cbn [negb orb].
  replace (len d - 20 + 8) with (len d - 12) by lia. rewrite Hs. cbn [mbind outcome_bind].
  replace (len d - 20 - (len d - 20 - b_offs)) with b_offs by lia.
  rewrite (u32_small b_offs), s32_small by (unfold INT_MIN, INT_MAX; lia).
  rewrite (proj2 (Z.ltb_ge b_offs 0)) by lia. rewrite Hloop. cbn [mbind outcome_bind].
  by rewrite Z.ltb_irrefl, Hm.
Qed.

Lemma rd_bytes_blob n b_offs t l d off k : len d = n -> 0 <= b_offs <= n - 20 -> bytes_ok d ->
  Forall (entry_fits b_offs) l -> b_offs <= off -> 0 <= k -> off + k <= n - 8 \/ n - 4 <= off -> off + k <= n ->
  rd_bytes (write_entries n t l d) off k = rd_bytes d off k.
Proof.
  intros Hl Hr Hb Hf Ho Hk Hside Hend.
  destruct (write_entries_ok n b_offs Hr t l Hf d Hb Hl) as [Hb' Hl'].
  apply (rd_bytes_ext n); try done; try lia. intros i Hi. unfold rd. rewrite Hl, Hl'.
  rewrite (write_entries_lookup n b_offs Hr t l (Z.to_nat i) Hf d Hb Hl).
  assert (last_write n t l (Z.to_nat i) = None) as ->; [|done].
  clear -Hf Hi Hr Ho Hside Hk. induction Hf as [|e l He _ IH]; [done|]. cbn [last_write]. rewrite IH.
  destruct (covers n e (Z.to_nat i)) eqn:E; [|done]. unfold covers in E.
  apply andb_true_iff in E as [?%Z.leb_le ?%Z.ltb_lt].
  destruct He as [He1 He2]. unfold entry_pos in *. destruct (Z.eqb_spec (fst e) (-1)); lia.
Qed.

Lemma retouched_write d b_offs l t : retouched d b_offs l ->
  retouched (write_entries (len d) t l d) b_offs l.
Proof.
  intros [Hb Hr Hp Ht Hs Hd Hf].
  destruct (write_entries_ok (len d) b_offs Hr t l Hf d Hb eq_refl) as [Hb' Hl'].
  pose proof (fun off k => rd_bytes_blob (len d) b_offs t l d off k eq_refl Hr Hb Hf) as Hrd.
  split; rewrite ?Hl'; try done.
  - rewrite Hrd by lia. done.
  - rewrite Hrd by lia. done.
  - unfold rd32 in *. rewrite Hrd by lia. done.
  - eapply (decodes_same (len d) b_offs Hr d); [|lia|done].
    clear Hp Ht Hs Hd Hrd Hb' Hl'.
    assert (forall d', bytes_ok d' -> same_blob (len d) b_offs d d' ->
      same_blob (len d) b_offs d (write_entries (len d) t l d')) as H.
    { induction Hf as [|e l He _ IH]; intros d' Hb1 Hs1; [done|]. cbn. apply IH.
      - apply (write_entry_ok (len d) b_offs Hr t d' e Hb1); [apply Hs1|done].
      - by apply same_blob_write. }
    apply H; [done|]. by apply same_blob_refl.
Qed.

(** ** Properties *)

Ltac found := do 3 eexists; split; [reflexivity|]; split; [first [assumption | by vm_compute | auto]|done].

Lemma retouch_mask_returns d desired (Hb : bytes_ok d) (Hmax : len d < 2 ^ 31) :
  exists r d' off, retouch_mask_data d desired = Ret (r, d', off) /\ 0 <= r <= 3 /\ len d' = len d.
Proof.
  pose proof (len_nonneg d) as Hnn. unfold retouch_mask_data, PRELINK_INFO, RETOUCH_INFO.
  assert (forall o : option Z, 0 <= match o with None => RETOUCH_DATA_NOTAPPLICABLE
    | Some _ => RETOUCH_DATA_MATCHED end <= 3) as Hnr by (intros [?|]; by vm_compute). specialize (Hnr desired).
  destruct (Z.ltb_spec (len d - 8 - 12) 0); [found|].
  rewrite (rd_bytes_ok d (len d - 8 + 4) 4) by lia. cbn [mbind outcome_bind].
  destruct (bool_decide (slice d (len d - 8 + 4) 4 = str "PRE ")); cbn [negb orb mbind outcome_bind];
    [|found].
  rewrite rd_bytes_ok by lia. cbn [mbind outcome_bind].
  destruct (bool_decide _); cbn [negb]; [|found].
  destruct (rd32_ok d (len d - 8 - 12 + 8) Hb) as [-> Hbs]; [lia|lia|]. cbn [mbind outcome_bind].
  set (bs := le_val _) in *. set (b_offs := s32 _).
  destruct (Z.ltb_spec b_offs 0); [found|].
  destruct (retouch_loop_safe desired (len d - 8) (len d - 8 - 12) b_offs (len d) (length d) d
    init_compression_state (mkInf (default 0 desired) false false) b_offs) as (d' & r & -> & _ & Hl');
    try done; try lia.
  { unfold len in *. lia. }
  cbn [mbind outcome_bind]. destruct r as [[inf p]|]; [|found].
  destruct (_ <? p); [found|]. destruct (mismatch inf); found.
Qed.

(** Claim C24.  The scan is memory safe and ends: for every image whatsoever, in either
    mode, [retouch_mask_data] returns one of its four codes and an image of the same
    size; no access leaves the image. *)
Theorem retouch_mask_safe d desired (Hb : bytes_ok d) (Hmax : len d < 2 ^ 31) :
  exists r d' off, retouch_mask_data d desired = Ret (r, d', off) /\ 0 <= r <= 3 /\ len d' = len d.
Proof. by apply retouch_mask_returns. Qed.

(** An image of four words below a blob with an 8-byte, a 2-byte and a 3-byte entry,
    and an entry for the trailer. *)
Definition demo_image : bytes :=
  le_enc 4 100 ++ le_enc 4 200 ++ le_enc 4 300 ++ le_enc 4 400 ++
  [0; 0; 0; 0; 0; 0; 0; 100] ++ [0x80; 100] ++ [0x40; 0; 100] ++ [0x3f; 0xff; 0xff; 0xff; 0; 0; 0; 7] ++
  str "RETOUCH " ++ le_enc 4 21 ++ le_enc 4 7 ++ str "PRE ".

Lemma retouch_mask_safe_witness :
  exists r d' off, retouch_mask_data demo_image (Some 5) = Ret (r, d', off) /\ 0 <= r <= 3 /\
    len d' = len demo_image.
Proof.
  apply (retouch_mask_safe demo_image (Some 5)).
  - apply bytes_okb_ok. by vm_compute.
  - by vm_compute.
Defined.

(** Claim C23.  Retouching is exact and reversible: applying a shift to a retouched image
    writes the original value plus the shift to every entry; applying a shift to the
    result gives what it would have given on the first image (so the same shift changes
    nothing, and a shift of zero undoes another one); and when the entries do not
    overlap the shift is inferred back. *)
Theorem retouch_mask_exact d b_offs l t (Hd : retouched d b_offs l) (Hmax : len d < 2 ^ 31)
    (Ht : INT_MIN <= t <= INT_MAX) :
  let d' := write_entries (len d) t l d in
  (exists off, retouch_mask_data d (Some t) = Ret (RETOUCH_DATA_MATCHED, d', off)) /\
  (forall t', INT_MIN <= t' <= INT_MAX -> exists off, retouch_mask_data d' (Some t') =
     Ret (RETOUCH_DATA_MATCHED, write_entries (len d) t' l d, off)) /\
  (separate (len d) l -> l <> [] -> retouch_mask_data d' None = Ret (RETOUCH_DATA_MATCHED, d', t)).
Proof.
  intros d'. pose proof (rt_range _ _ _ Hd) as Hr.
  pose proof (retouched_write d b_offs l t Hd) as Hd'. fold d' in Hd'.
  destruct (write_entries_ok (len d) b_offs Hr t l (rt_fits _ _ _ Hd) d (rt_bytes _ _ _ Hd) eq_refl) as [Hb' Hl'].
  fold d' in Hb', Hl'.
  assert (forall x t, INT_MIN <= t <= INT_MAX -> bytes_ok x -> len x = len d -> retouched x b_offs l ->
    exists inf, retouch_loop (length x) (Some t) (len x - 8) (len x - 20) b_offs x init_compression_state
      (mkInf t false false) b_offs = Ret (write_entries (len d) t l x, Some (inf, len x - 20)) /\
      mismatch inf = false) as Hloop.
  { intros x t1 Ht1 Hbx Hlx Hx. destruct (mask_loop (len d) b_offs Hr t1 l Ht1 (rt_fits _ _ _ Hx) (length x) x
      init_compression_state b_offs (len d - 20) (mkInf t1 false false)) as (inf & E & Hm & _);
      try done; try (unfold len in *; lia).
    - pose proof (rt_blob _ _ _ Hx) as Hdec. by rewrite Hlx in Hdec.
    - exists inf. by rewrite Hlx. }
  split_and!.
  - destruct (Hloop d t Ht (rt_bytes _ _ _ Hd) eq_refl Hd) as (inf & E & Hm). eexists.
    by apply (retouch_mask_data_unfold d b_offs l (Some t) Hd Hmax).
  - intros t' Ht'. destruct (Hloop d' t' Ht' Hb' Hl' Hd') as (inf & E & Hm). eexists.
    apply (retouch_mask_data_unfold d' b_offs l (Some t') Hd'); [lia| |exact Hm].
    cbn [default]. unfold id. rewrite E. subst d'.
    by rewrite (write_entries_over (len d) b_offs Hr t t' l d (rt_fits _ _ _ Hd) (rt_bytes _ _ _ Hd) eq_refl).
  - intros Hsep Hne.
    destruct (infer_loop (len d) b_offs Hr t l Ht (rt_fits _ _ _ Hd) (length d') d' init_compression_state
      b_offs (len d - 20) (mkInf 0 false false)) as (inf & E & Hm & Hc);
      try done; try (unfold len in *; lia).
    + pose proof (rt_blob _ _ _ Hd') as Hdec. by rewrite Hl' in Hdec.
    + intros x Hx. apply (rd32_separate (len d) b_offs Hr); [apply Hd|done|done|apply Hd|done].
    + rewrite (retouch_mask_data_unfold d' b_offs l None Hd' ltac:(lia) d' inf).
      * rewrite Hc, bool_decide_false by done. done.
      * rewrite Hl'. exact E.
      * done.
Qed.
Lemma demo_image_retouched :
  retouched demo_image 16 [(0, 100); (4, 200); (8, 300); (-1, 7)].
Proof.
  split; try (by vm_compute).
  - apply bytes_okb_ok. by vm_compute.
  - repeat (econstructor; [by vm_compute|by vm_compute|]). constructor. by vm_compute.
  - repeat constructor; by vm_compute.
Qed.
Lemma retouch_mask_exact_witness :
  retouch_mask_data (write_entries (len demo_image) 5 [(0, 100); (4, 200); (8, 300); (-1, 7)] demo_image) None =
  Ret (RETOUCH_DATA_MATCHED,
       write_entries (len demo_image) 5 [(0, 100); (4, 200); (8, 300); (-1, 7)] demo_image, 5).
Proof.
  apply (retouch_mask_exact demo_image 16 [(0, 100); (4, 200); (8, 300); (-1, 7)] 5 demo_image_retouched).
  - by vm_compute.
  - by vm_compute.
  - change (len demo_image) with 57. intros e1 e2 H1 H2. revert H2.
    repeat (apply elem_of_cons in H1 as [->|H1]); [..|by apply not_elem_of_nil in H1]; intros H2;
      (repeat (apply elem_of_cons in H2 as [->|H2]); [..|by apply not_elem_of_nil in H2]);
      cbn; try done; lia.
  - done.
Defined.
