(* ===== verification/FileSystem.v ===== *)
(** The world of [applypatch]: a file system, the answers of the system calls, and the
    history of file-system states.  Every change that a system call makes is one step
    of the history, so a property of all elements of the history is a property of every
    state in which the process can be interrupted. *)
From S2P Require Import Prelude CString.

(** A regular file (or a block device, which is read and written like one). *)
Record File := mkFile { content : bytes; mode : Z; uid : Z; gid : Z }.
#[export] Instance path_eq_dec : EqDecision bytes := _.
#[export] Instance path_countable : Countable bytes := _.
Abbreviation FS := (@gmap bytes path_eq_dec path_countable File).

(** [answers]: what the environment answers to the system calls to come; 0 is "done as
    asked", which is also the answer when the list is used up. *)
Record World := mkWorld { files : FS; answers : list Z; history : list FS }.

(** Computations keep the world also when they end in a fault. *)
Definition M (A : Type) : Type := World -> outcome A * World.
Definition ret {A} (a : A) : M A := fun w => (Ret a, w).
Definition lift {A} (m : outcome A) : M A := fun w => (m, w).
Definition bind {A B} (m : M A) (f : A -> M B) : M B := fun w =>
  match m w with
  | (Ret a, w) => f a w
  | (Fault, w) => (Fault, w)
  | (Diverge, w) => (Diverge, w)
  end.
Notation "'let*' x ':=' m 'in' k" := (bind m (fun x => k))
  (at level 200, x name, m at level 100, k at level 200) : recovery_scope.
Open Scope recovery_scope.

Definition ask : M Z := fun w =>
  match answers w with
  | [] => (Ret 0, w)
  | a :: l => (Ret a, mkWorld (files w) l (history w))
  end.
Definition get_files : M FS := fun w => (Ret (files w), w).
Definition change (f : FS -> FS) : M unit := fun w =>
  (Ret tt, mkWorld (f (files w)) (answers w) (history w ++ [f (files w)])).

Lemma bind_inv {A B} (m : M A) (f : A -> M B) w b w' :
  bind m f w = (Ret b, w') -> exists a w1, m w = (Ret a, w1) /\ f a w1 = (Ret b, w').
Proof. unfold bind. destruct (m w) as [[a| |] w1]; [|done..]. intros H. by exists a, w1. Qed.

(** ** System calls *)

Inductive Errno := ENOENT | EIO.

(** [stat]; [fopen] for reading and the [fread] of the whole file. *)
Definition sys_stat (path : bytes) : M (File + Errno) :=
  let* a := ask in
  let* fs := get_files in
  ret (if negb (a =? 0) then inr EIO else
       match fs !! path with Some f => inl f | None => inr ENOENT end).
Definition sys_read_file (path : bytes) : M (option bytes) :=
  let* a := ask in
  let* fs := get_files in
  ret (if negb (a =? 0) then None else option_map content (fs !! path)).

(** [open(path, O_WRONLY | O_CREAT | O_TRUNC, 0600)]: success? *)
Definition sys_create (path : bytes) : M bool :=
  let* a := ask in
  if negb (a =? 0) then ret false else
  let* u := change (fun fs => <[path := match fs !! path with
                                        | Some f => mkFile [] (mode f) (uid f) (gid f)
                                        | None => mkFile [] 0x180 0 0 end]> fs) in
  ret true.

(** [write] at the end of the open file [path]: the count, negative for an error. *)
Definition append_to (path data : bytes) (fs : FS) : FS :=
  alter (fun f => mkFile (content f ++ data) (mode f) (uid f) (gid f)) path fs.
Definition sys_write (path data : bytes) : M Z :=
  let* a := ask in
  if a <? 0 then ret (-1) else
  let n := if a =? 0 then len data else Z.min a (len data) in
  let* u := change (append_to path (take (Z.to_nat n) data)) in
  ret n.

(** [chmod], [chown], [rename], [unlink]: 0 or -1. *)
Definition sys_change (path : bytes) (f : FS -> FS) : M Z :=
  let* a := ask in
  let* fs := get_files in
  if negb (a =? 0) then ret (-1) else
  match fs !! path with
  | None => ret (-1)
  | Some _ => let* u := change f in ret 0
  end.
Definition sys_chmod (path : bytes) (m : Z) : M Z :=
  sys_change path (alter (fun f => mkFile (content f) m (uid f) (gid f)) path).
Definition sys_chown (path : bytes) (u g : Z) : M Z :=
  sys_change path (alter (fun f => mkFile (content f) (mode f) u g) path).
Definition sys_rename (from to : bytes) : M Z :=
  sys_change from (fun fs => match fs !! from with
                             | Some f => <[to := f]> (delete from fs)
                             | None => fs end).
Definition sys_unlink (path : bytes) : M Z := sys_change path (delete path).

(** ** Reasoning

    [triple I P m Q]: from a world in [P], every state that [m] goes through is in [I],
    and if it returns the result is in [Q]. *)
Definition triple {A : Type} (I : FS -> Prop) (P : World -> Prop) (m : M A) (Q : A -> World -> Prop) : Prop :=
  forall w, P w -> (forall a, (m w).1 = Ret a -> Q a (m w).2) /\
    exists hs, history (m w).2 = history w ++ hs /\ Forall I hs.

Section triples.
Context (I : FS -> Prop).

Lemma triple_return {A} (P : World -> Prop) (a : A) (Q : A -> World -> Prop) :
  (forall w, P w -> Q a w) -> triple I P (ret a) Q.
Proof.
  intros H w Hw. split; [intros ? [= <-]; by apply H|]. exists []. by rewrite app_nil_r.
Qed.

Lemma triple_bind {A B} P (m : M A) Q (f : A -> M B) R :
  triple I P m Q -> (forall a, triple I (Q a) (f a) R) -> triple I P (bind m f) R.
Proof.
  intros Hm Hf w Hw. destruct (Hm w Hw) as [H1 (hs & H2 & H3)]. unfold bind.
  destruct (m w) as [[a| |] w1]; cbn in *; [|split; [done|]; by exists hs..].
  destruct (Hf a w1 (H1 a eq_refl)) as [K1 (hs' & K2 & K3)]. split; [done|].
  exists (hs ++ hs'). rewrite K2, H2, app_assoc. split; [done|]. by apply Forall_app.
Qed.

Lemma triple_conseq {A} (P P' : World -> Prop) (m : M A) (Q Q' : A -> World -> Prop) :
  triple I P m Q -> (forall w, P' w -> P w) -> (forall a w, Q a w -> Q' a w) -> triple I P' m Q'.
Proof.
  intros H HP HQ w Hw. destruct (H w (HP w Hw)) as [H1 H2]. split; [|done]. intros a Ha. by apply HQ, H1.
Qed.

Lemma triple_pure {A} (P : World -> Prop) (F : Prop) (m : M A) Q :
  (F -> triple I P m Q) -> triple I (fun w => F /\ P w) m Q.
Proof. intros H w [HF Hw]. by apply H. Qed.

Lemma triple_lift {A} P (m : outcome A) : triple I P (lift m) (fun r w => m = Ret r /\ P w).
Proof. intros w Hw. split; [by intros a Ha|]. exists []. by rewrite app_nil_r. Qed.

(** Predicates on the files only are kept by questions to the environment. *)
Lemma triple_ask (P : FS -> Prop) : triple I (fun w => P (files w)) ask (fun _ w => P (files w)).
Proof.
  intros w Hw. unfold ask. destruct (answers w); cbn; (split; [by intros|]); exists [];
    by rewrite app_nil_r.
Qed.
Lemma triple_get_files (P : FS -> Prop) :
  triple I (fun w => P (files w)) get_files (fun fs w => files w = fs /\ P fs).
Proof. intros w Hw. cbn. split; [by intros ? [= <-]|]. exists []. by rewrite app_nil_r. Qed.
Lemma triple_change (P : FS -> Prop) f (Q : FS -> Prop) :
  (forall fs, P fs -> Q (f fs) /\ I (f fs)) ->
  triple I (fun w => P (files w)) (change f) (fun _ w => Q (files w)).
Proof.
  intros H w Hw. destruct (H _ Hw) as [HQ HI]. cbn. split; [by intros|]. exists [f (files w)].
  split; [done|]. by constructor.
Qed.
End triples.
