(* ===== verification/FreeCache.v ===== *)
(** [applypatch/freecache.c]: making room on /cache by deleting files there, and
    [FreeSpaceForFile], [CacheSizeCheck] of [applypatch/applypatch.c]. *)
From S2P Require Import Prelude CString FileSystem.

Definition CACHE_TEMP_SOURCE : bytes := str "/cache/saved.file".

(** [size_t FreeSpaceForFile(const char* filename)]: the answer to [statfs] is the
    number of free bytes (0 stands for 2^31 of them), or negative for a failure, which
    comes back as [(size_t) -1]; [f_bsize * f_bfree] is cut to 32 bits. *)
Definition FreeSpaceForFile : M Z :=
  let* a := ask in
  ret (if a <? 0 then u32 (-1) else if a =? 0 then 2 ^ 31 else u32 a).

Section freecache.
(** The names in a directory, in the order of [readdir] ([None]: it cannot be opened),
    and the targets of the links in /proc/*/fd. *)
Context (readdir : FS -> bytes -> option (list bytes)) (open_links : FS -> option (list bytes)).

(** [int EliminateOpenFiles(char** files, int file_count)]; NULL is [None]. *)
Definition eliminate (link : bytes) (names : list (option bytes)) : list (option bytes) :=
  (fun n => match n with
            | Some f => if strcmp f link =? 0 then None else Some f
            | None => None end) <$> names.
Definition EliminateOpenFiles (names : list (option bytes)) (fs : FS) : option (list (option bytes)) :=
  match open_links fs with
  | None => None
  | Some links =>
      Some (foldl (fun names link => if is_prefix (str "/cache/") link then eliminate link names else names)
              names links)
  end.

(** The body of the loop of lines 96-114 over the entries of one directory. *)
Fixpoint expendable_in (fs : FS) (dir : bytes) (entries : list bytes) : list bytes :=
  match entries with
  | [] => []
  | name :: entries =>
      let path := dir ++ str "/" ++ name in
      if strcmp path CACHE_TEMP_SOURCE =? 0 then expendable_in fs dir entries
      else match fs !! path with
           | Some _ => path :: expendable_in fs dir entries
           | None => expendable_in fs dir entries
           end
  end.
Definition deletable_dirs : list bytes := [str "/cache"; str "/cache/recovery/otatest"].
(** [int FindExpendableFiles(char*** names, int* entries)]; [None] is -1. *)
Definition FindExpendableFiles (fs : FS) : option (list (option bytes)) :=
  let names := concat ((fun dir => match readdir fs dir with
                                   | None => []
                                   | Some entries => expendable_in fs dir entries
                                   end) <$> deletable_dirs) in
  EliminateOpenFiles (Some <$> names) fs.

(** The deletion loop of lines 157-164: the free space at the end. *)
Fixpoint delete_loop (names : list (option bytes)) (free_now bytes_needed : Z) : M Z :=
  match names with
  | [] => ret free_now
  | n :: names =>
      if free_now <? bytes_needed then
        match n with
        | Some path =>
            let* u := sys_unlink path in
            let* free_now := FreeSpaceForFile in
            delete_loop names free_now bytes_needed
        | None => delete_loop names free_now bytes_needed
        end
      else ret free_now
  end.

(** [int MakeFreeSpaceOnCache(size_t bytes_needed)] *)
Definition MakeFreeSpaceOnCache (bytes_needed : Z) : M Z :=
  let* free_now := FreeSpaceForFile in
  if bytes_needed <=? free_now then ret 0 else
  let* fs := get_files in
  match FindExpendableFiles fs with
  | None => ret (-1)
  | Some names =>
      if (length names =? 0)%nat then ret (-1) else
      let* free_now := delete_loop names free_now bytes_needed in
      ret (if bytes_needed <=? free_now then 0 else -1)
  end.

(** [int CacheSizeCheck(size_t bytes)] *)
Definition CacheSizeCheck (bytes : Z) : M Z :=
  let* r := MakeFreeSpaceOnCache bytes in
  ret (if r <? 0 then 1 else 0).

(** ** What may be deleted *)

(** The file is directly in one of the two directories and is not the saved copy. *)
Definition expendable (path : bytes) : Prop :=
  path <> CACHE_TEMP_SOURCE /\ exists dir name, dir ∈ deletable_dirs /\ path = dir ++ str "/" ++ name.

Lemma strcmp_refl a : strcmp a a = 0.
Proof. induction a as [|x a IH]; cbn; [done|]. by rewrite Z.eqb_refl. Qed.

Lemma expendable_in_ok fs dir entries path : dir ∈ deletable_dirs ->
  path ∈ expendable_in fs dir entries -> expendable path.
Proof.
  intros Hd. induction entries as [|name entries IH]; cbn [expendable_in]; [by intros ?%not_elem_of_nil|].
  destruct (strcmp (dir ++ str "/" ++ name) CACHE_TEMP_SOURCE =? 0) eqn:E; [done|].
  destruct (fs !! _); [|done]. intros [->|Hin]%elem_of_cons; [|by apply IH].
  split; [|by exists dir, name]. intros Ep. rewrite Ep, strcmp_refl in E. done.
Qed.

Lemma eliminate_sub link names path : Some path ∈ eliminate link names -> Some path ∈ names.
Proof.
  intros (n & En & Hin)%list_elem_of_fmap. destruct n as [f|]; [|done].
  destruct (strcmp f link =? 0); [done|]. by injection En as ->.
Qed.
Lemma FindExpendableFiles_ok fs names path : FindExpendableFiles fs = Some names ->
  Some path ∈ names -> expendable path.
Proof.
  unfold FindExpendableFiles, EliminateOpenFiles. destruct (open_links fs) as [links|]; [|done].
  intros [= <-].
  assert (forall l, Some path ∈ foldl (fun names link => if is_prefix (str "/cache/") link
    then eliminate link names else names) l links -> Some path ∈ l) as Hsub.
  { induction links as [|k links IH]; intros l; [done|]. cbn [foldl]. intros H%IH.
    destruct (is_prefix _ k); [by apply eliminate_sub in H|done]. }
  intros (p & [= ->] & Hin)%Hsub%list_elem_of_fmap.
  apply elem_of_app in Hin as [Hin|[Hin|[]%not_elem_of_nil]%elem_of_app].
  - destruct (readdir fs (str "/cache")) as [entries|]; [|by apply not_elem_of_nil in Hin].
    eapply expendable_in_ok; [|exact Hin]. apply list_elem_of_here.
  - destruct (readdir fs (str "/cache/recovery/otatest")) as [entries|]; [|by apply not_elem_of_nil in Hin].
    eapply expendable_in_ok; [|exact Hin]. apply list_elem_of_further, list_elem_of_here.
Qed.

(** ** The triple *)

Section keeps.
Context (I P : FS -> Prop).
(** [P] survives the deletion of expendable files, and gives the invariant. *)
Context (HP : forall fs path, P fs -> expendable path -> P (delete path fs))
  (HI : forall fs, P fs -> I fs).
Abbreviation kept := (fun w => P (files w)).

Lemma triple_FreeSpace : triple I kept FreeSpaceForFile (fun _ => kept).
Proof.
  eapply triple_bind; [apply triple_ask|]. intros a.
  by apply triple_return.
Qed.
Lemma triple_unlink path : expendable path -> triple I kept (sys_unlink path) (fun _ => kept).
Proof.
  intros He. eapply triple_bind; [apply triple_ask|]. intros a.
  eapply triple_bind; [apply triple_get_files|]. intros fs.
  assert (forall r, triple I (fun w => files w = fs /\ P fs) (ret r) (fun (_ : Z) => kept)) as Hret.
  { intros r. apply triple_return. by intros w [-> ?]. }
  destruct (negb (a =? 0)); [apply Hret|]. destruct (fs !! path); [|apply Hret].
  eapply triple_bind.
  - eapply triple_conseq; [apply (triple_change I P (delete path) P)| |].
    + intros fs1 H1. split; [by eapply HP|]. apply HI. by eapply HP.
    + by intros w [-> ?].
    + done.
  - intros u. by apply triple_return.
Qed.
Lemma triple_delete_loop names : (forall path, Some path ∈ names -> expendable path) ->
  forall free needed, triple I kept (delete_loop names free needed) (fun _ => kept).
Proof.
  intros Hn. induction names as [|n names IH]; intros free needed; cbn [delete_loop].
  { by apply triple_return. }
  assert (forall path, Some path ∈ names -> expendable path) as Hn'.
  { intros path Hp. apply Hn. by apply list_elem_of_further. }
  destruct (free <? needed).
  - destruct n as [path|]; [|by apply IH].
    eapply triple_bind; [eapply triple_unlink, Hn, list_elem_of_here|]. intros u.
    eapply triple_bind; [apply triple_FreeSpace|]. intros f. by apply IH.
  - by apply triple_return.
Qed.
Lemma triple_MakeFreeSpace needed : triple I kept (MakeFreeSpaceOnCache needed) (fun _ => kept).
Proof.
  eapply triple_bind; [apply triple_FreeSpace|]. intros free.
  assert (forall r, triple I kept (ret r) (fun (_ : Z) => kept)) as Hret.
  { intros r. by apply triple_return. }
  destruct (needed <=? free); [apply Hret|].
  eapply triple_bind; [apply triple_get_files|]. intros fs.
  apply (triple_conseq I kept _ _ (fun _ => kept)); [|by intros w [-> ?]|done].
  destruct (FindExpendableFiles fs) as [names|] eqn:E; [|apply Hret].
  destruct (length names =? 0)%nat; [apply Hret|].
  eapply triple_bind; [|intros f; apply Hret].
  apply triple_delete_loop. intros path. by apply (FindExpendableFiles_ok fs).
Qed.
End keeps.
End freecache.

(** These calls always return. *)
Lemma unlink_returns path w : exists r, (sys_unlink path w).1 = Ret r.
Proof.
  unfold sys_unlink, sys_change, bind, ask. destruct (answers w) as [|a l]; cbn;
    [destruct (files w !! path); by eexists|].
  destruct (negb (a =? 0)); [by eexists|]. destruct (files w !! path); by eexists.
Qed.
Lemma FreeSpace_returns w : exists r, (FreeSpaceForFile w).1 = Ret r.
Proof. unfold FreeSpaceForFile, bind, ask. destruct (answers w); by eexists. Qed.
Lemma bind_returns {A B} (m : M A) (f : A -> M B) w :
  (exists r, (m w).1 = Ret r) -> (forall a w, exists r, (f a w).1 = Ret r) ->
  exists r, (bind m f w).1 = Ret r.
Proof. intros [r Hr] Hf. unfold bind. destruct (m w) as [o w1]. cbn in Hr. subst o. apply Hf. Qed.
Lemma delete_loop_returns names : forall free needed w, exists r, (delete_loop names free needed w).1 = Ret r.
Proof.
  induction names as [|[path|] names IH]; intros free needed w; cbn [delete_loop]; [by eexists|..];
    (destruct (free <? needed); [|by eexists]); [|apply IH].
  apply bind_returns; [apply unlink_returns|]. intros u w1.
  apply bind_returns; [apply FreeSpace_returns|]. intros f w2. apply IH.
Qed.
Lemma MakeFreeSpace_returns readdir open_links needed w :
  exists r, (MakeFreeSpaceOnCache readdir open_links needed w).1 = Ret r.
Proof.
  apply bind_returns; [apply FreeSpace_returns|]. intros f w1. destruct (needed <=? f); [by eexists|].
  apply bind_returns; [by eexists|]. intros fs w2.
  destruct (FindExpendableFiles readdir open_links fs) as [names|]; [|by eexists].
  destruct (length names =? 0)%nat; [by eexists|].
  apply bind_returns; [apply delete_loop_returns|]. intros f' w3. by eexists.
Qed.

(** ** Property *)

(** Claim C9.  Making room on /cache never touches the saved copy of a source file, nor
    any file outside the two directories it may clean: in every state that
    [MakeFreeSpaceOnCache] goes through, whatever the directories contain, whichever
    files are open and however the system calls answer, such a file is what it was. *)
Theorem make_free_space_keeps_saved_copy readdir open_links needed path w
    (Hpath : path = CACHE_TEMP_SOURCE \/ ~ expendable path) :
  let w' := (MakeFreeSpaceOnCache readdir open_links needed w).2 in
  files w' !! path = files w !! path /\
  exists hs, history w' = history w ++ hs /\ Forall (fun fs => fs !! path = files w !! path) hs.
Proof.
  intros w'. set (P := fun fs : FS => fs !! path = files w !! path).
  assert (~ expendable path) as Hne by (destruct Hpath as [->|]; [by intros [? _]|done]).
  assert (forall fs p, P fs -> expendable p -> P (delete p fs)) as HP.
  { intros fs p Hfs Hp. unfold P. rewrite lookup_delete_ne; [done|]. by intros ->. }
  destruct (triple_MakeFreeSpace readdir open_links P P HP (fun _ H => H) needed w eq_refl) as [H1 H2].
  fold w' in H1, H2. split; [|done].
  destruct (MakeFreeSpace_returns readdir open_links needed w) as [r Hr]. by apply (H1 r).
Qed.
Definition demo_cache : World :=
  mkWorld (<[CACHE_TEMP_SOURCE := mkFile [1; 2] 0 0 0]>
            (<[str "/cache/a" := mkFile [3] 0 0 0]> ∅)) [10] [].
Definition demo_readdir (fs : FS) (dir : bytes) : option (list bytes) := Some [str "a"; str "saved.file"].
Lemma make_free_space_keeps_saved_copy_witness :
  let w' := (MakeFreeSpaceOnCache demo_readdir (fun _ => Some []) 100 demo_cache).2 in
  files w' !! CACHE_TEMP_SOURCE = Some (mkFile [1; 2] 0 0 0) /\ files w' !! str "/cache/a" = None.
Proof.
  split; [|by vm_compute].
  apply (make_free_space_keeps_saved_copy demo_readdir (fun _ => Some []) 100 CACHE_TEMP_SOURCE demo_cache).
  by left.
Defined.
