(* ===== verification/Partition.v ===== *)
(** Partitions and digests of [applypatch/applypatch.c]: [ParseSha1],
    [FindMatchingPatch], [LoadPartitionContents] and [WriteToPartition].
    The MTD driver of [mtdutils] is an interface ([MtdOps]); an EMMC partition is a
    block device of the file system. *)
From Stdlib Require Import Sorting.Sorted.
From S2P Require Import Prelude Endian CString Mincrypt FileSystem.

(** ** Digests in hexadecimal *)

(** The digits of lines 534-542; other characters end the parse. *)
Definition hex_digit (c : Z) : option Z :=
  if (48 <=? c) && (c <=? 57) then Some (c - 48)
  else if (97 <=? c) && (c <=? 102) then Some (c - 97 + 10)
  else if (65 <=? c) && (c <=? 70) then Some (c - 65 + 10) else None.

(** [int ParseSha1(const char* str, uint8_t* digest)] with [n] bytes to go; [None] is -1. *)
Fixpoint parse_hex (n : nat) (ps : bytes) : option bytes :=
  match n with
  | O => match ps with [] => Some [] | _ => None end
  | S n =>
      match ps with
      | a :: b :: ps =>
          match hex_digit a, hex_digit b with
          | Some x, Some y =>
              match parse_hex n ps with
              | Some pd => Some (Z.lor (u8 (Z.shiftl x 4)) y :: pd)
              | None => None
              end
          | _, _ => None
          end
      | _ => None
      end
  end.

Section digests.
Context `{RsaOps}.

Definition ParseSha1 (s : bytes) : option bytes := parse_hex (Z.to_nat SHA_DIGEST_SIZE) (c_str s).

(** [int FindMatchingPatch(sha1, patch_sha1_str, num_patches)]: the index of the first
    match, or -1. *)
Fixpoint find_patch (sha1 : bytes) (patch_sha1_str : list bytes) (i : Z) : Z :=
  match patch_sha1_str with
  | [] => -1
  | s :: l => if bool_decide (ParseSha1 s = Some sha1) then i else find_patch sha1 l (i + 1)
  end.
Definition FindMatchingPatch (sha1 : bytes) (patch_sha1_str : list bytes) : Z :=
  find_patch sha1 patch_sha1_str 0.
End digests.

(** ** Names of partitions *)

(** The successive results of [strtok(s, ":")]: the non-empty pieces. *)
Fixpoint tokens_aux (s cur : bytes) : list bytes :=
  match s with
  | [] => match cur with [] => [] | _ => [cur] end
  | c :: s => if c =? 58 then match cur with [] => tokens_aux s [] | _ => cur :: tokens_aux s [] end
              else tokens_aux s (cur ++ [c])
  end.
Definition tokens (s : bytes) : list bytes := tokens_aux s [].
Definition colons (s : bytes) : Z := Z.of_nat (length (List.filter (fun c => c =? 58) s)).

Inductive PartitionType := MTD | EMMC.
Definition partition_type (magic : bytes) : option PartitionType :=
  if strcmp magic (str "MTD") =? 0 then Some MTD
  else if strcmp magic (str "EMMC") =? 0 then Some EMMC else None.

(** [strncmp(filename, "MTD:", 4) == 0 || strncmp(filename, "EMMC:", 5) == 0] *)
Definition is_partition_name (name : bytes) : bool :=
  is_prefix (str "MTD:") name || is_prefix (str "EMMC:") name.

(** ** The contents of a file or partition in memory *)

Record FileContents := mkContents {
  sha1 : bytes; data : option bytes; size : Z; st_mode : Z; st_uid : Z; st_gid : Z }.

(** [mtd_find_partition_by_name]; the data read from a partition; writing a whole
    partition, with the answer of the driver. *)
Class MtdOps := {
  mtd_read : FS -> bytes -> option bytes;
  mtd_write : bytes -> bytes -> M bool }.

Section partition.
Context (SHA : HashOps) `{RsaOps} `{MtdOps}.

(** The (size, sha1) pairs of lines 174-183; [None] is "return -1"; a missing piece is
    a NULL pointer that [strtol] reads, or a NULL [sha1sum]. *)
Fixpoint size_pairs (pairs : nat) (toks : list bytes) : outcome (option (list (Z * option bytes))) :=
  match pairs with
  | O => Ret (Some [])
  | S pairs =>
      match toks with
      | [] => Fault
      | size_str :: toks =>
          let sz := u32 (fst (strtol size_str)) in
          if sz =? 0 then Ret None else
          r ← size_pairs pairs (tl toks);
          match r with
          | None => Ret None
          | Some l => Ret (Some ((sz, head toks) :: l))
          end
      end
  end.

(** [qsort] of the indices with [compare_size_indices]: by increasing size. *)
Fixpoint insert_size (p : Z * option bytes) (l : list (Z * option bytes)) : list (Z * option bytes) :=
  match l with
  | [] => [p]
  | q :: l' => if fst p <=? fst q then p :: l else q :: insert_size p l'
  end.
Definition sort_sizes (l : list (Z * option bytes)) : list (Z * option bytes) := foldr insert_size [] l.

(** The loop of lines 233-283 on the device's bytes: the data read when a digest matched,
    otherwise ("return -1" there or in line 303) the [file->size] that is left. *)
Fixpoint partition_loop (pairs : list (Z * option bytes)) (dev so_far : bytes)
    (ctx : HASH_CTX (HashOps:=SHA)) : M ((bytes * HASH_CTX (HashOps:=SHA)) + Z) :=
  match pairs with
  | [] => ret (inr (len so_far))
  | (sz, sha1sum) :: pairs =>
      let next := u32 (sz - len so_far) in
      let* a := (if 0 <? next then ask else ret 0) in
      let read := if a =? 0 then slice dev (len so_far) next else [] in
      if (0 <? next) && negb (len read =? next) then ret (inr (len so_far)) else
      let ctx := if 0 <? next then hash_update ctx read else ctx in
      let so_far := so_far ++ read in
      match sha1sum with
      | None => lift Fault
      | Some s =>
          match ParseSha1 s with
          | None => ret (inr (len so_far))
          | Some parsed_sha =>
              if bool_decide (hash_final ctx = parsed_sha) then ret (inl (so_far, ctx))
              else partition_loop pairs dev so_far ctx
          end
      end
  end.

(** [file] with [file->data = NULL] and another [file->size]. *)
Definition no_data (file : FileContents) (n : Z) : FileContents :=
  mkContents (sha1 file) None n (st_mode file) (st_uid file) (st_gid file).

(** [int LoadPartitionContents(const char* filename, FileContents* file)]: the value and
    [*file], whose fields keep what they had when they are not set. *)
Definition LoadPartitionContents (filename : bytes) (file : FileContents) : M (Z * FileContents) :=
  let failed := no_data file (size file) in
  match tokens filename with
  | [] => lift Fault
  | magic :: toks =>
      match partition_type magic with
      | None => ret (-1, failed)
      | Some type =>
          let pairs := Z.to_nat (Z.quot (colons filename - 1) 2) in
          let* l := lift (size_pairs pairs (tl toks)) in
          match l with
          | None => ret (-1, failed)
          | Some l =>
              match head toks with
              | None => lift Fault
              | Some partition =>
                  let* fs := get_files in
                  let* a := ask in
                  match (if negb (a =? 0) then None else
                         match type with MTD => mtd_read fs partition
                                       | EMMC => option_map content (fs !! partition) end) with
                  | None => ret (-1, failed)
                  | Some dev =>
                      if (length l =? 0)%nat then lift Fault else
                      let* r := partition_loop (sort_sizes l) dev [] hash_init in
                      match r with
                      | inr n => ret (-1, no_data file n)
                      | inl (d, ctx) =>
                          ret (0, mkContents (hash_final ctx) (Some d) (len d) 0x1a4 0 0)
                      end
                  end
              end
          end
      end
  end.

(** ** Writing a partition *)

(** What the medium keeps of bytes written to it. *)
Context (store : World -> bytes -> bytes).

(** [write] to the device at offset [start]: the number written, -1 for EINTR, less for
    another error. *)
Definition dev_write (partition : bytes) (start : Z) (d : bytes) : M Z :=
  let* a := ask in
  if a <? 0 then ret a else
  let n := if a =? 0 then len d else Z.min a (len d) in
  fun w => (let* u := change (alter (fun f => mkFile (splice (content f) start (store w (take (Z.to_nat n) d)))
                                               (mode f) (uid f) (gid f)) partition) in
            ret n) w.

(** The loop of lines 436-451: [false] is "return -1". *)
Fixpoint write_loop (fuel : nat) (partition d : bytes) (start : Z) : M bool :=
  if start <? len d then
    match fuel with
    | O => lift Diverge
    | S fuel =>
        let to_write := Z.min (len d - start) (2 ^ 20) in
        let* written := dev_write partition start (slice d start to_write) in
        if written <? -1 then ret false else
        write_loop fuel partition d (start + if written <? 0 then 0 else written)
    end
  else ret true.

(** [read] from the device at [pos]: the bytes, or an error. *)
Definition dev_read (partition : bytes) (pos n : Z) : M (bytes + Z) :=
  let* a := ask in
  let* fs := get_files in
  if a <? 0 then ret (inr a) else
  let k := if a =? 0 then n else Z.min a n in
  ret (inl (slice (match fs !! partition with Some f => content f | None => [] end) pos k)).

(** The loop of lines 473-489: [None] is "return -1", otherwise the buffer. *)
Fixpoint read_loop (fuel : nat) (partition : bytes) (p to_read : Z) (buffer : bytes) : M (option bytes) :=
  if len buffer <? to_read then
    match fuel with
    | O => lift Diverge
    | S fuel =>
        let* r := dev_read partition (p + len buffer) (to_read - len buffer) in
        match r with
        | inr e => if e <? -1 then ret None else read_loop fuel partition p to_read buffer
        | inl b => read_loop fuel partition p to_read (buffer ++ b)
        end
    end
  else ret (Some buffer).

(** The verification of lines 464-496 from [p] on: [None] is "return -1", otherwise the
    value of [start]. *)
Fixpoint verify_loop (n fuel : nat) (partition d : bytes) (p : Z) : M (option Z) :=
  match n with
  | O => ret (Some (len d))
  | S n =>
      if p <? len d then
        let to_read := Z.min (len d - p) 4096 in
        let* b := read_loop fuel partition p to_read [] in
        match b with
        | None => ret None
        | Some buffer =>
            if bool_decide (buffer = slice d p to_read) then verify_loop n fuel partition d (p + 4096)
            else ret (Some p)
        end
      else ret (Some (len d))
  end.

(** The attempts of lines 434-503: [true] is success. *)
Fixpoint attempts (n fuel : nat) (partition d : bytes) (start : Z) : M bool :=
  match n with
  | O => ret false
  | S n =>
      let* ok := write_loop fuel partition d start in
      if negb ok then ret false else
      let* r := verify_loop (length d) fuel partition d 0 in
      match r with
      | None => ret false
      | Some start => if start =? len d then ret true else attempts n fuel partition d start
      end
  end.

(** [int WriteToPartition(unsigned char* data, size_t len, const char* target)] *)
Definition WriteToPartition (fuel : nat) (d target : bytes) : M Z :=
  match tokens target with
  | [] => lift Fault
  | magic :: toks =>
      match partition_type magic with
      | None => ret (-1)
      | Some type =>
          match head toks with
          | None => ret (-1)
          | Some partition =>
              match type with
              | MTD => let* ok := mtd_write partition d in ret (if ok : bool then 0 else -1)
              | EMMC =>
                  let* a := ask in
                  let* fs := get_files in
                  match (if negb (a =? 0) then None else fs !! partition) with
                  | None => ret (-1)
                  | Some _ =>
                      let* ok := attempts 2 fuel partition d 0 in
                      if negb ok then ret (-1) else
                      let* c := ask in
                      ret (if negb (c =? 0) then -1 else 0)
                  end
              end
          end
      end
  end.
End partition.

(** ** Digests *)

Definition hex_char (d : Z) : Z := if d <? 10 then 48 + d else 87 + d.
(** A digest in lower-case hexadecimal. *)
Definition hex (d : bytes) : bytes := concat ((fun b => [hex_char (b / 16); hex_char (b mod 16)]) <$> d).

Lemma hex_digit_char d : 0 <= d < 16 -> hex_digit (hex_char d) = Some d.
Proof.
  intros Hd. unfold hex_digit, hex_char. destruct (Z.ltb_spec d 10) as [H|H].
  - rewrite (proj2 (Z.leb_le 48 _)), (proj2 (Z.leb_le _ 57)) by lia. cbn [andb]. f_equal. lia.
  - rewrite (proj2 (Z.leb_gt (87 + d) 57)), andb_false_r by lia.
    rewrite (proj2 (Z.leb_le 97 _)), (proj2 (Z.leb_le _ 102)) by lia. cbn [andb]. f_equal. lia.
Qed.
Lemma parse_hex_hex d : bytes_ok d -> parse_hex (length d) (hex d) = Some d.
Proof.
  induction 1 as [|b d Hb _ IH]; [done|]. unfold hex. cbn [fmap list_fmap concat app length parse_hex].
  fold (hex d). assert (0 <= b / 16 < 16) as Hq.
  { split; [apply Z.div_pos; lia|]. apply Z.div_lt_upper_bound; lia. }
  pose proof (Z.mod_pos_bound b 16). rewrite !hex_digit_char by lia.
  change (parse_hex (length d) (concat _)) with (parse_hex (length d) (hex d)). rewrite IH. do 2 f_equal.
  rewrite u8_small by (rewrite shiftl_mul by lia; change (2 ^ 4) with 16; lia).
  rewrite shiftl_mul, lor_disjoint by (change (2 ^ 4) with 16; lia). change (2 ^ 4) with 16.
  pose proof (Z.div_mod b 16). lia.
Qed.
Lemma hex_nul_free d : bytes_ok d -> nul_free (hex d).
Proof.
  induction 1 as [|b d Hb _ IH]; [constructor|]. unfold hex. cbn.
  assert (forall x, 0 <= x -> 0 < hex_char x) as Hc by (intros x; unfold hex_char; destruct (x <? 10); lia).
  constructor; [apply Hc, Z.div_pos; lia|]. constructor; [apply Hc, Z.mod_pos_bound; lia|]. exact IH.
Qed.
Lemma c_str_id l : nul_free l -> c_str l = l.
Proof. induction 1 as [|c l Hc _ IH]; [done|]. cbn. rewrite (proj2 (Z.eqb_neq c 0)) by lia. by rewrite IH. Qed.
Lemma ParseSha1_hex `{RsaOps} d : bytes_ok d -> len d = SHA_DIGEST_SIZE -> ParseSha1 (hex d) = Some d.
Proof.
  intros Hd Hl. unfold ParseSha1. rewrite c_str_id by (by apply hex_nul_free).
  rewrite <- Hl. unfold len. rewrite Nat2Z.id. by apply parse_hex_hex.
Qed.

(** ** Verified writes *)

Section verified.
Context (partition d : bytes).
Definition dev_bytes (fs : FS) : bytes := match fs !! partition with Some f => content f | None => [] end.

Lemma slice_trunc l o k : slice l o (len (slice l o k)) = slice l o k.
Proof.
  unfold slice, len. rewrite Nat2Z.id, length_take. set (m := drop _ l).
  destruct (decide (Z.to_nat k <= length m)%nat) as [Hk|Hk]; [by rewrite Nat.min_l|].
  rewrite Nat.min_r by lia. rewrite !take_ge by lia. done.
Qed.
Lemma slice_extend l p a k : 0 <= p -> 0 <= a -> len (slice l p a) = a ->
  slice l p a ++ slice l (p + a) k = slice l p (a + len (slice l (p + a) k)).
Proof.
  intros Hp Ha Hl. rewrite (slice_split l p a) by (done || apply len_nonneg). f_equal.
  symmetry. apply slice_trunc.
Qed.
Lemma len_slice_le l o k : 0 <= k -> len (slice l o k) <= k.
Proof. intros. unfold slice, len. rewrite length_take. lia. Qed.

Lemma read_loop_ok p to_read fuel : 0 <= p -> forall buffer w b w',
  read_loop fuel partition p to_read buffer w = (Ret (Some b), w') ->
  buffer = slice (dev_bytes (files w)) p (len buffer) -> len buffer <= to_read ->
  files w' = files w /\ b = slice (dev_bytes (files w)) p to_read /\ len b = to_read.
Proof.
  intros Hp. induction fuel as [|fuel IH]; intros buffer w b w' H Hb Hl; cbn [read_loop] in H;
    (destruct (Z.ltb_spec (len buffer) to_read) as [Hlt|Hge];
     [|injection H as <- <-; assert (len buffer = to_read) as <- by lia; done]); [done|].
  unfold bind at 1, dev_read in H. unfold bind, ask in H.
  pose proof (len_nonneg buffer) as Hnn.
  assert (forall w1 k, files w1 = files w -> 0 <= k <= to_read - len buffer ->
    read_loop fuel partition p to_read (buffer ++ slice (dev_bytes (files w)) (p + len buffer) k) w1
      = (Ret (Some b), w') ->
    files w' = files w /\ b = slice (dev_bytes (files w)) p to_read /\ len b = to_read) as Hgo.
  { intros w1 k Hw1 Hk H1. pose proof (len_slice_le (dev_bytes (files w)) (p + len buffer) k ltac:(lia)).
    pose proof (len_nonneg (slice (dev_bytes (files w)) (p + len buffer) k)).
    apply IH in H1; [by rewrite Hw1 in H1| |rewrite len_app; lia].
    rewrite Hw1, len_app. rewrite Hb at 1. rewrite slice_extend; [|lia|lia|by rewrite <- Hb].
    done. }
  destruct (answers w) as [|a l]; cbn in H.
  - eapply (Hgo w (to_read - len buffer)); [done|lia|]. exact H.
  - destruct (Z.ltb_spec a 0) as [Hneg|Hpos]; cbn in H.
    + destruct (a <? -1); [done|]. apply IH in H; [|done|done]. done.
    + destruct (Z.eqb_spec a 0) as [->|Hne].
      * eapply (Hgo _ (to_read - len buffer)); [|lia|exact H]. done.
      * eapply (Hgo _ (Z.min a (to_read - len buffer))); [|lia|exact H]. done.
Qed.

Lemma verify_loop_ok fuel n : forall p w s w',
  verify_loop n fuel partition d p w = (Ret (Some s), w') -> 0 <= p ->
  len d <= p + 4096 * Z.of_nat n ->
  files w' = files w /\ (s = len d -> slice (dev_bytes (files w)) p (len d - p) = slice d p (len d - p)).
Proof.
  induction n as [|n IH]; intros p w s w' H Hp Hn; cbn [verify_loop] in H.
  - injection H as <- <-. split; [done|]. intros _. unfold slice.
    replace (Z.to_nat (len d - p)) with 0%nat by lia. done.
  - destruct (Z.ltb_spec p (len d)) as [Hlt|Hge].
    2: { injection H as <- <-. split; [done|]. intros _. unfold slice.
         replace (Z.to_nat (len d - p)) with 0%nat by lia. done. }
    unfold bind in H.
    destruct (read_loop fuel partition p (Z.min (len d - p) 4096) [] w) as [[[b|]| |] w1] eqn:Er; try done.
    apply read_loop_ok in Er as (Hf & Hb & Hl); [|done|by rewrite len_nil; unfold slice; cbn; rewrite take_0|rewrite len_nil; lia].
    case_bool_decide as Hm.
    + apply IH in H as [Hf' Hrest]; [|lia|lia]. rewrite Hf in *. split; [done|]. intros Hs.
      specialize (Hrest Hs). destruct (decide (len d - p <= 4096)) as [Hlast|Hmore].
      * replace (Z.min (len d - p) 4096) with (len d - p) in * by lia. by rewrite <- Hb.
      * replace (Z.min (len d - p) 4096) with 4096 in * by lia.
        replace (len d - p) with (4096 + (len d - (p + 4096))) by lia.
        rewrite !slice_split by lia. rewrite Hrest, <- Hb, Hm. done.
    + injection H as <- <-. split; [done|]. intros ->. lia.
Qed.

Context (store : World -> bytes -> bytes).

Lemma attempts_ok fuel n : forall start w w',
  attempts store n fuel partition d start w = (Ret true, w') -> slice (dev_bytes (files w')) 0 (len d) = d.
Proof.
  induction n as [|n IH]; intros start w w' H; cbn [attempts] in H; [done|]. unfold bind in H.
  destruct (write_loop store fuel partition d start w) as [[[]| |] w1]; cbn [negb] in H; try done.
  destruct (verify_loop (length d) fuel partition d 0 w1) as [[[s|]| |] w2] eqn:Ev; try done.
  apply verify_loop_ok in Ev as [Hf Hs]; [|lia|unfold len; lia].
  destruct (Z.eqb_spec s (len d)) as [->|]; [|by eapply IH].
  injection H as <-. rewrite Hf. rewrite Z.sub_0_r in Hs. rewrite Hs by done. apply slice_all.
Qed.
End verified.

(** ** Loading by size and digest *)

Section loading.
Context (SHA : HashOps) `{RsaOps} `{!HashLaws SHA}.

Definition sizes_sorted (l : list (Z * option bytes)) : Prop := StronglySorted (fun p q => fst p <= fst q) l.
Definition sizes_ok (l : list (Z * option bytes)) : Prop := Forall (fun p => 0 < fst p < 2 ^ 32) l.

Lemma insert_size_ok p l : sizes_sorted l -> sizes_sorted (insert_size p l) /\ insert_size p l ≡ₚ p :: l.
Proof.
  induction 1 as [|q l Hs IH Hq]; [split; [repeat constructor|done]|]. cbn [insert_size].
  destruct (Z.leb_spec (fst p) (fst q)) as [Hle|Hgt].
  - split; [|done]. constructor; [by constructor|]. constructor; [done|].
    revert Hq. apply Forall_impl. intros r. lia.
  - destruct IH as [Hs' Hp']. split.
    + constructor; [done|]. rewrite Hp'. constructor; [lia|done].
    + rewrite Hp'. constructor.
Qed.
Lemma sort_sizes_ok l : sizes_sorted (sort_sizes l) /\ sort_sizes l ≡ₚ l.
Proof.
  induction l as [|p l [Hs Hp]]; [by split; [constructor|]|]. cbn [sort_sizes foldr].
  destruct (insert_size_ok p (sort_sizes l) Hs) as [Hs' Hp']. split; [done|].
  change (insert_size p (sort_sizes l) ≡ₚ p :: l). by rewrite Hp', Hp.
Qed.

(** The pair describes a prefix of the device. *)
Definition pair_matches (dev : bytes) (p : Z * option bytes) : Prop :=
  exists s, snd p = Some s /\ ParseSha1 s = Some (digest (take (Z.to_nat (fst p)) dev)).

Lemma partition_loop_ok dev pairs : sizes_sorted pairs -> sizes_ok pairs ->
  forall so_far ctx w r w',
  partition_loop SHA pairs dev so_far ctx w = (Ret (inl r), w') ->
  so_far = take (length so_far) dev -> (length so_far <= length dev)%nat ->
  Forall (fun p => len so_far <= fst p) pairs ->
  (exists chunks, ctx = foldl hash_update hash_init chunks /\ concat chunks = so_far) ->
  exists pre p post, pairs = pre ++ p :: post /\ pair_matches dev p /\ Forall (fun q => ~ pair_matches dev q) pre /\
    fst r = take (Z.to_nat (fst p)) dev /\ len (fst r) = fst p /\ hash_final (snd r) = digest (fst r).
Proof.
  intros Hs. induction Hs as [|[sz s] pairs Hs IH Hmin]; intros Hok so_far ctx w r w' Hrun Hsf Hld Hle Hctx;
    cbn [partition_loop] in Hrun; [done|].
  inversion_clear Hok as [|? ? Hsz Hok']. inversion_clear Hle as [|? ? Hle1 Hle']. cbn [fst] in *.
  pose proof (len_nonneg so_far) as Hnn. rewrite u32_small in Hrun by lia.
  set (next := sz - len so_far) in *.
  apply bind_inv in Hrun as (a & w1 & Ha & Hrun).
  set (read := if a =? 0 then slice dev (len so_far) next else []) in *.
  destruct ((0 <? next) && negb (len read =? next)) eqn:Hshort; [done|].
  assert (len read = next) as Hread.
  { destruct (Z.ltb_spec 0 next) as [Hn|Hn]; cbn [andb] in Hshort.
    - apply negb_false_iff, Z.eqb_eq in Hshort. done.
    - subst read. destruct (a =? 0); [|rewrite len_nil; lia].
      pose proof (len_slice_le dev (len so_far) next). unfold slice in *.
      replace (Z.to_nat next) with 0%nat by lia. rewrite take_0, len_nil. lia. }
  assert (so_far ++ read = take (Z.to_nat sz) dev) as Happ.
  { subst read. destruct (a =? 0).
    - replace (Z.to_nat sz) with (length so_far + Z.to_nat next)%nat by (unfold len in *; lia).
      unfold slice, len. rewrite Nat2Z.id, <- take_take_drop, <- Hsf. done.
    - rewrite len_nil in Hread. rewrite app_nil_r. rewrite Hsf at 1. f_equal. unfold len in *. lia. }
  set (ctx' := if 0 <? next then hash_update ctx read else ctx) in *.
  assert (exists chunks, ctx' = foldl hash_update hash_init chunks /\ concat chunks = so_far ++ read) as Hctx'.
  { destruct Hctx as (chunks & -> & Hc). subst ctx'. destruct (Z.ltb_spec 0 next).
    - exists (chunks ++ [read]). rewrite foldl_app, concat_app, Hc. cbn. by rewrite app_nil_r.
    - exists chunks. split; [done|]. rewrite (len_0_nil read) by lia. by rewrite app_nil_r. }
  assert (hash_final ctx' = digest (so_far ++ read)) as Hdig.
  { destruct Hctx' as (chunks & -> & <-). apply hash_final_digest. }
  assert (len (so_far ++ read) = sz) as Hlen' by (rewrite len_app; lia).
  destruct s as [s|]; [|done]. destruct (ParseSha1 s) as [parsed|] eqn:Ep; [|done].
  case_bool_decide as Hm.
  - injection Hrun as <- <-. exists [], (sz, Some s), pairs. split; [done|]. cbn [fst snd].
    split; [exists s; split; [done|]; cbn [fst]; by rewrite Ep, <- Happ, <- Hdig, Hm|].
    split; [constructor|]. split; [done|]. split; [done|]. done.
  - destruct (IH Hok' (so_far ++ read) ctx' w1 r w' Hrun) as (pre & p & post & -> & Hp & Hpre & Hr).
    + rewrite Happ at 1. f_equal. unfold len in Hlen'. lia.
    + rewrite Happ, length_take. lia.
    + rewrite Hlen'. exact Hmin.
    + done.
    + exists ((sz, Some s) :: pre), p, post. split; [done|]. split; [done|]. split; [|done].
      constructor; [|done]. intros (s' & [= <-] & Hs'). cbn [fst] in Hs'. apply Hm.
      rewrite Hdig, Happ. congruence.
Qed.
End loading.

(** The bytes of the partition that a name designates. *)
Definition device `{MtdOps} (type : PartitionType) (fs : FS) (partition : bytes) : option bytes :=
  match type with MTD => mtd_read fs partition | EMMC => option_map content (fs !! partition) end.

Lemma size_pairs_ok n : forall toks l, size_pairs n toks = Ret (Some l) -> sizes_ok l.
Proof.
  induction n as [|n IH]; intros toks l; cbn [size_pairs]; [by intros [= <-]; constructor|].
  destruct toks as [|t toks]; [done|]. destruct (Z.eqb_spec (u32 (fst (strtol t))) 0) as [|Hne]; [done|].
  intros ([l'|] & E & E2)%bind_Ret; [|done]. injection E2 as <-. constructor; [|by eapply IH].
  cbn [fst]. pose proof (u32_range (fst (strtol t))). lia.
Qed.

(** ** Properties *)

(** Digests of twenty bytes, no MTD, and a device. *)
Definition demo_sizes : RsaOps :=
  {| RSANUMBYTES := 256; RSANUMWORDS := 64; SHA_DIGEST_SIZE := 20; SHA256_DIGEST_SIZE := 32;
     RSA_verify _ _ _ _ := false |}.
Definition no_mtd : MtdOps := {| mtd_read _ _ := None; mtd_write _ _ := ret false |}.
Definition demo_data : bytes := [1; 2; 3; 4; 5; 6; 7; 8; 9; 10; 11; 12; 13; 14; 15; 16; 17; 18; 19; 255].
Definition demo_hex : bytes := str "0102030405060708090a0b0c0d0e0f10111213ff".
Definition demo_device : World := mkWorld (<[str "/dev/p" := mkFile (demo_data ++ [3; 4]) 0 0 0]> ∅) [] [].


(** Claim C14.  Loading a partition loads a prefix that is described by its name, and the
    smallest one: on success the data is the prefix of the partition whose size and
    digest are one of the pairs of the name, no pair with a smaller size matches, and
    the recorded digest is the digest of the data. *)
Theorem load_partition_smallest_match (SHA : HashOps) `{RsaOps} `{MtdOps} `{!HashLaws SHA} filename file w fc w'
    (Hrun : LoadPartitionContents SHA filename file w = (Ret (0, fc), w')) :
  exists magic partition rest type l dev p,
    tokens filename = magic :: partition :: rest /\ partition_type magic = Some type /\
    size_pairs (Z.to_nat (Z.quot (colons filename - 1) 2)) rest = Ret (Some l) /\
    device type (files w) partition = Some dev /\ p ∈ l /\ pair_matches SHA dev p /\
    data fc = Some (take (Z.to_nat (fst p)) dev) /\ size fc = fst p /\
    sha1 fc = digest (take (Z.to_nat (fst p)) dev) /\
    forall q, q ∈ l -> pair_matches SHA dev q -> fst p <= fst q.
Proof.
  unfold LoadPartitionContents in Hrun. destruct (tokens filename) as [|magic toks] eqn:Et; [done|].
  destruct (partition_type magic) as [type|] eqn:Ety; [|done].
  apply bind_inv in Hrun as (ol & w1 & E1 & Hrun). injection E1 as E1 <-.
  destruct ol as [l|]; [|done]. destruct toks as [|partition rest]; [done|]. cbn [head tl] in *.
  apply bind_inv in Hrun as (fs & w1 & E2 & Hrun). injection E2 as <- <-.
  apply bind_inv in Hrun as (a & w1 & E3 & Hrun).
  destruct (negb (a =? 0)); [done|]. fold (device type (files w) partition) in Hrun.
  destruct (device type (files w) partition) as [dev|] eqn:Ed; [|done].
  destruct (length l =? 0)%nat; [done|].
  apply bind_inv in Hrun as ([r|] & w2 & E4 & Hrun); [|done].
  destruct (sort_sizes_ok l) as [Hs Hp].
  assert (sizes_ok (sort_sizes l)) as Hok by (unfold sizes_ok; rewrite Hp; by eapply size_pairs_ok).
  destruct (partition_loop_ok SHA dev (sort_sizes l) Hs Hok [] hash_init w1 r w2 E4)
    as (pre & p & post & El & Hm & Hpre & Hd & Hlen & Hsha); [done|cbn; lia| |by exists []|].
  { revert Hok. apply Forall_impl. intros q. rewrite len_nil. lia. }
  destruct r as [d ctx]. injection Hrun as <- _. cbn [fst snd data size sha1] in *. subst d.
  exists magic, partition, rest, type, l, dev, p. split_and!; try done.
  - rewrite <- Hp, El. apply elem_of_app. right. apply list_elem_of_here.
  - intros q Hq Hqm. rewrite <- Hp, El in Hq. apply elem_of_app in Hq as [Hq|Hq].
    + exfalso. rewrite Forall_forall in Hpre. apply (Hpre q); [by apply list_elem_of_In|done].
    + apply elem_of_cons in Hq as [->|Hq]; [done|].
      unfold sizes_sorted in Hs. rewrite El in Hs. clear -Hs Hq. induction pre as [|x pre IH]; cbn in Hs.
      * inversion_clear Hs as [|? ? _ Hall]. rewrite Forall_forall in Hall. by apply Hall, list_elem_of_In.
      * inversion_clear Hs. by apply IH.
Qed.
Lemma load_partition_smallest_match_witness :
  exists p, pair_matches plain_hash (H:=demo_sizes) (demo_data ++ [3; 4]) p /\ fst p = 20.
Proof.
  destruct (load_partition_smallest_match (H:=demo_sizes) (H0:=no_mtd) plain_hash
    (str "EMMC:/dev/p:21:" ++ demo_hex ++ str ":20:" ++ demo_hex)
    (mkContents [] None 0 0 0 0) demo_device
    (mkContents demo_data (Some demo_data) 20 0x1a4 0 0) demo_device)
    as (magic & partition & rest & type & l & dev & p & H1 & H2 & H3 & H4 & H5 & H6 & H7 & H8 & _).
  - by vm_compute.
  - vm_compute in H1. injection H1 as <- <- <-. vm_compute in H2. injection H2 as <-.
    vm_compute in H4. injection H4 as <-. by exists p.
Defined.

(** Claim C13.  A partition write that reports success was verified: when
    [WriteToPartition] returns 0 for an EMMC partition, the device starts with exactly
    the data, whatever the medium did with each write and however the system calls
    split or interrupted the transfers. *)
Theorem write_to_partition_verified `{MtdOps} store fuel d target w w' magic partition rest
    (Ht : tokens target = magic :: partition :: rest) (Hm : partition_type magic = Some EMMC)
    (Hrun : WriteToPartition store fuel d target w = (Ret 0, w')) :
  slice (dev_bytes partition (files w')) 0 (len d) = d.
Proof.
  unfold WriteToPartition in Hrun. rewrite Ht, Hm in Hrun. cbn [head] in Hrun.
  apply bind_inv in Hrun as (a & w1 & E1 & Hrun). apply bind_inv in Hrun as (fs & w2 & E2 & Hrun).
  destruct (if negb (a =? 0) then None else fs !! partition); [|done].
  apply bind_inv in Hrun as (ok & w3 & E3 & Hrun). destruct ok; [|done]. cbn [negb] in Hrun.
  apply bind_inv in Hrun as (c & w4 & E4 & Hrun). injection Hrun as _ <-.
  apply attempts_ok in E3.
  assert (files w4 = files w3) as ->; [|done].
  unfold ask in E4. destruct (answers w3); injection E4 as <- <-; done.
Qed.
(** A device that drops the second byte of its first write. *)
Definition flaky_store (w : World) (b : bytes) : bytes :=
  if (length (history w) =? 0)%nat then <[1%nat := 0]> b else b.
Lemma write_to_partition_verified_witness :
  slice (dev_bytes (str "/dev/p")
    (files (WriteToPartition (H0:=no_mtd) flaky_store 100 [7; 8; 9] (str "EMMC:/dev/p") demo_device).2)) 0 3
  = [7; 8; 9].
Proof.
  apply (write_to_partition_verified (H:=no_mtd) flaky_store 100 [7; 8; 9] (str "EMMC:/dev/p") demo_device _
    (str "EMMC") (str "/dev/p") []); by vm_compute.
Defined.
