(* ===== verification/ApplyPatch.v ===== *)
(** [applypatch/applypatch.c]: loading and saving files, the sinks, [applypatch_check],
    [applypatch] and [GenerateTarget], on the world of [FileSystem]. *)
From S2P Require Import Prelude Endian CString Value Mincrypt BsPatch ImgPatch Retouch FileSystem.
From S2P Require Import FreeCache Partition.

Section applypatch.
Context (SHA : HashOps) `{RsaOps} `{MtdOps} `{BzOps} `{ZlibOps}.
(** [malloc], fuel for the loops over streams, what the directories and /proc list, and
    what a block device keeps of a write. *)
Context (malloc : Z -> option bytes) (fuel : nat).
Context (readdir : FS -> bytes -> option (list bytes)) (open_links : FS -> option (list bytes)).
Context (store : World -> bytes -> bytes).
(** The indeterminate contents of the automatic [FileContents] objects. *)
Context (uninit : FileContents).
Abbreviation ctx_t := (HASH_CTX (HashOps:=SHA)).

Definition ENOENT_ : Z := 2.
(** [SHA_hash(data, size, sha1)] *)
Definition SHA_hash (d : bytes) : bytes := hash_final (hash_update hash_init d).

(** [int LoadFileContents(const char* filename, FileContents* file, int retouch_flag)]: the
    value and [*file]. *)
Definition LoadFileContents (filename : bytes) (file : FileContents) (retouch_flag : bool)
    : M (Z * FileContents) :=
  if is_partition_name filename then LoadPartitionContents SHA filename file else
  let* st := sys_stat filename in
  match st with
  | inr ENOENT => ret (- ENOENT_, no_data file (size file))
  | inr EIO => ret (-1, no_data file (size file))
  | inl f =>
      let failed := mkContents (sha1 file) None (len (content f)) (mode f) (uid f) (gid f) in
      let* r := sys_read_file filename in
      match r with
      | None => ret (-1, failed)
      | Some d =>
          let* m := (if retouch_flag then
                       let* x := lift (retouch_mask_data d (Some 0)) in
                       ret (if fst (fst x) =? RETOUCH_DATA_MATCHED then Some (snd (fst x)) else None)
                     else ret (Some d)) in
          match m with
          | None => ret (-1, failed)
          | Some d => ret (0, mkContents (SHA_hash d) (Some d) (len (content f)) (mode f) (uid f) (gid f))
          end
      end
  end.

(** ** Sinks *)

(** The loop of [ssize_t FileSink(data, len, token)] on the open file [path]: [done]
    bytes are written. *)
Fixpoint FileSink_loop (n : nat) (path d : bytes) (done : Z) : M Z :=
  if done <? len d then
    match n with
    | O => lift Diverge
    | S n =>
        let* wrote := sys_write path (slice d done (len d - done)) in
        if wrote <=? 0 then ret done else FileSink_loop n path d (done + wrote)
    end
  else ret done.
Definition FileSink (path d : bytes) (w : World) : Z * World :=
  match FileSink_loop (length d) path d 0 w with
  | (Ret n, w) => (n, w)
  | (_, w) => (0, w)
  end.

(** [MemorySinkInfo] and [ssize_t MemorySink(data, len, token)] *)
Record MemorySinkInfo := mkMsi { buffer : bytes; msi_size : Z; msi_pos : Z }.
Definition MemorySink (d : bytes) (msi : MemorySinkInfo) : Z * MemorySinkInfo :=
  if msi_size msi - msi_pos msi <? len d then (-1, msi)
  else (len d, mkMsi (splice (buffer msi) (msi_pos msi) d) (msi_size msi) (msi_pos msi + len d)).

(** [int SaveFileContents(const char* filename, const FileContents* file)].  Writing from
    a NULL pointer fails. *)
Definition SaveFileContents (filename : bytes) (file : FileContents) : M Z :=
  let* fd := sys_create filename in
  if negb fd then ret (-1) else
  let* written := (match data file with
                   | Some d => fun w => let '(n, w) := FileSink filename d w in (Ret n, w)
                   | None => ret 0 end) in
  if negb (written =? size file) then ret (-1) else
  let* r := sys_chmod filename (st_mode file) in
  if negb (r =? 0) then ret (-1) else
  let* r := sys_chown filename (st_uid file) (st_gid file) in
  ret (if negb (r =? 0) then -1 else 0).

(** ** [applypatch_check] *)

Definition applypatch_check (filename : bytes) (patch_sha1_str : list bytes) : M Z :=
  let* l := LoadFileContents filename uninit true in
  let '(filestate, file) := l in
  if filestate =? - ENOENT_ then ret (- ENOENT_) else
  if negb (filestate =? 0) ||
     ((0 <? Z.of_nat (length patch_sha1_str)) && (FindMatchingPatch (sha1 file) patch_sha1_str <? 0)) then
    let* l := LoadFileContents CACHE_TEMP_SOURCE file true in
    let '(r, file) := l in
    if negb (r =? 0) then ret 1 else
    if FindMatchingPatch (sha1 file) patch_sha1_str <? 0 then ret 1 else ret 0
  else ret 0.

(** ** [GenerateTarget] *)

Definition has_magic (p : Value) (magic : bytes) : bool :=
  (8 <=? vsize p) && bool_decide (slice (vdata p) 0 8 = magic).

(** Lines 956-974: the patch is applied through a sink; [None] is "unknown format". *)
Definition apply_to_sink {Token} (sink : bytes -> Token -> Z * Token) (source : bytes) (source_size : Z)
    (patch : Value) (bonus_data : option Value) (token : Token) (ctx : ctx_t)
    : outcome (option (Z * Token * ctx_t)) :=
  if has_magic patch bsdiff_magic then
    r ← ApplyBSDiffPatch sink SHA malloc fuel (mkOld source 0 source_size) patch 0 token ctx; Ret (Some r)
  else if has_magic patch imgdiff_magic then
    r ← ApplyImagePatch sink SHA malloc fuel (mkOld source 0 source_size) patch token ctx bonus_data; Ret (Some r)
  else Ret None.

Inductive Output := OutFile (outname : bytes) | OutMemory (msi : MemorySinkInfo).
(** How a round of the loop ends: the function returns, the loop is left, or it goes on. *)
Inductive Round :=
| Return (r : Z)
| Done (out : Output) (ctx : ctx_t) (made_copy : bool)
| Again (made_copy : bool).

(** The inputs that do not change. *)
Record Job := mkJob {
  source_file : FileContents; source_patch : option Value;
  copy_file : FileContents; copy_patch : option Value;
  source_filename : bytes; target_filename : bytes; target_sha1 : bytes; target_size : Z;
  bonus : option Value }.

(** Lines 837-907: make room, save the source; [None] is "return 1", otherwise
    [made_copy] and [retry]. *)
Definition make_room (j : Job) (retry : Z) (made_copy : bool) : M (option (bool * Z)) :=
  let backup :=
    let* r := MakeFreeSpaceOnCache readdir open_links (u32 (size (source_file j))) in
    if r <? 0 then ret false else
    let* r := SaveFileContents CACHE_TEMP_SOURCE (source_file j) in
    ret (negb (r <? 0)) in
  if is_partition_name (target_filename j) then
    let* ok := backup in
    ret (if ok : bool then Some (true, 0) else None)
  else
    let* enough_space :=
      (if 0 <? retry then
         let* free_space := FreeSpaceForFile in
         ret ((2 ^ 18 <? free_space) && (u32 (target_size j * 3) / 2 <? free_space))
       else ret false) in
    let retry := if enough_space : bool then retry else 0 in
    if negb enough_space && (match source_patch j with Some _ => true | None => false end) then
      if is_partition_name (source_filename j) then ret None else
      let* ok := backup in
      if negb ok then ret None else
      let* u := sys_unlink (source_filename j) in
      let* f := FreeSpaceForFile in
      ret (Some (true, retry))
    else ret (Some (made_copy, retry)).

(** The source and the patch that are used (lines 909-916). *)
Definition source_to_use (j : Job) : FileContents :=
  match source_patch j with Some _ => source_file j | None => copy_file j end.
Definition patch_to_use (j : Job) : option Value :=
  match source_patch j with Some p => Some p | None => copy_patch j end.
Definition outname (j : Job) : bytes := target_filename j ++ str ".patch".

(** Lines 981-994: what follows the application of the patch. *)
Definition after_apply (j : Job) (retry result : Z) (out : Output) (ctx : ctx_t) (made_copy : bool) : M Round :=
  if negb (result =? 0) then
    if retry =? 0 then ret (Return 1) else
    let* u := (match out with OutFile n => sys_unlink n | OutMemory _ => ret 0 end) in
    ret (Again made_copy)
  else ret (Done out ctx made_copy).

(** Lines 909-994: apply the patch, into memory for a partition and into [outname] for
    a file. *)
Definition apply_round (j : Job) (retry : Z) (made_copy : bool) : M Round :=
  match patch_to_use j, data (source_to_use j) with
  | Some patch, Some source =>
      if negb (vtype patch =? VAL_BLOB) then ret (Return 1) else
      if is_partition_name (target_filename j) then
        match malloc (target_size j) with
        | None => ret (Return 1)
        | Some b =>
            let* r := lift (apply_to_sink MemorySink source (size (source_to_use j)) patch (bonus j)
                              (mkMsi b (target_size j) 0) hash_init) in
            match r with
            | None => ret (Return 1)
            | Some (result, msi, ctx) => after_apply j retry result (OutMemory msi) ctx made_copy
            end
        end
      else
        let* fd := sys_create (outname j) in
        if negb fd then ret (Return 1) else
        let* r := (fun w => match apply_to_sink (FileSink (outname j)) source (size (source_to_use j))
                                    patch (bonus j) w hash_init with
                            | Ret (Some (result, w, ctx)) => (Ret (Some (result, ctx)), w)
                            | Ret None => (Ret None, w)
                            | Fault => (Fault, w)
                            | Diverge => (Diverge, w) end) in
        match r with
        | None => ret (Return 1)
        | Some (result, ctx) => after_apply j retry result (OutFile (outname j)) ctx made_copy
        end
  | _, _ => lift Fault
  end.

(** One round of the loop of lines 836-995. *)
Definition round (j : Job) (retry : Z) (made_copy : bool) : M Round :=
  let* room := make_room j retry made_copy in
  match room with
  | None => ret (Return 1)
  | Some (made_copy, retry) => apply_round j retry made_copy
  end.

(** Lines 997-1040: check the digest and put the output in place. *)
Definition finish (j : Job) (out : Output) (ctx : ctx_t) (made_copy : bool) : M Z :=
  if negb (bool_decide (hash_final ctx = target_sha1 j)) then ret 1 else
  let* ok :=
    (match out with
     | OutMemory msi =>
         let* r := WriteToPartition store fuel (take (Z.to_nat (msi_pos msi)) (buffer msi)) (target_filename j) in
         ret (r =? 0)
     | OutFile n =>
         let* r := sys_chmod n (st_mode (source_to_use j)) in
         if negb (r =? 0) then ret false else
         let* r := sys_chown n (st_uid (source_to_use j)) (st_gid (source_to_use j)) in
         if negb (r =? 0) then ret false else
         let* r := sys_rename n (target_filename j) in
         ret (r =? 0)
     end) in
  if negb ok then ret 1 else
  let* u := (if made_copy then sys_unlink CACHE_TEMP_SOURCE else ret 0) in
  ret 0.

(** [int GenerateTarget(...)]; the loop runs at most twice. *)
Definition GenerateTarget (j : Job) : M Z :=
  let* r := round j 1 false in
  match r with
  | Return r => ret r
  | Done out ctx made_copy => finish j out ctx made_copy
  | Again made_copy =>
      let* r := round j 0 made_copy in
      match r with
      | Return r => ret r
      | Done out ctx made_copy => finish j out ctx made_copy
      | Again made_copy => lift Fault
      end
  end.

(** ** [applypatch] *)

Definition choose_patch (file : FileContents) (patch_sha1_str : list bytes) (patch_data : list Value)
    : outcome (option Value) :=
  match data file with
  | None => Ret None
  | Some _ =>
      let to_use := FindMatchingPatch (sha1 file) patch_sha1_str in
      if 0 <=? to_use then
        match patch_data !! Z.to_nat to_use with Some p => Ret (Some p) | None => Fault end
      else Ret None
  end.

Definition applypatch (source target target_sha1_str : bytes) (target_size : Z)
    (patch_sha1_str : list bytes) (patch_data : list Value) (bonus_data : option Value) : M Z :=
  let target := if bool_decide (target = str "-") then source else target in
  match ParseSha1 target_sha1_str with
  | None => ret 1
  | Some target_sha1 =>
      let* l := LoadFileContents target uninit true in
      let '(r, file) := l in
      if (r =? 0) && bool_decide (sha1 file = target_sha1) then ret 0 else
      let* file :=
        (if (match data file with None => true | Some _ => false end) || negb (bool_decide (target = source)) then
           let* l := LoadFileContents source file true in ret (snd l)
         else ret file) in
      let* sp := lift (choose_patch file patch_sha1_str patch_data) in
      match sp with
      | Some p =>
          GenerateTarget (mkJob file (Some p) (no_data uninit (size uninit)) None source target target_sha1 target_size bonus_data)
      | None =>
          let file := no_data file (size file) in
          let* l := LoadFileContents CACHE_TEMP_SOURCE uninit true in
          let '(r, copy) := l in
          if r <? 0 then ret 1 else
          let* cp := lift (choose_patch copy patch_sha1_str patch_data) in
          match cp with
          | None => ret 1
          | Some p => GenerateTarget (mkJob file None copy (Some p) source target target_sha1 target_size bonus_data)
          end
      end
  end.
End applypatch.
Arguments Return {SHA} r.
Arguments Done {SHA} out ctx made_copy.
Arguments Again {SHA} made_copy.
