(* ===== verification/ApplyPatchProps.v ===== *)
(** Crash safety of [applypatch] on a file: whatever fails and wherever the process is
    interrupted, the source file, its saved copy or the patched file is there, so that
    the update can be run again. *)
From S2P Require Import Prelude Endian CString Value Mincrypt BsPatch ImgPatch Retouch FileSystem.
From S2P Require Import FreeCache Partition ApplyPatch.

(** ** Writing one file *)

(** Nothing but [path] differs. *)
Definition only_at (path : bytes) (fs fs' : FS) : Prop := forall q, q <> path -> fs' !! q = fs !! q.

Lemma only_at_refl path fs : only_at path fs fs.
Proof. by intros q Hq. Qed.
Lemma only_at_trans path fs1 fs2 fs3 : only_at path fs1 fs2 -> only_at path fs2 fs3 -> only_at path fs1 fs3.
Proof. intros H1 H2 q Hq. by rewrite H2, H1. Qed.
Lemma only_at_append path d fs : only_at path fs (append_to path d fs).
Proof. intros q Hq. unfold append_to. by rewrite lookup_alter_ne. Qed.

(** The states of a computation that touches [path] only. *)
Definition touches (path : bytes) (w w' : World) : Prop :=
  only_at path (files w) (files w') /\
  exists hs, history w' = history w ++ hs /\ Forall (only_at path (files w)) hs.
Lemma touches_refl path w : touches path w w.
Proof. split; [apply only_at_refl|]. exists []. by rewrite app_nil_r. Qed.
Lemma touches_trans path w1 w2 w3 : touches path w1 w2 -> touches path w2 w3 -> touches path w1 w3.
Proof.
  intros [H1 (h1 & E1 & F1)] [H2 (h2 & E2 & F2)]. split; [by eapply only_at_trans|].
  exists (h1 ++ h2). rewrite E2, E1, app_assoc. split; [done|]. apply Forall_app. split; [done|].
  revert F2. apply Forall_impl. intros fs. by apply only_at_trans.
Qed.

Lemma sys_write_ok path d w : exists n w', sys_write path d w = (Ret n, w') /\ touches path w w' /\
  (n = -1 /\ files w' = files w \/
   0 <= n <= len d /\ (0 < len d -> 0 < n) /\ files w' = append_to path (take (Z.to_nat n) d) (files w)).
Proof.
  unfold sys_write, bind, ask. pose proof (len_nonneg d) as Hnn.
  assert (forall n, touches path w (mkWorld (append_to path (take (Z.to_nat n) d) (files w)) (tl (answers w))
    (history w ++ [append_to path (take (Z.to_nat n) d) (files w)]))) as Ht.
  { intros n. split; [apply only_at_append|]. eexists. split; [done|]. constructor; [|constructor].
    apply only_at_append. }
  destruct (answers w) as [|a l] eqn:Ea; cbn in *.
  - exists (len d), (mkWorld (append_to path (take (Z.to_nat (len d)) d) (files w)) []
      (history w ++ [append_to path (take (Z.to_nat (len d)) d) (files w)])).
    unfold change, ret. cbn. rewrite Ea. split; [done|]. split; [apply Ht|]. right. split_and!; (done || lia).
  - destruct (Z.ltb_spec a 0).
    + exists (-1). eexists. split; [done|]. split; [|by left]. split; [apply only_at_refl|]. exists [].
      by rewrite app_nil_r.
    + set (n := if a =? 0 then len d else Z.min a (len d)). exists n. eexists. split; [done|].
      split; [apply Ht|]. right. split; [|split; [|done]]; subst n; destruct (Z.eqb_spec a 0); lia.
Qed.

Lemma FileSink_loop_ok path d n : forall done w,
  0 <= done <= len d -> len d - done <= Z.of_nat n ->
  exists r w', FileSink_loop n path d done w = (Ret r, w') /\ touches path w w' /\ done <= r <= len d /\
    (r = len d -> forall f, files w !! path = Some f ->
       files w' !! path = Some (mkFile (content f ++ slice d done (len d - done)) (mode f) (uid f) (gid f))).
Proof.
  assert (forall w done f, done = len d -> files w !! path = Some f ->
    files w !! path = Some (mkFile (content f ++ slice d done (len d - done)) (mode f) (uid f) (gid f))) as Hdone.
  { intros w done f -> ->. unfold slice. rewrite Z.sub_diag. cbn. rewrite take_0, app_nil_r. by destruct f. }
  induction n as [|n IH]; intros done w Hd Hn; cbn [FileSink_loop].
  { rewrite (proj2 (Z.ltb_ge done (len d))) by lia. exists done, w. split; [done|]. split; [apply touches_refl|].
    split; [lia|]. intros E f. by apply Hdone. }
  destruct (Z.ltb_spec done (len d)) as [Hlt|Hge].
  2: { exists done, w. split; [done|]. split; [apply touches_refl|]. split; [lia|]. intros E f. by apply Hdone. }
  set (part := slice d done (len d - done)). assert (len part = len d - done) as Hl by (apply len_slice; lia).
  unfold bind. destruct (sys_write_ok path part w) as (k & w1 & -> & Ht1 & Hk).
  destruct (Z.leb_spec k 0) as [Hk0|Hk0].
  { exists done, w1. split; [done|]. split; [done|]. split; [lia|]. lia. }
  destruct Hk as [[-> _]|(Hk & _ & Hf)]; [lia|].
  destruct (IH (done + k) w1) as (r & w' & -> & Ht' & Hr & Hc); [lia|lia|].
  exists r, w'. split; [done|]. split; [by eapply touches_trans|]. split; [lia|]. intros Er f Hfile.
  rewrite (Hc Er (mkFile (content f ++ take (Z.to_nat k) part) (mode f) (uid f) (gid f))).
  - cbn [content mode uid gid]. do 2 f_equal. rewrite <- app_assoc. f_equal.
    assert (take (Z.to_nat k) part = slice d done k) as ->.
    { subst part. unfold slice. rewrite take_take. f_equal. lia. }
    rewrite <- slice_split by lia. subst part. f_equal. lia.
  - rewrite Hf. unfold append_to. by rewrite lookup_alter_eq, Hfile.
Qed.

Lemma FileSink_ok path d w : exists n w', FileSink path d w = (n, w') /\ touches path w w' /\ n <= len d /\
  (n = len d -> forall f, files w !! path = Some f ->
     files w' !! path = Some (mkFile (content f ++ d) (mode f) (uid f) (gid f))).
Proof.
  unfold FileSink. pose proof (len_nonneg d).
  destruct (FileSink_loop_ok path d (length d) 0 w) as (r & w' & -> & Ht & Hr & Hc); [lia|unfold len; lia|].
  exists r, w'. split; [done|]. split; [done|]. split; [lia|]. intros E f Hf. rewrite (Hc E f Hf).
  by rewrite Z.sub_0_r, slice_all.
Qed.

(** ** Triples of the system calls *)

(** Predicates that do not look at [path]. *)
Definition blind (path : bytes) (P : FS -> Prop) : Prop := forall fs fs', only_at path fs fs' -> P fs -> P fs'.

Section calls.
Context (I : FS -> Prop).

Lemma triple_sys_change P Q path f :
  (forall fs, P fs -> is_Some (fs !! path) -> Q (f fs) /\ I (f fs)) ->
  triple I (fun w => P (files w)) (sys_change path f)
    (fun r w => r = 0 /\ Q (files w) \/ r = -1 /\ P (files w)).
Proof.
  intros HQ. eapply triple_bind; [apply triple_ask|]. intros a.
  eapply triple_bind; [apply triple_get_files|]. intros fs.
  assert (triple I (fun w => files w = fs /\ P fs) (ret (-1))
    (fun r w => r = 0 /\ Q (files w) \/ r = -1 /\ P (files w))) as Hno.
  { apply triple_return. intros w [-> ?]. auto. }
  destruct (negb (a =? 0)); [done|]. destruct (fs !! path) as [f0|] eqn:E; [|done].
  eapply (triple_bind I _ _ (fun _ w => Q (files w))).
  - apply (triple_change I (fun fs' => fs' = fs /\ P fs) f Q).
    intros ? [-> Hfs]. apply HQ; [done|]. by eexists.
  - intros u. apply triple_return. auto.
Qed.

Lemma triple_create (P Q : FS -> Prop) path :
  (forall fs f, P fs -> content f = [] -> Q (<[path := f]> fs) /\ I (<[path := f]> fs)) ->
  triple I (fun w => P (files w)) (sys_create path)
    (fun b w => b = true /\ Q (files w) \/ b = false /\ P (files w)).
Proof.
  intros HQ. eapply triple_bind; [apply triple_ask|]. intros a. destruct (negb (a =? 0)).
  { apply triple_return. auto. }
  eapply triple_bind; [apply (triple_change I P _ Q)|].
  - intros fs Hfs. apply HQ; [done|]. by destruct (fs !! path).
  - intros u. apply triple_return. auto.
Qed.

(** Appending data to the open file [path], which a caller's predicate does not look at. *)
Lemma triple_FileSink P path d old : blind path P -> (forall fs, P fs -> I fs) ->
  triple I (fun w => P (files w) /\ exists f, files w !! path = Some f /\ content f = old)
    (fun w => let '(n, w) := FileSink path d w in (Ret n, w))
    (fun n w => P (files w) /\ n <= len d /\
       (n = len d -> exists f, files w !! path = Some f /\ content f = old ++ d)).
Proof.
  intros Hb HI w [Hw (f & Hf & Ho)].
  destruct (FileSink_ok path d w) as (n & w' & -> & [Hat (hs & Hh & Hall)] & Hn & Hd). cbn. split.
  - intros ? [= <-]. split; [by eapply Hb|]. split; [done|]. intros E. specialize (Hd E _ Hf).
    eexists. split; [exact Hd|]. cbn. by rewrite Ho.
  - exists hs. split; [done|]. revert Hall. apply Forall_impl. intros fs Hfs. apply HI. by eapply Hb.
Qed.
End calls.

(** ** Reading a file *)

Lemma retouch_loop_len desired p r b fuel : forall d st inf ptr d' x,
  retouch_loop fuel desired p r b d st inf ptr = Ret (d', x) -> len d' = len d.
Proof.
  induction fuel as [|fuel IH]; intros d st inf ptr d' x; cbn [retouch_loop];
    (destruct (ptr <? r); [|by intros [= <- _]]); [done|].
  intros H. run_ret; [done|]. apply IH in H. rewrite H. destruct desired as [t|]; [|by run_ret].
  unfold wr32 in *. by eapply wr_bytes_len.
Qed.
Lemma retouch_mask_len d desired r d' off : retouch_mask_data d desired = Ret (r, d', off) -> len d' = len d.
Proof.
  unfold retouch_mask_data. intros H. run_ret; try done.
  match goal with E : retouch_loop _ _ _ _ _ _ _ _ _ = _ |- _ => apply retouch_loop_len in E; rename E into El end.
  destruct o as [[inf p]|]; run_ret; done.
Qed.

(** [path] file_holds a file that is loaded as [d], its retouching undone. *)
Definition loads (fs : FS) (path d : bytes) : Prop :=
  exists f off, fs !! path = Some f /\ retouch_mask_data (content f) (Some 0) = Ret (RETOUCH_DATA_MATCHED, d, off).

Lemma loads_blind p path d : p <> path -> blind p (fun fs => loads fs path d).
Proof. intros Hne fs fs' Hat (f & off & Hf & Hm). exists f, off. by rewrite Hat. Qed.
Lemma only_at_insert path f fs : only_at path fs (<[path := f]> fs).
Proof. intros q Hq. by rewrite lookup_insert_ne. Qed.
Lemma only_at_delete path fs : only_at path fs (delete path fs).
Proof. intros q Hq. by rewrite lookup_delete_ne. Qed.
Lemma only_at_alter path g fs : only_at path fs (alter g path fs).
Proof. intros q Hq. by rewrite lookup_alter_ne. Qed.

(** Computations that only read: the files [fs] stay, no state is added, and a result
    satisfies [Q]. *)
Definition reads {A} (fs : FS) (m : M A) (Q : A -> Prop) : Prop := forall w, files w = fs ->
  files (m w).2 = fs /\ history (m w).2 = history w /\ forall a, (m w).1 = Ret a -> Q a.

Lemma reads_ret {A} fs (a : A) (Q : A -> Prop) : Q a -> reads fs (ret a) Q.
Proof. intros HQ w Hw. split; [done|]. split; [done|]. by intros ? [= <-]. Qed.
Lemma reads_lift {A} fs (m : outcome A) : reads fs (lift m) (fun a => m = Ret a).
Proof. by intros w Hw. Qed.
Lemma reads_bind {A B} fs (m : M A) (f : A -> M B) Q R :
  reads fs m Q -> (forall a, Q a -> reads fs (f a) R) -> reads fs (bind m f) R.
Proof.
  intros Hm Hf w Hw. destruct (Hm w Hw) as (H1 & H2 & H3). unfold bind.
  destruct (m w) as [[a| |] w1]; cbn in *; [|done..].
  destruct (Hf a (H3 a eq_refl) w1 H1) as (K1 & K2 & K3). split; [done|]. split; [congruence|done].
Qed.
Lemma reads_ask fs : reads fs ask (fun _ => True).
Proof. intros w Hw. unfold ask. by destruct (answers w). Qed.
Lemma reads_get_files fs : reads fs get_files (fun x => x = fs).
Proof. intros w Hw. split; [done|]. split; [done|]. intros a [= <-]. done. Qed.
Lemma reads_triple {A} (I P : FS -> Prop) (m : M A) (Q : FS -> A -> Prop) :
  (forall fs, P fs -> reads fs m (Q fs)) ->
  triple I (fun w => P (files w)) m (fun a w => P (files w) /\ Q (files w) a).
Proof.
  intros Hm w Hw. destruct (Hm _ Hw w eq_refl) as (H1 & H2 & H3). split.
  - intros a Ha. rewrite H1. auto.
  - exists []. by rewrite app_nil_r.
Qed.

Lemma reads_stat fs path : reads fs (sys_stat path) (fun r => forall f, r = inl f -> fs !! path = Some f).
Proof.
  eapply reads_bind; [apply reads_ask|]. intros a _.
  eapply reads_bind; [apply reads_get_files|]. intros ? ->. apply reads_ret. intros f.
  destruct (negb _); [done|]. destruct (fs !! path); [|done]. by intros [= ->].
Qed.
Lemma reads_file fs path :
  reads fs (sys_read_file path) (fun r => forall d, r = Some d -> option_map content (fs !! path) = Some d).
Proof.
  eapply reads_bind; [apply reads_ask|]. intros a _.
  eapply reads_bind; [apply reads_get_files|]. intros ? ->. apply reads_ret. intros d. by destruct (negb _).
Qed.
Lemma reads_free_space fs : reads fs FreeSpaceForFile (fun _ => True).
Proof. eapply reads_bind; [apply reads_ask|]. intros a _. by apply reads_ret. Qed.

Section resume.
Context (SHA : HashOps) `{RsaOps} `{MtdOps} `{BzOps} `{ZlibOps}.
Context (malloc : Z -> option bytes) (fuel : nat).
Context (readdir : FS -> bytes -> option (list bytes)) (open_links : FS -> option (list bytes)).
Context (store : World -> bytes -> bytes) (uninit : FileContents).

(** What a load returns: the file as it is, or an error and no data. *)
Definition load_result (fs : FS) (path : bytes) (x : Z * FileContents) : Prop :=
  fst x = 0 /\ (exists d, data (snd x) = Some d /\ sha1 (snd x) = SHA_hash SHA d /\ size (snd x) = len d /\
                 loads fs path d)
  \/ fst x < 0 /\ data (snd x) = None.

Lemma reads_load fs path file0 : is_partition_name path = false ->
  reads fs (LoadFileContents SHA path file0 true) (load_result fs path).
Proof.
  intros Hp. unfold LoadFileContents. rewrite Hp.
  assert (forall e f, e < 0 -> data f = None -> reads fs (ret (e, f)) (load_result fs path)) as Herr.
  { intros e f He Hf. apply reads_ret. by right. }
  eapply reads_bind; [apply reads_stat|]. intros [f|[]] Hst; [|by apply Herr..].
  eapply reads_bind; [apply reads_file|]. intros [d|] Hd; [|by apply Herr].
  rewrite (Hst f eq_refl) in Hd. specialize (Hd d eq_refl). injection Hd as <-.
  eapply reads_bind; [eapply reads_bind; [apply reads_lift|]|].
  - intros [[r d'] off] Hm. apply (reads_ret _ _ (fun m => forall d', m = Some d' ->
      exists off, retouch_mask_data (content f) (Some 0) = Ret (RETOUCH_DATA_MATCHED, d', off))).
    cbn [fst snd]. destruct (Z.eqb_spec r RETOUCH_DATA_MATCHED) as [->|]; [|done]. intros ? [= <-]. by exists off.
  - intros [d'|] Hm; [|by apply Herr]. destruct (Hm d' eq_refl) as [off Ho]. apply reads_ret. left.
    split; [done|]. exists d'. split; [done|]. split; [done|]. split.
    + cbn. by rewrite (retouch_mask_len _ _ _ _ _ Ho).
    + exists f, off. split; [by apply Hst|done].
Qed.

(** ** The job: plain files *)

Context (src tgt : bytes) (psha : list bytes) (t : bytes).
Context (Hsrc : is_partition_name src = false) (Htgt : is_partition_name tgt = false).
Context (Hexp : ~ expendable src) (Hsc : src <> CACHE_TEMP_SOURCE) (Htc : tgt <> CACHE_TEMP_SOURCE).
Context (Hos : tgt ++ str ".patch" <> src) (Hoc : tgt ++ str ".patch" <> CACHE_TEMP_SOURCE).

(** Source data that a patch is for, and the data to produce; both are stored without
    retouching. *)
Definition is_source (d : bytes) : Prop := 0 <= FindMatchingPatch (SHA_hash SHA d) psha.
Definition is_target (d : bytes) : Prop := SHA_hash SHA d = t.
Context (Hstable : forall d, is_source d \/ is_target d ->
  exists off, retouch_mask_data d (Some 0) = Ret (RETOUCH_DATA_MATCHED, d, off)).

(** The target file is in place. *)
Definition patched (fs : FS) : Prop := exists d, is_target d /\ loads fs tgt d.
(** Nothing is lost: source data are in the source file or in the saved copy, or the
    target is in place. *)
Definition recoverable (fs : FS) : Prop :=
  (exists d, is_source d /\ (loads fs src d \/ loads fs CACHE_TEMP_SOURCE d)) \/ patched fs.

Lemma loads_content fs path f d : fs !! path = Some f -> content f = d -> is_source d \/ is_target d ->
  loads fs path d.
Proof. intros Hf <- Hd. destruct (Hstable _ Hd) as [off Ho]. by exists f, off. Qed.

Lemma triple_Save P file d : blind CACHE_TEMP_SOURCE P -> (forall fs, P fs -> recoverable fs) ->
  data file = Some d -> size file = len d ->
  triple recoverable (fun w => P (files w)) (SaveFileContents CACHE_TEMP_SOURCE file)
    (fun r w => P (files w) /\ (r < 0 \/ exists f, files w !! CACHE_TEMP_SOURCE = Some f /\ content f = d)).
Proof.
  intros Hb HI Hd Hsz. set (C := CACHE_TEMP_SOURCE) in *.
  set (Q := fun (c : bytes) fs => P fs /\ exists f, fs !! C = Some f /\ content f = c).
  assert (forall r (R : World -> Prop), r < 0 -> (forall w, R w -> P (files w)) -> triple recoverable R (ret r)
    (fun r w => P (files w) /\ (r < 0 \/ exists f, files w !! C = Some f /\ content f = d))) as Hfail.
  { intros r R Hr HR. apply triple_return. auto. }
  eapply triple_bind; [apply (triple_create recoverable P (Q []) C)|].
  { intros fs f Hfs Hc. pose proof (Hb _ _ (only_at_insert C f fs) Hfs) as HP. split; [|by apply HI].
    split; [done|]. exists f. by rewrite lookup_insert_eq. }
  intros []; cbn [negb]; [|apply Hfail; [done|]; by intros w [[? _]|[_ ?]]].
  rewrite Hd. eapply triple_bind.
  { eapply triple_conseq; [apply (triple_FileSink recoverable P C d [] Hb HI)| |intros n w Hw; exact Hw].
    by intros w [[_ Hw]|[? _]]. }
  intros n. rewrite Hsz. destruct (Z.eqb_spec n (len d)) as [->|]; cbn [negb];
    [|apply Hfail; [done|]; by intros w [? _]].
  assert (forall fs g, (forall f, content (g f) = content f) -> Q d fs -> is_Some (fs !! C) ->
    Q d (alter g C fs) /\ recoverable (alter g C fs)) as Halter.
  { intros fs g Hg [HP (f & Hf & Hc)] _. pose proof (Hb _ _ (only_at_alter C g fs) HP) as HP'.
    split; [|by apply HI]. split; [done|]. exists (g f). rewrite lookup_alter_eq, Hf. split; [done|]. by rewrite Hg. }
  eapply triple_bind.
  { eapply triple_conseq; [apply (triple_sys_change recoverable (Q d) (Q d))|
      intros w [? [_ Hw]]; split; [done|by apply Hw]|intros r w Hw; exact Hw].
    intros fs Hfs Hs. by apply Halter. }
  intros r1. destruct (Z.eqb_spec r1 0) as [->|]; cbn [negb]; [|apply Hfail; [done|]; by intros w [[_ [? _]]|[_ [? _]]]].
  eapply triple_bind.
  { eapply triple_conseq; [apply (triple_sys_change recoverable (Q d) (Q d))|
      intros w [[_ Hw]|[_ Hw]]; exact Hw|intros r w Hw; exact Hw].
    intros fs Hfs Hs. by apply Halter. }
  intros r2. apply triple_return. intros w [[_ [? ?]]|[_ [? ?]]]; auto.
Qed.

(** ** Making room *)

Lemma source_kept fs path d : is_source d -> expendable path -> loads fs src d -> loads (delete path fs) src d.
Proof.
  intros Hd He. apply (loads_blind path src d); [by intros ->|]. apply only_at_delete.
Qed.
Lemma source_recoverable fs d : is_source d -> loads fs src d -> recoverable fs.
Proof. intros ? ?. left. exists d. auto. Qed.
Lemma copy_recoverable fs d : is_source d -> loads fs CACHE_TEMP_SOURCE d -> recoverable fs.
Proof. intros ? ?. left. exists d. auto. Qed.

(** With the source file in hand: either nothing is changed, or the source is saved
    and then deleted. *)
Lemma triple_make_room_source j retry mc p d : source_patch j = Some p -> source_filename j = src ->
  target_filename j = tgt -> is_source d -> data (source_file j) = Some d -> size (source_file j) = len d ->
  triple recoverable (fun w => loads (files w) src d) (make_room readdir open_links j retry mc)
    (fun x w => match x with
     | None => recoverable (files w)
     | Some (mc', retry') =>
         retry' = 0 /\ mc' = true /\ loads (files w) CACHE_TEMP_SOURCE d \/
         0 < retry /\ retry' = retry /\ mc' = mc /\ loads (files w) src d
     end).
Proof.
  intros Hp Hs Ht Hd Hdata Hsize. unfold make_room. rewrite Ht, Htgt, Hp, Hs, Hsrc. set (C := CACHE_TEMP_SOURCE).
  pose proof (fun fs H => source_recoverable fs d Hd H) as HI.
  eapply (triple_bind _ _ _ (fun b w => (b = true -> 0 < retry) /\ loads (files w) src d)).
  { destruct (Z.ltb_spec 0 retry) as [Hr|Hr]; [|by apply triple_return].
    eapply triple_bind; [apply (reads_triple _ (fun fs => loads fs src d) _ (fun _ _ => True))|].
    - intros fs _. apply reads_free_space.
    - intros free. apply triple_return. by intros w [? _]. }
  intros []; cbn [negb andb].
  { apply triple_return. intros w [Hr Hw]. right. auto. }
  eapply (triple_bind _ _ _ (fun ok w => loads (files w) src d /\
    (ok = true -> exists f, files w !! C = Some f /\ content f = d))).
  { eapply triple_bind.
    { eapply triple_conseq; [apply (triple_MakeFreeSpace readdir open_links recoverable (fun fs => loads fs src d))|
        |intros r w Hw; exact Hw]; [|exact HI|by intros w [_ ?]].
      intros fs path Hl He. by apply source_kept. }
    intros r. destruct (r <? 0); [by apply triple_return|]. eapply triple_bind.
    { apply (triple_Save (fun fs => loads fs src d) (source_file j) d); [|exact HI|done|done].
      apply loads_blind. by apply not_eq_sym. }
    intros r'. apply triple_return. intros w [Hl Hc]. split; [done|]. destruct (Z.ltb_spec r' 0); [done|].
    intros _. destruct Hc as [?|Hc]; [lia|exact Hc]. }
  intros []; cbn [negb].
  2: { apply triple_return. intros w [Hl _]. by apply HI. }
  eapply triple_bind.
  { eapply triple_conseq; [apply (triple_sys_change recoverable
      (fun fs => exists f, fs !! C = Some f /\ content f = d) (fun fs => exists f, fs !! C = Some f /\ content f = d))| |].
    - intros fs (f & Hf & Hc) _. assert (delete src fs !! C = Some f) as Hf'.
      { by rewrite lookup_delete_ne. }
      split; [by exists f|]. eapply copy_recoverable; [done|]. eapply loads_content; [exact Hf'|done|by left].
    - intros w [_ Hw]. by apply Hw.
    - intros r w Hw. assert (exists f, files w !! C = Some f /\ content f = d) as Hw'
        by (destruct Hw as [[_ ?]|[_ ?]]; done). exact Hw'. }
  intros u. eapply triple_bind.
  { apply (reads_triple _ (fun fs => exists f, fs !! C = Some f /\ content f = d) _ (fun _ _ => True)).
    intros fs _. apply reads_free_space. }
  intros f. apply triple_return. intros w [(g & Hg & Hc) _]. left. split; [done|]. split; [done|].
  eapply loads_content; [exact Hg|done|by left].
Qed.

(** With the saved copy only: nothing is changed. *)
Lemma triple_make_room_copy j retry mc d : source_patch j = None -> target_filename j = tgt ->
  triple recoverable (fun w => loads (files w) CACHE_TEMP_SOURCE d) (make_room readdir open_links j retry mc)
    (fun x w => match x with
     | None => False
     | Some (mc', retry') => mc' = mc /\ (retry' = 0 \/ retry' = retry) /\ loads (files w) CACHE_TEMP_SOURCE d
     end).
Proof.
  intros Hp Ht. unfold make_room. rewrite Ht, Htgt, Hp.
  eapply (triple_bind _ _ _ (fun b w => loads (files w) CACHE_TEMP_SOURCE d)).
  { destruct (0 <? retry); [|by apply triple_return].
    eapply triple_bind; [apply (reads_triple _ (fun fs => loads fs CACHE_TEMP_SOURCE d) _ (fun _ _ => True))|].
    - intros fs _. apply reads_free_space.
    - intros free. apply triple_return. by intros w [? _]. }
  intros []; cbn [negb andb]; apply triple_return; auto.
Qed.

(** ** Applying the patch *)

Abbreviation out := (tgt ++ str ".patch").
Definition file_holds (path d : bytes) (fs : FS) : Prop := exists f, fs !! path = Some f /\ content f = d.

(** A bsdiff patch through [FileSink] changes the output file only; on success the file
    file_holds the data that were hashed. *)
Lemma triple_apply P source n patch b : blind out P -> (forall fs, P fs -> recoverable fs) ->
  has_magic patch imgdiff_magic = false ->
  triple recoverable (fun w => P (files w) /\ file_holds out [] (files w))
    (fun w => match apply_to_sink SHA malloc fuel (FileSink out) source n patch b w hash_init with
              | Ret (Some (result, w, ctx)) => (Ret (Some (result, ctx)), w)
              | Ret None => (Ret None, w)
              | Fault => (Fault, w)
              | Diverge => (Diverge, w) end)
    (fun r w => P (files w) /\ match r with
     | Some (0, ctx) => exists d, ctx = hash_update hash_init d /\ file_holds out d (files w)
     | _ => True end).
Proof.
  intros Hb HI Himg w Hw. unfold apply_to_sink. rewrite Himg.
  assert (exists hs, history w = history w ++ hs /\ Forall recoverable hs) as Hh0.
  { exists []. by rewrite app_nil_r. }
  destruct (has_magic patch bsdiff_magic); [|split; [|done]; intros ? [= <-]; by destruct Hw].
  unfold ApplyBSDiffPatch.
  destruct (ApplyBSDiffPatchMem _ _ _ _ _) as [[r nd]| |]; cbn [mbind outcome_bind]; [|by split..].
  destruct (Z.eqb_spec r 0) as [->|]; cbn [negb mbind outcome_bind].
  2: { split; [|done]. intros ? [= <-]. by destruct Hw. }
  destruct (triple_FileSink recoverable P out nd [] Hb HI w Hw) as [K1 K2].
  destruct (FileSink out nd w) as [k w']. specialize (K1 k eq_refl). cbn in K1, K2.
  destruct (Z.ltb_spec k (len nd)); cbn [mbind outcome_bind].
  - split; [|exact K2]. intros ? [= <-]. by destruct K1.
  - split; [|exact K2]. intros ? [= <-]. destruct K1 as (HP & Hle & Hc). split; [done|].
    exists nd. split; [done|]. apply Hc. lia.
Qed.

Lemma triple_apply_round P j retry mc patch source : blind out P -> (forall fs, P fs -> recoverable fs) ->
  target_filename j = tgt -> patch_to_use j = Some patch -> data (source_to_use j) = Some source ->
  has_magic patch imgdiff_magic = false ->
  triple recoverable (fun w => P (files w)) (apply_round SHA malloc fuel j retry mc)
    (fun r w => P (files w) /\ match r with
     | Return r => r = 1
     | Done o ctx mc' => o = OutFile out /\ mc' = mc /\
         exists d, ctx = hash_update hash_init d /\ file_holds out d (files w)
     | Again mc' => retry <> 0 /\ mc' = mc end).
Proof.
  intros Hb HI Ht Hp Hs Himg. unfold apply_round, outname. rewrite Hp, Hs, Ht, Htgt.
  destruct (negb (vtype patch =? VAL_BLOB)); [by apply triple_return|].
  eapply triple_bind; [apply (triple_create recoverable P (fun fs => P fs /\ file_holds out [] fs))|].
  { intros fs f Hfs Hc. pose proof (Hb _ _ (only_at_insert out f fs) Hfs) as HP. split; [|by apply HI].
    split; [done|]. exists f. by rewrite lookup_insert_eq. }
  intros []; cbn [negb]; [|apply triple_return; by intros w [[? _]|[_ ?]]].
  eapply triple_bind.
  { eapply triple_conseq; [apply (triple_apply P source _ patch (bonus j) Hb HI Himg)| |intros r w Hw; exact Hw].
    by intros w [[_ ?]|[? _]]. }
  intros [[result ctx]|]; [|apply triple_return; by intros w [? _]].
  unfold after_apply. destruct (Z.eqb_spec result 0) as [->|]; cbn [negb].
  { apply triple_return. intros w [? ?]. auto. }
  destruct (Z.eqb_spec retry 0); [by apply triple_return; intros w [? _]|].
  eapply triple_bind.
  { eapply triple_conseq; [apply (triple_sys_change recoverable P P)|intros w [? _]; done|].
    - intros fs Hfs _. pose proof (Hb _ _ (only_at_delete out fs) Hfs) as HP. split; [done|by apply HI].
    - intros r w Hw. assert (P (files w)) as HP by (destruct Hw as [[_ ?]|[_ ?]]; done). exact HP. }
  intros u. apply triple_return. auto.
Qed.

(** ** Putting the output in place *)

Lemma triple_finish P j d mc : blind out P -> (forall fs, P fs -> recoverable fs) ->
  target_filename j = tgt -> target_sha1 j = t ->
  triple recoverable (fun w => P (files w) /\ file_holds out d (files w))
    (finish SHA fuel store j (OutFile out) (hash_update hash_init d) mc)
    (fun r w => recoverable (files w) /\ (r = 0 -> patched (files w))).
Proof.
  intros Hb HI Ht Hsha. unfold finish. rewrite Hsha, Ht.
  set (Q := fun fs => P fs /\ file_holds out d fs).
  assert (forall (R : World -> Prop), (forall w, R w -> P (files w)) -> triple recoverable R (ret 1)
    (fun r w => recoverable (files w) /\ (r = 0 -> patched (files w)))) as Hfail.
  { intros R HR. apply triple_return. intros w Hw. split; [by apply HI, HR|done]. }
  case_bool_decide as Hd; cbn [negb]; [|apply Hfail; by intros w [? _]].
  change (is_target d) in Hd.
  set (D := fun fs => loads fs tgt d).
  assert (forall fs, D fs -> patched fs) as HDp by (intros fs HD; by exists d).
  assert (forall fs, D fs -> recoverable fs) as HD by (intros fs HD; right; by apply HDp).
  assert (forall fs g, (forall f, content (g f) = content f) -> Q fs -> is_Some (fs !! out) ->
    Q (alter g out fs) /\ recoverable (alter g out fs)) as Halter.
  { intros fs g Hg [HP (f & Hf & Hc)] _. pose proof (Hb _ _ (only_at_alter out g fs) HP) as HP'.
    split; [|by apply HI]. split; [done|]. exists (g f). rewrite lookup_alter_eq, Hf. split; [done|]. by rewrite Hg. }
  eapply (triple_bind _ _ _ (fun ok w => if ok : bool then D (files w) else Q (files w))).
  - eapply triple_bind; [apply (triple_sys_change recoverable Q Q); intros fs ??; by apply Halter|].
    intros r1. destruct (Z.eqb_spec r1 0); cbn [negb]; [|apply triple_return; by intros w [[_ ?]|[_ ?]]].
    eapply triple_bind.
    { eapply triple_conseq; [apply (triple_sys_change recoverable Q Q)|by intros w [[_ Hw]|[_ Hw]]
        |intros r w Hw; exact Hw]. intros fs ??; by apply Halter. }
    intros r2. destruct (Z.eqb_spec r2 0); cbn [negb]; [|apply triple_return; by intros w [[_ ?]|[_ ?]]].
    eapply triple_bind.
    { eapply triple_conseq; [apply (triple_sys_change recoverable Q D)|by intros w [[_ Hw]|[_ Hw]]
        |intros r w Hw; exact Hw].
      intros fs [_ (f & Hf & Hc)] _. rewrite Hf.
      assert (D (<[tgt := f]> (delete out fs))) as Hnew.
      { eapply loads_content; [by rewrite lookup_insert_eq|done|by right]. }
      split; [done|by apply HD]. }
    intros r3. apply triple_return. intros w [[-> ?]|[-> ?]]; done.
  - intros []; cbn [negb]; [|apply Hfail; by intros w [? _]].
    eapply (triple_bind _ _ _ (fun _ w => D (files w))).
    + destruct mc; [|by apply triple_return].
      eapply triple_conseq; [apply (triple_sys_change recoverable D D)|done|by intros r w [[_ ?]|[_ ?]]].
      intros fs Hfs _. assert (D (delete CACHE_TEMP_SOURCE fs)) as HD'.
      { eapply (loads_blind CACHE_TEMP_SOURCE tgt d); [by apply not_eq_sym|apply only_at_delete|exact Hfs]. }
      split; [done|by apply HD].
    + intros u. apply triple_return. auto.
Qed.

(** ** The loop *)

Lemma triple_or {A} (I : FS -> Prop) (P1 P2 : World -> Prop) (m : M A) Q :
  triple I P1 m Q -> triple I P2 m Q -> triple I (fun w => P1 w \/ P2 w) m Q.
Proof. intros H1' H2' w [Hw|Hw]; [by apply H1'|by apply H2']. Qed.

(** Source data [d] are in one of the two places. *)
Definition somewhere (d : bytes) (fs : FS) : Prop := loads fs src d \/ loads fs CACHE_TEMP_SOURCE d.
Lemma somewhere_blind d : blind out (somewhere d).
Proof.
  intros fs fs' Hat [Hl|Hl]; [left|right].
  - by eapply (loads_blind out src d).
  - by eapply (loads_blind out CACHE_TEMP_SOURCE d).
Qed.
Lemma somewhere_recoverable d fs : is_source d -> somewhere d fs -> recoverable fs.
Proof. intros Hd Hw. left. by exists d. Qed.

Definition round_post (retry : Z) (d : bytes) (again : FS -> Prop) (r : Round SHA) (w : World) : Prop :=
  match r with
  | Return r => r = 1 /\ recoverable (files w)
  | Done o ctx mc => o = OutFile out /\ somewhere d (files w) /\
      exists nd, ctx = hash_update hash_init nd /\ file_holds out nd (files w)
  | Again mc => retry <> 0 /\ again (files w)
  end.

Section job.
Context (j : Job) (patch : Value) (d : bytes) (Hd : is_source d).
Context (Ht : target_filename j = tgt) (Hsha : target_sha1 j = t) (Himg : has_magic patch imgdiff_magic = false).
Context (Hpu : patch_to_use j = Some patch) (Hdu : data (source_to_use j) = Some d).

Lemma triple_apply_post (P again : FS -> Prop) retry retry' mc : blind out P ->
  (forall fs, P fs -> somewhere d fs) -> (retry' <> 0 -> retry <> 0 /\ forall fs, P fs -> again fs) ->
  triple recoverable (fun w => P (files w)) (apply_round SHA malloc fuel j retry' mc) (round_post retry d again).
Proof.
  intros Hb Hsome Hag.
  assert (forall fs, P fs -> recoverable fs) as HI
    by (intros fs Hfs; eapply somewhere_recoverable; [exact Hd|by apply Hsome]).
  eapply triple_conseq; [apply (triple_apply_round P j retry' mc patch d); done|done|].
  intros r w [HP Hr]. destruct r as [r|o ctx mc'|mc']; cbn.
  - split; [done|by apply HI].
  - destruct Hr as (-> & _ & Hnd). split; [done|]. split; [by apply Hsome|done].
  - destruct Hr as [Hne _]. destruct (Hag Hne) as [H1' H2']. auto.
Qed.

(** [GenerateTarget], given what one round keeps. *)
Lemma triple_rounds (P : FS -> Prop) :
  (forall retry mc, triple recoverable (fun w => P (files w))
     (round SHA malloc fuel readdir open_links j retry mc) (round_post retry d P)) ->
  triple recoverable (fun w => P (files w)) (GenerateTarget SHA malloc fuel readdir open_links store j)
    (fun r w => recoverable (files w) /\ (r = 0 -> patched (files w))).
Proof.
  intros Hround. unfold GenerateTarget.
  assert (forall retry o ctx mc, triple recoverable (round_post retry d P (Done o ctx mc))
    (finish SHA fuel store j o ctx mc)
    (fun r w => recoverable (files w) /\ (r = 0 -> patched (files w)))) as Hfin.
  { intros retry o ctx mc w (-> & Hs & nd & -> & Hh).
    apply (triple_finish (somewhere d) j nd mc (somewhere_blind d)
             (fun fs => somewhere_recoverable d fs Hd) Ht Hsha w). done. }
  assert (forall retry r, triple recoverable (round_post retry d P (Return r)) (ret r)
    (fun r w => recoverable (files w) /\ (r = 0 -> patched (files w)))) as Hret.
  { intros retry r. apply triple_return. intros w [-> ?]. done. }
  eapply triple_bind; [apply Hround|]. intros [r|o ctx mc|mc]; [apply Hret|apply Hfin|].
  eapply triple_bind; [eapply triple_conseq; [apply (Hround 0 mc)|by intros w [_ ?]|intros r w Hw; exact Hw]|].
  intros [r|o ctx mc'|mc']; [apply Hret|apply Hfin|]. intros w [? _]. done.
Qed.

Lemma triple_generate_source p : source_patch j = Some p -> source_filename j = src ->
  size (source_file j) = len d ->
  triple recoverable (fun w => loads (files w) src d)
    (GenerateTarget SHA malloc fuel readdir open_links store j)
    (fun r w => recoverable (files w) /\ (r = 0 -> patched (files w))).
Proof.
  intros Hp Hs Hsz. assert (data (source_file j) = Some d) as Hdata.
  { pose proof Hdu as E. unfold source_to_use in E. by rewrite Hp in E. }
  apply (triple_rounds (fun fs => loads fs src d)). intros retry mc. eapply triple_bind.
  { by apply (triple_make_room_source j retry mc p d). }
  intros [[mc' retry']|]; [|apply triple_return; by intros w Hw].
  apply triple_or.
  - intros w (-> & -> & Hw). revert w Hw.
    apply (triple_apply_post (fun fs => loads fs CACHE_TEMP_SOURCE d)); [by apply loads_blind|by right|done].
  - intros w (Hr & -> & -> & Hw). revert w Hw.
    apply (triple_apply_post (fun fs => loads fs src d)); [by apply loads_blind|by left|done].
Qed.

Lemma triple_generate_copy : source_patch j = None ->
  triple recoverable (fun w => loads (files w) CACHE_TEMP_SOURCE d)
    (GenerateTarget SHA malloc fuel readdir open_links store j)
    (fun r w => recoverable (files w) /\ (r = 0 -> patched (files w))).
Proof.
  intros Hp. apply (triple_rounds (fun fs => loads fs CACHE_TEMP_SOURCE d)). intros retry mc. eapply triple_bind.
  { by apply (triple_make_room_copy j retry mc d). }
  intros [[mc' retry']|]; [|by intros w Hw].
  intros w (-> & Hr & Hw). revert w Hw.
  apply (triple_apply_post (fun fs => loads fs CACHE_TEMP_SOURCE d)); [by apply loads_blind|by right|].
  intros Hne. split; [|done]. destruct Hr; congruence.
Qed.
End job.

(** ** [applypatch] *)

(** The data of [file], if there are any, are those of [path]. *)
Definition loaded (fs : FS) (path : bytes) (file : FileContents) : Prop := forall d, data file = Some d ->
  sha1 file = SHA_hash SHA d /\ size file = len d /\ loads fs path d.
Lemma load_result_loaded fs path x : load_result fs path x -> loaded fs path (snd x).
Proof. intros [[_ (d & Hd & ?)]|[_ Hn]] d' Hd'; [|congruence]. rewrite Hd in Hd'. by injection Hd' as ->. Qed.

Lemma choose_patch_ok file pdata p fs path : loaded fs path file ->
  choose_patch file psha pdata = Ret (Some p) ->
  p ∈ pdata /\ exists d, data file = Some d /\ is_source d /\ size file = len d /\ loads fs path d.
Proof.
  unfold choose_patch. intros Hl. destruct (data file) as [d|] eqn:Ed; [|done].
  destruct (Hl d Ed) as (Hs & Hsz & Hld). rewrite Hs.
  destruct (Z.leb_spec 0 (FindMatchingPatch (SHA_hash SHA d) psha)) as [Hge|]; [|done].
  destruct (pdata !! _) as [q|] eqn:Eq; [|done]. intros [= ->]. split; [by eapply list_elem_of_lookup_2|].
  exists d. done.
Qed.

Lemma triple_applypatch tsha target size_ pdata bonus_data :
  (if bool_decide (target = str "-") then src else target) = tgt -> ParseSha1 tsha = Some t ->
  Forall (fun p => has_magic p imgdiff_magic = false) pdata ->
  triple recoverable (fun w => recoverable (files w))
    (applypatch SHA malloc fuel readdir open_links store uninit src target tsha size_ psha pdata bonus_data)
    (fun r w => recoverable (files w) /\ (r = 0 -> patched (files w))).
Proof.
  intros Htarget Hsha Himg. unfold applypatch. rewrite Htarget, Hsha.
  assert (forall p, p ∈ pdata -> has_magic p imgdiff_magic = false) as Himg'.
  { intros p Hp. rewrite Forall_forall in Himg. by apply Himg, list_elem_of_In. }
  assert (forall r (R : World -> Prop), r <> 0 -> (forall w, R w -> recoverable (files w)) ->
    triple recoverable R (ret r) (fun r w => recoverable (files w) /\ (r = 0 -> patched (files w)))) as Hfail.
  { intros r R Hr HR. apply triple_return. intros w Hw. split; [by apply HR|done]. }
  eapply triple_bind; [apply (reads_triple _ recoverable _ (fun fs => load_result fs tgt));
    intros fs _; by apply reads_load|]. intros [r file].
  destruct ((r =? 0) && bool_decide (sha1 file = t)) eqn:Edone.
  { apply andb_true_iff in Edone as [->%Z.eqb_eq Et%bool_decide_eq_true]. apply triple_return.
    intros w [Hrec [[_ (d & Hd & Hs & _ & Hl)]|[? _]]]; [|done]. split; [done|]. intros _. exists d.
    split; [|done]. cbn in Hs. unfold is_target. by rewrite <- Hs. }
  clear Edone. eapply (triple_bind _ _ _ (fun file w => recoverable (files w) /\ loaded (files w) src file)).
  { destruct (_ || _) eqn:E.
    - eapply triple_bind.
      { eapply triple_conseq; [apply (reads_triple _ recoverable _ (fun fs => load_result fs src));
          intros fs _; by apply reads_load|by intros w [? _]|intros x w Hw; exact Hw]. }
      intros x. apply triple_return. intros w [Hrec Hl]. split; [done|by apply load_result_loaded].
    - apply orb_false_iff in E as [_ E%negb_false_iff%bool_decide_eq_true]. apply triple_return.
      intros w [Hrec Hl]. split; [done|]. rewrite E in Hl. by apply (load_result_loaded _ _ (r, file)). }
  clear r file. intros file. eapply triple_bind; [apply triple_lift|]. intros [p|].
  - intros w (Hch & Hrec & Hl). destruct (choose_patch_ok _ _ _ _ _ Hl Hch) as (Hp & d & Hd & Hsrcd & Hsz & Hld).
    by apply (triple_generate_source (mkJob file (Some p) (no_data uninit (size uninit)) None src tgt t size_ bonus_data) p d Hsrcd
             eq_refl eq_refl (Himg' p Hp) eq_refl Hd p).
  - eapply triple_bind.
    { eapply triple_conseq; [apply (reads_triple _ recoverable _ (fun fs => load_result fs CACHE_TEMP_SOURCE));
        intros fs _; by apply reads_load|by intros w (_ & ? & _)|intros x w Hw; exact Hw]. }
    intros [r copy]. destruct (r <? 0); [apply Hfail; [done|by intros w [? _]]|].
    eapply triple_bind; [apply triple_lift|]. intros [p|]; [|apply Hfail; [done|by intros w (_ & ? & _)]].
    intros w (Hch & Hrec & Hl%load_result_loaded).
    destruct (choose_patch_ok _ _ _ _ _ Hl Hch) as (Hp & d & Hd & Hsrcd & Hsz & Hld).
    by apply (triple_generate_copy (mkJob (no_data file (size file))
      None copy (Some p) src tgt t size_ bonus_data) p d Hsrcd eq_refl eq_refl (Himg' p Hp) eq_refl Hd).
Qed.

(** ** A run in which nothing fails *)

Definition file_ok (fs : FS) (path : bytes) : Prop :=
  forall f, fs !! path = Some f -> bytes_ok (content f) /\ len (content f) < 2 ^ 31.

Lemma load_runs path file0 w : answers w = [] -> is_partition_name path = false -> file_ok (files w) path ->
  exists x, LoadFileContents SHA path file0 true w = (Ret x, w) /\ load_result (files w) path x.
Proof.
  intros Ha Hp Hok. assert (exists x, LoadFileContents SHA path file0 true w = (Ret x, w)) as [x Hx].
  { unfold LoadFileContents, sys_stat, sys_read_file, bind, ask, get_files, ret, lift. rewrite Hp, Ha. cbn [negb Z.eqb].
    destruct (files w !! path) as [f|] eqn:Ef; [|by eexists]. rewrite Ha. cbn [option_map].
    rewrite ?Ef. cbn [option_map negb Z.eqb].
    destruct (Hok f Ef) as [Hb Hl]. destruct (retouch_mask_returns (content f) (Some 0) Hb Hl)
      as (r & d' & off & -> & _). cbn [fst snd]. destruct (r =? RETOUCH_DATA_MATCHED); by eexists. }
  exists x. split; [done|]. destruct (reads_load (files w) path file0 Hp w eq_refl) as (_ & _ & Hres). apply Hres.
  by rewrite Hx.
Qed.
Lemma load_good path file0 d w : answers w = [] -> is_partition_name path = false -> loads (files w) path d ->
  exists file, LoadFileContents SHA path file0 true w = (Ret (0, file), w) /\ data file = Some d /\
    sha1 file = SHA_hash SHA d /\ size file = len d.
Proof.
  intros Ha Hp (f & off & Hf & Hm). eexists.
  unfold LoadFileContents, sys_stat, sys_read_file, bind, ask, get_files, ret, lift. rewrite Hp, Ha. cbn [negb Z.eqb].
  rewrite Hf, Ha. cbn [option_map]. rewrite ?Hf. cbn [option_map negb Z.eqb]. rewrite Hm. cbn [fst snd].
  rewrite Z.eqb_refl. split; [done|]. cbn. by rewrite (retouch_mask_len _ _ _ _ _ Hm).
Qed.

Lemma FileSink_runs path d w : answers w = [] -> is_Some (files w !! path) ->
  exists w', FileSink path d w = (len d, w') /\ answers w' = [] /\ is_Some (files w' !! path).
Proof.
  intros Ha Hf. unfold FileSink. destruct d as [|b d]; [by exists w|].
  cbn [length FileSink_loop]. rewrite (proj2 (Z.ltb_lt 0 _)) by (rewrite len_cons; pose proof (len_nonneg d); lia).
  rewrite Z.sub_0_r, slice_all. unfold bind, sys_write, bind, ask. rewrite Ha. cbn [Z.ltb Z.eqb Z.compare].
  unfold change, ret. cbn [answers files].
  rewrite (proj2 (Z.leb_gt (len (b :: d)) 0)) by (rewrite len_cons; pose proof (len_nonneg d); lia).
  eexists. split; [|split].
  - destruct (length d); cbn [FileSink_loop]; rewrite Z.add_0_l, Z.ltb_irrefl; reflexivity.
  - done.
  - cbn. unfold append_to. rewrite lookup_alter_eq. destruct Hf as [f ->]. by eexists.
Qed.

Lemma change_runs path f w : answers w = [] -> is_Some (files w !! path) ->
  sys_change path f w = (Ret 0, mkWorld (f (files w)) [] (history w ++ [f (files w)])).
Proof.
  intros Ha [g Hg]. unfold sys_change, bind, ask, get_files, change, ret. rewrite Ha. cbn. rewrite Hg, Ha. done.
Qed.

(** The patches do their work: the one selected for source data is a bsdiff blob that
    produces the target. *)
Definition patches_right (pdata : list Value) : Prop := forall d, is_source d ->
  exists p nd, pdata !! Z.to_nat (FindMatchingPatch (SHA_hash SHA d) psha) = Some p /\ vtype p = VAL_BLOB /\
    has_magic p bsdiff_magic = true /\
    ApplyBSDiffPatchMem malloc fuel (mkOld d 0 (len d)) p 0 = Ret (0, nd) /\ is_target nd.

Lemma apply_round_runs j p d nd w : answers w = [] -> target_filename j = tgt ->
  patch_to_use j = Some p -> data (source_to_use j) = Some d -> size (source_to_use j) = len d ->
  vtype p = VAL_BLOB -> has_magic p bsdiff_magic = true ->
  ApplyBSDiffPatchMem malloc fuel (mkOld d 0 (len d)) p 0 = Ret (0, nd) ->
  exists w', apply_round SHA malloc fuel j 1 false w =
      (Ret (Done (OutFile out) (hash_update hash_init nd) false), w') /\
    answers w' = [] /\ is_Some (files w' !! out).
Proof.
  intros Ha Ht Hp Hd Hsz Hblob Hmagic Happly. unfold apply_round, outname. rewrite Hp, Hd, Ht, Htgt, Hblob.
  cbn [negb Z.eqb Pos.eqb VAL_BLOB]. unfold sys_create, bind, ask, change, ret. rewrite Ha. cbn [negb Z.eqb].
  set (w1 := mkWorld _ _ _). destruct (FileSink_runs out nd w1) as (w2 & E2 & Ha2 & Hf2);
    [done|unfold w1; cbn; rewrite lookup_insert_eq; by eexists|].
  exists w2. split; [|done]. unfold apply_to_sink. rewrite Hmagic, Hsz. unfold ApplyBSDiffPatch. rewrite Happly.
  cbn [mbind outcome_bind negb Z.eqb]. rewrite E2, Z.ltb_irrefl. cbn [mbind outcome_bind].
  unfold after_apply. cbn [negb Z.eqb]. done.
Qed.

Lemma finish_runs j d w : answers w = [] -> target_filename j = tgt -> target_sha1 j = t -> is_target d ->
  is_Some (files w !! out) ->
  (finish SHA fuel store j (OutFile out) (hash_update hash_init d) false w).1 = Ret 0.
Proof.
  intros Ha Ht Hsha Hd Hf. unfold finish. rewrite Hsha, Ht, bool_decide_true by done. cbn [negb].
  assert (forall g (fs : FS), is_Some (fs !! out) -> is_Some (alter g out fs !! out)) as Halt.
  { intros g fs [f Hf']. rewrite lookup_alter_eq, Hf'. by eexists. }
  unfold bind at 1, bind at 1. unfold sys_chmod. rewrite change_runs by done. cbn [negb Z.eqb].
  unfold bind at 1. unfold sys_chown. rewrite change_runs by (cbn; auto). cbn [negb Z.eqb].
  unfold bind at 1. unfold sys_rename. rewrite change_runs by (cbn; auto). done.
Qed.

Lemma generate_runs j p d nd w : answers w = [] -> target_filename j = tgt -> target_sha1 j = t ->
  patch_to_use j = Some p -> data (source_to_use j) = Some d -> size (source_to_use j) = len d ->
  vtype p = VAL_BLOB -> has_magic p bsdiff_magic = true ->
  ApplyBSDiffPatchMem malloc fuel (mkOld d 0 (len d)) p 0 = Ret (0, nd) -> is_target nd ->
  (GenerateTarget SHA malloc fuel readdir open_links store j w).1 = Ret 0.
Proof.
  intros Ha Ht Hsha Hp Hd Hsz Hblob Hmagic Happly Hnd. unfold GenerateTarget, round.
  assert (make_room readdir open_links j 1 false w = (Ret (Some (false, 1)), w)) as Hroom.
  { unfold make_room. rewrite Ht, Htgt. change (0 <? 1) with true. cbn iota.
    unfold bind, FreeSpaceForFile, bind, ask, ret. rewrite Ha.
    cbn [Z.ltb Z.eqb Z.compare]. pose proof (u32_range (target_size j * 3)).
    rewrite (proj2 (Z.ltb_lt (u32 _ / 2) _)) by (apply Z.div_lt_upper_bound; lia). done. }
  unfold bind at 1, bind at 1. rewrite Hroom.
  destruct (apply_round_runs j p d nd w) as (w' & -> & Ha' & Hf); try done.
  by apply finish_runs.
Qed.

(** From every recoverable state a run in which no system call fails completes the update. *)
Lemma applypatch_runs tsha target size_ pdata bonus_data w :
  (if bool_decide (target = str "-") then src else target) = tgt -> ParseSha1 tsha = Some t ->
  patches_right pdata -> answers w = [] -> recoverable (files w) ->
  file_ok (files w) src -> file_ok (files w) tgt ->
  (applypatch SHA malloc fuel readdir open_links store uninit src target tsha size_ psha pdata bonus_data w).1 = Ret 0.
Proof.
  intros Htarget Hsha Hright Ha Hrec Hoks Hokt. unfold applypatch. rewrite Htarget, Hsha.
  destruct (load_runs tgt uninit w Ha Htgt Hokt) as ([r file] & Hlt & Hrt).
  unfold bind at 1. rewrite Hlt. destruct ((r =? 0) && bool_decide (sha1 file = t)) eqn:Edone; [done|].
  destruct Hrec as [(d & Hd & Hwhere)|(d & Hd & Hl)].
  2: { destruct (load_good tgt uninit d w Ha Htgt Hl) as (f & E & _ & Es & _). rewrite E in Hlt.
       injection Hlt as <- <-. rewrite Es, bool_decide_true in Edone by done. done. }
  unfold bind at 1.
  match goal with |- context [match ?m w with _ => _ end] =>
    assert (exists file, m w = (Ret file, w) /\ loaded (files w) src file /\
      (loads (files w) src d -> data file = Some d)) as (file' & -> & Hl & Hdata) end.
  { assert (forall file0 r' file', LoadFileContents SHA src file0 true w = (Ret (r', file'), w) ->
      load_result (files w) src (r', file') -> loaded (files w) src file' /\
      (loads (files w) src d -> data file' = Some d)) as Hsrc_load.
    { intros file0 r' file' Hls Hrs. split; [by apply (load_result_loaded _ _ (r', file'))|].
      intros Hsd. destruct (load_good src file0 d w Ha Hsrc Hsd) as (f & E & Ed & _). rewrite E in Hls.
      by injection Hls as <- <-. }
    destruct (_ || _) eqn:E.
    - destruct (load_runs src file w Ha Hsrc Hoks) as ([r' file'] & Hls & Hrs).
      exists file'. unfold bind. rewrite Hls. split; [done|]. by eapply Hsrc_load.
    - apply orb_false_iff in E as [_ E%negb_false_iff%bool_decide_eq_true]. rewrite E in Hlt, Hrt.
      exists file. split; [done|]. by eapply Hsrc_load. }
  clear Edone Hlt Hrt. unfold bind at 1, lift at 1.
  assert ((exists d', data file' = Some d' /\ is_source d') \/ ~ (exists d', data file' = Some d' /\ is_source d'))
    as [(d' & Hd' & Hsrc')|Hbad].
  { destruct (data file') as [d'|]; [|by right; intros (? & ? & _)].
    destruct (decide (0 <= FindMatchingPatch (SHA_hash SHA d') psha)) as [Hs|Hs]; [left; by exists d'|right].
    intros (? & [= <-] & ?). done. }
  - destruct (Hright d' Hsrc') as (p & nd & Hp & Hblob & Hmagic & Happly & Hnd).
    destruct (Hl d' Hd') as (Hs & Hsz & _). unfold choose_patch. rewrite Hd', Hs.
    rewrite (proj2 (Z.leb_le _ _)) by exact Hsrc'. rewrite Hp.
    by apply (generate_runs _ p d' nd).
  - assert (choose_patch file' psha pdata = Ret None) as ->.
    { unfold choose_patch. destruct (data file') as [d'|] eqn:Ed'; [|done].
      destruct (Hl d' Ed') as (-> & _). destruct (Z.leb_spec 0 (FindMatchingPatch (SHA_hash SHA d') psha)); [|done].
      destruct Hbad. by exists d'. }
    destruct Hwhere as [Hw|Hw]; [destruct Hbad; exists d; auto|].
    destruct (load_good CACHE_TEMP_SOURCE uninit d w Ha eq_refl Hw) as (copy & Hlc & Hcd & Hcs & Hcz).
    unfold bind at 1. rewrite Hlc. cbn [Z.ltb Z.compare].
    destruct (Hright d Hd) as (p & nd & Hp & Hblob & Hmagic & Happly & Hnd).
    unfold bind at 1, lift. unfold choose_patch. rewrite Hcd, Hcs.
    rewrite (proj2 (Z.leb_le _ _)) by exact Hd. rewrite Hp.
    by apply (generate_runs _ p d nd).
Qed.
End resume.

(** ** Properties *)

(** A job on plain files: source and target are not partitions, the source is not among
    the files that may be deleted to make room, the three names that are written are
    different files, and the release data are stored without retouching. *)
Record plain_job (SHA : HashOps) `{RsaOps} (src tgt : bytes) (psha : list bytes) (t : bytes) : Prop := {
  pj_src : is_partition_name src = false;
  pj_tgt : is_partition_name tgt = false;
  pj_expendable : ~ expendable src;
  pj_src_copy : src <> CACHE_TEMP_SOURCE;
  pj_tgt_copy : tgt <> CACHE_TEMP_SOURCE;
  pj_out_src : tgt ++ str ".patch" <> src;
  pj_out_copy : tgt ++ str ".patch" <> CACHE_TEMP_SOURCE;
  pj_stable d : is_source SHA psha d \/ is_target SHA t d ->
    exists off, retouch_mask_data d (Some 0) = Ret (RETOUCH_DATA_MATCHED, d, off) }.

(** The name that the target argument stands for. *)
Abbreviation the_target src target := (if bool_decide (target = str "-") then src else target).

(** A job on one file of twenty bytes, each of which is to be incremented; the digest
    is the content.  There is not enough room on the file system of the target, so the
    source is saved to /cache and deleted; then writing the output fails. *)
Definition demo_file : bytes := str "/system/a".
Definition demo_new : bytes := (fun b => u8 (b + 1)) <$> demo_data.
Definition demo_bsdiff : Value :=
  blob (bsdiff_header 24 20 20 ++ enc_ctrls [(20, 0, 0)] ++ replicate 20 1).
Definition demo_uninit : FileContents := mkContents [] None 0 0 0 0.
Definition demo_start : World :=
  mkWorld (<[demo_file := mkFile demo_data 0x1a4 0 0]> ∅) [0; 0; 1000; 0; 0; 0; 0; 0; 0; 0; 0; -1] [].
Definition demo_run : World -> outcome Z * World :=
  applypatch plain_hash (H:=demo_sizes) (H0:=no_mtd) malloc_ok 100 (fun _ _ => None) (fun _ => Some [])
    (fun _ b => b) demo_uninit demo_file (str "-") (hex demo_new) 20 [demo_hex] [demo_bsdiff] None.
Definition demo_after : World := (demo_run demo_start).2.

Section theorems.
Context (SHA : HashOps) `{RsaOps} `{MtdOps} `{BzOps} `{ZlibOps}.
Context (malloc : Z -> option bytes) (fuel : nat).
Context (readdir : FS -> bytes -> option (list bytes)) (open_links : FS -> option (list bytes)).
Context (store : World -> bytes -> bytes) (uninit : FileContents).
Context (src target tsha : bytes) (size_ : Z) (psha : list bytes) (pdata : list Value) (bonus_data : option Value).
Context (t : bytes) (Ht : ParseSha1 tsha = Some t).
Abbreviation tgt := (the_target src target).
Context (Hjob : plain_job SHA src tgt psha t).
Abbreviation run := (applypatch SHA malloc fuel readdir open_links store uninit src target tsha size_ psha pdata bonus_data).

Lemma applypatch_safe_lemma w : Forall (fun p => has_magic p imgdiff_magic = false) pdata ->
  recoverable SHA src tgt psha t (files w) ->
  (exists hs, history (run w).2 = history w ++ hs /\ Forall (recoverable SHA src tgt psha t) hs) /\
  (forall r, (run w).1 = Ret r -> recoverable SHA src tgt psha t (files (run w).2) /\
     (r = 0 -> patched SHA tgt t (files (run w).2))).
Proof.
  intros Himg Hrec. destruct Hjob.
  destruct (triple_applypatch SHA malloc fuel readdir open_links store uninit src tgt psha t pj_src0 pj_tgt0 pj_expendable0
    pj_src_copy0 pj_tgt_copy0 pj_out_src0 pj_out_copy0 pj_stable0 tsha target size_ pdata bonus_data eq_refl Ht Himg w Hrec)
    as [K1 K2]. split; [exact K2|exact K1].
Qed.


(** Claim C1.  [applypatch] is safe against failure and interruption: when a plain file is
    patched with bsdiff patches, then in every state that it goes through, whatever the
    system calls answer, the source data are in the source file or in the copy saved on
    /cache, or the target file is in place; and it returns 0 only when the target file
    is in place. *)
Theorem applypatch_crash_safe w (Himg : Forall (fun p => has_magic p imgdiff_magic = false) pdata)
    (Hrec : recoverable SHA src tgt psha t (files w)) :
  (exists hs, history (run w).2 = history w ++ hs /\ Forall (recoverable SHA src tgt psha t) hs) /\
  (forall r, (run w).1 = Ret r -> recoverable SHA src tgt psha t (files (run w).2) /\
     (r = 0 -> patched SHA tgt t (files (run w).2))).
Proof. by apply applypatch_safe_lemma. Qed.



End theorems.

(** ** The properties at work *)

Lemma demo_source d : is_source plain_hash (H:=demo_sizes) [demo_hex] d -> d = demo_data.
Proof.
  unfold is_source, FindMatchingPatch, find_patch. case_bool_decide as E; [|lia]. intros _.
  vm_compute in E. by injection E.
Qed.
Lemma demo_job : plain_job plain_hash (H:=demo_sizes) demo_file demo_file [demo_hex] demo_new.
Proof.
  split.
  1, 2, 4, 5, 6, 7: by vm_compute.
  - intros [_ (dir & name & Hd & E)]. revert E. unfold deletable_dirs in Hd.
    repeat (apply elem_of_cons in Hd as [->|Hd]); [by vm_compute..|by apply not_elem_of_nil in Hd].
  - intros d [->%demo_source|Hd]; [exists 0; by vm_compute|]. unfold is_target in Hd.
    change (SHA_hash plain_hash d) with d in Hd. subst d. exists 0. by vm_compute.
Qed.
Lemma demo_recoverable :
  recoverable plain_hash (H:=demo_sizes) demo_file demo_file [demo_hex] demo_new (files demo_start).
Proof.
  left. exists demo_data. split; [by vm_compute|]. left. exists (mkFile demo_data 0x1a4 0 0), 0.
  split; by vm_compute.
Qed.
Lemma demo_right : patches_right plain_hash (H:=demo_sizes) malloc_ok 100 [demo_hex] demo_new [demo_bsdiff].
Proof.
  intros d ->%demo_source. exists demo_bsdiff, demo_new. split_and!; by vm_compute.
Qed.
Lemma demo_bsdiff_only : Forall (fun p => has_magic p imgdiff_magic = false) [demo_bsdiff].
Proof. repeat constructor. Qed.

(** The state after the source has been deleted. *)
Definition demo_interrupted : FS := <[CACHE_TEMP_SOURCE := mkFile demo_data 0x1a4 0 0]> ∅.

Lemma applypatch_crash_safe_witness :
  (demo_run demo_start).1 = Ret 1 /\ length (history demo_after) = 6%nat /\
  Forall (recoverable plain_hash (H:=demo_sizes) demo_file demo_file [demo_hex] demo_new) (history demo_after).
Proof.
  split; [by vm_compute|]. split; [by vm_compute|].
  destruct (applypatch_crash_safe (H:=demo_sizes) (H0:=no_mtd) plain_hash malloc_ok 100 (fun _ _ => None)
    (fun _ => Some []) (fun _ b => b) demo_uninit demo_file (str "-") (hex demo_new) 20 [demo_hex] [demo_bsdiff] None demo_new
    ltac:(by vm_compute) demo_job demo_start demo_bsdiff_only demo_recoverable) as [(hs & E & Hall) _].
  unfold demo_after, demo_run. rewrite E. exact Hall.
Defined.
Lemma demo_file_ok : file_ok demo_interrupted demo_file.
Proof. intros f E. vm_compute in E. done. Qed.
Definition demo_resumed : World := (demo_run (mkWorld demo_interrupted [] [])).2.
Lemma demo_interrupted_recoverable :
  recoverable plain_hash (H:=demo_sizes) demo_file demo_file [demo_hex] demo_new demo_interrupted.
Proof.
  left. exists demo_data. split; [by vm_compute|]. right. exists (mkFile demo_data 0x1a4 0 0), 0.
  split; by vm_compute.
Qed.

(** ** A partition as the target *)

(** The device file_holds a part of the new data, the saved copy the source. *)
Definition demo_half_written : World :=
  mkWorld (<[str "/dev/p" := mkFile (take 7 demo_new ++ drop 7 demo_data) 0 0 0]> demo_interrupted) [] [].
Definition demo_partition : bytes := str "EMMC:/dev/p:20:" ++ demo_hex.
Definition demo_partition_run : outcome Z * World :=
  applypatch plain_hash (H:=demo_sizes) (H0:=no_mtd) malloc_ok 100 (fun _ _ => None) (fun _ => Some [])
    (fun _ b => b) demo_uninit demo_partition (str "-") (hex demo_new) 20 [demo_hex] [demo_bsdiff] None demo_half_written.

